(** * Genealogical graph consistency engine: persons.service.ts

    A shallow embedding of the person service of the family-tree backend
    (src/persons/persons.service.ts, together with person.entity.ts and the
    DTOs under src/persons/dtos/), the properties its specification
    states about it, and further properties of its methods.

    The service embedded is the one with [wouldCreateAncestryCycle],
    [validateChildren], [linkChildrenToParent] and [validateNotOrphan]; it
    reads and writes one table of persons and does not filter by tree, so a
    store stands for the persons of one tenant.

    Conventions of the embedding.
    - The [persons] table is a list of rows in insertion order plus the
      auto-increment counter of its primary key.
    - JavaScript numbers that hold identifiers and years are integers ([Z]);
      a number that may be [NaN] is an [option Z] with [None] for [NaN].
      Arithmetic on them is exact, as that of the code is on the safe
      integers ([Js.isSafeInteger]); statements that compare years read
      off date strings are made for years in that range.
    - A string is a sequence of bytes, and stands for the JavaScript string
      with these char codes; the primitives are modelled on ASCII strings
      ([Js.isAscii]), and a statement that relies on a string not being
      read as a number assumes that the string is ASCII.
    - An optional DTO property is an [option]; a property typed
      [number | null] that may also be missing is a [Nullable].
    - Exceptions are values of [Error]; a service method returns its
      outcome together with the store it leaves behind.
    - Validation only reads the store: each validator takes the store and
      returns a [result]; a method first runs its validators and then
      writes.
    - The methods come twice: as they run when the repository accepts
      every write ([create], [updatePerson], ...), and as they run when it
      may reject one ([Faulty.create], ...); [promoteAncestor], whose
      transaction is there for the rejected call, has the second form
      only. *)

From Stdlib Require Import ZArith List String Ascii Bool Lia Relations.
Import ListNotations.
Open Scope Z_scope.

(** ** JavaScript primitives used by the service *)

Module Js.

(** [s.split(sep)] for a one-character separator: never the empty list. *)
Fixpoint split (sep : ascii) (s : string) : list string :=
  match s with
  | EmptyString => [EmptyString]
  | String c rest =>
      if Ascii.eqb c sep then EmptyString :: split sep rest
      else match split sep rest with
           | [] => [String c EmptyString]
           | hd :: tl => String c hd :: tl
           end
  end.

(** [Number.MAX_SAFE_INTEGER], and [Number.isSafeInteger] on an integer:
    the range in which every integer is a Number of its own, and in which
    the sums and differences the service forms ([y + 1], [y - 1], [y1 - y2]
    compared with 14) compare as the exact ones do. *)
Definition maxSafeInteger : Z := 9007199254740991.

Definition isSafeInteger (n : Z) : bool :=
  (- maxSafeInteger <=? n) && (n <=? maxSafeInteger).

(** Every char code of the string is below 128. *)
Fixpoint isAscii (s : string) : bool :=
  match s with
  | EmptyString => true
  | String c rest => (Z.of_nat (nat_of_ascii c) <? 128) && isAscii rest
  end.

(** White space skipped by [parseInt]: the ASCII part of StrWhiteSpaceChar.
    The code also skips the white space beyond ASCII (no-break space, byte
    order mark, line and paragraph separator, the space separators of
    Unicode); on an ASCII string the two agree. *)
Definition isWhiteSpace (c : ascii) : bool :=
  let n := Z.of_nat (nat_of_ascii c) in
  ((9 <=? n) && (n <=? 13)) || (n =? 32).

Definition digitOf (c : ascii) : option Z :=
  let n := Z.of_nat (nat_of_ascii c) in
  if (48 <=? n) && (n <=? 57) then Some (n - 48) else None.

Fixpoint skipWhiteSpace (s : string) : string :=
  match s with
  | String c rest => if isWhiteSpace c then skipWhiteSpace rest else s
  | EmptyString => s
  end.

(** The longest prefix of decimal digits, read as a number; [acc] is [None]
    until the first digit has been seen. *)
Fixpoint digits (acc : option Z) (s : string) : option Z :=
  match s with
  | String c rest =>
      match digitOf c with
      | Some d =>
          digits (Some (10 * match acc with Some a => a | None => 0 end + d)) rest
      | None => acc
      end
  | EmptyString => acc
  end.

(** [parseInt(s, 10)]; [None] is [NaN].  The value is the exact integer the
    digits denote, which is the Number the code gets when that integer is
    safe ([isSafeInteger]); beyond, the code's Number is the nearest double,
    which the embedding does not follow. *)
Definition parseInt (s : string) : option Z :=
  match skipWhiteSpace s with
  | String "-" rest => option_map Z.opp (digits None rest)
  | String "+" rest => digits None rest
  | t => digits None t
  end.

(** Truthiness of a string, of a number, and of optional values. *)
Definition truthyString (s : string) : bool :=
  match s with EmptyString => false | _ => true end.

Definition truthyOptString (o : option string) : bool :=
  match o with Some s => truthyString s | None => false end.

Definition truthyNumber (n : Z) : bool := negb (n =? 0).

Definition truthyOptNumber (o : option Z) : bool :=
  match o with Some n => truthyNumber n | None => false end.

(** Relational operators on numbers that may be [NaN]: any comparison with
    [NaN] is false. *)
Definition lt (a b : option Z) : bool :=
  match a, b with Some x, Some y => x <? y | _, _ => false end.
Definition gt (a b : option Z) : bool := lt b a.
Definition ge (a b : option Z) : bool :=
  match a, b with Some x, Some y => y <=? x | _, _ => false end.
Definition add (a b : option Z) : option Z :=
  match a, b with Some x, Some y => Some (x + y) | _, _ => None end.
Definition sub (a b : option Z) : option Z :=
  match a, b with Some x, Some y => Some (x - y) | _, _ => None end.

(** A property typed [T | null] that may also be missing from the object. *)
Inductive Nullable (A : Type) : Type :=
| Undefined : Nullable A
| Null : Nullable A
| Val : A -> Nullable A.
Arguments Undefined {A}.
Arguments Null {A}.
Arguments Val {A} _.

(** The value as seen by a reader that does not tell [null] from
    [undefined] (truthiness tests, [!= null], [??]). *)
Definition toOption {A} (v : Nullable A) : option A :=
  match v with Val a => Some a | _ => None end.

(** [a ?? b]. *)
Definition nullish {A} (a : Nullable A) (b : option A) : option A :=
  match a with Val x => Some x | _ => b end.

Definition nullishOpt {A} (a b : option A) : option A :=
  match a with Some x => Some x | None => b end.

End Js.

(** ** The part of [Date] the temporal validator relies on

    [new Date(s)] is modelled for the date-only form [YYYY-MM-DD] of the
    ECMAScript date-time string format, which is the format person.entity.ts
    documents for [birthDate] and [deathDate]; such a string denotes midnight
    UTC.  As in V8 the day field may run up to 31 in any month and overflows
    into the following month.  Other spellings (a time-of-day part, expanded
    years, the formats of the legacy parser) are not modelled: the model
    answers [Invalid Date] ([None]) for them, and every statement about
    full-precision dates below assumes the [YYYY-MM-DD] form.  Local time is
    taken to be UTC. *)

Module JsDate.

Definition msPerDay : Z := 86400000.

Definition inLeapYear (y : Z) : bool :=
  ((y mod 4 =? 0) && negb (y mod 100 =? 0)) || (y mod 400 =? 0).

(** Day number of the first day of year [y] (ECMAScript DayFromYear). *)
Definition dayFromYear (y : Z) : Z :=
  365 * (y - 1970) + (y - 1969) / 4 - (y - 1901) / 100 + (y - 1601) / 400.

(** Days of the year before month [m] (0 = January). *)
Definition daysBeforeMonth (leap : bool) (m : Z) : Z :=
  let l := if leap then 1 else 0 in
  match m with
  | 0 => 0 | 1 => 31 | 2 => 59 + l | 3 => 90 + l | 4 => 120 + l
  | 5 => 151 + l | 6 => 181 + l | 7 => 212 + l | 8 => 243 + l
  | 9 => 273 + l | 10 => 304 + l | _ => 334 + l
  end.

(** ECMAScript MakeDay: the month may lie outside 0..11 and the date
    outside the month; both carry over. *)
Definition makeDay (y m d : Z) : Z :=
  let ym := y + m / 12 in
  let mn := m mod 12 in
  dayFromYear ym + daysBeforeMonth (inLeapYear ym) mn + d - 1.

(** Year, month (0-based) and date of a day number. *)
Definition civilFromDay (day : Z) : Z * Z * Z :=
  let z := day + 719468 in
  let era := z / 146097 in
  let doe := z - era * 146097 in
  let yoe := (doe - doe / 1460 + doe / 36524 - doe / 146096) / 365 in
  let doy := doe - (365 * yoe + yoe / 4 - yoe / 100) in
  let mp := (5 * doy + 2) / 153 in
  let d := doy - (153 * mp + 2) / 5 + 1 in
  let m := if mp <? 10 then mp + 3 else mp - 9 in
  let y := yoe + era * 400 + (if m <=? 2 then 1 else 0) in
  (y, m - 1, d).

Definition allDigits (s : string) : bool :=
  (fix go (t : string) : bool :=
     match t with
     | EmptyString => true
     | String c rest =>
         match Js.digitOf c with Some _ => go rest | None => false end
     end) s.

(** A field of exactly [n] decimal digits. *)
Definition field (n : nat) (s : string) : option Z :=
  if (Nat.eqb (String.length s) n) && allDigits s then Js.digits None s
  else None.

(** The calendar fields of a [YYYY-MM-DD] string. *)
Definition isoFields (s : string) : option (Z * Z * Z) :=
  match Js.split "-" s with
  | [ys; ms; ds] =>
      match field 4 ys, field 2 ms, field 2 ds with
      | Some y, Some m, Some d =>
          if (1 <=? m) && (m <=? 12) && (1 <=? d) && (d <=? 31)
          then Some (y, m, d) else None
      | _, _, _ => None
      end
  | _ => None
  end.

(** The time value of [new Date(s)]; [None] is [Invalid Date]. *)
Definition parse (s : string) : option Z :=
  match isoFields s with
  | Some (y, m, d) => Some (makeDay y (m - 1) d * msPerDay)
  | None => None
  end.

(** [d.setMonth(d.getMonth() + k)] on a time value. *)
Definition addMonths (k : Z) (t : option Z) : option Z :=
  match t with
  | Some tv =>
      let day := tv / msPerDay in
      let '(y, m, d) := civilFromDay day in
      Some (makeDay y (m + k) d * msPerDay + tv mod msPerDay)
  | None => None
  end.

End JsDate.


(** ** Data model (person.entity.ts and the DTOs) *)

Inductive Gender : Type := male | female.

Definition Gender_eqb (a b : Gender) : bool :=
  match a, b with
  | male, male | female, female => true
  | _, _ => false
  end.

(** The [Person] entity: a row of the table.  Nullable columns are options. *)
Record Person : Type := {
  id : Z;
  firstName : string;
  lastName : string;
  gender : Gender;
  birthDate : option string;
  deathDate : option string;
  trivia : option string;
  progenitor : bool;
  fatherId : option Z;
  motherId : option Z
}.

(** [CreatePersonDto]. *)
Module CreatePersonDto.
Record t : Type := {
  firstName : string;
  lastName : string;
  gender : Gender;
  progenitor : option bool;
  birthDate : option string;
  deathDate : option string;
  trivia : option string;
  fatherId : option Z;
  motherId : option Z;
  childrenIds : option (list Z)
}.
End CreatePersonDto.

(** [UpdatePersonDto]: no gender; the parent ids may be [null]. *)
Module UpdatePersonDto.
Record t : Type := {
  firstName : option string;
  lastName : option string;
  progenitor : option bool;
  birthDate : option string;
  deathDate : option string;
  trivia : option string;
  fatherId : Js.Nullable Z;
  motherId : Js.Nullable Z
}.
End UpdatePersonDto.

Inductive Relationship : Type := father | mother.

(** [PromoteAncestorDto]. *)
Module PromoteAncestorDto.
Record t : Type := {
  firstName : string;
  lastName : string;
  gender : Gender;
  birthDate : option string;
  deathDate : option string;
  trivia : option string;
  currentProgenitorId : Z;
  relationship : Relationship
}.
End PromoteAncestorDto.

(** The exceptions of the service, named after the error taxonomy of the
    specification.  [NotFound] is a [NotFoundException]; [StoreFailure] is a
    rejection raised by the storage layer; all others are
    [BadRequestException]s, told apart by their message:
    - [InvalidRole]: "... is not male and cannot be a father", "... is not
      female and cannot be a mother", "... cannot be a father/mother",
      "New father/mother must be ...";
    - [ImplausibleAge]: "... cannot be born in or after the same year as
      child", "... must be at least 14 years old when ... born";
    - [ImplausibleDeathWindow]: "... died ..., too early/before child was
      born", "... must be alive ...";
    - [CycleDetected]: "... it would create a cycle";
    - [DisconnectedPerson]: "A person must have at least one parent or child
      to be connected to the tree";
    - [IdentityMismatch]: "... is not the current progenitor";
    - [HasDependents]: "Cannot delete person ...";
    - [SelfParent]: "A person cannot be their own parent";
    - [GenderRequired], [ChildrenNotFound], [RoleOccupied],
      [ChildrenRequired], [DeathBeforeBirth]: the remaining messages of
      [validateChildren], [linkChildrenToParent] and
      [validateParentDatesForChildren]. *)
Inductive Error : Type :=
| NotFound
| InvalidRole
| ImplausibleAge
| ImplausibleDeathWindow
| CycleDetected
| DisconnectedPerson
| IdentityMismatch
| HasDependents
| SelfParent
| GenderRequired
| ChildrenNotFound
| RoleOccupied
| ChildrenRequired
| DeathBeforeBirth
| StoreFailure.

Inductive result (A : Type) : Type :=
| Ok : A -> result A
| Err : Error -> result A.
Arguments Ok {A} _.
Arguments Err {A} _.

Definition bind {A B} (r : result A) (k : A -> result B) : result B :=
  match r with
  | Ok a => k a
  | Err e => Err e
  end.

Notation "x <- c1 ;; c2" := (bind c1 (fun x => c2))
  (at level 61, c1 at next level, right associativity).
Notation "c1 ;; c2" := (bind c1 (fun _ => c2))
  (at level 61, right associativity).

(** [if (c) throw e]. *)
Definition throwIf (c : bool) (e : Error) : result unit :=
  if c then Err e else Ok tt.

(** [if (c) { body }]. *)
Definition when (c : bool) (body : result unit) : result unit :=
  if c then body else Ok tt.

(** ** The repository *)

Record Store : Type := {
  rows : list Person;
  nextId : Z
}.

Definition hasId (i : Z) (p : Person) : bool := id p =? i.

(** [findOneBy({ id })]. *)
Definition findOneById (s : Store) (i : Z) : option Person :=
  find (hasId i) (rows s).

(** [findBy(ids.map((id) => ({ id })))]: the rows whose id is listed. *)
Definition findByIds (s : Store) (ids : list Z) : list Person :=
  filter (fun p => existsb (Z.eqb (id p)) ids) (rows s).

(** [count()]. *)
Definition count (s : Store) : Z := Z.of_nat (List.length (rows s)).

(** [find({ where: [{ fatherId: i }, { motherId: i }] })]. *)
Definition isParentIdOf (i : Z) (o : option Z) : bool :=
  match o with Some j => j =? i | None => false end.

Definition findChildrenOf (s : Store) (i : Z) : list Person :=
  filter (fun p => isParentIdOf i (fatherId p) || isParentIdOf i (motherId p))
         (rows s).

(** [save] of a new entity: the primary key is generated. *)
Definition insert (s : Store) (mk : Z -> Person) : Person * Store :=
  let p := mk (nextId s) in
  (p, {| rows := rows s ++ [p]; nextId := nextId s + 1 |}).

(** [update(id, patch)]: the patch is applied to the rows with that id. *)
Definition update (s : Store) (i : Z) (patch : Person -> Person) : Store :=
  {| rows := map (fun p => if hasId i p then patch p else p) (rows s);
     nextId := nextId s |}.

(** [save] of a loaded entity: its row is overwritten. *)
Definition save (s : Store) (p : Person) : Store :=
  update s (id p) (fun _ => p).

(** [remove] of a loaded entity. *)
Definition remove (s : Store) (p : Person) : Store :=
  {| rows := filter (fun q => negb (hasId (id p) q)) (rows s);
     nextId := nextId s |}.

Definition setFatherId (v : option Z) (p : Person) : Person :=
  {| id := id p; firstName := firstName p; lastName := lastName p;
     gender := gender p; birthDate := birthDate p; deathDate := deathDate p;
     trivia := trivia p; progenitor := progenitor p;
     fatherId := v; motherId := motherId p |}.

Definition setMotherId (v : option Z) (p : Person) : Person :=
  {| id := id p; firstName := firstName p; lastName := lastName p;
     gender := gender p; birthDate := birthDate p; deathDate := deathDate p;
     trivia := trivia p; progenitor := progenitor p;
     fatherId := fatherId p; motherId := v |}.

Definition setProgenitor (v : bool) (p : Person) : Person :=
  {| id := id p; firstName := firstName p; lastName := lastName p;
     gender := gender p; birthDate := birthDate p; deathDate := deathDate p;
     trivia := trivia p; progenitor := v;
     fatherId := fatherId p; motherId := motherId p |}.

(** [child[parentField]] and [{ [parentField]: v }]. *)
Definition parentField (g : Gender) (p : Person) : option Z :=
  match g with male => fatherId p | female => motherId p end.

Definition setParentField (g : Gender) (v : option Z) (p : Person) : Person :=
  match g with male => setFatherId v p | female => setMotherId v p end.

(** [if (id)] on an optional identifier: the identifier when it is truthy. *)
Definition ifTruthy (o : option Z) : option Z :=
  match o with
  | Some n => if Js.truthyNumber n then Some n else None
  | None => None
  end.

(** [if (date)] on an optional string. *)
Definition ifTruthyString (o : option string) : option string :=
  match o with
  | Some s => if Js.truthyString s then Some s else None
  | None => None
  end.

(** ** Cycle detector (wouldCreateAncestryCycle) *)

Definition visitedHas (visited : list Z) (i : Z) : bool :=
  existsb (Z.eqb i) visited.

(** [if (parentId && !visited.has(parentId)) stack.push(parentId)]; the top
    of the stack is the head of the list. *)
Definition pushParent (visited : list Z) (o : option Z) (stack : list Z)
  : list Z :=
  match ifTruthy o with
  | Some i => if visitedHas visited i then stack else i :: stack
  | None => stack
  end.

(** The [while (stack.length > 0)] loop, one iteration per unit of fuel;
    [None] when the fuel runs out before the loop ends. *)
Fixpoint ancestryWalk (s : Store) (potentialAncestorId : Z) (fuel : nat)
         (visited stack : list Z) : option bool :=
  match fuel with
  | O => None
  | S fuel' =>
      match stack with
      | [] => Some false
      | currentId :: stack' =>
          if negb (Js.truthyNumber currentId)
          then ancestryWalk s potentialAncestorId fuel' visited stack'
          else if visitedHas visited currentId
          then ancestryWalk s potentialAncestorId fuel' visited stack'
          else
            let visited' := currentId :: visited in
            match findOneById s currentId with
            | None => ancestryWalk s potentialAncestorId fuel' visited' stack'
            | Some current =>
                if isParentIdOf potentialAncestorId (fatherId current)
                   || isParentIdOf potentialAncestorId (motherId current)
                then Some true
                else
                  ancestryWalk s potentialAncestorId fuel' visited'
                    (pushParent visited' (motherId current)
                       (pushParent visited' (fatherId current) stack'))
            end
      end
  end.

(** Iterations that always suffice: every row is expanded at most once and
    pushes at most two entries. *)
Definition walkFuel (s : Store) : nat := 2 * List.length (rows s) + 2.

(** [wouldCreateAncestryCycle(potentialAncestorId, startPersonId)]. *)
Definition wouldCreateAncestryCycle (s : Store)
           (potentialAncestorId startPersonId : Z) : bool :=
  match ancestryWalk s potentialAncestorId (walkFuel s) [] [startPersonId] with
  | Some b => b
  | None => false
  end.

(** ** Validators *)

(** [validateNotOrphan]: returns the DTO, which it may have flagged as
    progenitor. *)
Definition markProgenitor (dto : CreatePersonDto.t) : CreatePersonDto.t :=
  {| CreatePersonDto.firstName := CreatePersonDto.firstName dto;
     CreatePersonDto.lastName := CreatePersonDto.lastName dto;
     CreatePersonDto.gender := CreatePersonDto.gender dto;
     CreatePersonDto.progenitor := Some true;
     CreatePersonDto.birthDate := CreatePersonDto.birthDate dto;
     CreatePersonDto.deathDate := CreatePersonDto.deathDate dto;
     CreatePersonDto.trivia := CreatePersonDto.trivia dto;
     CreatePersonDto.fatherId := CreatePersonDto.fatherId dto;
     CreatePersonDto.motherId := CreatePersonDto.motherId dto;
     CreatePersonDto.childrenIds := CreatePersonDto.childrenIds dto |}.

Definition hasParent (dto : CreatePersonDto.t) : bool :=
  Js.truthyOptNumber (CreatePersonDto.fatherId dto)
  || Js.truthyOptNumber (CreatePersonDto.motherId dto).

Definition hasChildren (dto : CreatePersonDto.t) : bool :=
  match CreatePersonDto.childrenIds dto with
  | Some ids => (0 <? List.length ids)%nat
  | None => false
  end.

Definition truthyFlag (o : option bool) : bool :=
  match o with Some b => b | None => false end.

Definition validateNotOrphan (s : Store) (dto : CreatePersonDto.t)
  : result CreatePersonDto.t :=
  if hasParent dto || hasChildren dto then Ok dto
  else if truthyFlag (CreatePersonDto.progenitor dto) then Ok dto
  else if count s =? 0 then Ok (markProgenitor dto)
  else Err DisconnectedPerson.

(** [validateParents]. *)
Definition validateParents (s : Store) (fatherId motherId : option Z)
  : result unit :=
  match ifTruthy fatherId with
  | Some f =>
      match findOneById s f with
      | None => Err NotFound
      | Some fatherRow =>
          throwIf (negb (Gender_eqb (gender fatherRow) male)) InvalidRole
      end
  | None => Ok tt
  end ;;
  match ifTruthy motherId with
  | Some m =>
      match findOneById s m with
      | None => Err NotFound
      | Some motherRow =>
          throwIf (negb (Gender_eqb (gender motherRow) female)) InvalidRole
      end
  | None => Ok tt
  end.

(** Helpers for partial dates. *)
Definition extractYear (dateString : string) : option Z :=
  Js.parseInt (hd EmptyString (Js.split "-" dateString)).

Definition isFullDate (dateString : string) : bool :=
  Nat.eqb (List.length (Js.split "-" dateString)) 3.

Definition isYearOnly (dateString : string) : bool :=
  Nat.eqb (List.length (Js.split "-" dateString)) 1.

Definition minParentAge : Z := 14.

(** [validateParentDates], the block [if (parent && parent.birthDate)]: the
    same code for the father (lines 752-771) and for the mother (lines
    815-833) up to the wording of the messages. *)
Definition parentBirthCheck (childBirthDate : string) (parent : Person)
  : result unit :=
  let childBirthYear := extractYear childBirthDate in
  match ifTruthyString (birthDate parent) with
  | Some parentBirthDate =>
      let parentBirthYear := extractYear parentBirthDate in
      throwIf (Js.ge parentBirthYear childBirthYear) ImplausibleAge ;;
      let yearsDiff := Js.sub childBirthYear parentBirthYear in
      throwIf (Js.lt yearsDiff (Some minParentAge)) ImplausibleAge
  | None => Ok tt
  end.

(** [validateParentDates], the block [if (father && father.deathDate)]. *)
Definition fatherDeathCheck (childBirthDate : string) (fatherRow : Person)
  : result unit :=
  let childBirthYear := extractYear childBirthDate in
  match ifTruthyString (deathDate fatherRow) with
  | Some fatherDeathDate =>
      let fatherDeathYear := extractYear fatherDeathDate in
      if isYearOnly fatherDeathDate then
        throwIf (Js.gt childBirthYear (Js.add fatherDeathYear (Some 1)))
                ImplausibleDeathWindow
      else if isFullDate fatherDeathDate && isFullDate childBirthDate then
        let fatherDeath := JsDate.parse fatherDeathDate in
        let childBirth := JsDate.parse childBirthDate in
        let nineMonthsAfterDeath := JsDate.addMonths 9 fatherDeath in
        throwIf (Js.gt childBirth nineMonthsAfterDeath) ImplausibleDeathWindow
      else
        throwIf (Js.gt childBirthYear (Js.add fatherDeathYear (Some 1)))
                ImplausibleDeathWindow
  | None => Ok tt
  end.

(** [validateParentDates], the block [if (mother && mother.deathDate)]. *)
Definition motherDeathCheck (childBirthDate : string) (motherRow : Person)
  : result unit :=
  let childBirthYear := extractYear childBirthDate in
  match ifTruthyString (deathDate motherRow) with
  | Some motherDeathDate =>
      let motherDeathYear := extractYear motherDeathDate in
      if isYearOnly motherDeathDate then
        throwIf (Js.gt childBirthYear motherDeathYear) ImplausibleDeathWindow
      else if isFullDate motherDeathDate && isFullDate childBirthDate then
        let motherDeath := JsDate.parse motherDeathDate in
        let childBirth := JsDate.parse childBirthDate in
        throwIf (Js.lt motherDeath childBirth) ImplausibleDeathWindow
      else
        throwIf (Js.gt childBirthYear motherDeathYear) ImplausibleDeathWindow
  | None => Ok tt
  end.

(** The father half and the mother half of [validateParentDates]. *)
Definition fatherDatesCheck (s : Store) (childBirthDate : string)
           (fatherId : option Z) : result unit :=
  match ifTruthy fatherId with
  | Some f =>
      match findOneById s f with
      | Some fatherRow =>
          parentBirthCheck childBirthDate fatherRow ;;
          fatherDeathCheck childBirthDate fatherRow
      | None => Ok tt
      end
  | None => Ok tt
  end.

Definition motherDatesCheck (s : Store) (childBirthDate : string)
           (motherId : option Z) : result unit :=
  match ifTruthy motherId with
  | Some m =>
      match findOneById s m with
      | Some motherRow =>
          parentBirthCheck childBirthDate motherRow ;;
          motherDeathCheck childBirthDate motherRow
      | None => Ok tt
      end
  | None => Ok tt
  end.

(** [validateParentDates]. *)
Definition validateParentDates (s : Store) (childBirthDate : option string)
           (fatherId motherId : option Z) : result unit :=
  match ifTruthyString childBirthDate with
  | None => Ok tt
  | Some cb =>
      fatherDatesCheck s cb fatherId ;;
      motherDatesCheck s cb motherId
  end.

(** [for (const x of xs) { body }] with an exception leaving the loop. *)
Fixpoint forEach {A} (body : A -> result unit) (xs : list A) : result unit :=
  match xs with
  | [] => Ok tt
  | x :: rest => body x ;; forEach body rest
  end.

(** [validateParentDatesForChildren]. *)
Definition validateParentDatesForChildren (children : list Person)
           (parentGender : Gender) (parentBirthDate parentDeathDate : option string)
  : result unit :=
  match ifTruthyString parentBirthDate, ifTruthyString parentDeathDate with
  | Some pb, Some pd =>
      throwIf (Js.lt (extractYear pd) (extractYear pb)) DeathBeforeBirth
  | _, _ => Ok tt
  end ;;
  match ifTruthyString parentBirthDate with
  | None => Ok tt
  | Some pb =>
      let parentBirthYear := extractYear pb in
      let parentDeathYear :=
        match ifTruthyString parentDeathDate with
        | Some pd => ifTruthy (extractYear pd)
        | None => None
        end in
      forEach
        (fun child =>
           match ifTruthyString (birthDate child) with
           | None => Ok tt
           | Some cbd =>
               let childBirthYear := extractYear cbd in
               let parentAgeAtChildBirth := Js.sub childBirthYear parentBirthYear in
               throwIf (Js.lt parentAgeAtChildBirth (Some minParentAge))
                       ImplausibleAge ;;
               match parentDeathYear with
               | Some dy =>
                   match parentGender with
                   | male =>
                       throwIf (Js.lt (Some dy) (Js.sub childBirthYear (Some 1)))
                               ImplausibleDeathWindow
                   | female =>
                       throwIf (Js.lt (Some dy) childBirthYear)
                               ImplausibleDeathWindow
                   end
               | None => Ok tt
               end
           end)
        children
  end.

(** [validateChildren]. *)
Definition validateChildren (s : Store) (childrenIds : option (list Z))
           (gender : option Gender) (parentBirthDate parentDeathDate : option string)
  : result (list Person) :=
  match childrenIds with
  | None => Ok []
  | Some [] => Ok []
  | Some ids =>
      match gender with
      | None => Err GenderRequired
      | Some g =>
          let children := findByIds s ids in
          throwIf (negb (Nat.eqb (List.length children) (List.length ids)))
                  ChildrenNotFound ;;
          throwIf (existsb (fun child => Js.truthyOptNumber (parentField g child))
                           children)
                  RoleOccupied ;;
          validateParentDatesForChildren children g parentBirthDate parentDeathDate ;;
          Ok children
      end
  end.

(** ** Mutation orchestrator *)

(** The entity built from a [CreatePersonDto] without its [childrenIds];
    a missing [progenitor] takes the column default [false]. *)
Definition entityOfCreate (dto : CreatePersonDto.t) (newId : Z) : Person :=
  {| id := newId;
     firstName := CreatePersonDto.firstName dto;
     lastName := CreatePersonDto.lastName dto;
     gender := CreatePersonDto.gender dto;
     birthDate := CreatePersonDto.birthDate dto;
     deathDate := CreatePersonDto.deathDate dto;
     trivia := CreatePersonDto.trivia dto;
     progenitor := truthyFlag (CreatePersonDto.progenitor dto);
     fatherId := CreatePersonDto.fatherId dto;
     motherId := CreatePersonDto.motherId dto |}.

(** [linkChildrenToParentInternal]: one [update] per child, each of them
    accepted by the repository ([Faulty.linkChildrenToParentInternal] is
    the method when an update may be rejected). *)
Definition linkChildrenToParentInternal (s : Store) (parent : Person)
           (children : list Person) : Store :=
  fold_left
    (fun st child =>
       update st (id child) (setParentField (gender parent) (Some (id parent))))
    children s.

(** [create]: the validation steps 1-4 read the store; steps 5-6 write.
    [create] is the method when the repository accepts the writes of steps
    5 and 6; [Faulty.create] is the method when it may reject them. *)
Definition createChecks (s : Store) (dto : CreatePersonDto.t)
  : result (CreatePersonDto.t * list Person) :=
  dto' <- validateNotOrphan s dto ;;
  validateParents s (CreatePersonDto.fatherId dto') (CreatePersonDto.motherId dto') ;;
  validateParentDates s (CreatePersonDto.birthDate dto')
    (CreatePersonDto.fatherId dto') (CreatePersonDto.motherId dto') ;;
  childrenToLink <- validateChildren s (CreatePersonDto.childrenIds dto')
    (Some (CreatePersonDto.gender dto')) (CreatePersonDto.birthDate dto')
    (CreatePersonDto.deathDate dto') ;;
  Ok (dto', childrenToLink).

Definition create (dto : CreatePersonDto.t) (s : Store)
  : result Person * Store :=
  match createChecks s dto with
  | Err e => (Err e, s)
  | Ok (dto', childrenToLink) =>
      let '(savedPerson, s1) := insert s (entityOfCreate dto') in
      let s2 :=
        if (0 <? List.length childrenToLink)%nat
        then linkChildrenToParentInternal s1 savedPerson childrenToLink
        else s1 in
      (Ok savedPerson, s2)
  end.

(** [findPersonById]. *)
Definition findPersonById (s : Store) (i : Z) : result Person :=
  match findOneById s i with
  | Some p => Ok p
  | None => Err NotFound
  end.

(** [removePerson]. *)
Definition removePerson (i : Z) (s : Store) : result unit * Store :=
  match (person <- findPersonById s i ;;
         throwIf (0 <? List.length (findChildrenOf s (id person)))%nat
                 HasDependents ;;
         Ok person) with
  | Err e => (Err e, s)
  | Ok person => (Ok tt, remove s person)
  end.

(** The conditions of the [if] statements of [updatePerson], in order:
    lines 924, 932-936, 944-947, 952 and 964. *)
Definition updatesParent (dto : UpdatePersonDto.t) : bool :=
  Js.truthyOptNumber (Js.toOption (UpdatePersonDto.fatherId dto))
  || Js.truthyOptNumber (Js.toOption (UpdatePersonDto.motherId dto)).

Definition updatesDates (dto : UpdatePersonDto.t) : bool :=
  Js.truthyOptString (UpdatePersonDto.birthDate dto)
  || Js.truthyOptNumber (Js.toOption (UpdatePersonDto.fatherId dto))
  || Js.truthyOptNumber (Js.toOption (UpdatePersonDto.motherId dto)).

Definition strictEqId (v : Js.Nullable Z) (i : Z) : bool :=
  match v with Js.Val n => n =? i | _ => false end.

Definition namesItself (i : Z) (dto : UpdatePersonDto.t) : bool :=
  strictEqId (UpdatePersonDto.fatherId dto) i
  || strictEqId (UpdatePersonDto.motherId dto) i.

Definition notNull (v : Js.Nullable Z) : bool :=
  match v with Js.Val _ => true | _ => false end.

(** [Object.assign(person, updatePersonDto)]: every property present in
    the DTO overwrites the entity's; a [null] parent id clears the column. *)
Definition assignField {A} (patch : option A) (old : A) : A :=
  match patch with Some v => v | None => old end.

Definition assignOpt {A} (patch : option A) (old : option A) : option A :=
  match patch with Some v => Some v | None => old end.

Definition assignNullable {A} (patch : Js.Nullable A) (old : option A)
  : option A :=
  match patch with
  | Js.Undefined => old
  | Js.Null => None
  | Js.Val v => Some v
  end.

Definition assign (person : Person) (dto : UpdatePersonDto.t) : Person :=
  {| id := id person;
     firstName := assignField (UpdatePersonDto.firstName dto) (firstName person);
     lastName := assignField (UpdatePersonDto.lastName dto) (lastName person);
     gender := gender person;
     birthDate := assignOpt (UpdatePersonDto.birthDate dto) (birthDate person);
     deathDate := assignOpt (UpdatePersonDto.deathDate dto) (deathDate person);
     trivia := assignOpt (UpdatePersonDto.trivia dto) (trivia person);
     progenitor := assignField (UpdatePersonDto.progenitor dto) (progenitor person);
     fatherId := assignNullable (UpdatePersonDto.fatherId dto) (fatherId person);
     motherId := assignNullable (UpdatePersonDto.motherId dto) (motherId person) |}.

(** The cycle check of [updatePerson] for one parent field. *)
Definition cycleCheckOnUpdate (s : Store) (person : Person)
           (v : Js.Nullable Z) : result unit :=
  match v with
  | Js.Val newParentId =>
      throwIf (wouldCreateAncestryCycle s (id person) newParentId) CycleDetected
  | _ => Ok tt
  end.

(** [updatePerson]: [i] is [Number(id)]. *)
Definition updateChecks (s : Store) (i : Z) (dto : UpdatePersonDto.t)
  : result Person :=
  person <- findPersonById s i ;;
  when (updatesParent dto)
       (validateParents s (Js.toOption (UpdatePersonDto.fatherId dto))
                        (Js.toOption (UpdatePersonDto.motherId dto))) ;;
  when (updatesDates dto)
       (validateParentDates s
          (Js.nullishOpt (UpdatePersonDto.birthDate dto) (birthDate person))
          (Js.nullish (UpdatePersonDto.fatherId dto) (fatherId person))
          (Js.nullish (UpdatePersonDto.motherId dto) (motherId person))) ;;
  throwIf (namesItself i dto) SelfParent ;;
  cycleCheckOnUpdate s person (UpdatePersonDto.fatherId dto) ;;
  cycleCheckOnUpdate s person (UpdatePersonDto.motherId dto) ;;
  Ok person.

Definition updatePerson (i : Z) (dto : UpdatePersonDto.t) (s : Store)
  : result Person * Store :=
  match updateChecks s i dto with
  | Err e => (Err e, s)
  | Ok person =>
      let person' := assign person dto in
      (Ok person', save s person')
  end.

(** [linkChildrenToParent]; the answer is the number of children linked. *)
Definition expectedGender (r : Relationship) : Gender :=
  match r with father => male | mother => female end.

Definition linkChecks (s : Store) (parentId : Z) (childrenIds : list Z)
           (parentType : Relationship) : result (Person * list Person) :=
  parent <- findPersonById s parentId ;;
  throwIf (Nat.eqb (List.length childrenIds) 0) ChildrenRequired ;;
  throwIf (existsb (Z.eqb parentId) childrenIds) SelfParent ;;
  forEach
    (fun childId =>
       throwIf (wouldCreateAncestryCycle s childId parentId) CycleDetected)
    childrenIds ;;
  throwIf (negb (Gender_eqb (gender parent) (expectedGender parentType)))
          InvalidRole ;;
  children <- validateChildren s (Some childrenIds) (Some (gender parent))
    (birthDate parent) (deathDate parent) ;;
  Ok (parent, children).

Definition linkChildrenToParent (parentId : Z) (childrenIds : list Z)
           (parentType : Relationship) (s : Store) : result nat * Store :=
  match linkChecks s parentId childrenIds parentType with
  | Err e => (Err e, s)
  | Ok (parent, children) =>
      (Ok (List.length children), linkChildrenToParentInternal s parent children)
  end.

(** [findProgenitor]: [findOneBy({ progenitor: true })]. *)
Definition findProgenitor (s : Store) : option Person :=
  find progenitor (rows s).

(** *** promoteAncestor and its transaction

    The data source is a SQLite database, which TypeORM serves through one
    connection: a query runner is that connection.  It holds the table as
    of the last commit, which is what a rollback goes back to, and the table
    as the connection shows it, which includes the writes of the open
    transaction and is what the next call of the service reads.  Each call
    on the runner (and on its manager) may be rejected by the storage layer:
    [rejects st] tells whether the call at step [st] is. *)

Record QueryRunner : Type := {
  committed : Store;
  working : Store
}.

Inductive TxStep : Type :=
| StConnect | StStartTransaction | StSave | StUpdate | StCommit.

Definition startTransaction (s : Store) : QueryRunner :=
  {| committed := s; working := s |}.

Definition commitTransaction (qr : QueryRunner) : QueryRunner :=
  {| committed := working qr; working := working qr |}.

Definition rollbackTransaction (qr : QueryRunner) : QueryRunner :=
  {| committed := committed qr; working := committed qr |}.

Definition inTransaction (qr : QueryRunner) (w : Store) : QueryRunner :=
  {| committed := committed qr; working := w |}.

(** [release]: the connection goes back as it is; the table it shows is
    the one later calls find. *)
Definition release (qr : QueryRunner) : Store := working qr.

(** The new ancestor: [{ ...personData, progenitor: true }]. *)
Definition ancestorOfPromote (dto : PromoteAncestorDto.t) (newId : Z) : Person :=
  {| id := newId;
     firstName := PromoteAncestorDto.firstName dto;
     lastName := PromoteAncestorDto.lastName dto;
     gender := PromoteAncestorDto.gender dto;
     birthDate := PromoteAncestorDto.birthDate dto;
     deathDate := PromoteAncestorDto.deathDate dto;
     trivia := PromoteAncestorDto.trivia dto;
     progenitor := true;
     fatherId := None;
     motherId := None |}.

(** [{ progenitor: false, [parentField]: newAncestor.id }]. *)
Definition demote (r : Relationship) (newAncestorId : Z) (p : Person) : Person :=
  setParentField (expectedGender r) (Some newAncestorId) (setProgenitor false p).

(** The body of the [try] block. *)
Definition promoteBody (rejects : TxStep -> bool) (dto : PromoteAncestorDto.t)
           (qr : QueryRunner) : result Person * QueryRunner :=
  if rejects StSave then (Err StoreFailure, qr)
  else
    let '(newAncestor, w1) := insert (working qr) (ancestorOfPromote dto) in
    let qr1 := inTransaction qr w1 in
    if rejects StUpdate then (Err StoreFailure, qr1)
    else
      let w2 := update w1 (PromoteAncestorDto.currentProgenitorId dto)
                       (demote (PromoteAncestorDto.relationship dto) (id newAncestor)) in
      let qr2 := inTransaction qr1 w2 in
      if rejects StCommit then (Err StoreFailure, qr2)
      else (Ok newAncestor, commitTransaction qr2).

(** The checks made before the transaction is opened. *)
Definition promoteChecks (s : Store) (dto : PromoteAncestorDto.t) : result unit :=
  match findProgenitor s with
  | None => Err NotFound
  | Some currentProgenitor =>
      throwIf (negb (id currentProgenitor =? PromoteAncestorDto.currentProgenitorId dto))
              IdentityMismatch ;;
      throwIf (negb (Gender_eqb (PromoteAncestorDto.gender dto)
                                (expectedGender (PromoteAncestorDto.relationship dto))))
              InvalidRole
  end.

(** The [try] block with its [catch]: the body, and [rollbackTransaction]
    before the error is thrown again.  The runner is returned as it is when
    [finally] releases it. *)
Definition promoteTransaction (rejects : TxStep -> bool)
           (dto : PromoteAncestorDto.t) (qr : QueryRunner)
  : result Person * QueryRunner :=
  match promoteBody rejects dto qr with
  | (Ok newAncestor, qr') => (Ok newAncestor, qr')
  | (Err e, qr') => (Err e, rollbackTransaction qr')
  end.

(** [promoteAncestor]: the checks, [createQueryRunner], [connect],
    [startTransaction], then [try { body } catch { rollback; rethrow }
    finally { release }]. *)
Definition promoteAncestor (rejects : TxStep -> bool) (dto : PromoteAncestorDto.t)
           (s : Store) : result Person * Store :=
  match promoteChecks s dto with
  | Err e => (Err e, s)
  | Ok _ =>
      if rejects StConnect then (Err StoreFailure, s)
      else if rejects StStartTransaction then (Err StoreFailure, s)
      else
        let '(r, qr) := promoteTransaction rejects dto (startTransaction s) in
        (r, release qr)
  end.

(** No call of the storage layer is rejected. *)
Definition noRejection : TxStep -> bool := fun _ => false.

(** *** The other methods when the repository rejects a write

    [create], [updatePerson], [removePerson] and [linkChildrenToParent]
    above are the methods as they run when the repository accepts every
    write.  They open no transaction, so a write that the repository
    rejects ends the method with the error of the storage layer and leaves
    the writes made before it in place.  [rejects c] tells whether the
    repository rejects the call [c]. *)

Inductive RepositoryCall : Type :=
| RcSave
| RcUpdate (rowId : Z)
| RcRemove.

(** The repository accepts every write. *)
Definition accepting : RepositoryCall -> bool := fun _ => false.

Module Faulty.

(** [linkChildrenToParentInternal]: [Promise.all] over one [update] per
    child.  Every update is issued; those the repository accepts are
    applied, and the promise is rejected when one of them is.  The store is
    the table once the updates have settled. *)
Definition linkChildrenToParentInternal (rejects : RepositoryCall -> bool)
           (s : Store) (parent : Person) (children : list Person)
  : result unit * Store :=
  fold_left
    (fun (acc : result unit * Store) child =>
       let '(r, st) := acc in
       if rejects (RcUpdate (id child)) then (Err StoreFailure, st)
       else (r, update st (id child)
                  (setParentField (gender parent) (Some (id parent)))))
    children (Ok tt, s).

(** [create]: [save] may be rejected, and so may the update of a child. *)
Definition create (rejects : RepositoryCall -> bool) (dto : CreatePersonDto.t)
           (s : Store) : result Person * Store :=
  match createChecks s dto with
  | Err e => (Err e, s)
  | Ok (dto', childrenToLink) =>
      if rejects RcSave then (Err StoreFailure, s)
      else
        let '(savedPerson, s1) := insert s (entityOfCreate dto') in
        if (0 <? List.length childrenToLink)%nat
        then
          let '(r, s2) :=
            linkChildrenToParentInternal rejects s1 savedPerson childrenToLink in
          (r ;; Ok savedPerson, s2)
        else (Ok savedPerson, s1)
  end.

(** [removePerson]: [remove] may be rejected. *)
Definition removePerson (rejects : RepositoryCall -> bool) (i : Z) (s : Store)
  : result unit * Store :=
  match (person <- findPersonById s i ;;
         throwIf (0 <? List.length (findChildrenOf s (id person)))%nat
                 HasDependents ;;
         Ok person) with
  | Err e => (Err e, s)
  | Ok person =>
      if rejects RcRemove then (Err StoreFailure, s)
      else (Ok tt, remove s person)
  end.

(** [updatePerson]: [save] may be rejected. *)
Definition updatePerson (rejects : RepositoryCall -> bool) (i : Z)
           (dto : UpdatePersonDto.t) (s : Store) : result Person * Store :=
  match updateChecks s i dto with
  | Err e => (Err e, s)
  | Ok person =>
      let person' := assign person dto in
      if rejects RcSave then (Err StoreFailure, s)
      else (Ok person', save s person')
  end.

(** [linkChildrenToParent]: the update of a child may be rejected. *)
Definition linkChildrenToParent (rejects : RepositoryCall -> bool)
           (parentId : Z) (childrenIds : list Z) (parentType : Relationship)
           (s : Store) : result nat * Store :=
  match linkChecks s parentId childrenIds parentType with
  | Err e => (Err e, s)
  | Ok (parent, children) =>
      let '(r, s') := linkChildrenToParentInternal rejects s parent children in
      (r ;; Ok (List.length children), s')
  end.

End Faulty.

(** The children whose update the repository accepts. *)
Definition acceptedChildren (rejects : RepositoryCall -> bool)
           (children : list Person) : list Person :=
  filter (fun child => negb (rejects (RcUpdate (id child)))) children.

Definition rejectsAChild (rejects : RepositoryCall -> bool)
           (children : list Person) : bool :=
  existsb (fun child => rejects (RcUpdate (id child))) children.

(** ** Properties of a store, and mutation requests *)

(** Number of rows flagged as progenitor. *)
Definition progenitorCount (s : Store) : nat :=
  List.length (filter progenitor (rows s)).

Definition singleProgenitor (s : Store) : Prop := (progenitorCount s <= 1)%nat.

(** [parentEdge s c p]: some row with id [c] names [p] as father or mother. *)
Definition parentEdge (s : Store) (c p : Z) : Prop :=
  exists r, In r (rows s) /\ id r = c
            /\ (fatherId r = Some p \/ motherId r = Some p).

(** [ancestorOf s c a]: [a] is reached from [c] along parent edges. *)
Definition ancestorOf (s : Store) : Z -> Z -> Prop :=
  clos_trans Z (parentEdge s).

Definition acyclic (s : Store) : Prop := forall i, ~ ancestorOf s i i.

(** No parent column of the row holds the row's own id. *)
Definition ownParentFree (p : Person) : Prop :=
  fatherId p <> Some (id p) /\ motherId p <> Some (id p).

Definition noSelfParent (s : Store) : Prop :=
  forall p, In p (rows s) -> ownParentFree p.

(** What the primary key guarantees: generated ids are positive and the
    counter is ahead of every id in use. *)
Definition wellFormed (s : Store) : Prop :=
  0 < nextId s /\ forall p, In p (rows s) -> 0 < id p < nextId s.

(** A request to one of the mutating methods of the service.  A promotion
    comes with the calls that the storage layer rejects while it runs. *)
Inductive Mutation : Type :=
| MCreate (dto : CreatePersonDto.t)
| MUpdate (i : Z) (dto : UpdatePersonDto.t)
| MRemove (i : Z)
| MLink (parentId : Z) (childrenIds : list Z) (parentType : Relationship)
| MPromote (rejects : TxStep -> bool) (dto : PromoteAncestorDto.t).

Definition succeeded {A} (r : result A) : bool :=
  match r with Ok _ => true | Err _ => false end.

(** Whether the request succeeded, and the store it leaves behind, when the
    repository accepts the writes of [create], [updatePerson],
    [removePerson] and [linkChildrenToParent]. *)
Definition run (m : Mutation) (s : Store) : bool * Store :=
  match m with
  | MCreate dto => let '(r, s') := create dto s in (succeeded r, s')
  | MUpdate i dto => let '(r, s') := updatePerson i dto s in (succeeded r, s')
  | MRemove i => let '(r, s') := removePerson i s in (succeeded r, s')
  | MLink p cs t => let '(r, s') := linkChildrenToParent p cs t s in (succeeded r, s')
  | MPromote rj dto => let '(r, s') := promoteAncestor rj dto s in (succeeded r, s')
  end.

(** The store after a sequence of requests. *)
Definition runAll (ms : list Mutation) (s : Store) : Store :=
  fold_left (fun st m => snd (run m st)) ms s.

(** The same when the repository rejects the writes that [rejects] picks
    out: whether the request succeeded, and the store it leaves behind,
    which after a failure may hold the writes made before the rejected
    one. *)
Definition serve (rejects : RepositoryCall -> bool) (m : Mutation) (s : Store)
  : bool * Store :=
  match m with
  | MCreate dto =>
      let '(r, s') := Faulty.create rejects dto s in (succeeded r, s')
  | MUpdate i dto =>
      let '(r, s') := Faulty.updatePerson rejects i dto s in (succeeded r, s')
  | MRemove i =>
      let '(r, s') := Faulty.removePerson rejects i s in (succeeded r, s')
  | MLink p cs t =>
      let '(r, s') := Faulty.linkChildrenToParent rejects p cs t s in
      (succeeded r, s')
  | MPromote rj dto =>
      let '(r, s') := promoteAncestor rj dto s in (succeeded r, s')
  end.

(** The store after a sequence of requests, each served with its own
    rejected writes. *)
Definition serveAll (requests : list ((RepositoryCall -> bool) * Mutation))
           (s : Store) : Store :=
  fold_left (fun st request => snd (serve (fst request) (snd request) st))
            requests s.

(** Payloads that only touch one parent id. *)
Definition emptyUpdate : UpdatePersonDto.t :=
  {| UpdatePersonDto.firstName := None;
     UpdatePersonDto.lastName := None;
     UpdatePersonDto.progenitor := None;
     UpdatePersonDto.birthDate := None;
     UpdatePersonDto.deathDate := None;
     UpdatePersonDto.trivia := None;
     UpdatePersonDto.fatherId := Js.Undefined;
     UpdatePersonDto.motherId := Js.Undefined |}.

Definition withFatherId (v : Js.Nullable Z) : UpdatePersonDto.t :=
  {| UpdatePersonDto.firstName := None;
     UpdatePersonDto.lastName := None;
     UpdatePersonDto.progenitor := None;
     UpdatePersonDto.birthDate := None;
     UpdatePersonDto.deathDate := None;
     UpdatePersonDto.trivia := None;
     UpdatePersonDto.fatherId := v;
     UpdatePersonDto.motherId := Js.Undefined |}.

Definition withMotherId (v : Js.Nullable Z) : UpdatePersonDto.t :=
  {| UpdatePersonDto.firstName := None;
     UpdatePersonDto.lastName := None;
     UpdatePersonDto.progenitor := None;
     UpdatePersonDto.birthDate := None;
     UpdatePersonDto.deathDate := None;
     UpdatePersonDto.trivia := None;
     UpdatePersonDto.fatherId := Js.Undefined;
     UpdatePersonDto.motherId := v |}.

(** The payload of a creation names no connection: no truthy parent id,
    no child to link and no progenitor flag set. *)
Definition namesNoConnection (dto : CreatePersonDto.t) : Prop :=
  ifTruthy (CreatePersonDto.fatherId dto) = None
  /\ ifTruthy (CreatePersonDto.motherId dto) = None
  /\ (CreatePersonDto.childrenIds dto = None
      \/ CreatePersonDto.childrenIds dto = Some [])
  /\ CreatePersonDto.progenitor dto <> Some true.

(** Calendar dates and their order. *)
Definition daysInMonth (y m : Z) : Z :=
  match m with
  | 2 => if JsDate.inLeapYear y then 29 else 28
  | 4 | 6 | 9 | 11 => 30
  | _ => 31
  end.

Definition calendarDate (ymd : Z * Z * Z) : Prop :=
  let '(y, m, d) := ymd in
  1 <= m <= 12 /\ 1 <= d <= daysInMonth y m.

Definition precedes (a b : Z * Z * Z) : Prop :=
  let '(y1, m1, d1) := a in
  let '(y2, m2, d2) := b in
  y1 < y2 \/ (y1 = y2 /\ (m1 < m2 \/ (m1 = m2 /\ d1 < d2))).

(** The date [d] has the year [y], a safe integer: the Number the code
    reads off [d] is [y], and the comparisons of the validators are those of
    the integers. *)
Definition readsYear (d : string) (y : Z) : Prop :=
  extractYear d = Some y /\ Js.isSafeInteger y = true.

(** Date strings on which the embedding reads what the code reads.  For the
    year: an ASCII string whose year, if it has one, is a safe integer.  For
    the whole date: moreover, when it has three parts, a calendar date
    written [YYYY-MM-DD]. *)
Definition plainYear (d : string) : Prop :=
  Js.isAscii d = true
  /\ forall y, extractYear d = Some y -> Js.isSafeInteger y = true.

Definition plainDate (d : string) : Prop :=
  plainYear d
  /\ (isFullDate d = true ->
      exists ymd, JsDate.isoFields d = Some ymd /\ calendarDate ymd).

(** The dates of a row are of that kind: the birth date, of which the
    validators read the year only, and the death date. *)
Definition plainDates (p : Person) : Prop :=
  (forall d, birthDate p = Some d -> plainYear d)
  /\ (forall d, deathDate p = Some d -> plainDate d).

(** So are the dates of the person that the parent id, if truthy, names. *)
Definition plainParent (s : Store) (o : option Z) : Prop :=
  forall i p, ifTruthy o = Some i -> findOneById s i = Some p -> plainDates p.

(** Every creation and every update of an existing person that supplies
    the parent ids [fid] and [mid] fails with [e] and leaves the store as it
    was. *)
Definition rejectsWith (e : Error) (s : Store) (fid mid : option Z) : Prop :=
  (forall dto,
      CreatePersonDto.fatherId dto = fid ->
      CreatePersonDto.motherId dto = mid ->
      create dto s = (Err e, s))
  /\ (forall i dto,
         findOneById s i <> None ->
         Js.toOption (UpdatePersonDto.fatherId dto) = fid ->
         Js.toOption (UpdatePersonDto.motherId dto) = mid ->
         updatePerson i dto s = (Err e, s)).

(** The father id passes the relationship validator: it is not truthy, or
    it is the id of a man. *)
Definition fatherAccepted (s : Store) (fid : option Z) : Prop :=
  ifTruthy fid = None
  \/ exists f q, ifTruthy fid = Some f /\ findOneById s f = Some q
                 /\ gender q = male.

(** Rows the ancestry walk has not expanded yet. *)
Definition unvisitedRows (s : Store) (visited : list Z) : nat :=
  List.length (filter (fun p => negb (visitedHas visited (id p))) (rows s)).

(** The primary key is a key; and no parent column points at an id that
    has not been generated yet. *)
Definition uniqueIds (s : Store) : Prop := NoDup (map id (rows s)).

Definition parentsKnown (s : Store) : Prop :=
  forall r p, In r (rows s) ->
              fatherId r = Some p \/ motherId r = Some p -> p < nextId s.

Definition consistent (s : Store) : Prop :=
  wellFormed s /\ uniqueIds s /\ parentsKnown s.

(** A parent edge that does not leave [x]. *)
Definition edgeAvoiding (s : Store) (x : Z) (c p : Z) : Prop :=
  c <> x /\ parentEdge s c p.

(** A set of ids that the ancestry walk for [a] can stop on: no member
    names [a] as a parent, and the truthy parents of a member are members. *)
Definition walkClosed (s : Store) (a : Z) (V : list Z) : Prop :=
  forall v r, In v V -> findOneById s v = Some r ->
    (isParentIdOf a (fatherId r) || isParentIdOf a (motherId r) = false)
    /\ (forall p, ifTruthy (fatherId r) = Some p \/ ifTruthy (motherId r) = Some p ->
                  In p V).

(** The invariant of the loop of the ancestry walk. *)
Definition walkInvariant (s : Store) (a : Z) (visited stack : list Z) : Prop :=
  forall v r, In v visited -> findOneById s v = Some r ->
    (isParentIdOf a (fatherId r) || isParentIdOf a (motherId r) = false)
    /\ (forall p, ifTruthy (fatherId r) = Some p \/ ifTruthy (motherId r) = Some p ->
                  In p visited \/ In p stack).

(** The requests whose new parent links are all checked: every request
    but a creation that names both a parent and children to link. *)
Definition checkedForCycles (m : Mutation) : Prop :=
  match m with
  | MCreate dto => hasParent dto = false \/ hasChildren dto = false
  | _ => True
  end.

(** The validators that [updatePerson] runs before its cycle check let the
    request through. *)
Definition passesEarlierChecks (s : Store) (i : Z) (x : Person)
           (dto : UpdatePersonDto.t) : Prop :=
  when (updatesParent dto)
       (validateParents s (Js.toOption (UpdatePersonDto.fatherId dto))
                        (Js.toOption (UpdatePersonDto.motherId dto))) = Ok tt
  /\ when (updatesDates dto)
          (validateParentDates s
             (Js.nullishOpt (UpdatePersonDto.birthDate dto) (birthDate x))
             (Js.nullish (UpdatePersonDto.fatherId dto) (fatherId x))
             (Js.nullish (UpdatePersonDto.motherId dto) (motherId x))) = Ok tt
  /\ namesItself i dto = false.

(** ** Read-only methods, and notions used by the further properties *)

(** [findAllPersons]: [find()] without a condition. *)
Definition findAllPersons (s : Store) : list Person := rows s.

(** A row after the children listed in [childrenIds] have been linked to
    the parent [parentId] of gender [g]. *)
Definition linkedRow (g : Gender) (parentId : Z) (childrenIds : list Z)
           (r : Person) : Person :=
  if existsb (Z.eqb (id r)) childrenIds
  then setParentField g (Some parentId) r
  else r.

(** A parent column holds no truthy id, or the id of a stored person of
    gender [g]. *)
Definition roleRespected (s : Store) (g : Gender) (o : option Z) : Prop :=
  forall p, ifTruthy o = Some p ->
            exists q, findOneById s p = Some q /\ gender q = g.

(** Every father on record is a stored man, every mother a stored woman. *)
Definition rolesRespected (s : Store) : Prop :=
  forall r, In r (rows s) ->
            roleRespected s male (fatherId r)
            /\ roleRespected s female (motherId r).

(** No row names [i] as father or mother. *)
Definition childless (s : Store) (i : Z) : Prop :=
  forall c, ~ parentEdge s c i.

(** Every row of [s] is still there in [s'], under its id and with the
    truthy parent ids it had. *)
Definition keepsParents (s s' : Store) : Prop :=
  forall r, In r (rows s) ->
    exists r', In r' (rows s') /\ id r' = id r
               /\ (forall f, ifTruthy (fatherId r) = Some f -> fatherId r' = Some f)
               /\ (forall m, ifTruthy (motherId r) = Some m -> motherId r' = Some m).

(** The ids are those of stored persons, each listed once. *)
Definition listedOnce (s : Store) (ids : list Z) : Prop :=
  NoDup ids /\ forall c, In c ids -> findOneById s c <> None.

(** The child has a birth date whose year reads as [cy]. *)
Definition bornIn (c : Person) (cy : Z) : Prop :=
  exists cbd, ifTruthyString (birthDate c) = Some cbd
              /\ extractYear cbd = Some cy.

(** A parent born in [py] was at least [minParentAge] at each birth. *)
Definition oldEnoughFor (py : Z) (children : list Person) : Prop :=
  forall c cy, In c children -> bornIn c cy -> minParentAge <= cy - py.

(** A parent of gender [g] who died in [dy] was alive for each child: a
    father until the year before the birth, a mother until the year of the
    birth. *)
Definition aliveFor (g : Gender) (dy : Z) (children : list Person) : Prop :=
  forall c cy, In c children -> bornIn c cy ->
               match g with male => cy - 1 <= dy | female => cy <= dy end.

(** The death check of [validateParentDates] for a parent in the role of
    its gender. *)
Definition deathCheckFor (g : Gender) : string -> Person -> result unit :=
  match g with male => fatherDeathCheck | female => motherDeathCheck end.

(** The same day of the month nine months later. *)
Definition nineMonthsLater (ymd : Z * Z * Z) : Z * Z * Z :=
  let '(y, m, d) := ymd in
  if m <=? 3 then (y, m + 9, d) else (y + 1, m - 3, d).

(** The integers [lo], [lo + 1], ..., [lo + n - 1]. *)
Definition upFrom (lo : Z) (n : nat) : list Z :=
  map (fun k => lo + Z.of_nat k) (seq 0 n).

(** The day number of year, month and day of the month, the day being
    allowed to run past the end of the month. *)
Definition dayNumber (ymd : Z * Z * Z) : Z :=
  let '(y, m, d) := ymd in JsDate.makeDay y (m - 1) d.

(** Calendar dates counted from the first of March, as [civilFromDay]
    counts them: the year that starts in March of [y] or of [y - 1], the
    days from the first of March to the first of month [m], the days from
    1 March 0000 to 1 March of year [Y], and the same within a period of
    400 years. *)
Definition marchYear (y m : Z) : Z := if m <=? 2 then y - 1 else y.

Definition marchDays (m : Z) : Z :=
  match m with
  | 3 => 0 | 4 => 31 | 5 => 61 | 6 => 92 | 7 => 122 | 8 => 153
  | 9 => 184 | 10 => 214 | 11 => 245 | 12 => 275 | 1 => 306 | _ => 337
  end.

Definition daysToMarchYear (Y : Z) : Z := 365 * Y + Y / 4 - Y / 100 + Y / 400.

Definition daysToYearOfEra (yoe : Z) : Z := 365 * yoe + yoe / 4 - yoe / 100.

(** The year of the era that [civilFromDay] reads off a day of the era. *)
Definition yearOfEra (doe : Z) : Z :=
  (doe - doe / 1460 + doe / 36524 - doe / 146096) / 365.

(** [yearOfEra] is right on the first and on the last days of the year
    [yoe] of the era. *)
Definition yearOfEraChecks (yoe : Z) : bool :=
  (yearOfEra (daysToYearOfEra yoe) =? yoe)
  && (yearOfEra (daysToYearOfEra yoe + 364) =? yoe)
  && (if JsDate.inLeapYear (yoe + 1)
      then yearOfEra (daysToYearOfEra yoe + 365) =? yoe
      else true).

(** The request flags its person as progenitor. *)
Definition flagsProgenitor (m : Mutation) : bool :=
  match m with
  | MCreate dto => truthyFlag (CreatePersonDto.progenitor dto)
  | MUpdate _ dto => truthyFlag (UpdatePersonDto.progenitor dto)
  | _ => false
  end.

(** ** Sample data *)

Module Sample.
Local Open Scope string_scope.

Definition person (i : Z) (g : Gender) (born died : option string)
           (prog : bool) (f m : option Z) : Person :=
  {| id := i; firstName := "Ana"; lastName := "Petrov"; gender := g;
     birthDate := born; deathDate := died; trivia := None;
     progenitor := prog; fatherId := f; motherId := m |}.

Definition newPerson (g : Gender) (prog : option bool) (born : option string)
           (f m : option Z) (children : option (list Z)) : CreatePersonDto.t :=
  {| CreatePersonDto.firstName := "Mila";
     CreatePersonDto.lastName := "Petrov";
     CreatePersonDto.gender := g;
     CreatePersonDto.progenitor := prog;
     CreatePersonDto.birthDate := born;
     CreatePersonDto.deathDate := None;
     CreatePersonDto.trivia := None;
     CreatePersonDto.fatherId := f;
     CreatePersonDto.motherId := m;
     CreatePersonDto.childrenIds := children |}.

Definition newAncestor (g : Gender) (cur : Z) (r : Relationship)
  : PromoteAncestorDto.t :=
  {| PromoteAncestorDto.firstName := "Old";
     PromoteAncestorDto.lastName := "Petrov";
     PromoteAncestorDto.gender := g;
     PromoteAncestorDto.birthDate := None;
     PromoteAncestorDto.deathDate := None;
     PromoteAncestorDto.trivia := None;
     PromoteAncestorDto.currentProgenitorId := cur;
     PromoteAncestorDto.relationship := r |}.

Definition emptyStore : Store := {| rows := []; nextId := 1 |}.

(** One man, the progenitor. *)
Definition oneMan : Store :=
  {| rows := [person 1 male None None true None None]; nextId := 2 |}.

(** One woman, the progenitor. *)
Definition oneWoman : Store :=
  {| rows := [person 1 female None None true None None]; nextId := 2 |}.

(** A man (1) and a woman (2), no dates. *)
Definition couple : Store :=
  {| rows := [person 1 male None None true None None;
              person 2 female None None false None None];
     nextId := 3 |}.

(** A man (1) and his daughter (2). *)
Definition fatherAndDaughter : Store :=
  {| rows := [person 1 male None None true None None;
              person 2 female None None false (Some 1) None];
     nextId := 3 |}.

(** Father born 1900, died "1950"; mother born 1902, died 1950-06-01. *)
Definition datedCouple : Store :=
  {| rows := [person 1 male (Some "1900") (Some "1950") true None None;
              person 2 female (Some "1902") (Some "1950-06-01") false None None];
     nextId := 3 |}.

End Sample.

(** ** Basic facts *)

Ltac break_match :=
  match goal with
  | |- context [match ?x with _ => _ end] => destruct x eqn:?
  | H : context [match ?x with _ => _ end] |- _ => destruct x eqn:?
  end.

Lemma bind_Ok {A B} (r : result A) (k : A -> result B) (b : B) :
  bind r k = Ok b -> exists a, r = Ok a /\ k a = Ok b.
Proof. destruct r; simpl; intros H; [eauto | discriminate]. Qed.

Lemma bind_Err {A B} (r : result A) (k : A -> result B) (e : Error) :
  bind r k = Err e -> r = Err e \/ exists a, r = Ok a /\ k a = Err e.
Proof.
  destruct r; simpl; intros H; [right; eauto | left; congruence].
Qed.

Lemma throwIf_Ok c e u : throwIf c e = Ok u -> c = false.
Proof. destruct c; simpl; congruence. Qed.

Lemma throwIf_Err c e e' : throwIf c e = Err e' -> c = true /\ e' = e.
Proof. destruct c; simpl; intros H; inversion H; auto. Qed.

Lemma findOneById_In s i p :
  findOneById s i = Some p -> In p (rows s) /\ id p = i.
Proof.
  unfold findOneById. intros H. apply find_some in H. destruct H as [H1 H2].
  split; [exact H1 | apply Z.eqb_eq; exact H2].
Qed.

Lemma ifTruthy_Some o n : ifTruthy o = Some n -> o = Some n /\ n <> 0.
Proof.
  unfold ifTruthy, Js.truthyNumber. destruct o as [k|]; [|discriminate].
  destruct (k =? 0) eqn:E; simpl; intros H; inversion H; subst.
  split; [reflexivity | apply Z.eqb_neq; exact E].
Qed.

Lemma ifTruthy_nonzero n : n <> 0 -> ifTruthy (Some n) = Some n.
Proof.
  intros H. unfold ifTruthy, Js.truthyNumber.
  apply Z.eqb_neq in H. rewrite H. reflexivity.
Qed.

Lemma truthyOptNumber_ifTruthy o :
  Js.truthyOptNumber o = match ifTruthy o with Some _ => true | None => false end.
Proof.
  unfold Js.truthyOptNumber, ifTruthy. destruct o; [|reflexivity].
  destruct (Js.truthyNumber z); reflexivity.
Qed.

(** ** Which errors each validator can raise *)

Lemma validateParents_errors s f m e :
  validateParents s f m = Err e -> e = NotFound \/ e = InvalidRole.
Proof.
  unfold validateParents. intros H.
  apply bind_Err in H. destruct H as [H | [u [_ H]]];
    repeat break_match; try discriminate;
    try (apply throwIf_Err in H; tauto); inversion H; auto.
Qed.

Lemma parentBirthCheck_errors cb p e :
  parentBirthCheck cb p = Err e -> e = ImplausibleAge.
Proof.
  unfold parentBirthCheck. intros H. break_match; [|discriminate].
  apply bind_Err in H. destruct H as [H | [u [_ H]]];
    apply throwIf_Err in H; tauto.
Qed.

Lemma fatherDeathCheck_errors cb p e :
  fatherDeathCheck cb p = Err e -> e = ImplausibleDeathWindow.
Proof.
  unfold fatherDeathCheck. intros H.
  repeat break_match; try discriminate; apply throwIf_Err in H; tauto.
Qed.

Lemma motherDeathCheck_errors cb p e :
  motherDeathCheck cb p = Err e -> e = ImplausibleDeathWindow.
Proof.
  unfold motherDeathCheck. intros H.
  repeat break_match; try discriminate; apply throwIf_Err in H; tauto.
Qed.

Lemma validateParentDates_errors s cb f m e :
  validateParentDates s cb f m = Err e ->
  e = ImplausibleAge \/ e = ImplausibleDeathWindow.
Proof.
  unfold validateParentDates, fatherDatesCheck, motherDatesCheck. intros H.
  break_match; [|discriminate].
  apply bind_Err in H. destruct H as [H | [u [_ H]]];
    repeat break_match; try discriminate;
    (apply bind_Err in H; destruct H as [H | [u' [_ H]]];
     [ apply parentBirthCheck_errors in H; auto
     | first [ apply fatherDeathCheck_errors in H
             | apply motherDeathCheck_errors in H ]; auto ]).
Qed.

Lemma forEach_errors {A} (P : Error -> Prop) (body : A -> result unit) xs e :
  (forall x e', body x = Err e' -> P e') ->
  forEach body xs = Err e -> P e.
Proof.
  intros Hb. induction xs as [|x rest IH]; simpl; [discriminate|].
  intros H. apply bind_Err in H. destruct H as [H | [u [_ H]]]; eauto.
Qed.

Lemma validateParentDatesForChildren_errors cs g pb pd e :
  validateParentDatesForChildren cs g pb pd = Err e ->
  e = DeathBeforeBirth \/ e = ImplausibleAge \/ e = ImplausibleDeathWindow.
Proof.
  unfold validateParentDatesForChildren. intros H.
  apply bind_Err in H. destruct H as [H | [u [_ H]]].
  - repeat break_match; try discriminate. apply throwIf_Err in H. tauto.
  - break_match; [|discriminate].
    revert H.
    apply (forEach_errors
             (fun e => e = DeathBeforeBirth \/ e = ImplausibleAge
                       \/ e = ImplausibleDeathWindow)).
    intros x e' H.
    break_match; [|discriminate].
    apply bind_Err in H. destruct H as [H | [u' [_ H]]].
    + apply throwIf_Err in H. tauto.
    + repeat break_match; try discriminate; apply throwIf_Err in H; tauto.
Qed.

Lemma validateChildren_errors s ids g pb pd e :
  validateChildren s ids g pb pd = Err e ->
  e = GenderRequired \/ e = ChildrenNotFound \/ e = RoleOccupied
  \/ e = DeathBeforeBirth \/ e = ImplausibleAge \/ e = ImplausibleDeathWindow.
Proof.
  unfold validateChildren. intros H.
  destruct ids as [[|i ids]|]; try discriminate.
  destruct g as [g|]; [|inversion H; auto].
  apply bind_Err in H. destruct H as [H | [u [_ H]]].
  { apply throwIf_Err in H. tauto. }
  apply bind_Err in H. destruct H as [H | [u' [_ H]]].
  { apply throwIf_Err in H. tauto. }
  apply bind_Err in H. destruct H as [H | [u'' [_ H]]]; [|discriminate].
  apply validateParentDatesForChildren_errors in H. tauto.
Qed.

(** ** A request that the checks refuse leaves the store as it was *)

Lemma create_Err dto s e s' : create dto s = (Err e, s') -> s' = s.
Proof.
  unfold create. destruct (createChecks s dto) as [[d cs]|e0].
  - destruct (insert s (entityOfCreate d)). discriminate.
  - intros H. inversion H. reflexivity.
Qed.

Lemma updatePerson_Err i dto s e s' :
  updatePerson i dto s = (Err e, s') -> s' = s.
Proof.
  unfold updatePerson. destruct (updateChecks s i dto); intros H;
    inversion H; reflexivity.
Qed.

Lemma removePerson_Err i s e s' : removePerson i s = (Err e, s') -> s' = s.
Proof.
  unfold removePerson. break_match; intros H; inversion H; reflexivity.
Qed.

Lemma linkChildrenToParent_Err p cs t s e s' :
  linkChildrenToParent p cs t s = (Err e, s') -> s' = s.
Proof.
  unfold linkChildrenToParent.
  destruct (linkChecks s p cs t) as [[q l]|e0]; intros H;
    inversion H; reflexivity.
Qed.

Lemma createChecks_Ok s dto d cs :
  createChecks s dto = Ok (d, cs) ->
  validateNotOrphan s dto = Ok d
  /\ validateParents s (CreatePersonDto.fatherId d) (CreatePersonDto.motherId d)
     = Ok tt
  /\ validateChildren s (CreatePersonDto.childrenIds d)
       (Some (CreatePersonDto.gender d)) (CreatePersonDto.birthDate d)
       (CreatePersonDto.deathDate d) = Ok cs.
Proof.
  unfold createChecks. intros E.
  apply bind_Ok in E. destruct E as [d' [Hv E]].
  apply bind_Ok in E. destruct E as [[] [Hp E]].
  apply bind_Ok in E. destruct E as [[] [_ E]].
  apply bind_Ok in E. destruct E as [cs' [Hc E]].
  inversion E. subst d' cs'. auto.
Qed.

Lemma linkChecks_Ok s pid cids t parent children :
  linkChecks s pid cids t = Ok (parent, children) ->
  findOneById s pid = Some parent
  /\ existsb (Z.eqb pid) cids = false
  /\ forEach (fun childId =>
                throwIf (wouldCreateAncestryCycle s childId pid) CycleDetected)
             cids = Ok tt
  /\ validateChildren s (Some cids) (Some (gender parent))
                      (birthDate parent) (deathDate parent) = Ok children.
Proof.
  unfold linkChecks. intros E.
  apply bind_Ok in E. destruct E as [q [Hq E]].
  apply bind_Ok in E. destruct E as [[] [_ E]].
  apply bind_Ok in E. destruct E as [[] [Hself E]].
  apply bind_Ok in E. destruct E as [[] [Hcyc E]].
  apply bind_Ok in E. destruct E as [[] [_ E]].
  apply bind_Ok in E. destruct E as [cs [Hc E]].
  inversion E. subst q cs. clear E.
  unfold findPersonById in Hq.
  destruct (findOneById s pid) as [x|] eqn:Ex; [|discriminate].
  inversion Hq. subst x. apply throwIf_Ok in Hself. auto.
Qed.

(** ** The methods when the repository rejects a write *)

Lemma Faulty_link_from (rejects : RepositoryCall -> bool) parent children r s :
  fold_left
    (fun (acc : (result unit * Store)%type) child =>
       let '(r, st) := acc in
       if rejects (RcUpdate (id child)) then (Err StoreFailure, st)
       else (r, update st (id child)
                  (setParentField (gender parent) (Some (id parent)))))
    children (r, s)
  = (if rejectsAChild rejects children then Err StoreFailure else r,
     linkChildrenToParentInternal s parent (acceptedChildren rejects children)).
Proof.
  revert r s.
  induction children as [|c cs IH]; intros r s; [reflexivity|].
  cbn [fold_left]. unfold rejectsAChild, acceptedChildren. cbn [existsb filter].
  destruct (rejects (RcUpdate (id c))); cbn [negb orb].
  - rewrite IH. unfold rejectsAChild, acceptedChildren.
    destruct (existsb _ cs); reflexivity.
  - rewrite IH. reflexivity.
Qed.

(** The updates that the repository accepts are applied, whatever happens
    to the others; the method fails when one is rejected. *)
Lemma Faulty_link_settled rejects parent children s :
  Faulty.linkChildrenToParentInternal rejects s parent children
  = (if rejectsAChild rejects children then Err StoreFailure else Ok tt,
     linkChildrenToParentInternal s parent (acceptedChildren rejects children)).
Proof. apply Faulty_link_from. Qed.

Lemma acceptedChildren_all rejects children :
  rejectsAChild rejects children = false ->
  acceptedChildren rejects children = children.
Proof.
  unfold rejectsAChild, acceptedChildren.
  induction children as [|c cs IH]; simpl; [reflexivity|].
  intros H. apply orb_false_iff in H. destruct H as [H1 H2].
  rewrite H1. simpl. rewrite (IH H2). reflexivity.
Qed.

(** The outcome of [create] under a repository that may reject writes. *)
Lemma Faulty_create_outcome rejects dto s :
  Faulty.create rejects dto s
  = match createChecks s dto with
    | Err e => (Err e, s)
    | Ok (d, cs) =>
        if rejects RcSave then (Err StoreFailure, s)
        else if rejectsAChild rejects cs
        then (Err StoreFailure,
              linkChildrenToParentInternal (snd (insert s (entityOfCreate d)))
                (fst (insert s (entityOfCreate d))) (acceptedChildren rejects cs))
        else create dto s
    end.
Proof.
  unfold Faulty.create, create.
  destruct (createChecks s dto) as [[d cs]|e]; [|reflexivity].
  destruct (rejects RcSave); [reflexivity|].
  unfold insert. cbv zeta. cbn [fst snd].
  destruct (0 <? List.length cs)%nat eqn:El.
  - rewrite Faulty_link_settled.
    destruct (rejectsAChild rejects cs) eqn:Er; [reflexivity|].
    rewrite (acceptedChildren_all rejects cs Er). reflexivity.
  - destruct cs as [|c cs]; [reflexivity | discriminate].
Qed.

Lemma Faulty_linkChildrenToParent_outcome rejects pid cids t s :
  Faulty.linkChildrenToParent rejects pid cids t s
  = match linkChecks s pid cids t with
    | Err e => (Err e, s)
    | Ok (parent, children) =>
        if rejectsAChild rejects children
        then (Err StoreFailure,
              linkChildrenToParentInternal s parent
                (acceptedChildren rejects children))
        else linkChildrenToParent pid cids t s
    end.
Proof.
  unfold Faulty.linkChildrenToParent, linkChildrenToParent.
  destruct (linkChecks s pid cids t) as [[parent children]|e]; [|reflexivity].
  rewrite Faulty_link_settled.
  destruct (rejectsAChild rejects children) eqn:Er; [reflexivity|].
  rewrite (acceptedChildren_all rejects children Er). reflexivity.
Qed.

Lemma Faulty_updatePerson_outcome rejects i dto s :
  Faulty.updatePerson rejects i dto s
  = match updateChecks s i dto with
    | Err e => (Err e, s)
    | Ok _ => if rejects RcSave then (Err StoreFailure, s)
              else updatePerson i dto s
    end.
Proof.
  unfold Faulty.updatePerson, updatePerson.
  destruct (updateChecks s i dto); [|reflexivity].
  destruct (rejects RcSave); reflexivity.
Qed.

Lemma Faulty_removePerson_outcome rejects i s :
  Faulty.removePerson rejects i s
  = match removePerson i s with
    | (Err e, _) => (Err e, s)
    | (Ok _, s') => if rejects RcRemove then (Err StoreFailure, s)
                    else (Ok tt, s')
    end.
Proof.
  unfold Faulty.removePerson, removePerson.
  destruct (person <- findPersonById s i ;;
            throwIf (0 <? List.length (findChildrenOf s (id person)))%nat
                    HasDependents ;;
            Ok person); [|reflexivity].
  destruct (rejects RcRemove); reflexivity.
Qed.

(** A request that the method refuses is refused before the first write:
    the answer and the store do not depend on the repository. *)
Lemma refused_whatever_the_repository rejects s :
  (forall dto e s', create dto s = (Err e, s') ->
                    Faulty.create rejects dto s = (Err e, s))
  /\ (forall i dto e s', updatePerson i dto s = (Err e, s') ->
                         Faulty.updatePerson rejects i dto s = (Err e, s))
  /\ (forall i e s', removePerson i s = (Err e, s') ->
                     Faulty.removePerson rejects i s = (Err e, s))
  /\ (forall pid cids t e s',
         linkChildrenToParent pid cids t s = (Err e, s') ->
         Faulty.linkChildrenToParent rejects pid cids t s = (Err e, s)).
Proof.
  split; [|split; [|split]].
  - intros dto e s' H. rewrite Faulty_create_outcome. revert H. unfold create.
    destruct (createChecks s dto) as [[d cs]|e0].
    + destruct (insert s (entityOfCreate d)). discriminate.
    + intros H. inversion H. reflexivity.
  - intros i dto e s' H. rewrite Faulty_updatePerson_outcome. revert H.
    unfold updatePerson. destruct (updateChecks s i dto); [discriminate|].
    intros H. inversion H. reflexivity.
  - intros i e s' H. rewrite Faulty_removePerson_outcome. rewrite H.
    reflexivity.
  - intros pid cids t e s' H. rewrite Faulty_linkChildrenToParent_outcome.
    revert H. unfold linkChildrenToParent.
    destruct (linkChecks s pid cids t) as [[parent children]|e0];
      [discriminate|].
    intros H. inversion H. reflexivity.
Qed.

(** A request that succeeds has had every write accepted, and is the
    request served by a repository that accepts every write. *)
Lemma served_as_by_an_accepting_repository rejects s :
  (forall dto p s', Faulty.create rejects dto s = (Ok p, s') ->
                    create dto s = (Ok p, s'))
  /\ (forall i dto p s', Faulty.updatePerson rejects i dto s = (Ok p, s') ->
                         updatePerson i dto s = (Ok p, s'))
  /\ (forall i u s', Faulty.removePerson rejects i s = (Ok u, s') ->
                     removePerson i s = (Ok u, s'))
  /\ (forall pid cids t n s',
         Faulty.linkChildrenToParent rejects pid cids t s = (Ok n, s') ->
         linkChildrenToParent pid cids t s = (Ok n, s')).
Proof.
  split; [|split; [|split]].
  - intros dto p s'. rewrite Faulty_create_outcome.
    destruct (createChecks s dto) as [[d cs]|e0]; [|discriminate].
    destruct (rejects RcSave); [discriminate|].
    destruct (rejectsAChild rejects cs); [discriminate | auto].
  - intros i dto p s'. rewrite Faulty_updatePerson_outcome.
    destruct (updateChecks s i dto); [|discriminate].
    destruct (rejects RcSave); [discriminate | auto].
  - intros i u s'. rewrite Faulty_removePerson_outcome.
    destruct (removePerson i s) as [[[]|e] s1]; [|discriminate].
    destruct (rejects RcRemove); [discriminate|]. destruct u. auto.
  - intros pid cids t n s'. rewrite Faulty_linkChildrenToParent_outcome.
    destruct (linkChecks s pid cids t) as [[parent children]|e0];
      [|discriminate].
    destruct (rejectsAChild rejects children); [discriminate | auto].
Qed.

Lemma accepting_repository s :
  (forall dto, Faulty.create accepting dto s = create dto s)
  /\ (forall i dto, Faulty.updatePerson accepting i dto s = updatePerson i dto s)
  /\ (forall i, Faulty.removePerson accepting i s = removePerson i s)
  /\ (forall pid cids t,
         Faulty.linkChildrenToParent accepting pid cids t s
         = linkChildrenToParent pid cids t s).
Proof.
  assert (Hnone : forall cs, rejectsAChild accepting cs = false).
  { induction cs as [|c cs IH]; [reflexivity | exact IH]. }
  split; [|split; [|split]].
  - intros dto. rewrite Faulty_create_outcome. unfold create.
    destruct (createChecks s dto) as [[d cs]|e0]; [|reflexivity].
    simpl. rewrite Hnone. reflexivity.
  - intros i dto. rewrite Faulty_updatePerson_outcome. unfold updatePerson.
    destruct (updateChecks s i dto); reflexivity.
  - intros i. rewrite Faulty_removePerson_outcome.
    unfold removePerson.
    destruct (person <- findPersonById s i ;;
              throwIf (0 <? List.length (findChildrenOf s (id person)))%nat
                      HasDependents ;;
              Ok person); reflexivity.
  - intros pid cids t. rewrite Faulty_linkChildrenToParent_outcome.
    unfold linkChildrenToParent.
    destruct (linkChecks s pid cids t) as [[parent children]|e0];
      [|reflexivity].
    rewrite Hnone. reflexivity.
Qed.

(** ** Connectivity guard *)

Lemma hasParent_false dto :
  hasParent dto = false <->
  ifTruthy (CreatePersonDto.fatherId dto) = None
  /\ ifTruthy (CreatePersonDto.motherId dto) = None.
Proof.
  unfold hasParent. rewrite !truthyOptNumber_ifTruthy.
  destruct (ifTruthy (CreatePersonDto.fatherId dto)),
           (ifTruthy (CreatePersonDto.motherId dto)); simpl;
    split; intros H; try discriminate; try tauto;
    destruct H; discriminate.
Qed.

Lemma hasChildren_false dto :
  hasChildren dto = false <->
  CreatePersonDto.childrenIds dto = None
  \/ CreatePersonDto.childrenIds dto = Some [].
Proof.
  unfold hasChildren. destruct (CreatePersonDto.childrenIds dto) as [[|i l]|];
    simpl; split; intros H; auto; try discriminate;
    destruct H; discriminate.
Qed.

Lemma truthyFlag_false o : truthyFlag o = false <-> o <> Some true.
Proof.
  destruct o as [[|]|]; simpl; split; intros H; congruence.
Qed.

Lemma count_zero s : (count s =? 0) = true <-> rows s = [].
Proof.
  unfold count. destruct (rows s); simpl; split; intros H;
    try reflexivity; try discriminate.
Qed.

Lemma validateNotOrphan_Err s dto e :
  validateNotOrphan s dto = Err e <->
  e = DisconnectedPerson /\ namesNoConnection dto /\ rows s <> [].
Proof.
  unfold validateNotOrphan, namesNoConnection.
  pose proof (hasParent_false dto) as HP.
  pose proof (hasChildren_false dto) as HC.
  pose proof (truthyFlag_false (CreatePersonDto.progenitor dto)) as HF.
  pose proof (count_zero s) as HZ.
  destruct (hasParent dto), (hasChildren dto),
    (truthyFlag (CreatePersonDto.progenitor dto)); simpl;
    try (split; [discriminate | intros [_ [[? [? [? ?]]] _]]];
         first [ assert (true = false) by (apply HP; auto); discriminate
               | assert (true = false) by (apply HC; auto); discriminate
               | assert (true = false) by (apply HF; auto); discriminate ]).
  destruct (count s =? 0).
  - split; [discriminate | intros [_ [_ R]]; exfalso; apply R, HZ; reflexivity].
  - split.
    + intros H. inversion H. split; [reflexivity|].
      split.
      * destruct HP as [HP _]. destruct (HP eq_refl). tauto.
      * intros R. apply HZ in R. discriminate.
    + intros [-> _]. reflexivity.
Qed.

Lemma validateParents_none s f m :
  ifTruthy f = None -> ifTruthy m = None -> validateParents s f m = Ok tt.
Proof. unfold validateParents. intros -> ->. reflexivity. Qed.

Lemma validateParentDates_none s cb f m :
  ifTruthy f = None -> ifTruthy m = None -> validateParentDates s cb f m = Ok tt.
Proof.
  unfold validateParentDates, fatherDatesCheck, motherDatesCheck.
  intros -> ->. destruct (ifTruthyString cb); reflexivity.
Qed.

Lemma createChecks_first s dto :
  namesNoConnection dto -> rows s = [] ->
  createChecks s dto = Ok (markProgenitor dto, []).
Proof.
  intros Hn Hr. unfold createChecks.
  assert (Hv : validateNotOrphan s dto = Ok (markProgenitor dto)).
  { unfold validateNotOrphan. destruct Hn as [Hf [Hm [Hc Hp]]].
    replace (hasParent dto) with false
      by (symmetry; apply hasParent_false; auto).
    replace (hasChildren dto) with false
      by (symmetry; apply hasChildren_false; auto).
    replace (truthyFlag (CreatePersonDto.progenitor dto)) with false
      by (symmetry; apply truthyFlag_false; auto).
    simpl. replace (count s =? 0) with true
      by (symmetry; apply count_zero; auto).
    reflexivity. }
  rewrite Hv. simpl. destruct Hn as [Hf [Hm [Hc Hp]]].
  rewrite validateParents_none, validateParentDates_none by assumption.
  simpl. destruct Hc as [-> | ->]; reflexivity.
Qed.

(** C9.  A creation fails with [DisconnectedPerson] (and leaves the store
    as it was) exactly when its payload names no father, no mother, no child
    to link and no progenitor flag while the store already holds a person;
    with no person in the store the same payload is accepted and the new person,
    the only row, is flagged as progenitor. *)
Theorem connectivity_guard_at_creation (s : Store) (dto : CreatePersonDto.t) :
  (fst (create dto s) = Err DisconnectedPerson
   <-> namesNoConnection dto /\ rows s <> [])
  /\ (fst (create dto s) = Err DisconnectedPerson -> snd (create dto s) = s)
  /\ (namesNoConnection dto -> rows s = [] ->
      exists p,
        create dto s = (Ok p, {| rows := [p]; nextId := nextId s + 1 |})
        /\ progenitor p = true
        /\ id p = nextId s
        /\ fatherId p = CreatePersonDto.fatherId dto
        /\ motherId p = CreatePersonDto.motherId dto).
Proof.
  split; [|split].
  - split.
    + unfold create. destruct (createChecks s dto) as [[d cs]|e] eqn:E.
      * destruct (insert s (entityOfCreate d)). discriminate.
      * simpl. intros H. inversion H. subst e. clear H.
        unfold createChecks in E.
        apply bind_Err in E. destruct E as [E | [d [_ E]]].
        { apply validateNotOrphan_Err in E. tauto. }
        apply bind_Err in E. destruct E as [E | [u [_ E]]].
        { apply validateParents_errors in E. destruct E; discriminate. }
        apply bind_Err in E. destruct E as [E | [u' [_ E]]].
        { apply validateParentDates_errors in E. destruct E; discriminate. }
        apply bind_Err in E. destruct E as [E | [l [_ E]]]; [|discriminate].
        apply validateChildren_errors in E.
        repeat (destruct E as [E | E]; try discriminate).
    + intros [Hn Hr]. unfold create, createChecks.
      assert (Hv : validateNotOrphan s dto = Err DisconnectedPerson)
        by (apply validateNotOrphan_Err; auto).
      rewrite Hv. reflexivity.
  - destruct (create dto s) as [r s'] eqn:E. simpl. intros ->.
    apply create_Err in E. exact E.
  - intros Hn Hr. unfold create. rewrite createChecks_first by assumption.
    unfold insert. rewrite Hr. simpl.
    eexists. split; [reflexivity|]. simpl. auto.
Qed.

Lemma connectivity_guard_at_creation_witness :
  exists p,
    create (Sample.newPerson female None None None None None) Sample.emptyStore
    = (Ok p, {| rows := [p]; nextId := 2 |})
    /\ progenitor p = true.
Proof.
  destruct (connectivity_guard_at_creation Sample.emptyStore
              (Sample.newPerson female None None None None None))
    as [_ [_ H]].
  destruct H as [p [H1 [H2 _]]].
  - unfold namesNoConnection. simpl.
    repeat split; [left; reflexivity | discriminate].
  - reflexivity.
  - exists p. split; [exact H1 | exact H2].
Defined.

(** ** Clearing a parent link *)

Lemma findPersonById_found s p :
  findOneById s (id p) = Some p -> findPersonById s (id p) = Ok p.
Proof. unfold findPersonById. intros ->. reflexivity. Qed.

Lemma In_update_other s i patch q :
  In q (rows s) -> id q <> i -> In q (rows (update s i patch)).
Proof.
  intros Hq Hne. unfold update. simpl. apply in_map_iff.
  exists q. split; [|exact Hq].
  unfold hasId. apply Z.eqb_neq in Hne. rewrite Hne. reflexivity.
Qed.

Lemma findOneById_save s p :
  findOneById s (id p) <> None -> findOneById (save s p) (id p) = Some p.
Proof.
  unfold findOneById, save, update. simpl.
  induction (rows s) as [|q l IH]; simpl; [congruence|].
  destruct (hasId (id p) q) eqn:E.
  - intros _. unfold hasId at 1. rewrite Z.eqb_refl. reflexivity.
  - rewrite E. exact IH.
Qed.

(** C10.  For a person [P] of the store, [updatePerson(P.id, { fatherId:
    null })] succeeds whatever the store holds: the condition guarding each
    validator is false for this payload; the row of [P] is rewritten with
    [fatherId] cleared and every other column kept; all other rows and the
    id counter are untouched.  Likewise for [{ motherId: null }]. *)
Theorem clearing_a_parent_link (s : Store) (P : Person) :
  findOneById s (id P) = Some P ->
  (updatesParent (withFatherId Js.Null) = false
   /\ updatesDates (withFatherId Js.Null) = false
   /\ namesItself (id P) (withFatherId Js.Null) = false
   /\ notNull (UpdatePersonDto.fatherId (withFatherId Js.Null)) = false
   /\ notNull (UpdatePersonDto.motherId (withFatherId Js.Null)) = false
   /\ updatePerson (id P) (withFatherId Js.Null) s
      = (Ok (setFatherId None P),
         {| rows := map (fun q => if hasId (id P) q then setFatherId None P else q)
                        (rows s);
            nextId := nextId s |})
   /\ findOneById (snd (updatePerson (id P) (withFatherId Js.Null) s)) (id P)
      = Some (setFatherId None P)
   /\ (forall q, In q (rows s) -> id q <> id P ->
                 In q (rows (snd (updatePerson (id P) (withFatherId Js.Null) s)))))
  /\
  (updatesParent (withMotherId Js.Null) = false
   /\ updatesDates (withMotherId Js.Null) = false
   /\ namesItself (id P) (withMotherId Js.Null) = false
   /\ notNull (UpdatePersonDto.fatherId (withMotherId Js.Null)) = false
   /\ notNull (UpdatePersonDto.motherId (withMotherId Js.Null)) = false
   /\ updatePerson (id P) (withMotherId Js.Null) s
      = (Ok (setMotherId None P),
         {| rows := map (fun q => if hasId (id P) q then setMotherId None P else q)
                        (rows s);
            nextId := nextId s |})
   /\ findOneById (snd (updatePerson (id P) (withMotherId Js.Null) s)) (id P)
      = Some (setMotherId None P)
   /\ (forall q, In q (rows s) -> id q <> id P ->
                 In q (rows (snd (updatePerson (id P) (withMotherId Js.Null) s))))).
Proof.
  intros HP.
  assert (HF : updatePerson (id P) (withFatherId Js.Null) s
               = (Ok (setFatherId None P), save s (setFatherId None P))).
  { unfold updatePerson, updateChecks.
    rewrite (findPersonById_found s P HP). destruct P; reflexivity. }
  assert (HM : updatePerson (id P) (withMotherId Js.Null) s
               = (Ok (setMotherId None P), save s (setMotherId None P))).
  { unfold updatePerson, updateChecks.
    rewrite (findPersonById_found s P HP). destruct P; reflexivity. }
  split.
  - repeat (split; [reflexivity|]).
    rewrite HF. simpl. split; [reflexivity|]. split.
    + apply (findOneById_save s (setFatherId None P)). simpl. congruence.
    + intros q Hq Hne. apply (In_update_other s (id P)); assumption.
  - repeat (split; [reflexivity|]).
    rewrite HM. simpl. split; [reflexivity|]. split.
    + apply (findOneById_save s (setMotherId None P)). simpl. congruence.
    + intros q Hq Hne. apply (In_update_other s (id P)); assumption.
Qed.

Lemma clearing_a_parent_link_witness :
  updatePerson 2 (withFatherId Js.Null)
    {| rows := [Sample.person 1 male None None true None None;
                Sample.person 2 male None None false (Some 1) None];
       nextId := 3 |}
  = (Ok (Sample.person 2 male None None false None None),
     {| rows := [Sample.person 1 male None None true None None;
                 Sample.person 2 male None None false None None];
        nextId := 3 |}).
Proof.
  destruct (clearing_a_parent_link
              {| rows := [Sample.person 1 male None None true None None;
                          Sample.person 2 male None None false (Some 1) None];
                 nextId := 3 |}
              (Sample.person 2 male None None false (Some 1) None)
              eq_refl)
    as [[_ [_ [_ [_ [_ [H _]]]]]] _].
  exact H.
Defined.

(** ** Promotion of a new ancestor *)

Lemma Gender_eqb_eq a b : Gender_eqb a b = true <-> a = b.
Proof. destruct a, b; simpl; split; congruence. Qed.

(** The runner that [finally] releases has no write pending; after an error
    its table is the one the transaction started from. *)
Lemma promoteTransaction_released rejects dto s r qr :
  promoteTransaction rejects dto (startTransaction s) = (r, qr) ->
  committed qr = working qr
  /\ match r with
     | Err _ => working qr = s
     | Ok _ => rejects StSave = false
               /\ rejects StUpdate = false /\ rejects StCommit = false
     end.
Proof.
  unfold promoteTransaction, promoteBody, insert. simpl.
  destruct (rejects StSave), (rejects StUpdate), (rejects StCommit);
    intros H; inversion H; subst; simpl; auto.
Qed.

Lemma promoteAncestor_Err rejects dto s e s' :
  promoteAncestor rejects dto s = (Err e, s') -> s' = s.
Proof.
  unfold promoteAncestor.
  destruct (promoteChecks s dto); [|intros H; inversion H; reflexivity].
  destruct (rejects StConnect); [intros H; inversion H; reflexivity|].
  destruct (rejects StStartTransaction); [intros H; inversion H; reflexivity|].
  destruct (promoteTransaction rejects dto (startTransaction s)) as [r qr] eqn:E.
  apply promoteTransaction_released in E. destruct E as [_ E].
  intros H. inversion H. subst r. unfold release. exact E.
Qed.

Lemma promoteChecks_Ok s dto cur :
  findProgenitor s = Some cur ->
  id cur = PromoteAncestorDto.currentProgenitorId dto ->
  PromoteAncestorDto.gender dto
  = expectedGender (PromoteAncestorDto.relationship dto) ->
  promoteChecks s dto = Ok tt.
Proof.
  intros Hc Hi Hg. unfold promoteChecks. rewrite Hc, Hi, Z.eqb_refl. simpl.
  apply Gender_eqb_eq in Hg. rewrite Hg. reflexivity.
Qed.

(** C3.  Whatever call of the storage layer is rejected, a failed
    [promoteAncestor] leaves the store exactly as it was, and it is the
    rollback of the [catch] block that does it: when the insert has been
    accepted and the update or the commit is rejected, the runner that
    reaches the [catch] block shows the new ancestor, in a table that is not
    the one the call started from, and the rollback takes the runner back to
    the state in which the transaction started.  When the checks made before
    the transaction pass, the call fails as soon as one call on the query
    runner is rejected (the insert, the update or the commit included), and
    otherwise applies both writes: the new ancestor is appended with
    [progenitor = true], and the row of the former progenitor gets
    [progenitor = false] and the new ancestor's id in the parent column of
    the requested role; no other row changes, and the runner is released
    with both writes committed.  (The generated id is fresh: the store is
    [wellFormed].) *)
Theorem promotion_is_atomic (rejects : TxStep -> bool)
        (dto : PromoteAncestorDto.t) (s : Store) :
  (forall e s', promoteAncestor rejects dto s = (Err e, s') -> s' = s)
  /\
  (forall e qr,
      promoteTransaction rejects dto (startTransaction s) = (Err e, qr) ->
      qr = startTransaction s)
  /\
  (rejects StSave = false ->
   forall e qr,
     promoteBody rejects dto (startTransaction s) = (Err e, qr) ->
     (exists p, In p (rows (working qr)) /\ id p = nextId s)
     /\ working qr <> s
     /\ committed qr = s
     /\ release (rollbackTransaction qr) = s)
  /\
  (forall cur,
      wellFormed s ->
      findProgenitor s = Some cur ->
      id cur = PromoteAncestorDto.currentProgenitorId dto ->
      PromoteAncestorDto.gender dto
      = expectedGender (PromoteAncestorDto.relationship dto) ->
      let role := PromoteAncestorDto.relationship dto in
      let newAncestor := ancestorOfPromote dto (nextId s) in
      let after :=
        {| rows := map (fun p => if hasId (id cur) p
                                 then demote role (nextId s) p else p) (rows s)
                   ++ [newAncestor];
           nextId := nextId s + 1 |} in
      (if rejects StConnect || rejects StStartTransaction || rejects StSave
          || rejects StUpdate || rejects StCommit
       then promoteAncestor rejects dto s = (Err StoreFailure, s)
       else promoteAncestor rejects dto s = (Ok newAncestor, after))
      /\ In newAncestor (rows after)
      /\ progenitor newAncestor = true
      /\ In (demote role (id newAncestor) cur) (rows after)
      /\ progenitor (demote role (id newAncestor) cur) = false
      /\ parentField (expectedGender role) (demote role (id newAncestor) cur)
         = Some (id newAncestor)
      /\ (forall p, In p (rows s) -> id p <> id cur -> In p (rows after))
      /\ (rejects StSave || rejects StUpdate || rejects StCommit = false ->
          promoteTransaction rejects dto (startTransaction s)
          = (Ok newAncestor, {| committed := after; working := after |}))).
Proof.
  split; [intros e s'; apply promoteAncestor_Err|].
  split.
  { intros e qr H. pose proof (promoteTransaction_released _ _ _ _ _ H) as [Hc Hw].
    simpl in Hw. unfold startTransaction. destruct qr as [c w]; simpl in *.
    congruence. }
  split.
  { intros Hs e qr. unfold promoteBody, insert. rewrite Hs. simpl.
    assert (Hlen : forall w, rows w = rows s ++ [ancestorOfPromote dto (nextId s)]
                             -> w <> s).
    { intros w Hw Heq. subst w. apply (f_equal (@List.length Person)) in Hw.
      rewrite length_app in Hw. simpl in Hw. lia. }
    destruct (rejects StUpdate).
    - intros H. inversion H. subst. simpl.
      split.
      { exists (ancestorOfPromote dto (nextId s)).
        split; [apply in_or_app; right; left; reflexivity | reflexivity]. }
      split; [apply Hlen; reflexivity|]. split; reflexivity.
    - destruct (rejects StCommit); [|discriminate].
      intros H. inversion H. subst. simpl.
      split.
      + exists (if hasId (PromoteAncestorDto.currentProgenitorId dto)
                         (ancestorOfPromote dto (nextId s))
                then demote (PromoteAncestorDto.relationship dto) (nextId s)
                            (ancestorOfPromote dto (nextId s))
                else ancestorOfPromote dto (nextId s)).
        split.
        * rewrite map_app. apply in_or_app. right. left. reflexivity.
        * destruct (hasId _ _); [|reflexivity]. unfold demote.
          destruct (expectedGender (PromoteAncestorDto.relationship dto));
            reflexivity.
      + split; [|split; reflexivity].
        intros Heq. apply (f_equal nextId) in Heq. simpl in Heq. lia. }
  intros cur Hwf Hc Hi Hg role newAncestor after.
  assert (Hin : In cur (rows s))
    by (unfold findProgenitor in Hc; apply find_some in Hc; tauto).
  assert (Hafter : update (snd (insert s (ancestorOfPromote dto)))
                     (PromoteAncestorDto.currentProgenitorId dto)
                     (demote role (nextId s)) = after).
  { unfold after, update, insert. simpl. f_equal.
    rewrite map_app. simpl. rewrite <- Hi.
    replace (hasId (id cur) (ancestorOfPromote dto (nextId s))) with false;
      [reflexivity|].
    symmetry. unfold hasId. simpl. apply Z.eqb_neq.
    destruct Hwf as [_ Hlt]. specialize (Hlt cur Hin). lia. }
  split; [|split; [|split; [|split; [|split; [|split; [|split]]]]]].
  - unfold promoteAncestor.
    rewrite (promoteChecks_Ok s dto cur Hc Hi Hg).
    destruct (rejects StConnect); [reflexivity|].
    destruct (rejects StStartTransaction); [reflexivity|].
    unfold promoteTransaction, promoteBody, insert. simpl.
    destruct (rejects StSave); [reflexivity|].
    destruct (rejects StUpdate); [reflexivity|].
    destruct (rejects StCommit); [reflexivity|].
    simpl. unfold release. simpl. f_equal. exact Hafter.
  - unfold after. simpl. apply in_or_app. right. left. reflexivity.
  - reflexivity.
  - unfold after. simpl. apply in_or_app. left. apply in_map_iff.
    exists cur. unfold hasId. rewrite Z.eqb_refl. split; [reflexivity|].
    exact Hin.
  - unfold demote. destruct (expectedGender role); reflexivity.
  - unfold demote. destruct (expectedGender role); reflexivity.
  - intros p Hp Hne. unfold after. simpl. apply in_or_app. left.
    apply in_map_iff. exists p. unfold hasId. apply Z.eqb_neq in Hne.
    rewrite Hne. auto.
  - intros Hr. apply orb_false_iff in Hr. destruct Hr as [Hr H3].
    apply orb_false_iff in Hr. destruct Hr as [H1 H2].
    unfold promoteTransaction, promoteBody. rewrite H1.
    change (insert (working (startTransaction s)) (ancestorOfPromote dto))
      with (insert s (ancestorOfPromote dto)).
    unfold insert at 1. cbv zeta. rewrite H2, H3.
    unfold commitTransaction, inTransaction. simpl.
    change (update {| rows := rows s ++ [ancestorOfPromote dto (nextId s)];
                      nextId := nextId s + 1 |}
                   (PromoteAncestorDto.currentProgenitorId dto)
                   (demote (PromoteAncestorDto.relationship dto) (nextId s)))
      with (update (snd (insert s (ancestorOfPromote dto)))
                   (PromoteAncestorDto.currentProgenitorId dto)
                   (demote role (nextId s))).
    rewrite Hafter. reflexivity.
Qed.

Lemma promotion_is_atomic_witness :
  promoteAncestor (fun st => match st with StCommit => true | _ => false end)
    (Sample.newAncestor male 1 father) Sample.oneMan
  = (Err StoreFailure, Sample.oneMan)
  /\ promoteAncestor noRejection (Sample.newAncestor male 1 father) Sample.oneMan
     = (Ok (ancestorOfPromote (Sample.newAncestor male 1 father) 2),
        {| rows := [Sample.person 1 male None None false (Some 2) None;
                    ancestorOfPromote (Sample.newAncestor male 1 father) 2];
           nextId := 3 |}).
Proof.
  assert (Hwf : wellFormed Sample.oneMan).
  { split; [reflexivity|]. simpl. intros p [<- | []]. simpl. lia. }
  split.
  - destruct (promotion_is_atomic
                (fun st => match st with StCommit => true | _ => false end)
                (Sample.newAncestor male 1 father) Sample.oneMan)
      as [_ [_ [_ H]]].
    destruct (H (Sample.person 1 male None None true None None)
                Hwf eq_refl eq_refl eq_refl) as [H1 _].
    exact H1.
  - destruct (promotion_is_atomic noRejection
                (Sample.newAncestor male 1 father) Sample.oneMan)
      as [_ [_ [_ H]]].
    destruct (H (Sample.person 1 male None None true None None)
                Hwf eq_refl eq_refl eq_refl) as [H1 _].
    exact H1.
Defined.

(** ** Single progenitor *)

Lemma progenitorCount_update s i patch :
  (forall p, progenitor (patch p) = progenitor p) ->
  progenitorCount (update s i patch) = progenitorCount s.
Proof.
  intros Hp. unfold progenitorCount, update. simpl.
  induction (rows s) as [|q l IH]; simpl; [reflexivity|].
  destruct (hasId i q); rewrite ?Hp; destruct (progenitor q); simpl;
    rewrite IH; reflexivity.
Qed.

Lemma progenitorCount_insert s mk :
  progenitorCount (snd (insert s mk))
  = (progenitorCount s + (if progenitor (mk (nextId s)) then 1 else 0))%nat.
Proof.
  unfold progenitorCount, insert. simpl. rewrite filter_app, length_app.
  simpl. destruct (progenitor (mk (nextId s))); reflexivity.
Qed.

Lemma findProgenitor_None_count s :
  findProgenitor s = None -> progenitorCount s = 0%nat.
Proof.
  unfold findProgenitor, progenitorCount.
  induction (rows s) as [|q l IH]; simpl; [reflexivity|].
  destruct (progenitor q); [discriminate | exact IH].
Qed.

(** Demoting the rows that carry the id of the progenitor found leaves no
    progenitor when there was at most one. *)
Lemma progenitorCount_demote s cur r n :
  findProgenitor s = Some cur -> singleProgenitor s ->
  progenitorCount (update s (id cur) (demote r n)) = 0%nat.
Proof.
  unfold findProgenitor, singleProgenitor, progenitorCount, update. simpl.
  induction (rows s) as [|q l IH]; simpl; [discriminate|].
  destruct (progenitor q) eqn:Eq.
  - intros H Hle. inversion H. subst q. unfold hasId at 1.
    rewrite Z.eqb_refl.
    replace (progenitor (demote r n cur)) with false
      by (unfold demote; destruct (expectedGender r); reflexivity).
    simpl in Hle.
    assert (Hz : List.length (filter progenitor l) = 0%nat) by lia.
    clear - Hz. induction l as [|x l IH]; simpl; [reflexivity|].
    simpl in Hz. destruct (progenitor x) eqn:Ex; [discriminate|].
    destruct (hasId (id cur) x).
    + replace (progenitor (demote r n x)) with false
        by (unfold demote; destruct (expectedGender r); reflexivity).
      apply IH. exact Hz.
    + rewrite Ex. apply IH. exact Hz.
  - intros H Hle. destruct (hasId (id cur) q).
    + replace (progenitor (demote r n q)) with false
        by (unfold demote; destruct (expectedGender r); reflexivity).
      apply IH; assumption.
    + rewrite Eq. apply IH; assumption.
Qed.

(** [promoteAncestor] keeps the progenitor unique. *)
Lemma promoteAncestor_single_progenitor rejects dto s r s' :
  wellFormed s -> singleProgenitor s ->
  promoteAncestor rejects dto s = (r, s') -> singleProgenitor s'.
Proof.
  intros Hwf Hs H. destruct r as [p|e];
    [|apply promoteAncestor_Err in H; subst; exact Hs].
  revert H. unfold promoteAncestor.
  destruct (promoteChecks s dto) eqn:Ec; [|discriminate].
  destruct (rejects StConnect); [discriminate|].
  destruct (rejects StStartTransaction); [discriminate|].
  unfold promoteTransaction, promoteBody, release. simpl.
  destruct (rejects StSave); [discriminate|].
  destruct (rejects StUpdate); [discriminate|].
  destruct (rejects StCommit); [discriminate|].
  simpl. intros H. inversion H. subst. clear H.
  unfold promoteChecks in Ec.
  destruct (findProgenitor s) as [cur|] eqn:Ef; [|discriminate].
  apply bind_Ok in Ec. destruct Ec as [u0 [Ei _]].
  apply throwIf_Ok in Ei. apply negb_false_iff, Z.eqb_eq in Ei.
  rewrite <- Ei.
  assert (Hin : In cur (rows s))
    by (unfold findProgenitor in Ef; apply find_some in Ef; tauto).
  unfold singleProgenitor, progenitorCount, update. simpl.
  rewrite map_app, filter_app, length_app. simpl.
  replace (hasId (id cur) (ancestorOfPromote dto (nextId s))) with false.
  2:{ symmetry. unfold hasId. simpl. apply Z.eqb_neq.
      destruct Hwf as [_ Hlt]. specialize (Hlt cur Hin). lia. }
  simpl.
  pose proof (progenitorCount_demote s cur
                (PromoteAncestorDto.relationship dto) (nextId s) Ef Hs) as Hd.
  unfold progenitorCount, update in Hd. simpl in Hd. rewrite Hd. simpl. lia.
Qed.

(** C1.  The store [oneMan] has one progenitor.  Creating a person with
    [progenitor: true] succeeds there and leaves two rows flagged as
    progenitor; so does [updatePerson(2, { progenitor: true })] on a store
    whose progenitor is person 1. *)
Theorem second_progenitor_accepted :
  singleProgenitor Sample.oneMan
  /\ (exists p s',
         create (Sample.newPerson male (Some true) None None None None)
                Sample.oneMan = (Ok p, s')
         /\ progenitorCount s' = 2%nat)
  /\ singleProgenitor Sample.couple
  /\ (exists p s',
         updatePerson 2
           {| UpdatePersonDto.firstName := None;
              UpdatePersonDto.lastName := None;
              UpdatePersonDto.progenitor := Some true;
              UpdatePersonDto.birthDate := None;
              UpdatePersonDto.deathDate := None;
              UpdatePersonDto.trivia := None;
              UpdatePersonDto.fatherId := Js.Undefined;
              UpdatePersonDto.motherId := Js.Undefined |}
           Sample.couple = (Ok p, s')
         /\ progenitorCount s' = 2%nat).
Proof.
  split; [unfold singleProgenitor, progenitorCount; simpl; lia|].
  split; [do 2 eexists; split; [reflexivity | reflexivity]|].
  split; [unfold singleProgenitor, progenitorCount; simpl; lia|].
  do 2 eexists; split; [reflexivity | reflexivity].
Qed.

(** ** Acyclicity *)

Lemma ancestorOf_first_edge s a b :
  ancestorOf s a b -> exists c, parentEdge s a c.
Proof.
  unfold ancestorOf. induction 1 as [x y H | x y z _ IH _ _].
  - exists y. exact H.
  - exact IH.
Qed.

(** The unchecked creation.  The store [oneMan] is acyclic.  Creating a
    woman whose father is person 1 and whose list of children is [[1]]
    succeeds there: the new person 2 has father 1 and person 1 gets mother 2,
    so person 1 is its own ancestor. *)
Theorem create_closes_an_ancestry_loop :
  acyclic Sample.oneMan
  /\ exists p s',
      create (Sample.newPerson female None None (Some 1) None (Some [1]))
             Sample.oneMan = (Ok p, s')
      /\ ancestorOf s' 1 1
      /\ ~ acyclic s'.
Proof.
  split.
  - intros i H. apply ancestorOf_first_edge in H.
    destruct H as [c [r [Hin [_ Hp]]]].
    simpl in Hin. destruct Hin as [<- | []].
    simpl in Hp. destruct Hp; discriminate.
  - do 2 eexists. split; [reflexivity|].
    match goal with
    | |- ancestorOf ?st 1 1 /\ _ => assert (H : ancestorOf st 1 1)
    end.
    { apply t_trans with (y := 2); apply t_step.
      - eexists. split; [left; reflexivity|]. simpl. auto.
      - eexists. split; [right; left; reflexivity|]. simpl. auto. }
    split.
    + exact H.
    + intros Hac. exact (Hac 1 H).
Qed.

(** ** Role and gender of a parent *)

Lemma Gender_eqb_refl g : Gender_eqb g g = true.
Proof. destruct g; reflexivity. Qed.

(** An error of [validateParents] means that some parent id is truthy. *)
Lemma validateParents_Err_truthy s f m e :
  validateParents s f m = Err e ->
  Js.truthyOptNumber f || Js.truthyOptNumber m = true.
Proof.
  unfold validateParents. rewrite !truthyOptNumber_ifTruthy.
  destruct (ifTruthy f), (ifTruthy m); simpl; try reflexivity.
  discriminate.
Qed.

Lemma create_stops_on_validateParents s dto e :
  validateParents s (CreatePersonDto.fatherId dto) (CreatePersonDto.motherId dto)
  = Err e ->
  create dto s = (Err e, s).
Proof.
  intros H. unfold create, createChecks, validateNotOrphan.
  pose proof (validateParents_Err_truthy _ _ _ _ H) as Ht.
  unfold hasParent. rewrite Ht. simpl. rewrite H. reflexivity.
Qed.

Lemma update_stops_on_validateParents s i dto e :
  findOneById s i <> None ->
  validateParents s (Js.toOption (UpdatePersonDto.fatherId dto))
                  (Js.toOption (UpdatePersonDto.motherId dto)) = Err e ->
  updatePerson i dto s = (Err e, s).
Proof.
  intros Hx H. unfold updatePerson, updateChecks, findPersonById.
  destruct (findOneById s i) as [x|]; [|congruence]. simpl.
  pose proof (validateParents_Err_truthy _ _ _ _ H) as Ht.
  unfold updatesParent. rewrite Ht. simpl. rewrite H. reflexivity.
Qed.

Lemma rejectsWith_of_validateParents s fid mid e :
  validateParents s fid mid = Err e -> rejectsWith e s fid mid.
Proof.
  intros H. split.
  - intros dto Hf Hm. apply create_stops_on_validateParents.
    rewrite Hf, Hm. exact H.
  - intros i dto Hx Hf Hm. apply update_stops_on_validateParents; [exact Hx|].
    rewrite Hf, Hm. exact H.
Qed.

Lemma validateParents_father_female s f mid p :
  f <> 0 -> findOneById s f = Some p -> gender p = female ->
  validateParents s (Some f) mid = Err InvalidRole.
Proof.
  intros Hz Hp Hg. unfold validateParents.
  rewrite (ifTruthy_nonzero f Hz), Hp, Hg. reflexivity.
Qed.

Lemma validateParents_father_missing s f mid :
  f <> 0 -> findOneById s f = None ->
  validateParents s (Some f) mid = Err NotFound.
Proof.
  intros Hz Hp. unfold validateParents.
  rewrite (ifTruthy_nonzero f Hz), Hp. reflexivity.
Qed.

Lemma validateParents_mother s fid m :
  fatherAccepted s fid -> m <> 0 ->
  validateParents s fid (Some m)
  = match findOneById s m with
    | None => Err NotFound
    | Some p => throwIf (negb (Gender_eqb (gender p) female)) InvalidRole
    end.
Proof.
  intros Hf Hz. unfold validateParents. rewrite (ifTruthy_nonzero m Hz).
  destruct Hf as [-> | [f [q [-> [-> Hg]]]]]; [reflexivity|].
  rewrite Hg. reflexivity.
Qed.

(** C5, as amended.  A creation, or an update of an existing person, fails
    without touching the store: with [InvalidRole] when the non-zero
    [fatherId] it supplies is the id of a woman, with [NotFound] when that
    id is the id of nobody; with [InvalidRole] when the non-zero [motherId]
    it supplies is the id of a man and the father id passes the validator,
    and with the error of the father id ([NotFound] or [InvalidRole])
    otherwise. *)
Theorem role_gender_consistency (s : Store) (fid mid : option Z) :
  (forall f p, fid = Some f -> f <> 0 -> findOneById s f = Some p ->
               gender p = female -> rejectsWith InvalidRole s fid mid)
  /\ (forall f, fid = Some f -> f <> 0 -> findOneById s f = None ->
                rejectsWith NotFound s fid mid)
  /\ (forall m p, mid = Some m -> m <> 0 -> findOneById s m = Some p ->
                  gender p = male -> fatherAccepted s fid ->
                  rejectsWith InvalidRole s fid mid)
  /\ (forall m, mid = Some m -> m <> 0 -> findOneById s m = None ->
                fatherAccepted s fid -> rejectsWith NotFound s fid mid)
  /\ (forall m p, mid = Some m -> m <> 0 -> findOneById s m = Some p ->
                  gender p = male ->
                  rejectsWith InvalidRole s fid mid
                  \/ rejectsWith NotFound s fid mid).
Proof.
  split; [|split; [|split; [|split]]].
  - intros f p -> Hz Hp Hg. apply rejectsWith_of_validateParents.
    apply (validateParents_father_female s f mid p); assumption.
  - intros f -> Hz Hp. apply rejectsWith_of_validateParents.
    apply validateParents_father_missing; assumption.
  - intros m p -> Hz Hp Hg Hf. apply rejectsWith_of_validateParents.
    rewrite validateParents_mother by assumption. rewrite Hp, Hg. reflexivity.
  - intros m -> Hz Hp Hf. apply rejectsWith_of_validateParents.
    rewrite validateParents_mother by assumption. rewrite Hp. reflexivity.
  - intros m p -> Hz Hp Hg.
    destruct (ifTruthy fid) as [f|] eqn:Ef.
    + destruct (findOneById s f) as [q|] eqn:Eq.
      * destruct (gender q) eqn:Egq.
        -- left. apply rejectsWith_of_validateParents.
           rewrite validateParents_mother; [rewrite Hp, Hg; reflexivity | | exact Hz].
           right. exists f, q. auto.
        -- left. apply rejectsWith_of_validateParents.
           unfold validateParents. rewrite Ef, Eq, Egq. reflexivity.
      * right. apply rejectsWith_of_validateParents.
        unfold validateParents. rewrite Ef, Eq. reflexivity.
    + left. apply rejectsWith_of_validateParents.
      rewrite validateParents_mother; [rewrite Hp, Hg; reflexivity | | exact Hz].
      left. exact Ef.
Qed.

Lemma role_gender_consistency_witness :
  create (Sample.newPerson male None None (Some 1) None None) Sample.oneWoman
  = (Err InvalidRole, Sample.oneWoman)
  /\ create (Sample.newPerson male None None None (Some 1) None) Sample.oneMan
     = (Err InvalidRole, Sample.oneMan).
Proof.
  split.
  - destruct (role_gender_consistency Sample.oneWoman (Some 1) None)
      as [H _].
    assert (Hz : 1 <> 0) by discriminate.
    destruct (H 1 (Sample.person 1 female None None true None None)
                eq_refl Hz eq_refl eq_refl) as [Hc _].
    apply Hc; reflexivity.
  - destruct (role_gender_consistency Sample.oneMan None (Some 1))
      as [_ [_ [H _]]].
    assert (Hz : 1 <> 0) by discriminate.
    destruct (H 1 (Sample.person 1 male None None true None None)
                eq_refl Hz eq_refl eq_refl (or_introl eq_refl)) as [Hc _].
    apply Hc; reflexivity.
Defined.

(** C5, as stated, fails: person 1 of [couple] is a man; a creation that
    names him as mother and the unknown id 99 as father fails with [NotFound],
    not with [InvalidRole].  Person 2 is a woman; an update of the unknown
    person 99 that names her as father fails with [NotFound] as well. *)
Lemma mother_is_a_man_but_father_unknown :
  findOneById Sample.couple 1
  = Some (Sample.person 1 male None None true None None)
  /\ findOneById Sample.couple 99 = None
  /\ create (Sample.newPerson female None None (Some 99) (Some 1) None)
            Sample.couple
     = (Err NotFound, Sample.couple)
  /\ ~ rejectsWith InvalidRole Sample.couple (Some 99) (Some 1)
  /\ findOneById Sample.couple 2
     = Some (Sample.person 2 female None None false None None)
  /\ updatePerson 99 (withFatherId (Js.Val 2)) Sample.couple
     = (Err NotFound, Sample.couple).
Proof.
  split; [reflexivity|]. split; [reflexivity|]. split; [reflexivity|].
  split; [|split; reflexivity].
  intros [Hc _].
  specialize (Hc (Sample.newPerson female None None (Some 99) (Some 1) None)
                 eq_refl eq_refl).
  discriminate Hc.
Qed.

(** ** Invariants kept by the repository primitives *)

Lemma wellFormed_insert s mk :
  (forall n, id (mk n) = n) -> wellFormed s -> wellFormed (snd (insert s mk)).
Proof.
  intros Hid [Hpos Hlt]. unfold insert. simpl. split; simpl; [lia|].
  intros p Hp. apply in_app_or in Hp. destruct Hp as [Hp | [<- | []]].
  - specialize (Hlt p Hp). lia.
  - rewrite Hid. lia.
Qed.

Lemma wellFormed_update s i patch :
  (forall p, id (patch p) = id p) -> wellFormed s -> wellFormed (update s i patch).
Proof.
  intros Hid [Hpos Hlt]. split; [exact Hpos|]. simpl.
  intros p Hp. apply in_map_iff in Hp. destruct Hp as [q [<- Hq]].
  destruct (hasId i q); [rewrite Hid|]; apply Hlt; exact Hq.
Qed.

Lemma wellFormed_remove s p : wellFormed s -> wellFormed (remove s p).
Proof.
  intros [Hpos Hlt]. split; [exact Hpos|]. simpl.
  intros q Hq. apply filter_In in Hq. apply Hlt. tauto.
Qed.

Lemma id_setParentField g v p : id (setParentField g v p) = id p.
Proof. destruct g; reflexivity. Qed.

Lemma id_demote r n p : id (demote r n p) = id p.
Proof. unfold demote. rewrite id_setParentField. reflexivity. Qed.

Lemma wellFormed_link parent children s :
  wellFormed s -> wellFormed (linkChildrenToParentInternal s parent children).
Proof.
  unfold linkChildrenToParentInternal. revert s.
  induction children as [|c cs IH]; simpl; intros s H; [exact H|].
  apply IH. apply wellFormed_update; [|exact H].
  intros p. apply id_setParentField.
Qed.

Lemma nextId_link parent children s :
  nextId (linkChildrenToParentInternal s parent children) = nextId s.
Proof.
  unfold linkChildrenToParentInternal. revert s.
  induction children as [|c cs IH]; simpl; intros s; [reflexivity|].
  rewrite IH. reflexivity.
Qed.

Lemma noSelfParent_update s i patch :
  (forall p, In p (rows s) -> id p = i -> ownParentFree p ->
             ownParentFree (patch p)) ->
  noSelfParent s -> noSelfParent (update s i patch).
Proof.
  intros Hpatch Hs p Hp. simpl in Hp. apply in_map_iff in Hp.
  destruct Hp as [q [<- Hq]]. unfold hasId.
  destruct (id q =? i) eqn:E.
  - apply Z.eqb_eq in E. apply Hpatch; auto.
  - apply Hs. exact Hq.
Qed.

Lemma ownParentFree_setParentField g n p :
  id p <> n -> ownParentFree p -> ownParentFree (setParentField g (Some n) p).
Proof.
  intros Hne [Hf Hm]. destruct g; split; simpl; auto; congruence.
Qed.

Lemma noSelfParent_link parent children s :
  (forall c, In c children -> id c <> id parent) ->
  noSelfParent s ->
  noSelfParent (linkChildrenToParentInternal s parent children).
Proof.
  unfold linkChildrenToParentInternal. revert s.
  induction children as [|c cs IH]; simpl; intros s Hne H; [exact H|].
  apply IH; [intros c' Hc'; apply Hne; auto|].
  apply noSelfParent_update; [|exact H].
  intros p _ Hid Hfree. apply ownParentFree_setParentField; [|exact Hfree].
  rewrite Hid. apply Hne. auto.
Qed.

Lemma noSelfParent_insert s mk :
  ownParentFree (mk (nextId s)) -> noSelfParent s ->
  noSelfParent (snd (insert s mk)).
Proof.
  intros Hnew Hs p Hp. simpl in Hp. apply in_app_or in Hp.
  destruct Hp as [Hp | [<- | []]]; [apply Hs; exact Hp | exact Hnew].
Qed.

Lemma noSelfParent_remove s p : noSelfParent s -> noSelfParent (remove s p).
Proof.
  intros Hs q Hq. simpl in Hq. apply filter_In in Hq. apply Hs. tauto.
Qed.

Lemma findByIds_In s ids c :
  In c (findByIds s ids) -> In c (rows s) /\ In (id c) ids.
Proof.
  unfold findByIds. intros H. apply filter_In in H. destruct H as [H1 H2].
  split; [exact H1|]. apply existsb_exists in H2.
  destruct H2 as [x [Hx Heq]]. apply Z.eqb_eq in Heq. subst. exact Hx.
Qed.

Lemma validateChildren_Ok s ids g pb pd cs :
  validateChildren s ids g pb pd = Ok cs ->
  forall c, In c cs ->
            In c (rows s) /\ exists l, ids = Some l /\ In (id c) l.
Proof.
  unfold validateChildren. intros H.
  destruct ids as [[|i l]|]; try (inversion H; subst; intros c []).
  destruct g as [g|]; [|discriminate].
  apply bind_Ok in H. destruct H as [_ [_ H]].
  apply bind_Ok in H. destruct H as [_ [_ H]].
  apply bind_Ok in H. destruct H as [_ [_ H]].
  inversion H. subst. intros c Hc. apply findByIds_In in Hc.
  split; [tauto|]. exists (i :: l). tauto.
Qed.

(** A parent id that passes [validateParents] is not the next generated
    id. *)
Lemma validateParents_not_next s f m :
  wellFormed s -> validateParents s f m = Ok tt ->
  f <> Some (nextId s) /\ m <> Some (nextId s).
Proof.
  intros [Hpos Hlt] H. unfold validateParents in H.
  apply bind_Ok in H. destruct H as [[] [Hf Hm]].
  assert (G : forall o (ok : Error) (want : Gender),
             match ifTruthy o with
             | Some i => match findOneById s i with
                         | None => Err NotFound
                         | Some r => throwIf (negb (Gender_eqb (gender r) want)) ok
                         end
             | None => Ok tt
             end = Ok tt -> o <> Some (nextId s)).
  { intros o ok want Ho Heq. subst o. unfold ifTruthy, Js.truthyNumber in Ho.
    replace (nextId s =? 0) with false in Ho by (symmetry; apply Z.eqb_neq; lia).
    simpl in Ho. destruct (findOneById s (nextId s)) as [r|] eqn:Er;
      [|discriminate].
    apply findOneById_In in Er. destruct Er as [Hin Hid].
    specialize (Hlt r Hin). lia. }
  split; eapply G; eassumption.
Qed.

(** ** Invariants kept by the service methods *)

Lemma create_invariants dto s p s' :
  wellFormed s -> noSelfParent s -> create dto s = (Ok p, s') ->
  wellFormed s' /\ noSelfParent s'.
Proof.
  intros Hwf Hns. unfold create.
  destruct (createChecks s dto) as [[d cs]|e] eqn:E; [|discriminate].
  unfold createChecks in E.
  apply bind_Ok in E. destruct E as [d' [Hv E]].
  apply bind_Ok in E. destruct E as [[] [Hp E]].
  apply bind_Ok in E. destruct E as [[] [_ E]].
  apply bind_Ok in E. destruct E as [cs' [Hc E]].
  inversion E. subst d' cs'. clear E.
  pose proof (validateParents_not_next s _ _ Hwf Hp) as [Hf Hm].
  pose proof (validateChildren_Ok _ _ _ _ _ _ Hc) as Hcs.
  assert (Hwf1 : wellFormed (snd (insert s (entityOfCreate d))))
    by (apply wellFormed_insert; [reflexivity | exact Hwf]).
  assert (Hns1 : noSelfParent (snd (insert s (entityOfCreate d))))
    by (apply noSelfParent_insert; [split; simpl; assumption | exact Hns]).
  simpl. intros H. inversion H. subst p s'. clear H.
  destruct (0 <? List.length cs)%nat; [|split; assumption].
  split.
  - apply wellFormed_link. exact Hwf1.
  - apply noSelfParent_link; [|exact Hns1].
    intros c Hc'. simpl. destruct (Hcs c Hc') as [Hin _].
    destruct Hwf as [_ Hlt]. specialize (Hlt c Hin). lia.
Qed.

Lemma strictEqId_false v i :
  strictEqId v i = false -> forall old, old <> Some i ->
  assignNullable v old <> Some i.
Proof.
  destruct v as [| |n]; simpl; intros H old Hold; auto; [discriminate|].
  apply Z.eqb_neq in H. congruence.
Qed.

Lemma wellFormed_save s p :
  0 < id p < nextId s -> wellFormed s -> wellFormed (save s p).
Proof.
  intros Hp [Hpos Hlt]. split; [exact Hpos|]. simpl.
  intros q Hq. apply in_map_iff in Hq. destruct Hq as [r [<- Hr]].
  destruct (hasId (id p) r); [exact Hp | apply Hlt; exact Hr].
Qed.

Lemma updatePerson_invariants i dto s p s' :
  wellFormed s -> noSelfParent s -> updatePerson i dto s = (Ok p, s') ->
  wellFormed s' /\ noSelfParent s'.
Proof.
  intros Hwf Hns. unfold updatePerson.
  destruct (updateChecks s i dto) as [person|e] eqn:E; [|discriminate].
  intros H. inversion H. subst p s'. clear H.
  unfold updateChecks in E.
  apply bind_Ok in E. destruct E as [q [Hq E]].
  apply bind_Ok in E. destruct E as [[] [_ E]].
  apply bind_Ok in E. destruct E as [[] [_ E]].
  apply bind_Ok in E. destruct E as [[] [Hself E]].
  apply bind_Ok in E. destruct E as [[] [_ E]].
  apply bind_Ok in E. destruct E as [[] [_ E]].
  inversion E. subst q. clear E.
  unfold findPersonById in Hq.
  destruct (findOneById s i) as [x|] eqn:Ex; [|discriminate].
  inversion Hq. subst x. clear Hq.
  apply findOneById_In in Ex. destruct Ex as [Hin Hid].
  apply throwIf_Ok in Hself. unfold namesItself in Hself.
  apply orb_false_iff in Hself. destruct Hself as [Hsf Hsm].
  split.
  - apply wellFormed_save; [|exact Hwf].
    simpl. destruct Hwf as [_ Hlt]. apply Hlt. exact Hin.
  - unfold save. apply noSelfParent_update; [|exact Hns].
    intros r _ _ _. destruct (Hns person Hin) as [Hf Hm].
    split; simpl; rewrite Hid in *;
      apply strictEqId_false; assumption.
Qed.

Lemma removePerson_invariants i s u s' :
  wellFormed s -> noSelfParent s -> removePerson i s = (Ok u, s') ->
  wellFormed s' /\ noSelfParent s'.
Proof.
  intros Hwf Hns. unfold removePerson. break_match; [|discriminate].
  intros H. inversion H. subst. split.
  - apply wellFormed_remove. exact Hwf.
  - apply noSelfParent_remove. exact Hns.
Qed.

Lemma existsb_eqb_false i l :
  existsb (Z.eqb i) l = false -> forall j, In j l -> j <> i.
Proof.
  intros H j Hj Heq. subst j.
  assert (existsb (Z.eqb i) l = true).
  { apply existsb_exists. exists i. split; [exact Hj | apply Z.eqb_refl]. }
  congruence.
Qed.

Lemma linkChildrenToParent_invariants pid cids t s n s' :
  wellFormed s -> noSelfParent s ->
  linkChildrenToParent pid cids t s = (Ok n, s') ->
  wellFormed s' /\ noSelfParent s'.
Proof.
  intros Hwf Hns. unfold linkChildrenToParent.
  destruct (linkChecks s pid cids t) as [[parent children]|e] eqn:E;
    [|discriminate].
  intros H. inversion H. subst n s'. clear H.
  unfold linkChecks in E.
  apply bind_Ok in E. destruct E as [q [Hq E]].
  apply bind_Ok in E. destruct E as [[] [_ E]].
  apply bind_Ok in E. destruct E as [[] [Hself E]].
  apply bind_Ok in E. destruct E as [[] [_ E]].
  apply bind_Ok in E. destruct E as [[] [_ E]].
  apply bind_Ok in E. destruct E as [cs [Hc E]].
  inversion E. subst q cs. clear E.
  unfold findPersonById in Hq.
  destruct (findOneById s pid) as [x|] eqn:Ex; [|discriminate].
  inversion Hq. subst x. clear Hq.
  apply findOneById_In in Ex. destruct Ex as [_ Hid].
  apply throwIf_Ok in Hself.
  pose proof (validateChildren_Ok _ _ _ _ _ _ Hc) as Hcs.
  split.
  - apply wellFormed_link. exact Hwf.
  - apply noSelfParent_link; [|exact Hns].
    intros c Hc'. destruct (Hcs c Hc') as [_ [l [Hl Hin]]].
    inversion Hl. subst l. rewrite Hid.
    apply (existsb_eqb_false pid cids Hself). exact Hin.
Qed.

Lemma promoteAncestor_invariants rejects dto s p s' :
  wellFormed s -> noSelfParent s ->
  promoteAncestor rejects dto s = (Ok p, s') ->
  wellFormed s' /\ noSelfParent s'.
Proof.
  intros Hwf Hns. unfold promoteAncestor.
  destruct (promoteChecks s dto) eqn:Ec; [|discriminate].
  destruct (rejects StConnect); [discriminate|].
  destruct (rejects StStartTransaction); [discriminate|].
  unfold promoteTransaction, promoteBody, release. simpl.
  destruct (rejects StSave); [discriminate|].
  destruct (rejects StUpdate); [discriminate|].
  destruct (rejects StCommit); [discriminate|].
  simpl. intros H. inversion H. subst p s'. clear H.
  unfold promoteChecks in Ec.
  destruct (findProgenitor s) as [cur|] eqn:Ef; [|discriminate].
  apply bind_Ok in Ec. destruct Ec as [[] [Ei _]].
  apply throwIf_Ok in Ei. apply negb_false_iff, Z.eqb_eq in Ei.
  assert (Hin : In cur (rows s))
    by (unfold findProgenitor in Ef; apply find_some in Ef; tauto).
  assert (Hlt : id cur < nextId s)
    by (destruct Hwf as [_ Hlt]; specialize (Hlt cur Hin); lia).
  pose proof (wellFormed_insert s (ancestorOfPromote dto)
                (fun n => eq_refl) Hwf) as Hwf1.
  assert (Hns1 : noSelfParent (snd (insert s (ancestorOfPromote dto))))
    by (apply noSelfParent_insert; [split; simpl; discriminate | exact Hns]).
  split.
  - apply (wellFormed_update _ _ _ (id_demote _ _) Hwf1).
  - apply noSelfParent_update; [|exact Hns1].
    intros r _ Hid Hfree. unfold demote.
    apply ownParentFree_setParentField.
    + simpl. rewrite Hid, <- Ei. lia.
    + exact Hfree.
Qed.

Lemma run_failed m s s' : run m s = (false, s') -> s' = s.
Proof.
  destruct m; simpl.
  - destruct (create dto s) as [[p|e] s1] eqn:E; simpl; intros H;
      inversion H; subst. eapply create_Err; eassumption.
  - destruct (updatePerson i dto s) as [[p|e] s1] eqn:E; simpl; intros H;
      inversion H; subst. eapply updatePerson_Err; eassumption.
  - destruct (removePerson i s) as [[p|e] s1] eqn:E; simpl; intros H;
      inversion H; subst. eapply removePerson_Err; eassumption.
  - destruct (linkChildrenToParent parentId childrenIds parentType s)
      as [[p|e] s1] eqn:E; simpl; intros H;
      inversion H; subst. eapply linkChildrenToParent_Err; eassumption.
  - destruct (promoteAncestor rejects dto s) as [[p|e] s1] eqn:E; simpl;
      intros H; inversion H; subst. eapply promoteAncestor_Err; eassumption.
Qed.

Lemma run_invariants m s s' :
  wellFormed s -> noSelfParent s -> run m s = (true, s') ->
  wellFormed s' /\ noSelfParent s'.
Proof.
  intros Hwf Hns. destruct m; simpl.
  - destruct (create dto s) as [[p|e] s1] eqn:E; simpl; intros H;
      inversion H; subst. eapply create_invariants; eassumption.
  - destruct (updatePerson i dto s) as [[p|e] s1] eqn:E; simpl; intros H;
      inversion H; subst. eapply updatePerson_invariants; eassumption.
  - destruct (removePerson i s) as [[p|e] s1] eqn:E; simpl; intros H;
      inversion H; subst. eapply removePerson_invariants; eassumption.
  - destruct (linkChildrenToParent parentId childrenIds parentType s)
      as [[p|e] s1] eqn:E; simpl; intros H;
      inversion H; subst. eapply linkChildrenToParent_invariants; eassumption.
  - destruct (promoteAncestor rejects dto s) as [[p|e] s1] eqn:E; simpl;
      intros H; inversion H; subst.
    eapply promoteAncestor_invariants; eassumption.
Qed.

Lemma runAll_invariants ms s :
  wellFormed s -> noSelfParent s ->
  wellFormed (runAll ms s) /\ noSelfParent (runAll ms s).
Proof.
  unfold runAll. revert s.
  induction ms as [|m ms IH]; simpl; intros s Hwf Hns; [auto|].
  destruct (run m s) as [[|] s1] eqn:E; simpl.
  - destruct (run_invariants m s s1 Hwf Hns E). apply IH; assumption.
  - apply run_failed in E. subst. apply IH; assumption.
Qed.

Lemma acceptedChildren_In rejects children c :
  In c (acceptedChildren rejects children) -> In c children.
Proof. unfold acceptedChildren. intros H. apply filter_In in H. tauto. Qed.

(** No request, however the repository serves it, makes a person its own
    parent. *)
Lemma serve_invariants rejects m s ok s' :
  wellFormed s -> noSelfParent s ->
  serve rejects m s = (ok, s') -> wellFormed s' /\ noSelfParent s'.
Proof.
  intros Hwf Hns.
  assert (Hrun : forall b s1, run m s = (b, s1) ->
                              wellFormed s1 /\ noSelfParent s1).
  { intros [|] s1 Hr.
    - apply (run_invariants m s s1 Hwf Hns Hr).
    - apply run_failed in Hr. subst s1. auto. }
  destruct m; simpl in *.
  - rewrite Faulty_create_outcome.
    destruct (createChecks s dto) as [[d cs]|e0] eqn:E.
    + destruct (rejects RcSave); [intros H; inversion H; subst; auto|].
      destruct (rejectsAChild rejects cs).
      * intros H. inversion H. subst ok s'. clear H.
        apply createChecks_Ok in E. destruct E as [_ [Hp Hc]].
        pose proof (validateParents_not_next s _ _ Hwf Hp) as [Hf Hm].
        pose proof (validateChildren_Ok _ _ _ _ _ _ Hc) as Hcs.
        assert (Hwf1 : wellFormed (snd (insert s (entityOfCreate d))))
          by (apply wellFormed_insert; [reflexivity | exact Hwf]).
        assert (Hns1 : noSelfParent (snd (insert s (entityOfCreate d))))
          by (apply noSelfParent_insert; [split; simpl; assumption | exact Hns]).
        split; [apply wellFormed_link; exact Hwf1|].
        apply noSelfParent_link; [|exact Hns1].
        intros c Hc'. apply acceptedChildren_In in Hc'. simpl.
        destruct (Hcs c Hc') as [Hin _].
        destruct Hwf as [_ Hlt]. specialize (Hlt c Hin). lia.
      * destruct (create dto s) as [r s1] eqn:Ec. intros H. inversion H.
        subst ok s'. apply (Hrun (succeeded r) s1). reflexivity.
    + intros H. inversion H. subst. auto.
  - rewrite Faulty_updatePerson_outcome.
    destruct (updateChecks s i dto) as [person|e0] eqn:E.
    + destruct (rejects RcSave); [intros H; inversion H; subst; auto|].
      destruct (updatePerson i dto s) as [r s1] eqn:Ec. intros H. inversion H.
      subst ok s'. apply (Hrun (succeeded r) s1). reflexivity.
    + intros H. inversion H. subst. auto.
  - rewrite Faulty_removePerson_outcome.
    destruct (removePerson i s) as [[[]|e0] s1] eqn:E.
    + destruct (rejects RcRemove); intros H; inversion H; subst; auto.
      eapply Hrun. reflexivity.
    + intros H. inversion H. subst. auto.
  - rewrite Faulty_linkChildrenToParent_outcome.
    destruct (linkChecks s parentId childrenIds parentType)
      as [[parent children]|e0] eqn:E.
    + destruct (rejectsAChild rejects children).
      * intros H. inversion H. subst ok s'. clear H.
        apply linkChecks_Ok in E. destruct E as [Hx [Hself [_ Hc]]].
        apply findOneById_In in Hx. destruct Hx as [_ Hid].
        pose proof (validateChildren_Ok _ _ _ _ _ _ Hc) as Hcs.
        split; [apply wellFormed_link; exact Hwf|].
        apply noSelfParent_link; [|exact Hns].
        intros c Hc'. apply acceptedChildren_In in Hc'.
        destruct (Hcs c Hc') as [_ [l [Hl Hin]]].
        inversion Hl. subst l. rewrite Hid.
        apply (existsb_eqb_false parentId childrenIds Hself). exact Hin.
      * destruct (linkChildrenToParent parentId childrenIds parentType s)
          as [r s1] eqn:Ec.
        intros H. inversion H. subst ok s'.
        apply (Hrun (succeeded r) s1). reflexivity.
    + intros H. inversion H. subst. auto.
  - destruct (promoteAncestor rejects0 dto s) as [r s1] eqn:Ec.
    intros H. inversion H. subst ok s'.
    apply (Hrun (succeeded r) s1). reflexivity.
Qed.

Lemma serveAll_invariants requests :
  forall s, wellFormed s -> noSelfParent s ->
            wellFormed (serveAll requests s) /\ noSelfParent (serveAll requests s).
Proof.
  unfold serveAll.
  induction requests as [|[rejects m] l IH]; simpl; intros s Hwf Hns; [auto|].
  destruct (serve rejects m s) as [ok s1] eqn:E. simpl.
  destruct (serve_invariants rejects m s ok s1 Hwf Hns E).
  apply IH; assumption.
Qed.

(** ** Naming a person as its own parent *)

Lemma truthyNumber_nonzero n : n <> 0 -> Js.truthyNumber n = true.
Proof.
  intros H. unfold Js.truthyNumber. apply Z.eqb_neq in H. rewrite H.
  reflexivity.
Qed.

(** A person with a birth year is too young to be its own parent. *)
Lemma parentBirthCheck_self b y X :
  ifTruthyString (birthDate X) = Some b -> extractYear b = Some y ->
  parentBirthCheck b X = Err ImplausibleAge.
Proof.
  intros Hb Hy. unfold parentBirthCheck. rewrite Hb, Hy. simpl.
  rewrite Z.leb_refl. reflexivity.
Qed.

(** The outcome of [updatePerson(X.id, { fatherId: X.id })]. *)
Lemma update_own_father s X :
  id X <> 0 -> findOneById s (id X) = Some X ->
  updatePerson (id X) (withFatherId (Js.Val (id X))) s
  = (Err match gender X with
         | female => InvalidRole
         | male =>
             match validateParentDates s (birthDate X) (Some (id X)) (motherId X) with
             | Err e => e
             | Ok _ => SelfParent
             end
         end, s).
Proof.
  intros Hz HX. unfold updatePerson, updateChecks.
  rewrite (findPersonById_found s X HX). simpl.
  unfold updatesParent, updatesDates, namesItself. simpl.
  rewrite (truthyNumber_nonzero _ Hz), Z.eqb_refl. simpl.
  unfold validateParents. rewrite (ifTruthy_nonzero _ Hz), HX. simpl.
  destruct (gender X); simpl; [|reflexivity].
  destruct (validateParentDates s (birthDate X) (Some (id X)) (motherId X));
    reflexivity.
Qed.

(** The outcome of [updatePerson(X.id, { motherId: X.id })]. *)
Lemma update_own_mother s X :
  id X <> 0 -> findOneById s (id X) = Some X ->
  updatePerson (id X) (withMotherId (Js.Val (id X))) s
  = (Err match gender X with
         | male => InvalidRole
         | female =>
             match validateParentDates s (birthDate X) (fatherId X) (Some (id X)) with
             | Err e => e
             | Ok _ => SelfParent
             end
         end, s).
Proof.
  intros Hz HX. unfold updatePerson, updateChecks.
  rewrite (findPersonById_found s X HX). simpl.
  unfold updatesParent, updatesDates, namesItself. simpl.
  rewrite (truthyNumber_nonzero _ Hz), Z.eqb_refl. simpl.
  unfold validateParents. simpl. rewrite (truthyNumber_nonzero _ Hz), HX.
  destruct (gender X); simpl; [reflexivity|].
  destruct (validateParentDates s (birthDate X) (fatherId X) (Some (id X)));
    reflexivity.
Qed.

Lemma validateParentDates_no_birth s cb f m :
  ifTruthyString cb = None -> validateParentDates s cb f m = Ok tt.
Proof. unfold validateParentDates. intros ->. reflexivity. Qed.

Lemma validateParentDates_own_father s X b y m :
  id X <> 0 -> findOneById s (id X) = Some X ->
  ifTruthyString (birthDate X) = Some b -> extractYear b = Some y ->
  validateParentDates s (birthDate X) (Some (id X)) m = Err ImplausibleAge.
Proof.
  intros Hz HX Hb Hy. unfold validateParentDates, fatherDatesCheck.
  rewrite Hb, (ifTruthy_nonzero _ Hz), HX.
  rewrite (parentBirthCheck_self b y X Hb Hy). reflexivity.
Qed.

Lemma validateParentDates_own_mother s X b y f :
  id X <> 0 -> findOneById s (id X) = Some X ->
  ifTruthyString (birthDate X) = Some b -> extractYear b = Some y ->
  exists e, validateParentDates s (birthDate X) f (Some (id X)) = Err e
            /\ (e = ImplausibleAge \/ e = ImplausibleDeathWindow).
Proof.
  intros Hz HX Hb Hy.
  destruct (validateParentDates s (birthDate X) f (Some (id X))) as [u|e] eqn:E.
  - exfalso. unfold validateParentDates in E. rewrite Hb in E.
    apply bind_Ok in E. destruct E as [_ [_ E]].
    unfold motherDatesCheck in E.
    rewrite (ifTruthy_nonzero _ Hz), HX in E.
    rewrite (parentBirthCheck_self b y X Hb Hy) in E. discriminate.
  - exists e. split; [reflexivity|].
    eapply validateParentDates_errors. eassumption.
Qed.

(** A birth date without a readable year, and not of the three-part form,
    passes the temporal validation whatever the parents. *)
Lemma validateParentDates_unreadable s cb f m :
  extractYear cb = None -> isFullDate cb = false ->
  validateParentDates s (Some cb) f m = Ok tt.
Proof.
  intros Hy Hfull.
  assert (Hb : forall p, parentBirthCheck cb p = Ok tt).
  { intros p. unfold parentBirthCheck. rewrite Hy.
    destruct (ifTruthyString (birthDate p)) as [pbd|]; [|reflexivity].
    destruct (extractYear pbd); reflexivity. }
  assert (Hf : forall p, fatherDeathCheck cb p = Ok tt).
  { intros p. unfold fatherDeathCheck. rewrite Hy, Hfull.
    destruct (ifTruthyString (deathDate p)) as [d|]; [|reflexivity].
    rewrite andb_false_r.
    destruct (extractYear d); destruct (isYearOnly d); reflexivity. }
  assert (Hm : forall p, motherDeathCheck cb p = Ok tt).
  { intros p. unfold motherDeathCheck. rewrite Hy, Hfull.
    destruct (ifTruthyString (deathDate p)) as [d|]; [|reflexivity].
    rewrite andb_false_r.
    destruct (extractYear d); destruct (isYearOnly d); reflexivity. }
  unfold validateParentDates.
  destruct (ifTruthyString (Some cb)) as [cb'|] eqn:E; [|reflexivity].
  assert (cb' = cb) by (simpl in E; destruct (Js.truthyString cb);
                        [inversion E; reflexivity | discriminate]).
  subst cb'.
  unfold fatherDatesCheck, motherDatesCheck.
  destruct (ifTruthy f) as [fi|]; [destruct (findOneById s fi) as [fr|]|];
    try rewrite Hb; try rewrite Hf; cbn [bind];
    (destruct (ifTruthy m) as [mi|]; [destruct (findOneById s mi) as [mr|]|];
     try rewrite Hb; try rewrite Hm; reflexivity).
Qed.

Lemma ifTruthyString_Some o d : ifTruthyString o = Some d -> o = Some d.
Proof.
  unfold ifTruthyString. destruct o as [x|]; [|discriminate].
  destruct (Js.truthyString x); intros H; inversion H. reflexivity.
Qed.

(** C4, as amended.  In a well-formed store without self-parent links:
    for every person [X] of the store, [updatePerson(X.id, { fatherId:
    X.id })] fails and leaves the store as it was.  The error is
    [InvalidRole] when [X] is a woman; when [X] is a man it is the error of
    the temporal validator if that fails, and [SelfParent] if it passes:
    [SelfParent] for a man without birth date, or with an ASCII birth date
    that has no readable year and is not of the three-part form, and
    [ImplausibleAge] for a man whose birth date has a year.  Symmetrically
    for [{ motherId: X.id }], where a woman with a birth year gets an error
    of the temporal validator.  After every committed mutation, and after
    every sequence of requests, the store is still well-formed and without
    self-parent links; so it is when the repository rejects writes, after
    requests that fail as after requests that succeed. *)
Theorem self_parent_exclusion (s : Store) :
  wellFormed s -> noSelfParent s ->
  (forall X, findOneById s (id X) = Some X ->
     let answer := updatePerson (id X) (withFatherId (Js.Val (id X))) s in
     let dates := validateParentDates s (birthDate X) (Some (id X)) (motherId X) in
     snd answer = s
     /\ (exists e, fst answer = Err e)
     /\ (gender X = female -> fst answer = Err InvalidRole)
     /\ (gender X = male -> dates = Ok tt -> fst answer = Err SelfParent)
     /\ (gender X = male -> forall e, dates = Err e -> fst answer = Err e)
     /\ (gender X = male -> ifTruthyString (birthDate X) = None ->
         fst answer = Err SelfParent)
     /\ (gender X = male ->
         forall b, ifTruthyString (birthDate X) = Some b ->
                   Js.isAscii b = true -> extractYear b = None ->
                   isFullDate b = false ->
                   fst answer = Err SelfParent)
     /\ (gender X = male ->
         forall b y, ifTruthyString (birthDate X) = Some b ->
                     extractYear b = Some y ->
                     fst answer = Err ImplausibleAge))
  /\ (forall X, findOneById s (id X) = Some X ->
     let answer := updatePerson (id X) (withMotherId (Js.Val (id X))) s in
     let dates := validateParentDates s (birthDate X) (fatherId X) (Some (id X)) in
     snd answer = s
     /\ (exists e, fst answer = Err e)
     /\ (gender X = male -> fst answer = Err InvalidRole)
     /\ (gender X = female -> dates = Ok tt -> fst answer = Err SelfParent)
     /\ (gender X = female -> forall e, dates = Err e -> fst answer = Err e)
     /\ (gender X = female -> ifTruthyString (birthDate X) = None ->
         fst answer = Err SelfParent)
     /\ (gender X = female ->
         forall b, ifTruthyString (birthDate X) = Some b ->
                   Js.isAscii b = true -> extractYear b = None ->
                   isFullDate b = false ->
                   fst answer = Err SelfParent)
     /\ (gender X = female ->
         forall b y, ifTruthyString (birthDate X) = Some b ->
                     extractYear b = Some y ->
                     fst answer = Err ImplausibleAge
                     \/ fst answer = Err ImplausibleDeathWindow))
  /\ (forall m s', run m s = (true, s') -> wellFormed s' /\ noSelfParent s')
  /\ (forall ms, wellFormed (runAll ms s) /\ noSelfParent (runAll ms s))
  /\ (forall requests,
         wellFormed (serveAll requests s) /\ noSelfParent (serveAll requests s)).
Proof.
  intros Hwf Hns.
  assert (Hz : forall X, findOneById s (id X) = Some X -> id X <> 0).
  { intros X HX. destruct Hwf as [_ Hlt]. apply findOneById_In in HX.
    destruct HX as [Hin _]. specialize (Hlt X Hin). lia. }
  split; [|split; [|split; [|split]]].
  - intros X HX answer dates. unfold answer.
    rewrite (update_own_father s X (Hz X HX) HX). cbn [fst snd].
    fold dates.
    split; [reflexivity|]. split; [eexists; reflexivity|].
    split; [intros ->; reflexivity|].
    split; [intros -> ->; reflexivity|].
    split; [intros -> e ->; reflexivity|].
    split; [|split].
    + intros -> Hb. unfold dates.
      rewrite validateParentDates_no_birth by exact Hb. reflexivity.
    + intros -> b Hb _ Hy Hfull. unfold dates.
      rewrite (ifTruthyString_Some _ _ Hb).
      rewrite (validateParentDates_unreadable s b _ _ Hy Hfull). reflexivity.
    + intros -> b y Hb Hy. unfold dates.
      rewrite (validateParentDates_own_father s X b y _ (Hz X HX) HX Hb Hy).
      reflexivity.
  - intros X HX answer dates. unfold answer.
    rewrite (update_own_mother s X (Hz X HX) HX). cbn [fst snd].
    fold dates.
    split; [reflexivity|]. split; [eexists; reflexivity|].
    split; [intros ->; reflexivity|].
    split; [intros -> ->; reflexivity|].
    split; [intros -> e ->; reflexivity|].
    split; [|split].
    + intros -> Hb. unfold dates.
      rewrite validateParentDates_no_birth by exact Hb. reflexivity.
    + intros -> b Hb _ Hy Hfull. unfold dates.
      rewrite (ifTruthyString_Some _ _ Hb).
      rewrite (validateParentDates_unreadable s b _ _ Hy Hfull). reflexivity.
    + intros -> b y Hb Hy. unfold dates.
      destruct (validateParentDates_own_mother s X b y (fatherId X)
                  (Hz X HX) HX Hb Hy) as [e [-> He]].
      destruct He as [-> | ->]; auto.
  - intros m s'. apply run_invariants; assumption.
  - intros ms. apply runAll_invariants; assumption.
  - intros requests. apply serveAll_invariants; assumption.
Qed.

Lemma self_parent_exclusion_witness :
  updatePerson 1 (withFatherId (Js.Val 1)) Sample.oneMan
  = (Err SelfParent, Sample.oneMan)
  /\ wellFormed (runAll [MUpdate 1 (withFatherId (Js.Val 1))] Sample.emptyStore)
  /\ noSelfParent (runAll [MUpdate 1 (withFatherId (Js.Val 1))] Sample.emptyStore).
Proof.
  assert (Hwf : wellFormed Sample.oneMan).
  { split; [reflexivity|]. simpl. intros p [<- | []]. simpl. lia. }
  assert (Hns : noSelfParent Sample.oneMan).
  { intros p [<- | []]. split; discriminate. }
  assert (Hwf0 : wellFormed Sample.emptyStore).
  { split; [reflexivity|]. simpl. intros p []. }
  assert (Hns0 : noSelfParent Sample.emptyStore).
  { intros p []. }
  split.
  - destruct (self_parent_exclusion Sample.oneMan Hwf Hns) as [H _].
    destruct (H (Sample.person 1 male None None true None None) eq_refl)
      as [H1 [_ [_ [_ [_ [H2 _]]]]]].
    specialize (H2 eq_refl eq_refl). cbn zeta in H1, H2.
    rewrite (surjective_pairing
               (updatePerson 1 (withFatherId (Js.Val 1)) Sample.oneMan)).
    change (id (Sample.person 1 male None None true None None)) with 1 in H1, H2.
    rewrite H1, H2. reflexivity.
  - destruct (self_parent_exclusion Sample.emptyStore Hwf0 Hns0)
      as [_ [_ [_ [H _]]]].
    apply H.
Defined.

(** C4, as stated, fails: person 1 of [oneWoman] is a woman, and naming her
    as her own father fails with [InvalidRole], not with [SelfParent]. *)
Lemma own_father_of_a_woman :
  findOneById Sample.oneWoman 1
  = Some (Sample.person 1 female None None true None None)
  /\ updatePerson 1 (withFatherId (Js.Val 1)) Sample.oneWoman
     = (Err InvalidRole, Sample.oneWoman)
  /\ fst (updatePerson 1 (withFatherId (Js.Val 1)) Sample.oneWoman)
     <> Err SelfParent.
Proof.
  split; [reflexivity|]. split; [reflexivity|]. discriminate.
Qed.

(** ** Calendar arithmetic *)

Lemma dayFromYear_next y :
  JsDate.dayFromYear (y + 1)
  = JsDate.dayFromYear y + 365 + (if JsDate.inLeapYear y then 1 else 0).
Proof.
  unfold JsDate.dayFromYear, JsDate.inLeapYear.
  destruct (y mod 4 =? 0) eqn:E4; destruct (y mod 100 =? 0) eqn:E100;
    destruct (y mod 400 =? 0) eqn:E400; cbn [negb andb orb];
    rewrite ?Z.eqb_eq, ?Z.eqb_neq in *;
    Z.div_mod_to_equations; lia.
Qed.

Lemma dayFromYear_mono a b :
  a < b -> JsDate.dayFromYear (a + 1) <= JsDate.dayFromYear b.
Proof.
  intros H. unfold JsDate.dayFromYear. Z.div_mod_to_equations. lia.
Qed.

Ltac month_case m :=
  subst m;
  repeat match goal with
         | |- context [Z.sub (Zpos ?a) 1] =>
             let t := eval vm_compute in (Z.sub (Zpos a) 1) in
             change (Z.sub (Zpos a) 1) with t
         end;
  cbn [JsDate.daysBeforeMonth] in *.

Lemma daysBeforeMonth_bound y m d :
  calendarDate (y, m, d) ->
  0 <= JsDate.daysBeforeMonth (JsDate.inLeapYear y) (m - 1) + d - 1
  < 365 + (if JsDate.inLeapYear y then 1 else 0).
Proof.
  unfold calendarDate, daysInMonth. intros [Hm Hd].
  assert (C : m = 1 \/ m = 2 \/ m = 3 \/ m = 4 \/ m = 5 \/ m = 6 \/ m = 7
              \/ m = 8 \/ m = 9 \/ m = 10 \/ m = 11 \/ m = 12) by lia.
  destruct (JsDate.inLeapYear y);
    repeat (destruct C as [C | C]; [month_case m; lia|]);
    month_case m; lia.
Qed.

Lemma daysBeforeMonth_lt y m1 d1 m2 d2 :
  calendarDate (y, m1, d1) -> calendarDate (y, m2, d2) ->
  m1 < m2 \/ (m1 = m2 /\ d1 < d2) ->
  JsDate.daysBeforeMonth (JsDate.inLeapYear y) (m1 - 1) + d1
  < JsDate.daysBeforeMonth (JsDate.inLeapYear y) (m2 - 1) + d2.
Proof.
  unfold calendarDate, daysInMonth. intros [Hm1 Hd1] [Hm2 Hd2] Hlt.
  assert (C1 : m1 = 1 \/ m1 = 2 \/ m1 = 3 \/ m1 = 4 \/ m1 = 5 \/ m1 = 6
               \/ m1 = 7 \/ m1 = 8 \/ m1 = 9 \/ m1 = 10 \/ m1 = 11 \/ m1 = 12)
    by lia.
  assert (C2 : m2 = 1 \/ m2 = 2 \/ m2 = 3 \/ m2 = 4 \/ m2 = 5 \/ m2 = 6
               \/ m2 = 7 \/ m2 = 8 \/ m2 = 9 \/ m2 = 10 \/ m2 = 11 \/ m2 = 12)
    by lia.
  destruct (JsDate.inLeapYear y);
    repeat (destruct C1 as [C1 | C1]; [month_case m1|]); try month_case m1;
    repeat (destruct C2 as [C2 | C2]; [month_case m2|]); try month_case m2;
    lia.
Qed.

Lemma makeDay_calendar y m d :
  1 <= m <= 12 ->
  JsDate.makeDay y (m - 1) d
  = JsDate.dayFromYear y
    + JsDate.daysBeforeMonth (JsDate.inLeapYear y) (m - 1) + d - 1.
Proof.
  intros Hm. unfold JsDate.makeDay.
  replace ((m - 1) / 12) with 0 by (symmetry; apply Z.div_small; lia).
  replace ((m - 1) mod 12) with (m - 1) by (symmetry; apply Z.mod_small; lia).
  rewrite Z.add_0_r. reflexivity.
Qed.

Lemma makeDay_precedes a b :
  calendarDate a -> calendarDate b -> precedes a b ->
  (let '(y1, m1, d1) := a in JsDate.makeDay y1 (m1 - 1) d1)
  < (let '(y2, m2, d2) := b in JsDate.makeDay y2 (m2 - 1) d2).
Proof.
  destruct a as [[y1 m1] d1], b as [[y2 m2] d2]. intros Ha Hb Hp.
  rewrite !makeDay_calendar by (simpl in Ha, Hb; tauto).
  pose proof (daysBeforeMonth_bound y1 m1 d1 Ha) as B1.
  pose proof (daysBeforeMonth_bound y2 m2 d2 Hb) as B2.
  simpl in Hp. destruct Hp as [Hy | [Hy Hmd]].
  - pose proof (dayFromYear_mono y1 y2 Hy) as Hmono.
    rewrite dayFromYear_next in Hmono. lia.
  - subst y2.
    pose proof (daysBeforeMonth_lt y1 m1 d1 m2 d2 Ha Hb Hmd). lia.
Qed.

Lemma precedes_total a b : precedes a b \/ a = b \/ precedes b a.
Proof.
  destruct a as [[y1 m1] d1], b as [[y2 m2] d2]. simpl.
  destruct (Z.lt_trichotomy y1 y2) as [H | [H | H]]; [lia| |lia].
  destruct (Z.lt_trichotomy m1 m2) as [G | [G | G]]; [lia| |lia].
  destruct (Z.lt_trichotomy d1 d2) as [K | [K | K]]; [lia| |lia].
  right. left. subst. reflexivity.
Qed.

Lemma makeDay_lt_iff a b :
  calendarDate a -> calendarDate b ->
  ((let '(y1, m1, d1) := a in JsDate.makeDay y1 (m1 - 1) d1)
   < (let '(y2, m2, d2) := b in JsDate.makeDay y2 (m2 - 1) d2)
   <-> precedes a b).
Proof.
  intros Ha Hb. split; [|apply makeDay_precedes; assumption].
  intros Hlt. destruct (precedes_total a b) as [H | [H | H]]; [exact H| |].
  - subst b. lia.
  - pose proof (makeDay_precedes b a Hb Ha H). lia.
Qed.

(** ** Temporal validation: minimum age of a parent *)

Lemma parentBirthCheck_result cb parent pb py cy :
  ifTruthyString (birthDate parent) = Some pb ->
  extractYear pb = Some py -> extractYear cb = Some cy ->
  parentBirthCheck cb parent
  = if (cy <=? py) || (cy - py <? minParentAge) then Err ImplausibleAge
    else Ok tt.
Proof.
  intros Hb Hp Hc. unfold parentBirthCheck. rewrite Hb, Hp, Hc. simpl.
  destruct (cy <=? py); simpl; [reflexivity|].
  destruct (cy - py <? minParentAge); reflexivity.
Qed.

Lemma tooYoung_iff cy py :
  (cy <=? py) || (cy - py <? minParentAge) = true
  <-> (~ py < cy \/ cy - py < 14).
Proof.
  unfold minParentAge. rewrite orb_true_iff, Z.leb_le, Z.ltb_lt. lia.
Qed.

Lemma fatherDatesCheck_found s cb i p :
  i <> 0 -> findOneById s i = Some p ->
  fatherDatesCheck s cb (Some i)
  = (parentBirthCheck cb p ;; fatherDeathCheck cb p).
Proof.
  intros Hz Hp. unfold fatherDatesCheck.
  rewrite (ifTruthy_nonzero i Hz), Hp. reflexivity.
Qed.

Lemma motherDatesCheck_found s cb i p :
  i <> 0 -> findOneById s i = Some p ->
  motherDatesCheck s cb (Some i)
  = (parentBirthCheck cb p ;; motherDeathCheck cb p).
Proof.
  intros Hz Hp. unfold motherDatesCheck.
  rewrite (ifTruthy_nonzero i Hz), Hp. reflexivity.
Qed.

Lemma validateParentDates_present s cb f m :
  Js.truthyString cb = true ->
  validateParentDates s (Some cb) f m
  = (fatherDatesCheck s cb f ;; motherDatesCheck s cb m).
Proof.
  intros Hc. unfold validateParentDates, ifTruthyString. rewrite Hc.
  reflexivity.
Qed.

(** An error of [validateParentDates] means that some parent id is truthy. *)
Lemma validateParentDates_Err_truthy s cb f m e :
  validateParentDates s cb f m = Err e ->
  Js.truthyOptNumber f || Js.truthyOptNumber m = true.
Proof.
  unfold validateParentDates, fatherDatesCheck, motherDatesCheck.
  rewrite !truthyOptNumber_ifTruthy.
  destruct (ifTruthyString cb); [|discriminate].
  destruct (ifTruthy f), (ifTruthy m); simpl; try reflexivity.
  discriminate.
Qed.

Lemma create_stops_on_validateParentDates s dto e :
  validateParents s (CreatePersonDto.fatherId dto) (CreatePersonDto.motherId dto)
  = Ok tt ->
  validateParentDates s (CreatePersonDto.birthDate dto)
    (CreatePersonDto.fatherId dto) (CreatePersonDto.motherId dto) = Err e ->
  create dto s = (Err e, s).
Proof.
  intros Hp H. unfold create, createChecks, validateNotOrphan.
  pose proof (validateParentDates_Err_truthy _ _ _ _ _ H) as Ht.
  unfold hasParent. rewrite Ht. simpl. rewrite Hp. simpl. rewrite H.
  reflexivity.
Qed.

Lemma update_stops_on_validateParentDates s i x dto e :
  findOneById s i = Some x ->
  when (updatesParent dto)
       (validateParents s (Js.toOption (UpdatePersonDto.fatherId dto))
                        (Js.toOption (UpdatePersonDto.motherId dto))) = Ok tt ->
  updatesDates dto = true ->
  validateParentDates s
    (Js.nullishOpt (UpdatePersonDto.birthDate dto) (birthDate x))
    (Js.nullish (UpdatePersonDto.fatherId dto) (fatherId x))
    (Js.nullish (UpdatePersonDto.motherId dto) (motherId x)) = Err e ->
  updatePerson i dto s = (Err e, s).
Proof.
  intros Hx Hp Hd H. unfold updatePerson, updateChecks, findPersonById.
  rewrite Hx. simpl. rewrite Hp, Hd. simpl. rewrite H. reflexivity.
Qed.

(** C6.  Let the child have the birth date [cb] with year [cy] and let the
    parent [i] be in the store with a birth date of year [py], both years
    safe integers.  The minimum-age check of that parent fails, with
    [ImplausibleAge], exactly when [py] is not below [cy] or [cy - py < 14].
    So does the whole temporal validation when that parent is the only one
    supplied; a father who is too young fails it whatever the mother; a
    mother decides it whenever the checks of the father pass (the dates of
    the child and of the father being dates that the embedding reads as the
    code does).  A creation or an update that reaches the temporal validation
    with a parent who is too young fails with [ImplausibleAge] and leaves
    the store as it was. *)
Theorem minimum_parent_age (s : Store) (cb : string) (i : Z) (parent : Person)
        (pb : string) (cy py : Z) :
  i <> 0 -> findOneById s i = Some parent ->
  Js.truthyString cb = true ->
  ifTruthyString (birthDate parent) = Some pb ->
  readsYear cb cy -> readsYear pb py ->
  (parentBirthCheck cb parent = Err ImplausibleAge
   <-> (~ py < cy \/ cy - py < 14))
  /\ (parentBirthCheck cb parent = Ok tt <-> (py < cy /\ 14 <= cy - py))
  /\ (validateParentDates s (Some cb) (Some i) None = Err ImplausibleAge
      <-> (~ py < cy \/ cy - py < 14))
  /\ (validateParentDates s (Some cb) None (Some i) = Err ImplausibleAge
      <-> (~ py < cy \/ cy - py < 14))
  /\ ((~ py < cy \/ cy - py < 14) ->
      forall m, validateParentDates s (Some cb) (Some i) m = Err ImplausibleAge)
  /\ (forall f, plainDate cb -> plainParent s f ->
                fatherDatesCheck s cb f = Ok tt ->
                (validateParentDates s (Some cb) f (Some i) = Err ImplausibleAge
                 <-> (~ py < cy \/ cy - py < 14)))
  /\ ((~ py < cy \/ cy - py < 14) ->
      forall dto,
        CreatePersonDto.birthDate dto = Some cb ->
        validateParents s (CreatePersonDto.fatherId dto)
                        (CreatePersonDto.motherId dto) = Ok tt ->
        (CreatePersonDto.fatherId dto = Some i
         \/ (CreatePersonDto.motherId dto = Some i
             /\ plainDate cb /\ plainParent s (CreatePersonDto.fatherId dto)
             /\ fatherDatesCheck s cb (CreatePersonDto.fatherId dto) = Ok tt)) ->
        create dto s = (Err ImplausibleAge, s))
  /\ ((~ py < cy \/ cy - py < 14) ->
      forall j x dto,
        findOneById s j = Some x ->
        Js.nullishOpt (UpdatePersonDto.birthDate dto) (birthDate x) = Some cb ->
        updatesDates dto = true ->
        when (updatesParent dto)
             (validateParents s (Js.toOption (UpdatePersonDto.fatherId dto))
                (Js.toOption (UpdatePersonDto.motherId dto))) = Ok tt ->
        (Js.nullish (UpdatePersonDto.fatherId dto) (fatherId x) = Some i
         \/ (Js.nullish (UpdatePersonDto.motherId dto) (motherId x) = Some i
             /\ plainDate cb
             /\ plainParent s
                  (Js.nullish (UpdatePersonDto.fatherId dto) (fatherId x))
             /\ fatherDatesCheck s cb
                  (Js.nullish (UpdatePersonDto.fatherId dto) (fatherId x))
                = Ok tt)) ->
        updatePerson j dto s = (Err ImplausibleAge, s)).
Proof.
  intros Hz Hi Hcb Hpb [Hcy Hcs] [Hpy Hps].
  pose proof (parentBirthCheck_result cb parent pb py cy Hpb Hpy Hcy) as Hres.
  assert (Hfail : parentBirthCheck cb parent = Err ImplausibleAge
                  <-> (~ py < cy \/ cy - py < 14)).
  { rewrite Hres.
    destruct ((cy <=? py) || (cy - py <? minParentAge)) eqn:E.
    - split; [intros _; apply tooYoung_iff; exact E | reflexivity].
    - split; [discriminate|]. intros H. apply tooYoung_iff in H. congruence. }
  assert (Hfather : forall m,
             (~ py < cy \/ cy - py < 14) ->
             validateParentDates s (Some cb) (Some i) m = Err ImplausibleAge).
  { intros m H. rewrite (validateParentDates_present _ _ _ _ Hcb).
    rewrite (fatherDatesCheck_found s cb i parent Hz Hi).
    apply Hfail in H. rewrite H. reflexivity. }
  assert (Hmother : forall f,
             fatherDatesCheck s cb f = Ok tt ->
             (validateParentDates s (Some cb) f (Some i) = Err ImplausibleAge
              <-> (~ py < cy \/ cy - py < 14))).
  { intros f Hf. rewrite (validateParentDates_present _ _ _ _ Hcb), Hf.
    simpl. rewrite (motherDatesCheck_found s cb i parent Hz Hi).
    rewrite <- Hfail. destruct (parentBirthCheck cb parent) as [[]|e] eqn:E.
    - simpl. split; [|discriminate]. intros H.
      apply motherDeathCheck_errors in H. discriminate.
    - simpl. tauto. }
  split; [exact Hfail|].
  split.
  { rewrite Hres. destruct ((cy <=? py) || (cy - py <? minParentAge)) eqn:E.
    - split; [discriminate|]. apply tooYoung_iff in E. lia.
    - split; [intros _|reflexivity].
      assert (~ (~ py < cy \/ cy - py < 14))
        by (intros H; apply tooYoung_iff in H; congruence).
      lia. }
  split.
  { split; [|apply Hfather].
    rewrite (validateParentDates_present _ _ _ _ Hcb).
    rewrite (fatherDatesCheck_found s cb i parent Hz Hi).
    unfold motherDatesCheck. simpl. rewrite <- Hfail.
    destruct (parentBirthCheck cb parent) as [[]|e] eqn:E; simpl.
    - intros H. destruct (fatherDeathCheck cb parent) as [[]|e'] eqn:E';
        simpl in H; [discriminate|].
      apply fatherDeathCheck_errors in E'. congruence.
    - tauto. }
  split; [apply Hmother; reflexivity|].
  split; [intros H m; apply Hfather; exact H|].
  split; [intros f _ _; apply Hmother|].
  split.
  - intros H dto Hb Hp [Hf | [Hm [_ [_ Hf]]]];
      apply create_stops_on_validateParentDates; try exact Hp; rewrite Hb.
    + rewrite Hf. apply Hfather. exact H.
    + rewrite Hm. apply (Hmother _ Hf). exact H.
  - intros H j x dto Hx Hb Hd Hp [Hf | [Hm [_ [_ Hf]]]];
      apply (update_stops_on_validateParentDates s j x dto _ Hx Hp Hd);
      rewrite Hb.
    + rewrite Hf. apply Hfather. exact H.
    + rewrite Hm. apply (Hmother _ Hf). exact H.
Qed.

Lemma minimum_parent_age_witness :
  create (Sample.newPerson male None (Some "1905"%string) (Some 1) (Some 2) None)
         Sample.datedCouple
  = (Err ImplausibleAge, Sample.datedCouple)
  /\ parentBirthCheck "1920"
       (Sample.person 1 male (Some "1900"%string) (Some "1950"%string)
                      true None None)
     = Ok tt.
Proof.
  assert (Hz : 1 <> 0) by discriminate.
  split.
  - destruct (minimum_parent_age Sample.datedCouple "1905" 1
                (Sample.person 1 male (Some "1900"%string) (Some "1950"%string)
                               true None None)
                "1900" 1905 1900 Hz eq_refl eq_refl eq_refl
                (conj eq_refl eq_refl) (conj eq_refl eq_refl))
      as [_ [_ [_ [_ [_ [_ [H _]]]]]]].
    apply H; [right; lia | reflexivity | reflexivity | left; reflexivity].
  - destruct (minimum_parent_age Sample.datedCouple "1920" 1
                (Sample.person 1 male (Some "1900"%string) (Some "1950"%string)
                               true None None)
                "1900" 1920 1900 Hz eq_refl eq_refl eq_refl
                (conj eq_refl eq_refl) (conj eq_refl eq_refl))
      as [_ [H _]].
    apply H. lia.
Defined.

(** ** Temporal validation: death of the father, year only *)

Lemma extractYear_truthy d y : extractYear d = Some y -> Js.truthyString d = true.
Proof. destruct d; [discriminate | reflexivity]. Qed.

Lemma fatherDeathCheck_yearOnly cb fatherRow fd cy dy :
  deathDate fatherRow = Some fd -> isYearOnly fd = true ->
  extractYear fd = Some dy -> extractYear cb = Some cy ->
  fatherDeathCheck cb fatherRow
  = if dy + 1 <? cy then Err ImplausibleDeathWindow else Ok tt.
Proof.
  intros Hd Hy Hdy Hcy. unfold fatherDeathCheck, ifTruthyString.
  rewrite Hd, (extractYear_truthy fd dy Hdy), Hy, Hdy, Hcy. simpl.
  destruct (dy + 1 <? cy); reflexivity.
Qed.

(** C7.  When the death date of the father has year-only precision, with
    year [dy], and the child has a birth date of year [cy], both years safe
    integers, the death-window check passes exactly when [cy <= dy + 1] and
    fails, with [ImplausibleDeathWindow], exactly when [cy > dy + 1]; the
    whole temporal validation passes or fails with it when the age check of
    the father passes (his birth date being one that the embedding reads as
    the code does) and no mother is supplied.  A father who died "1950": a
    child born 1952 is refused, a child born 1951 is accepted. *)
Theorem father_year_only_death_window :
  (forall (cb : string) (fatherRow : Person) (fd : string) (cy dy : Z),
      deathDate fatherRow = Some fd -> isYearOnly fd = true ->
      readsYear fd dy -> readsYear cb cy ->
      (fatherDeathCheck cb fatherRow = Ok tt <-> cy <= dy + 1)
      /\ (fatherDeathCheck cb fatherRow = Err ImplausibleDeathWindow
          <-> dy + 1 < cy)
      /\ (forall s i,
             i <> 0 -> findOneById s i = Some fatherRow ->
             (forall d, birthDate fatherRow = Some d -> plainYear d) ->
             parentBirthCheck cb fatherRow = Ok tt ->
             (validateParentDates s (Some cb) (Some i) None = Ok tt
              <-> cy <= dy + 1)))
  /\ (let died1950 :=
        {| rows := [Sample.person 1 male None (Some "1950"%string) true None None];
           nextId := 2 |} in
      create (Sample.newPerson male None (Some "1952"%string) (Some 1) None None)
             died1950
      = (Err ImplausibleDeathWindow, died1950)
      /\ fst (create (Sample.newPerson male None (Some "1951"%string) (Some 1)
                                       None None) died1950)
         = Ok (entityOfCreate
                 (Sample.newPerson male None (Some "1951"%string) (Some 1)
                                   None None) 2)).
Proof.
  split; [|split; reflexivity].
  intros cb fatherRow fd cy dy Hd Hy [Hdy Hds] [Hcy Hcs].
  pose proof (fatherDeathCheck_yearOnly cb fatherRow fd cy dy Hd Hy Hdy Hcy)
    as Hres.
  assert (Hok : fatherDeathCheck cb fatherRow = Ok tt <-> cy <= dy + 1).
  { rewrite Hres. destruct (dy + 1 <? cy) eqn:E.
    - apply Z.ltb_lt in E. split; [discriminate | lia].
    - apply Z.ltb_ge in E. split; [intros _; exact E | reflexivity]. }
  split; [exact Hok|]. split.
  - rewrite Hres. destruct (dy + 1 <? cy) eqn:E.
    + apply Z.ltb_lt in E. split; [intros _; exact E | reflexivity].
    + apply Z.ltb_ge in E. split; [discriminate | lia].
  - intros s i Hz Hi _ Hb.
    rewrite (validateParentDates_present s cb _ _ (extractYear_truthy cb cy Hcy)).
    rewrite (fatherDatesCheck_found s cb i fatherRow Hz Hi), Hb. simpl.
    rewrite <- Hok. unfold motherDatesCheck. simpl.
    destruct (fatherDeathCheck cb fatherRow) as [[]|e]; simpl;
      split; congruence.
Qed.

Lemma father_year_only_death_window_witness :
  fatherDeathCheck "1952"
    (Sample.person 1 male None (Some "1950"%string) true None None)
  = Err ImplausibleDeathWindow
  /\ fatherDeathCheck "1951"
       (Sample.person 1 male None (Some "1950"%string) true None None)
     = Ok tt.
Proof.
  destruct father_year_only_death_window as [H _].
  split.
  - destruct (H "1952"%string
                (Sample.person 1 male None (Some "1950"%string) true None None)
                "1950"%string 1952 1950 eq_refl eq_refl
                (conj eq_refl eq_refl) (conj eq_refl eq_refl))
      as [_ [H2 _]].
    apply H2. lia.
  - destruct (H "1951"%string
                (Sample.person 1 male None (Some "1950"%string) true None None)
                "1950"%string 1951 1950 eq_refl eq_refl
                (conj eq_refl eq_refl) (conj eq_refl eq_refl))
      as [H1 _].
    apply H1. lia.
Defined.

(** ** Temporal validation: death of the mother, full precision *)

Lemma isoFields_split s ymd :
  JsDate.isoFields s = Some ymd -> List.length (Js.split "-" s) = 3%nat.
Proof.
  unfold JsDate.isoFields.
  destruct (Js.split "-" s) as [|a [|b [|c [|d l]]]]; try discriminate.
  reflexivity.
Qed.

Lemma isoFields_truthy s ymd :
  JsDate.isoFields s = Some ymd -> Js.truthyString s = true.
Proof. destruct s; [discriminate | reflexivity]. Qed.

Lemma isoFields_isFullDate s ymd :
  JsDate.isoFields s = Some ymd -> isFullDate s = true /\ isYearOnly s = false.
Proof.
  intros H. apply isoFields_split in H. unfold isFullDate, isYearOnly.
  rewrite H. split; reflexivity.
Qed.

Lemma parse_isoFields s y m d :
  JsDate.isoFields s = Some (y, m, d) ->
  JsDate.parse s = Some (JsDate.makeDay y (m - 1) d * JsDate.msPerDay).
Proof. unfold JsDate.parse. intros ->. reflexivity. Qed.

Lemma motherDeathCheck_full cb motherRow md death birth :
  deathDate motherRow = Some md ->
  JsDate.isoFields md = Some death -> JsDate.isoFields cb = Some birth ->
  motherDeathCheck cb motherRow
  = if (let '(y, m, d) := death in JsDate.makeDay y (m - 1) d)
       <? (let '(y, m, d) := birth in JsDate.makeDay y (m - 1) d)
    then Err ImplausibleDeathWindow else Ok tt.
Proof.
  intros Hd Hmd Hcb. destruct death as [[y1 m1] d1], birth as [[y2 m2] d2].
  unfold motherDeathCheck, ifTruthyString.
  rewrite Hd, (isoFields_truthy md _ Hmd).
  destruct (isoFields_isFullDate md _ Hmd) as [Hf1 Hy1].
  destruct (isoFields_isFullDate cb _ Hcb) as [Hf2 _].
  rewrite Hy1, Hf1, Hf2. simpl.
  rewrite (parse_isoFields md _ _ _ Hmd), (parse_isoFields cb _ _ _ Hcb).
  unfold Js.lt, throwIf, JsDate.msPerDay.
  destruct (JsDate.makeDay y1 (m1 - 1) d1 <? JsDate.makeDay y2 (m2 - 1) d2) eqn:E.
  - apply Z.ltb_lt in E.
    replace (_ * 86400000 <? _ * 86400000) with true
      by (symmetry; apply Z.ltb_lt; lia).
    reflexivity.
  - apply Z.ltb_ge in E.
    replace (_ * 86400000 <? _ * 86400000) with false
      by (symmetry; apply Z.ltb_ge; lia).
    reflexivity.
Qed.

(** C8, as amended.  When the death date of the mother and the birth date of
    the child are both calendar dates written [YYYY-MM-DD], the check of the
    mother's death fails, with [ImplausibleDeathWindow], exactly when the
    mother's death date precedes the child's birth date, and passes
    otherwise; the whole temporal validation passes or fails with it when the
    age check of the mother passes and no father is supplied. *)
Theorem mother_full_precision_death_rule (cb : string) (motherRow : Person)
        (md : string) (death birth : Z * Z * Z) :
  deathDate motherRow = Some md ->
  JsDate.isoFields md = Some death -> JsDate.isoFields cb = Some birth ->
  calendarDate death -> calendarDate birth ->
  (motherDeathCheck cb motherRow = Err ImplausibleDeathWindow
   <-> precedes death birth)
  /\ (motherDeathCheck cb motherRow = Ok tt <-> ~ precedes death birth)
  /\ (forall s i,
         i <> 0 -> findOneById s i = Some motherRow ->
         parentBirthCheck cb motherRow = Ok tt ->
         (validateParentDates s (Some cb) None (Some i)
          = Err ImplausibleDeathWindow <-> precedes death birth)
         /\ (validateParentDates s (Some cb) None (Some i) = Ok tt
             <-> ~ precedes death birth)).
Proof.
  intros Hd Hmd Hcb Hcd Hcbirth.
  pose proof (motherDeathCheck_full cb motherRow md death birth Hd Hmd Hcb)
    as Hres.
  pose proof (makeDay_lt_iff death birth Hcd Hcbirth) as Hlt.
  assert (Hfail : motherDeathCheck cb motherRow = Err ImplausibleDeathWindow
                  <-> precedes death birth).
  { rewrite Hres, <- Hlt.
    destruct (_ <? _) eqn:E.
    - apply Z.ltb_lt in E. split; [intros _; exact E | reflexivity].
    - apply Z.ltb_ge in E. split; [discriminate | lia]. }
  assert (Hok : motherDeathCheck cb motherRow = Ok tt
                <-> ~ precedes death birth).
  { rewrite Hres, <- Hlt.
    destruct (_ <? _) eqn:E.
    - apply Z.ltb_lt in E. split; [discriminate | lia].
    - apply Z.ltb_ge in E. split; [lia | reflexivity]. }
  split; [exact Hfail|]. split; [exact Hok|].
  intros s i Hz Hi Hb.
  rewrite (validateParentDates_present s cb _ _ (isoFields_truthy cb _ Hcb)).
  unfold fatherDatesCheck. simpl.
  rewrite (motherDatesCheck_found s cb i motherRow Hz Hi), Hb. simpl.
  split; assumption.
Qed.

Lemma mother_full_precision_death_rule_witness :
  motherDeathCheck "1950-06-02"
    (Sample.person 2 female (Some "1902"%string) (Some "1950-06-01"%string)
                   false None None)
  = Err ImplausibleDeathWindow.
Proof.
  destruct (mother_full_precision_death_rule "1950-06-02"
              (Sample.person 2 female (Some "1902"%string)
                             (Some "1950-06-01"%string) false None None)
              "1950-06-01" (1950, 6, 1) (1950, 6, 2)
              eq_refl eq_refl eq_refl) as [H _].
  - simpl. lia.
  - simpl. lia.
  - apply H. simpl. lia.
Defined.

(** C8, as stated, fails both ways.  The mother (person 2 of [datedCouple])
    died on 1950-06-01.  A child born on 1940-01-01, a date that precedes her
    death, is accepted; a child born on 1950-06-02, a date that does not,
    is refused. *)
Lemma child_born_before_the_mother_died :
  JsDate.isoFields "1950-06-01" = Some (1950, 6, 1)
  /\ JsDate.isoFields "1940-01-01" = Some (1940, 1, 1)
  /\ precedes (1940, 1, 1) (1950, 6, 1)
  /\ validateParentDates Sample.datedCouple (Some "1940-01-01"%string)
                         None (Some 2) = Ok tt
  /\ fst (create (Sample.newPerson male None (Some "1940-01-01"%string)
                                   None (Some 2) None) Sample.datedCouple)
     = Ok (entityOfCreate
             (Sample.newPerson male None (Some "1940-01-01"%string)
                               None (Some 2) None) 3)
  /\ ~ precedes (1950, 6, 2) (1950, 6, 1)
  /\ validateParentDates Sample.datedCouple (Some "1950-06-02"%string)
                         None (Some 2) = Err ImplausibleDeathWindow.
Proof.
  repeat split; try reflexivity; simpl; lia.
Qed.

(** ** The loop of the cycle detector ends *)

Lemma unvisitedRows_cons_le s c visited :
  (unvisitedRows s (c :: visited) <= unvisitedRows s visited)%nat.
Proof.
  unfold unvisitedRows, visitedHas.
  induction (rows s) as [|p l IH]; simpl; [lia|].
  simpl in IH.
  destruct (id p =? c); destruct (existsb (Z.eqb (id p)) visited); simpl; lia.
Qed.

Lemma unvisitedRows_cons_lt s c visited p :
  In p (rows s) -> id p = c -> visitedHas visited c = false ->
  (unvisitedRows s (c :: visited) < unvisitedRows s visited)%nat.
Proof.
  unfold unvisitedRows, visitedHas. intros Hin Hid Hv.
  induction (rows s) as [|q l IH]; simpl; [destruct Hin|].
  destruct Hin as [-> | Hin].
  - rewrite Hid, Z.eqb_refl, Hv. simpl.
    pose proof (unvisitedRows_cons_le {| rows := l; nextId := 0 |} c visited)
      as Hle.
    unfold unvisitedRows, visitedHas in Hle. simpl in Hle. lia.
  - specialize (IH Hin). simpl in IH.
    destruct (id q =? c); destruct (existsb (Z.eqb (id q)) visited);
      simpl; lia.
Qed.

Lemma length_pushParent visited o stack :
  (List.length (pushParent visited o stack) <= S (List.length stack))%nat.
Proof.
  unfold pushParent. destruct (ifTruthy o) as [i|]; [|lia].
  destruct (visitedHas visited i); simpl; lia.
Qed.

Lemma ancestryWalk_ends s a fuel :
  forall visited stack,
    (2 * unvisitedRows s visited + List.length stack < fuel)%nat ->
    exists b, ancestryWalk s a fuel visited stack = Some b.
Proof.
  induction fuel as [|fuel IH]; intros visited stack Hf; [lia|].
  destruct stack as [|c stack]; simpl; [eauto|].
  simpl in Hf.
  destruct (negb (Js.truthyNumber c)); [apply IH; lia|].
  destruct (visitedHas visited c) eqn:Hv; [apply IH; lia|].
  pose proof (unvisitedRows_cons_le s c visited) as Hle.
  destruct (findOneById s c) as [cur|] eqn:Hc; [|apply IH; lia].
  destruct (isParentIdOf a (fatherId cur) || isParentIdOf a (motherId cur));
    [eauto|].
  apply findOneById_In in Hc. destruct Hc as [Hin Hid].
  pose proof (unvisitedRows_cons_lt s c visited cur Hin Hid Hv) as Hlt.
  apply IH.
  pose proof (length_pushParent (c :: visited) (motherId cur)
                (pushParent (c :: visited) (fatherId cur) stack)) as L1.
  pose proof (length_pushParent (c :: visited) (fatherId cur) stack) as L2.
  lia.
Qed.

(** The fuel given to the walk is never exhausted: the answer of
    [wouldCreateAncestryCycle] is the answer of the loop. *)
Lemma wouldCreateAncestryCycle_total s a start :
  ancestryWalk s a (walkFuel s) [] [start]
  = Some (wouldCreateAncestryCycle s a start).
Proof.
  unfold wouldCreateAncestryCycle.
  destruct (ancestryWalk_ends s a (walkFuel s) [] [start]) as [b Hb].
  - unfold walkFuel, unvisitedRows. simpl.
    assert (H : (List.length (filter (fun _ : Person => true) (rows s))
                 <= List.length (rows s))%nat)
      by (induction (rows s); simpl; lia).
    lia.
  - rewrite Hb. reflexivity.
Qed.

(** ** The cycle detector finds every ancestor *)

Lemma visitedHas_In visited i : visitedHas visited i = true <-> In i visited.
Proof.
  unfold visitedHas. rewrite existsb_exists. split.
  - intros [x [Hx Heq]]. apply Z.eqb_eq in Heq. subst. exact Hx.
  - intros H. exists i. split; [exact H | apply Z.eqb_refl].
Qed.

Lemma In_pushParent visited o stack p :
  In p (pushParent visited o stack) <->
  In p stack \/ (ifTruthy o = Some p /\ visitedHas visited p = false).
Proof.
  unfold pushParent. destruct (ifTruthy o) as [i|].
  - destruct (visitedHas visited i) eqn:E; simpl; split.
    + tauto.
    + intros [H | [H1 H2]]; [exact H|]. inversion H1. subst. congruence.
    + intros [H | H]; [subst; right; auto | tauto].
    + intros [H | [H1 H2]]; [tauto|]. inversion H1. auto.
  - split; [tauto|]. intros [H | [H _]]; [exact H | discriminate].
Qed.

Lemma ancestryWalk_false_closed s a fuel :
  forall visited stack,
    walkInvariant s a visited stack ->
    ancestryWalk s a fuel visited stack = Some false ->
    exists V, incl visited V
              /\ (forall x, In x stack -> x <> 0 -> In x V)
              /\ walkClosed s a V.
Proof.
  induction fuel as [|fuel IH]; intros visited stack Hinv; [discriminate|].
  destruct stack as [|c stack]; simpl.
  { intros _. exists visited. split; [apply incl_refl|].
    split; [intros x []|].
    intros v r Hv Hr. destruct (Hinv v r Hv Hr) as [H1 H2].
    split; [exact H1|]. intros p Hp. destruct (H2 p Hp) as [H | []]. exact H. }
  destruct (Js.truthyNumber c) eqn:Ec; simpl.
  2:{ (* a falsy entry is dropped *)
      intros H. apply IH in H.
      - destruct H as [V [HV [HS HC]]]. exists V.
        split; [exact HV|]. split; [|exact HC].
        intros x [<- | Hx] Hz; [|auto].
        unfold Js.truthyNumber in Ec. apply negb_false_iff, Z.eqb_eq in Ec.
        congruence.
      - intros v r Hv Hr. destruct (Hinv v r Hv Hr) as [H1 H2].
        split; [exact H1|]. intros p Hp.
        destruct (H2 p Hp) as [Hin | [<- | Hin]]; auto.
        exfalso. destruct Hp as [Hp | Hp]; apply ifTruthy_Some in Hp;
          destruct Hp as [_ Hp]; unfold Js.truthyNumber in Ec;
          apply negb_false_iff, Z.eqb_eq in Ec; congruence. }
  destruct (visitedHas visited c) eqn:Hv.
  { (* already expanded *)
    apply visitedHas_In in Hv. intros H. apply IH in H.
    - destruct H as [V [HV [HS HC]]]. exists V.
      split; [exact HV|]. split; [|exact HC].
      intros x [<- | Hx] Hz; auto.
    - intros v r Hv' Hr. destruct (Hinv v r Hv' Hr) as [H1 H2].
      split; [exact H1|]. intros p Hp.
      destruct (H2 p Hp) as [Hin | [<- | Hin]]; auto. }
  destruct (findOneById s c) as [cur|] eqn:Hc.
  2:{ (* no such row *)
      intros H. apply IH in H.
      - destruct H as [V [HV [HS HC]]]. exists V.
        split; [intros x Hx; apply HV; right; exact Hx|].
        split; [|exact HC].
        intros x [<- | Hx] Hz; [apply HV; left; reflexivity | auto].
      - intros v r [<- | Hv'] Hr; [congruence|].
        destruct (Hinv v r Hv' Hr) as [H1 H2].
        split; [exact H1|]. intros p Hp.
        destruct (H2 p Hp) as [Hin | [<- | Hin]]; simpl; auto. }
  destruct (isParentIdOf a (fatherId cur) || isParentIdOf a (motherId cur))
    eqn:Hpar; [discriminate|].
  intros H. apply IH in H.
  - destruct H as [V [HV [HS HC]]]. exists V.
    split; [intros x Hx; apply HV; right; exact Hx|].
    split; [|exact HC].
    intros x [<- | Hx] Hz; [apply HV; left; reflexivity|].
    apply HS; [|exact Hz]. apply In_pushParent. left.
    apply In_pushParent. left. exact Hx.
  - intros v r [Heq | Hv'] Hr.
    + subst v. rewrite Hc in Hr. inversion Hr. subst r. split; [exact Hpar|].
      intros p Hp.
      destruct (visitedHas (c :: visited) p) eqn:Evp.
      * left. apply visitedHas_In. exact Evp.
      * right. destruct Hp as [Hp | Hp].
        -- apply In_pushParent. left. apply In_pushParent. right. auto.
        -- apply In_pushParent. right. auto.
    + destruct (Hinv v r Hv' Hr) as [H1 H2].
      split; [exact H1|]. intros p Hp.
      destruct (H2 p Hp) as [Hin | [<- | Hin]]; simpl; auto.
      right. apply In_pushParent. left. apply In_pushParent. left. exact Hin.
Qed.

(** With unique ids the first row found is the row. *)
Lemma findOneById_unique s r :
  uniqueIds s -> In r (rows s) -> findOneById s (id r) = Some r.
Proof.
  unfold uniqueIds, findOneById. induction (rows s) as [|q l IH]; simpl;
    intros Hnd Hin; [destruct Hin|].
  inversion Hnd as [|? ? Hnotin Hnd']. subst.
  unfold hasId at 1. destruct (id q =? id r) eqn:E.
  - destruct Hin as [-> | Hin]; [reflexivity|].
    apply Z.eqb_eq in E. exfalso. apply Hnotin. rewrite E.
    apply in_map. exact Hin.
  - destruct Hin as [-> | Hin]; [rewrite Z.eqb_refl in E; discriminate|].
    apply IH; assumption.
Qed.

Lemma walkClosed_no_ancestor s a V :
  wellFormed s -> uniqueIds s -> walkClosed s a V ->
  forall c, ancestorOf s c a -> ~ In c V.
Proof.
  intros [_ Hpos] Hu HC c Hanc. unfold ancestorOf in Hanc.
  apply clos_trans_t1n in Hanc.
  induction Hanc as [c a [r [Hin [Hid Hp]]] | c y a [r [Hin [Hid Hp]]] Hrest IH];
    intros HV.
  - pose proof (findOneById_unique s r Hu Hin) as Hf. rewrite Hid in Hf.
    destruct (HC c r HV Hf) as [Hno _].
    apply orb_false_iff in Hno. destruct Hno as [Hnf Hnm].
    destruct Hp as [Hp | Hp]; rewrite Hp in *; simpl in *;
      rewrite Z.eqb_refl in *; discriminate.
  - pose proof (findOneById_unique s r Hu Hin) as Hf. rewrite Hid in Hf.
    destruct (HC c r HV Hf) as [_ Hcl].
    apply (IH HC). apply Hcl.
    (* [y] has a row, hence a positive id *)
    assert (Hy : y <> 0).
    { inversion Hrest as [? [r' [Hin' [Hid' _]]] | ? ? [r' [Hin' [Hid' _]]] _];
        subst; specialize (Hpos r' Hin'); lia. }
    destruct Hp as [Hp | Hp]; rewrite Hp; [left | right];
      apply ifTruthy_nonzero; exact Hy.
Qed.

(** Completeness of the detector: when it answers [false], the candidate
    is not an ancestor of the start. *)
Lemma wouldCreateAncestryCycle_complete s a start :
  wellFormed s -> uniqueIds s -> start <> 0 ->
  wouldCreateAncestryCycle s a start = false ->
  ~ ancestorOf s start a.
Proof.
  intros Hwf Hu Hz Hw Hanc.
  pose proof (wouldCreateAncestryCycle_total s a start) as Ht.
  rewrite Hw in Ht.
  apply ancestryWalk_false_closed in Ht.
  - destruct Ht as [V [_ [HS HC]]].
    apply (walkClosed_no_ancestor s a V Hwf Hu HC start Hanc).
    apply HS; [left; reflexivity | exact Hz].
  - intros v r [].
Qed.

(** ** Adding edges at one node of an acyclic graph *)

Section NewEdges.

Variables E E' : Z -> Z -> Prop.
Variable x : Z.
Variable N : Z -> Prop.

(** The edges of [E'] are edges of [E] or new edges from [x] into [N];
    the edges of [E] that do not leave [x] are edges of [E']. *)
Hypothesis edges_new : forall u v, E' u v -> E u v \/ (u = x /\ N v).
Hypothesis edges_kept : forall u v, u <> x -> E u v -> E' u v.

(** A path is cut at its first new edge. *)
Lemma path_first_new_edge u v :
  clos_trans Z E' u v ->
  clos_trans Z E u v
  \/ exists n, N n /\ (u = x \/ clos_trans Z E u x)
               /\ (n = v \/ clos_trans Z E' n v).
Proof.
  intros H. apply clos_trans_t1n in H.
  induction H as [u v H | u y v H Hrest IH].
  - destruct (edges_new u v H) as [He | [-> Hn]].
    + left. apply t_step. exact He.
    + right. exists v. auto.
  - destruct (edges_new u y H) as [He | [-> Hn]].
    + destruct IH as [IH | [n [Hn [Hux Hnv]]]].
      * left. apply t_trans with (y := y); [apply t_step; exact He | exact IH].
      * right. exists n. split; [exact Hn|]. split; [|exact Hnv].
        right. destruct Hux as [-> | Hux]; [apply t_step; exact He|].
        apply t_trans with (y := y); [apply t_step; exact He | exact Hux].
    + right. exists y. split; [exact Hn|]. split; [left; reflexivity|].
      right. apply clos_t1n_trans. exact Hrest.
Qed.

(** A path to [x] from elsewhere can be cut at its first visit of [x]. *)
Lemma path_cut_at_target (R : Z -> Z -> Prop) u :
  clos_trans Z R u x -> u <> x ->
  clos_trans Z (fun a b => a <> x /\ R a b) u x.
Proof.
  intros H. apply clos_trans_t1n in H.
  remember x as t eqn:Et in H.
  induction H as [u v H | u y v H Hrest IH]; intros Hne; subst.
  - apply t_step. auto.
  - destruct (Z.eq_dec y x) as [-> | Hy].
    + apply t_step. auto.
    + apply t_trans with (y := y); [apply t_step; auto | apply IH; auto].
Qed.

Lemma path_avoiding_old u v :
  clos_trans Z (fun a b => a <> x /\ E' a b) u v -> clos_trans Z E u v.
Proof.
  induction 1 as [u v [Hne H] | u y v _ IH1 _ IH2].
  - apply t_step. destruct (edges_new u v H) as [He | [-> _]];
      [exact He | congruence].
  - apply t_trans with (y := y); assumption.
Qed.

Lemma path_avoiding_new u v :
  clos_trans Z (fun a b => a <> x /\ E a b) u v -> clos_trans Z E' u v.
Proof.
  induction 1 as [u v [Hne H] | u y v _ IH1 _ IH2].
  - apply t_step. apply edges_kept; assumption.
  - apply t_trans with (y := y); assumption.
Qed.

(** A node that did not reach [x] reaches nothing new. *)
Lemma path_without_new_edge u v :
  u <> x -> ~ clos_trans Z E u x ->
  clos_trans Z E' u v -> clos_trans Z E u v.
Proof.
  intros Hne Hno H.
  destruct (path_first_new_edge u v H) as [He | [n [_ [[-> | Hux] _]]]];
    [exact He | congruence | contradiction].
Qed.

(** No new edge leads to a node that reached [x]: the graph stays
    acyclic. *)
Hypothesis new_targets : forall n, N n -> n <> x /\ ~ clos_trans Z E n x.
Hypothesis old_acyclic : forall i, ~ clos_trans Z E i i.

Lemma new_edges_acyclic : forall i, ~ clos_trans Z E' i i.
Proof.
  intros i H.
  destruct (path_first_new_edge i i H) as [He | [n [Hn [Hix Hni]]]];
    [exact (old_acyclic i He)|].
  destruct (new_targets n Hn) as [Hnx Hno]. apply Hno.
  assert (Hreach : clos_trans Z E' n x).
  { destruct Hni as [-> | Hni].
    - destruct Hix as [-> | Hix]; [congruence|].
      apply path_avoiding_new. apply path_cut_at_target; assumption.
    - destruct Hix as [-> | Hix]; [exact Hni|].
      destruct (Z.eq_dec i x) as [-> | Hi]; [exact Hni|].
      apply t_trans with (y := i); [exact Hni|].
      apply path_avoiding_new. apply path_cut_at_target; assumption. }
  apply path_avoiding_old. apply path_cut_at_target; assumption.
Qed.

End NewEdges.

(** ** Parent edges and keys under the repository primitives *)

Lemma map_id_update s i patch :
  (forall r, In r (rows s) -> id r = i -> id (patch r) = i) ->
  map id (rows (update s i patch)) = map id (rows s).
Proof.
  intros Hid. unfold update. simpl. rewrite map_map.
  apply map_ext_in. intros r Hr. unfold hasId.
  destruct (id r =? i) eqn:E; [|reflexivity].
  apply Z.eqb_eq in E. rewrite (Hid r Hr E). symmetry. exact E.
Qed.

Lemma uniqueIds_update s i patch :
  (forall r, In r (rows s) -> id r = i -> id (patch r) = i) ->
  uniqueIds s -> uniqueIds (update s i patch).
Proof.
  intros Hid Hu. unfold uniqueIds. rewrite map_id_update; assumption.
Qed.

Lemma uniqueIds_insert s mk :
  (forall n, id (mk n) = n) -> wellFormed s -> uniqueIds s ->
  uniqueIds (snd (insert s mk)).
Proof.
  intros Hid [_ Hlt] Hu. unfold uniqueIds, insert. simpl.
  rewrite map_app. simpl. rewrite Hid.
  apply NoDup_app.
  - exact Hu.
  - constructor; [intros [] | constructor].
  - intros a Ha [<- | []]. apply in_map_iff in Ha.
    destruct Ha as [r [Hr Hin]]. specialize (Hlt r Hin). lia.
Qed.

Lemma NoDup_map_filter {A B} (f : A -> B) (g : A -> bool) l :
  NoDup (map f l) -> NoDup (map f (filter g l)).
Proof.
  induction l as [|a l IH]; simpl; intros H; [constructor|].
  inversion H as [|? ? Hnotin Hnd]. subst.
  destruct (g a); simpl; [|apply IH; exact Hnd].
  constructor; [|apply IH; exact Hnd].
  intros Hin. apply Hnotin. apply in_map_iff in Hin.
  destruct Hin as [b [Hb Hin]]. apply filter_In in Hin.
  apply in_map_iff. exists b. tauto.
Qed.

Lemma uniqueIds_remove s p : uniqueIds s -> uniqueIds (remove s p).
Proof. unfold uniqueIds, remove. simpl. apply NoDup_map_filter. Qed.

Lemma uniqueIds_link parent children s :
  uniqueIds s -> uniqueIds (linkChildrenToParentInternal s parent children).
Proof.
  unfold linkChildrenToParentInternal. revert s.
  induction children as [|c cs IH]; simpl; intros s H; [exact H|].
  apply IH. apply uniqueIds_update; [|exact H].
  intros r _ Hr. rewrite id_setParentField. exact Hr.
Qed.

Lemma parentsKnown_update s i patch :
  (forall r p, In r (rows s) -> id r = i ->
               fatherId (patch r) = Some p \/ motherId (patch r) = Some p ->
               p < nextId s) ->
  parentsKnown s -> parentsKnown (update s i patch).
Proof.
  intros Hpatch Hk r p Hr Hp. simpl. simpl in Hr.
  apply in_map_iff in Hr. destruct Hr as [q [<- Hq]].
  unfold hasId in Hp. destruct (id q =? i) eqn:E.
  - apply Z.eqb_eq in E. eapply Hpatch; eassumption.
  - eapply Hk; eassumption.
Qed.

Lemma parentsKnown_insert s mk :
  (forall p, fatherId (mk (nextId s)) = Some p \/ motherId (mk (nextId s)) = Some p ->
             p < nextId s) ->
  parentsKnown s -> parentsKnown (snd (insert s mk)).
Proof.
  intros Hnew Hk r p Hr Hp. simpl. simpl in Hr.
  apply in_app_or in Hr. destruct Hr as [Hr | [<- | []]].
  - specialize (Hk r p Hr Hp). lia.
  - specialize (Hnew p Hp). lia.
Qed.

Lemma parentsKnown_remove s p : parentsKnown s -> parentsKnown (remove s p).
Proof.
  intros Hk r q Hr Hq. simpl. simpl in Hr. apply filter_In in Hr.
  eapply Hk; [apply Hr | exact Hq].
Qed.

Lemma parents_setParentField g n r p :
  fatherId (setParentField g (Some n) r) = Some p
  \/ motherId (setParentField g (Some n) r) = Some p ->
  p = n \/ fatherId r = Some p \/ motherId r = Some p.
Proof.
  destruct g; simpl; intros [H | H]; try (inversion H; auto); auto.
Qed.

Lemma parentsKnown_link parent children s :
  id parent < nextId s -> parentsKnown s ->
  parentsKnown (linkChildrenToParentInternal s parent children).
Proof.
  unfold linkChildrenToParentInternal. revert s.
  induction children as [|c cs IH]; simpl; intros s Hlt H; [exact H|].
  apply IH; [exact Hlt|]. apply parentsKnown_update; [|exact H].
  intros r p Hr _ Hp. apply parents_setParentField in Hp.
  destruct Hp as [-> | Hp]; [exact Hlt | eapply H; eassumption].
Qed.

(** Edges after an update that keeps the key of the rows it rewrites. *)
Lemma parentEdge_update s i patch u v :
  (forall r, In r (rows s) -> id r = i -> id (patch r) = i) ->
  parentEdge (update s i patch) u v ->
  (u <> i /\ parentEdge s u v)
  \/ (u = i /\ exists r, In r (rows s) /\ id r = i
                         /\ (fatherId (patch r) = Some v
                             \/ motherId (patch r) = Some v)).
Proof.
  intros Hid [r' [Hr' [Hu Hp]]]. simpl in Hr'.
  apply in_map_iff in Hr'. destruct Hr' as [r [Heq Hr]].
  unfold hasId in Heq. destruct (id r =? i) eqn:E.
  - apply Z.eqb_eq in E. subst r'. right.
    rewrite (Hid r Hr E) in Hu. split; [congruence|].
    exists r. auto.
  - apply Z.eqb_neq in E. subst r'. left. split; [congruence|].
    exists r. auto.
Qed.

Lemma parentEdge_update_kept s i patch u v :
  u <> i -> parentEdge s u v -> parentEdge (update s i patch) u v.
Proof.
  intros Hne [r [Hr [Hu Hp]]]. exists r. split; [|auto].
  apply In_update_other; [exact Hr | congruence].
Qed.

Lemma ancestorOf_source s u v :
  ancestorOf s u v -> exists r, In r (rows s) /\ id r = u.
Proof.
  intros H. apply ancestorOf_first_edge in H.
  destruct H as [c [r [Hr [Hid _]]]]. eauto.
Qed.

Lemma ancestorOf_target s u v :
  ancestorOf s u v ->
  exists r, In r (rows s) /\ (fatherId r = Some v \/ motherId r = Some v).
Proof.
  unfold ancestorOf. induction 1 as [x y [r [Hr [_ Hp]]] | x y z _ _ _ IH].
  - eauto.
  - exact IH.
Qed.

(** Changing one row: what has to be checked for the graph to stay
    acyclic. *)
Lemma update_acyclic s i patch (N : Z -> Prop) :
  (forall r, In r (rows s) -> id r = i -> id (patch r) = i) ->
  (forall r v, In r (rows s) -> id r = i ->
               fatherId (patch r) = Some v \/ motherId (patch r) = Some v ->
               fatherId r = Some v \/ motherId r = Some v \/ N v) ->
  (forall n, N n -> n <> i /\ ~ ancestorOf s n i) ->
  acyclic s -> acyclic (update s i patch).
Proof.
  intros Hid Hnew Hn Hac. unfold acyclic, ancestorOf.
  apply new_edges_acyclic with (E := parentEdge s) (x := i) (N := N).
  - intros u v H. apply (parentEdge_update s i patch u v Hid) in H.
    destruct H as [[_ H] | [-> [r [Hr [Hi Hp]]]]]; [left; exact H|].
    destruct (Hnew r v Hr Hi Hp) as [H | [H | H]].
    + left. exists r. auto.
    + left. exists r. auto.
    + right. auto.
  - intros u v Hne H. apply parentEdge_update_kept; assumption.
  - exact Hn.
  - exact Hac.
Qed.

(** ... and what a node that did not reach the changed row still does not
    reach. *)
Lemma update_no_new_ancestor s i patch (N : Z -> Prop) u v :
  (forall r, In r (rows s) -> id r = i -> id (patch r) = i) ->
  (forall r w, In r (rows s) -> id r = i ->
               fatherId (patch r) = Some w \/ motherId (patch r) = Some w ->
               fatherId r = Some w \/ motherId r = Some w \/ N w) ->
  u <> i -> ~ ancestorOf s u i ->
  ancestorOf (update s i patch) u v -> ancestorOf s u v.
Proof.
  intros Hid Hnew Hne Hno. unfold ancestorOf.
  apply path_without_new_edge with (x := i) (N := N);
    [|exact Hne | exact Hno].
  intros a b H. apply (parentEdge_update s i patch a b Hid) in H.
  destruct H as [[_ H] | [-> [r [Hr [Hi Hp]]]]]; [left; exact H|].
  destruct (Hnew r b Hr Hi Hp) as [H | [H | H]].
  - left. exists r. auto.
  - left. exists r. auto.
  - right. auto.
Qed.

(** ** The service methods keep the store consistent *)

(** A parent id that passes [validateParents] is zero or the id of a row. *)
Lemma validateParents_known s f m :
  wellFormed s -> validateParents s f m = Ok tt ->
  forall p, f = Some p \/ m = Some p -> p < nextId s.
Proof.
  intros [Hpos Hlt] H. unfold validateParents in H.
  apply bind_Ok in H. destruct H as [[] [Hf Hm]].
  assert (G : forall o (ok : Error) (want : Gender) p,
             match ifTruthy o with
             | Some i => match findOneById s i with
                         | None => Err NotFound
                         | Some r => throwIf (negb (Gender_eqb (gender r) want)) ok
                         end
             | None => Ok tt
             end = Ok tt -> o = Some p -> p < nextId s).
  { intros o ok want p Ho Heq. subst o.
    destruct (Z.eq_dec p 0) as [-> | Hne]; [exact Hpos|].
    rewrite (ifTruthy_nonzero p Hne) in Ho.
    destruct (findOneById s p) as [r|] eqn:Er; [|discriminate].
    apply findOneById_In in Er. destruct Er as [Hin Hid].
    specialize (Hlt r Hin). lia. }
  intros p [Hp | Hp];
    [eapply G; [exact Hf | exact Hp] | eapply G; [exact Hm | exact Hp]].
Qed.

Lemma consistent_wellFormed s : consistent s -> wellFormed s.
Proof. intros H. apply H. Qed.

Lemma create_consistent dto s p s' :
  consistent s -> create dto s = (Ok p, s') -> consistent s'.
Proof.
  intros [Hwf [Hu Hk]]. unfold create.
  destruct (createChecks s dto) as [[d cs]|e] eqn:E; [|discriminate].
  unfold createChecks in E.
  apply bind_Ok in E. destruct E as [d' [Hv E]].
  apply bind_Ok in E. destruct E as [[] [Hp E]].
  apply bind_Ok in E. destruct E as [[] [_ E]].
  apply bind_Ok in E. destruct E as [cs' [Hc E]].
  inversion E. subst d' cs'. clear E.
  pose proof (validateParents_known s _ _ Hwf Hp) as Hkn.
  assert (Hwf1 : wellFormed (snd (insert s (entityOfCreate d))))
    by (apply wellFormed_insert; [reflexivity | exact Hwf]).
  assert (Hu1 : uniqueIds (snd (insert s (entityOfCreate d))))
    by (apply uniqueIds_insert; [reflexivity | exact Hwf | exact Hu]).
  assert (Hk1 : parentsKnown (snd (insert s (entityOfCreate d))))
    by (apply parentsKnown_insert; [intros q Hq; apply Hkn; exact Hq | exact Hk]).
  simpl. intros H. inversion H. subst p s'. clear H.
  destruct (0 <? List.length cs)%nat;
    [|split; [exact Hwf1 | split; [exact Hu1 | exact Hk1]]].
  split; [apply wellFormed_link; exact Hwf1|].
  split; [apply uniqueIds_link; exact Hu1|].
  apply parentsKnown_link; [simpl; lia | exact Hk1].
Qed.

Lemma updateChecks_Ok s i dto person :
  updateChecks s i dto = Ok person ->
  findOneById s i = Some person
  /\ when (updatesParent dto)
          (validateParents s (Js.toOption (UpdatePersonDto.fatherId dto))
                           (Js.toOption (UpdatePersonDto.motherId dto))) = Ok tt
  /\ namesItself i dto = false
  /\ cycleCheckOnUpdate s person (UpdatePersonDto.fatherId dto) = Ok tt
  /\ cycleCheckOnUpdate s person (UpdatePersonDto.motherId dto) = Ok tt.
Proof.
  unfold updateChecks. intros E.
  apply bind_Ok in E. destruct E as [q [Hq E]].
  apply bind_Ok in E. destruct E as [[] [Hp E]].
  apply bind_Ok in E. destruct E as [[] [_ E]].
  apply bind_Ok in E. destruct E as [[] [Hself E]].
  apply bind_Ok in E. destruct E as [[] [Hcf E]].
  apply bind_Ok in E. destruct E as [[] [Hcm E]].
  inversion E. subst q. clear E.
  unfold findPersonById in Hq.
  destruct (findOneById s i) as [x|] eqn:Ex; [|discriminate].
  inversion Hq. subst x. apply throwIf_Ok in Hself. auto.
Qed.

(** The parent ids an update writes are zero or the id of a row. *)
Lemma update_parents_known s dto :
  wellFormed s ->
  when (updatesParent dto)
       (validateParents s (Js.toOption (UpdatePersonDto.fatherId dto))
                        (Js.toOption (UpdatePersonDto.motherId dto))) = Ok tt ->
  forall p, UpdatePersonDto.fatherId dto = Js.Val p
            \/ UpdatePersonDto.motherId dto = Js.Val p -> p < nextId s.
Proof.
  intros Hwf H p Hp. unfold when in H.
  destruct (updatesParent dto) eqn:Eu.
  - apply (validateParents_known s _ _ Hwf H).
    destruct Hp as [-> | ->]; simpl; auto.
  - unfold updatesParent in Eu. apply orb_false_iff in Eu.
    destruct Eu as [Ef Em].
    assert (p = 0).
    { destruct Hp as [Hp | Hp]; rewrite Hp in *; simpl in *;
        unfold Js.truthyNumber in *;
        match goal with
        | H : negb (p =? 0) = false |- _ =>
            apply negb_false_iff, Z.eqb_eq in H; exact H
        end. }
    subst p. apply Hwf.
Qed.

Lemma parents_assign person dto v :
  fatherId (assign person dto) = Some v \/ motherId (assign person dto) = Some v ->
  fatherId person = Some v \/ motherId person = Some v
  \/ (UpdatePersonDto.fatherId dto = Js.Val v
      \/ UpdatePersonDto.motherId dto = Js.Val v).
Proof.
  simpl. unfold assignNullable.
  destruct (UpdatePersonDto.fatherId dto), (UpdatePersonDto.motherId dto);
    intros [H | H]; try discriminate; auto;
    inversion H; subst; auto.
Qed.

Lemma updatePerson_consistent i dto s p s' :
  consistent s -> updatePerson i dto s = (Ok p, s') -> consistent s'.
Proof.
  intros [Hwf [Hu Hk]]. unfold updatePerson.
  destruct (updateChecks s i dto) as [person|e] eqn:E; [|discriminate].
  intros H. inversion H. subst p s'. clear H.
  apply updateChecks_Ok in E. destruct E as [Hx [Hp _]].
  apply findOneById_In in Hx. destruct Hx as [Hin Hid].
  split; [|split].
  - apply wellFormed_save; [|exact Hwf].
    simpl. destruct Hwf as [_ Hlt]. apply Hlt. exact Hin.
  - unfold save. apply uniqueIds_update; [|exact Hu].
    intros r _ _. reflexivity.
  - unfold save. apply parentsKnown_update; [|exact Hk].
    intros r v _ _ Hv. apply parents_assign in Hv.
    destruct Hv as [Hv | [Hv | Hv]].
    + eapply Hk; [exact Hin | left; exact Hv].
    + eapply Hk; [exact Hin | right; exact Hv].
    + apply (update_parents_known s dto Hwf Hp). exact Hv.
Qed.

Lemma removePerson_consistent i s u s' :
  consistent s -> removePerson i s = (Ok u, s') -> consistent s'.
Proof.
  intros [Hwf [Hu Hk]]. unfold removePerson. break_match; [|discriminate].
  intros H. inversion H. subst. split; [|split].
  - apply wellFormed_remove. exact Hwf.
  - apply uniqueIds_remove. exact Hu.
  - apply parentsKnown_remove. exact Hk.
Qed.

Lemma linkChildrenToParent_consistent pid cids t s n s' :
  consistent s -> linkChildrenToParent pid cids t s = (Ok n, s') ->
  consistent s'.
Proof.
  intros [Hwf [Hu Hk]]. unfold linkChildrenToParent.
  destruct (linkChecks s pid cids t) as [[parent children]|e] eqn:E;
    [|discriminate].
  intros H. inversion H. subst n s'. clear H.
  apply linkChecks_Ok in E. destruct E as [Hx _].
  apply findOneById_In in Hx. destruct Hx as [Hin _].
  split; [apply wellFormed_link; exact Hwf|].
  split; [apply uniqueIds_link; exact Hu|].
  apply parentsKnown_link; [|exact Hk].
  destruct Hwf as [_ Hlt]. apply Hlt. exact Hin.
Qed.

Lemma promoteAncestor_Ok rejects dto s p s' :
  promoteAncestor rejects dto s = (Ok p, s') ->
  exists cur,
    findProgenitor s = Some cur
    /\ id cur = PromoteAncestorDto.currentProgenitorId dto
    /\ p = ancestorOfPromote dto (nextId s)
    /\ s' = update (snd (insert s (ancestorOfPromote dto)))
                   (id cur)
                   (demote (PromoteAncestorDto.relationship dto) (nextId s)).
Proof.
  unfold promoteAncestor.
  destruct (promoteChecks s dto) eqn:Ec; [|discriminate].
  destruct (rejects StConnect); [discriminate|].
  destruct (rejects StStartTransaction); [discriminate|].
  unfold promoteTransaction, promoteBody, release. simpl.
  destruct (rejects StSave); [discriminate|].
  destruct (rejects StUpdate); [discriminate|].
  destruct (rejects StCommit); [discriminate|].
  simpl. intros H. inversion H. subst p s'. clear H.
  unfold promoteChecks in Ec.
  destruct (findProgenitor s) as [cur|] eqn:Ef; [|discriminate].
  apply bind_Ok in Ec. destruct Ec as [[] [Ei _]].
  apply throwIf_Ok in Ei. apply negb_false_iff, Z.eqb_eq in Ei.
  exists cur. rewrite Ei. auto.
Qed.

Lemma promoteAncestor_consistent rejects dto s p s' :
  consistent s -> promoteAncestor rejects dto s = (Ok p, s') -> consistent s'.
Proof.
  intros [Hwf [Hu Hk]] H. apply promoteAncestor_Ok in H.
  destruct H as [cur [Hf [Hi [_ ->]]]].
  pose proof (wellFormed_insert s (ancestorOfPromote dto)
                (fun n => eq_refl) Hwf) as Hwf1.
  pose proof (uniqueIds_insert s (ancestorOfPromote dto)
                (fun n => eq_refl) Hwf Hu) as Hu1.
  assert (Hk1 : parentsKnown (snd (insert s (ancestorOfPromote dto))))
    by (apply parentsKnown_insert; [intros q [Hq | Hq]; discriminate | exact Hk]).
  split; [apply (wellFormed_update _ _ _ (id_demote _ _) Hwf1)|].
  split.
  - apply uniqueIds_update; [|exact Hu1].
    intros r _ Hr. rewrite id_demote. exact Hr.
  - apply parentsKnown_update; [|exact Hk1].
    intros r v Hr _ Hv. unfold demote in Hv.
    apply parents_setParentField in Hv. simpl in Hv.
    destruct Hv as [-> | Hv]; [simpl; lia|].
    eapply Hk1; eassumption.
Qed.

Lemma run_consistent m s s' :
  consistent s -> run m s = (true, s') -> consistent s'.
Proof.
  intros Hc. destruct m; simpl.
  - destruct (create dto s) as [[p|e] s1] eqn:E; simpl; intros H;
      inversion H; subst. eapply create_consistent; eassumption.
  - destruct (updatePerson i dto s) as [[p|e] s1] eqn:E; simpl; intros H;
      inversion H; subst. eapply updatePerson_consistent; eassumption.
  - destruct (removePerson i s) as [[p|e] s1] eqn:E; simpl; intros H;
      inversion H; subst. eapply removePerson_consistent; eassumption.
  - destruct (linkChildrenToParent parentId childrenIds parentType s)
      as [[p|e] s1] eqn:E; simpl; intros H;
      inversion H; subst. eapply linkChildrenToParent_consistent; eassumption.
  - destruct (promoteAncestor rejects dto s) as [[p|e] s1] eqn:E; simpl;
      intros H; inversion H; subst.
    eapply promoteAncestor_consistent; eassumption.
Qed.

(** ** The checked paths keep the ancestry acyclic *)

Lemma ancestorOf_mono s s' u v :
  (forall a b, parentEdge s' a b -> parentEdge s a b) ->
  ancestorOf s' u v -> ancestorOf s u v.
Proof.
  intros Hsub. unfold ancestorOf.
  induction 1 as [x y H | x y z _ IH1 _ IH2].
  - apply t_step. apply Hsub. exact H.
  - apply t_trans with (y := y); assumption.
Qed.

Lemma removePerson_acyclic i s u s' :
  acyclic s -> removePerson i s = (Ok u, s') -> acyclic s'.
Proof.
  intros Hac. unfold removePerson. break_match; [|discriminate].
  intros H. inversion H. subst. intros j Hj. apply (Hac j).
  revert Hj. apply ancestorOf_mono.
  intros a b [r [Hr Hrest]]. exists r. split; [|exact Hrest].
  simpl in Hr. apply filter_In in Hr. tauto.
Qed.

(** No path starts at an id that is not positive. *)
Lemma ancestorOf_positive s u v : wellFormed s -> ancestorOf s u v -> 0 < u.
Proof.
  intros [_ Hlt] H. apply ancestorOf_source in H.
  destruct H as [r [Hr <-]]. apply Hlt. exact Hr.
Qed.

Lemma cycleCheckOnUpdate_Ok s person n :
  wellFormed s -> uniqueIds s ->
  cycleCheckOnUpdate s person (Js.Val n) = Ok tt ->
  ~ ancestorOf s n (id person).
Proof.
  intros Hwf Hu H Hanc. simpl in H. apply throwIf_Ok in H.
  pose proof (ancestorOf_positive s n _ Hwf Hanc) as Hpos.
  apply (wouldCreateAncestryCycle_complete s (id person) n Hwf Hu); auto.
  lia.
Qed.

Lemma updatePerson_acyclic i dto s p s' :
  consistent s -> acyclic s -> updatePerson i dto s = (Ok p, s') -> acyclic s'.
Proof.
  intros [Hwf [Hu _]] Hac. unfold updatePerson.
  destruct (updateChecks s i dto) as [person|e] eqn:E; [|discriminate].
  intros H. inversion H. subst p s'. clear H.
  apply updateChecks_Ok in E. destruct E as [Hx [_ [Hself [Hcf Hcm]]]].
  pose proof (findOneById_In s i person Hx) as [Hin Hid].
  unfold save. simpl. rewrite Hid.
  apply update_acyclic
    with (N := fun v => UpdatePersonDto.fatherId dto = Js.Val v
                        \/ UpdatePersonDto.motherId dto = Js.Val v).
  - intros r _ _. exact Hid.
  - intros r v Hr Hr' Hv.
    assert (r = person).
    { pose proof (findOneById_unique s r Hu Hr) as Hf.
      rewrite Hr', Hx in Hf. congruence. }
    subst r. apply parents_assign in Hv. tauto.
  - intros n Hn. unfold namesItself in Hself.
    apply orb_false_iff in Hself. destruct Hself as [Hsf Hsm]. split.
    + destruct Hn as [Hn | Hn]; rewrite Hn in *; simpl in *;
        [apply Z.eqb_neq in Hsf | apply Z.eqb_neq in Hsm]; assumption.
    + rewrite <- Hid.
      destruct Hn as [Hn | Hn]; rewrite Hn in *;
        eapply cycleCheckOnUpdate_Ok; eassumption.
  - exact Hac.
Qed.

Lemma link_acyclic parent children :
  forall s,
    acyclic s ->
    (forall c, In c children ->
               id c <> id parent /\ ~ ancestorOf s (id parent) (id c)) ->
    acyclic (linkChildrenToParentInternal s parent children).
Proof.
  unfold linkChildrenToParentInternal.
  induction children as [|c cs IH]; simpl; intros s Hac Hcs; [exact Hac|].
  destruct (Hcs c (or_introl eq_refl)) as [Hne Hno].
  assert (Hid : forall r, In r (rows s) -> id r = id c ->
                          id (setParentField (gender parent) (Some (id parent)) r)
                          = id c)
    by (intros r _ Hr; rewrite id_setParentField; exact Hr).
  assert (Hnew : forall r v, In r (rows s) -> id r = id c ->
             fatherId (setParentField (gender parent) (Some (id parent)) r) = Some v
             \/ motherId (setParentField (gender parent) (Some (id parent)) r) = Some v ->
             fatherId r = Some v \/ motherId r = Some v \/ v = id parent)
    by (intros r v _ _ Hv; apply parents_setParentField in Hv; tauto).
  apply IH.
  - apply update_acyclic with (N := fun v => v = id parent); auto.
    intros n ->. auto.
  - intros c' Hc'. destruct (Hcs c' (or_intror Hc')) as [Hne' Hno'].
    split; [exact Hne'|]. intros Hanc. apply Hno'.
    revert Hanc.
    apply update_no_new_ancestor with (N := fun v => v = id parent); auto.
Qed.

Lemma forEach_Ok {A} (body : A -> result unit) xs :
  forEach body xs = Ok tt -> forall x, In x xs -> body x = Ok tt.
Proof.
  induction xs as [|a l IH]; simpl; intros H x Hx; [destruct Hx|].
  apply bind_Ok in H. destruct H as [[] [Ha Hl]].
  destruct Hx as [<- | Hx]; [exact Ha | apply IH; assumption].
Qed.

Lemma linkChildrenToParent_acyclic pid cids t s n s' :
  consistent s -> acyclic s ->
  linkChildrenToParent pid cids t s = (Ok n, s') -> acyclic s'.
Proof.
  intros [Hwf [Hu _]] Hac. unfold linkChildrenToParent.
  destruct (linkChecks s pid cids t) as [[parent children]|e] eqn:E;
    [|discriminate].
  intros H. inversion H. subst n s'. clear H.
  apply linkChecks_Ok in E. destruct E as [Hx [Hself [Hcyc Hc]]].
  apply findOneById_In in Hx. destruct Hx as [Hin Hid].
  pose proof (validateChildren_Ok _ _ _ _ _ _ Hc) as Hcs.
  apply link_acyclic; [exact Hac|].
  intros c Hc'. destruct (Hcs c Hc') as [_ [l [Hl Hcin]]].
  inversion Hl. subst l. rewrite Hid. split.
  - apply (existsb_eqb_false pid cids Hself). exact Hcin.
  - pose proof (forEach_Ok _ _ Hcyc (id c) Hcin) as Hb. simpl in Hb.
    apply throwIf_Ok in Hb.
    apply (wouldCreateAncestryCycle_complete s (id c) pid Hwf Hu); auto.
    destruct Hwf as [_ Hlt]. specialize (Hlt parent Hin). lia.
Qed.

(** A new row adds the edges that leave it. *)
Lemma parentEdge_insert s mk u v :
  parentEdge (snd (insert s mk)) u v ->
  parentEdge s u v
  \/ (u = id (mk (nextId s))
      /\ (fatherId (mk (nextId s)) = Some v \/ motherId (mk (nextId s)) = Some v)).
Proof.
  intros [r [Hr [Hu Hp]]]. simpl in Hr. apply in_app_or in Hr.
  destruct Hr as [Hr | [<- | []]].
  - left. exists r. auto.
  - right. auto.
Qed.

Lemma insert_acyclic s mk :
  (forall n, id (mk n) = n) -> wellFormed s -> parentsKnown s ->
  (forall v, fatherId (mk (nextId s)) = Some v \/ motherId (mk (nextId s)) = Some v ->
             v < nextId s) ->
  acyclic s -> acyclic (snd (insert s mk)).
Proof.
  intros Hid Hwf Hk Hnew Hac. unfold acyclic, ancestorOf.
  apply new_edges_acyclic
    with (E := parentEdge s) (x := nextId s)
         (N := fun v => fatherId (mk (nextId s)) = Some v
                        \/ motherId (mk (nextId s)) = Some v).
  - intros u v H. apply parentEdge_insert in H.
    destruct H as [H | [Hu Hp]]; [left; exact H|].
    right. rewrite Hid in Hu. auto.
  - intros u v _ [r [Hr Hrest]]. exists r. split; [|exact Hrest].
    simpl. apply in_or_app. left. exact Hr.
  - intros n Hn. split; [specialize (Hnew n Hn); lia|].
    intros Hanc. apply ancestorOf_target in Hanc.
    destruct Hanc as [r [Hr Hp]]. specialize (Hk r (nextId s) Hr Hp). lia.
  - exact Hac.
Qed.

Lemma promoteAncestor_acyclic rejects dto s p s' :
  consistent s -> acyclic s ->
  promoteAncestor rejects dto s = (Ok p, s') -> acyclic s'.
Proof.
  intros [Hwf [Hu Hk]] Hac H. apply promoteAncestor_Ok in H.
  destruct H as [cur [Hf [Hi [_ ->]]]].
  assert (Hin : In cur (rows s))
    by (unfold findProgenitor in Hf; apply find_some in Hf; tauto).
  assert (Hac1 : acyclic (snd (insert s (ancestorOfPromote dto)))).
  { apply insert_acyclic; auto. intros v [Hv | Hv]; discriminate. }
  apply update_acyclic with (N := fun v => v = nextId s).
  - intros r _ Hr. rewrite id_demote. exact Hr.
  - intros r v _ _ Hv. unfold demote in Hv.
    apply parents_setParentField in Hv. simpl in Hv. tauto.
  - intros n ->. split.
    + destruct Hwf as [_ Hlt]. specialize (Hlt cur Hin). lia.
    + intros Hanc. apply ancestorOf_first_edge in Hanc.
      destruct Hanc as [c Hedge]. apply parentEdge_insert in Hedge.
      destruct Hedge as [[r [Hr [Hid _]]] | [_ [Hp | Hp]]];
        try discriminate.
      destruct Hwf as [_ Hlt]. specialize (Hlt r Hr). lia.
  - exact Hac1.
Qed.

(** ** Creation: where the ancestry stays acyclic without a cycle check *)

Lemma validateNotOrphan_Ok s dto d :
  validateNotOrphan s dto = Ok d ->
  (d = dto \/ (d = markProgenitor dto /\ rows s = []))
  /\ CreatePersonDto.fatherId d = CreatePersonDto.fatherId dto
  /\ CreatePersonDto.motherId d = CreatePersonDto.motherId dto
  /\ CreatePersonDto.childrenIds d = CreatePersonDto.childrenIds dto.
Proof.
  unfold validateNotOrphan. intros H.
  destruct (hasParent dto || hasChildren dto);
    [inversion H; subst; auto|].
  destruct (truthyFlag (CreatePersonDto.progenitor dto));
    [inversion H; subst; auto|].
  destruct (count s =? 0) eqn:E; [|discriminate].
  inversion H. subst. apply count_zero in E. simpl. auto.
Qed.

Lemma ifTruthy_None_zero o y : ifTruthy o = None -> o = Some y -> y = 0.
Proof.
  intros H ->. unfold ifTruthy, Js.truthyNumber in H.
  destruct (y =? 0) eqn:E; [apply Z.eqb_eq; exact E | discriminate].
Qed.

Lemma create_acyclic dto s p s' :
  consistent s -> acyclic s -> create dto s = (Ok p, s') ->
  hasParent dto = false \/ hasChildren dto = false ->
  acyclic s'.
Proof.
  intros [Hwf [Hu Hk]] Hac. unfold create.
  destruct (createChecks s dto) as [[d cs]|e] eqn:E; [|discriminate].
  apply createChecks_Ok in E. destruct E as [Hv [Hp Hc]].
  apply validateNotOrphan_Ok in Hv. destruct Hv as [_ [Hfd [Hmd Hcd]]].
  pose proof (validateParents_known s _ _ Hwf Hp) as Hkn.
  assert (Hac1 : acyclic (snd (insert s (entityOfCreate d))))
    by (apply insert_acyclic; auto).
  assert (Hwf1 : wellFormed (snd (insert s (entityOfCreate d))))
    by (apply wellFormed_insert; [reflexivity | exact Hwf]).
  simpl. intros H Hdto. inversion H. subst p s'. clear H.
  destruct (0 <? List.length cs)%nat eqn:El; [|exact Hac1].
  pose proof (validateChildren_Ok _ _ _ _ _ _ Hc) as Hcs.
  destruct Hdto as [Hno | Hno].
  2:{ (* no child named: nothing to link *)
      exfalso. apply hasChildren_false in Hno. rewrite Hcd in Hc.
      destruct Hno as [Hno | Hno]; rewrite Hno in Hc; inversion Hc; subst;
        discriminate. }
  apply hasParent_false in Hno. rewrite <- Hfd, <- Hmd in Hno.
  destruct Hno as [Hf0 Hm0].
  apply link_acyclic; [exact Hac1|].
  intros c Hcin. destruct (Hcs c Hcin) as [Hin _].
  assert (Hcpos : 0 < id c < nextId s) by (apply Hwf; exact Hin).
  simpl. split; [lia|].
  intros Hanc. unfold ancestorOf in Hanc. apply clos_trans_t1n in Hanc.
  assert (Hfirst : forall y,
             parentEdge (snd (insert s (entityOfCreate d))) (nextId s) y ->
             y = 0).
  { intros y Hedge. apply parentEdge_insert in Hedge.
    destruct Hedge as [[r [Hr [Hid _]]] | [_ Hpar]].
    - destruct Hwf as [_ Hlt]. specialize (Hlt r Hr). lia.
    - simpl in Hpar. destruct Hpar as [Hpar | Hpar].
      + exact (ifTruthy_None_zero _ y Hf0 Hpar).
      + exact (ifTruthy_None_zero _ y Hm0 Hpar). }
  inversion Hanc as [y Hedge | y z Hedge Hrest]; subst.
  - apply Hfirst in Hedge. lia.
  - apply Hfirst in Hedge. subst y. apply clos_t1n_trans in Hrest.
    pose proof (ancestorOf_positive _ 0 _ Hwf1 Hrest). lia.
Qed.

(** Every committed mutation other than a creation that names both a parent
    and children keeps the store consistent and the ancestry acyclic. *)
Theorem checked_mutations_keep_acyclicity (m : Mutation) (s s' : Store) :
  consistent s -> acyclic s -> run m s = (true, s') ->
  match m with
  | MCreate dto => hasParent dto = false \/ hasChildren dto = false
  | _ => True
  end ->
  consistent s' /\ acyclic s'.
Proof.
  intros Hc Hac Hrun Hm. split; [eapply run_consistent; eassumption|].
  destruct m; simpl in Hrun.
  - destruct (create dto s) as [[p|e] s1] eqn:E; simpl in Hrun;
      inversion Hrun; subst. eapply create_acyclic; eassumption.
  - destruct (updatePerson i dto s) as [[p|e] s1] eqn:E; simpl in Hrun;
      inversion Hrun; subst. eapply updatePerson_acyclic; eassumption.
  - destruct (removePerson i s) as [[p|e] s1] eqn:E; simpl in Hrun;
      inversion Hrun; subst. eapply removePerson_acyclic; eassumption.
  - destruct (linkChildrenToParent parentId childrenIds parentType s)
      as [[p|e] s1] eqn:E; simpl in Hrun;
      inversion Hrun; subst. eapply linkChildrenToParent_acyclic; eassumption.
  - destruct (promoteAncestor rejects dto s) as [[p|e] s1] eqn:E;
      simpl in Hrun; inversion Hrun; subst.
    eapply promoteAncestor_acyclic; eassumption.
Qed.

(** ** The progenitor flag outside explicit requests *)

Lemma progenitorCount_link parent children s :
  progenitorCount (linkChildrenToParentInternal s parent children)
  = progenitorCount s.
Proof.
  unfold linkChildrenToParentInternal. revert s.
  induction children as [|c cs IH]; simpl; intros s; [reflexivity|].
  rewrite IH. apply progenitorCount_update.
  intros r. destruct (gender parent); reflexivity.
Qed.

Lemma progenitorCount_update_le s i patch :
  (forall r, In r (rows s) -> id r = i ->
             progenitor (patch r) = true -> progenitor r = true) ->
  (progenitorCount (update s i patch) <= progenitorCount s)%nat.
Proof.
  unfold progenitorCount, update. simpl.
  induction (rows s) as [|q l IH]; simpl; intros H; [lia|].
  assert (IH' : (List.length
                   (filter progenitor
                      (map (fun p => if hasId i p then patch p else p) l))
                 <= List.length (filter progenitor l))%nat)
    by (apply IH; intros r Hr; apply H; right; exact Hr).
  unfold hasId at 1. destruct (id q =? i) eqn:E.
  - apply Z.eqb_eq in E. specialize (H q (or_introl eq_refl) E).
    destruct (progenitor (patch q)).
    + rewrite (H eq_refl). simpl. lia.
    + destruct (progenitor q); simpl; lia.
  - destruct (progenitor q); simpl; lia.
Qed.

Lemma progenitorCount_remove s p :
  (progenitorCount (remove s p) <= progenitorCount s)%nat.
Proof.
  unfold progenitorCount, remove. simpl.
  induction (rows s) as [|q l IH]; simpl; [lia|].
  destruct (negb (hasId (id p) q)); simpl; destruct (progenitor q); simpl; lia.
Qed.

(** Every committed mutation that does not itself ask for
    [progenitor: true] keeps the progenitor unique. *)
Theorem unflagged_mutations_keep_single_progenitor
        (m : Mutation) (s s' : Store) :
  consistent s -> singleProgenitor s -> run m s = (true, s') ->
  match m with
  | MCreate dto => CreatePersonDto.progenitor dto <> Some true
  | MUpdate _ dto => UpdatePersonDto.progenitor dto <> Some true
  | _ => True
  end ->
  singleProgenitor s'.
Proof.
  intros [Hwf [Hu Hk]] Hs Hrun Hm. unfold singleProgenitor in *.
  destruct m; simpl in Hrun.
  - destruct (create dto s) as [[p|e] s1] eqn:E; simpl in Hrun;
      inversion Hrun; subst. clear Hrun. revert E. unfold create.
    destruct (createChecks s dto) as [[d cs]|e] eqn:Ec; [|discriminate].
    apply createChecks_Ok in Ec. destruct Ec as [Hv _].
    apply validateNotOrphan_Ok in Hv. destruct Hv as [Hd _].
    simpl. intros H. inversion H. subst p s'. clear H.
    assert (H1 : (progenitorCount (snd (insert s (entityOfCreate d))) <= 1)%nat).
    { rewrite progenitorCount_insert. simpl.
      destruct Hd as [-> | [-> Hr]].
      - apply truthyFlag_false in Hm. rewrite Hm. lia.
      - unfold progenitorCount. rewrite Hr. simpl. lia. }
    destruct (0 <? List.length cs)%nat; [|exact H1].
    rewrite progenitorCount_link. exact H1.
  - destruct (updatePerson i dto s) as [[p|e] s1] eqn:E; simpl in Hrun;
      inversion Hrun; subst. clear Hrun. revert E. unfold updatePerson.
    destruct (updateChecks s i dto) as [person|e] eqn:Ec; [|discriminate].
    apply updateChecks_Ok in Ec. destruct Ec as [Hx _].
    intros H. inversion H. subst p s'. clear H.
    pose proof (findOneById_In s i person Hx) as [Hin Hid].
    unfold save.
    eapply Nat.le_trans; [apply progenitorCount_update_le | exact Hs].
    intros r Hr Hri. simpl in Hri.
    assert (r = person).
    { pose proof (findOneById_unique s r Hu Hr) as Hf.
      rewrite Hri, Hid, Hx in Hf. congruence. }
    subst r. simpl. unfold assignField.
    destruct (UpdatePersonDto.progenitor dto) as [[|]|]; auto; congruence.
  - destruct (removePerson i s) as [[p|e] s1] eqn:E; simpl in Hrun;
      inversion Hrun; subst. clear Hrun. revert E. unfold removePerson.
    break_match; [|discriminate]. intros H. inversion H. subst.
    eapply Nat.le_trans; [apply progenitorCount_remove | exact Hs].
  - destruct (linkChildrenToParent parentId childrenIds parentType s)
      as [[p|e] s1] eqn:E; simpl in Hrun; inversion Hrun; subst. clear Hrun.
    revert E. unfold linkChildrenToParent.
    destruct (linkChecks s parentId childrenIds parentType) as [[q l]|e];
      [|discriminate].
    intros H. inversion H. subst. rewrite progenitorCount_link. exact Hs.
  - destruct (promoteAncestor rejects dto s) as [[p|e] s1] eqn:E;
      simpl in Hrun; inversion Hrun; subst.
    eapply promoteAncestor_single_progenitor; eassumption.
Qed.

(** ** Requests served while writes are rejected *)

(** The children that [linkChildrenToParent] has checked: none is the
    parent, and none is an ancestor of the parent. *)
Lemma linkChecks_children s pid cids t parent children :
  wellFormed s -> uniqueIds s ->
  linkChecks s pid cids t = Ok (parent, children) ->
  In parent (rows s)
  /\ forall c, In c children ->
               id c <> id parent /\ ~ ancestorOf s (id parent) (id c).
Proof.
  intros Hwf Hu E.
  apply linkChecks_Ok in E. destruct E as [Hx [Hself [Hcyc Hc]]].
  apply findOneById_In in Hx. destruct Hx as [Hin Hid].
  pose proof (validateChildren_Ok _ _ _ _ _ _ Hc) as Hcs.
  split; [exact Hin|].
  intros c Hc'. destruct (Hcs c Hc') as [_ [l [Hl Hcin]]].
  inversion Hl. subst l. rewrite Hid. split.
  - apply (existsb_eqb_false pid cids Hself). exact Hcin.
  - pose proof (forEach_Ok _ _ Hcyc (id c) Hcin) as Hb. simpl in Hb.
    apply throwIf_Ok in Hb.
    apply (wouldCreateAncestryCycle_complete s (id c) pid Hwf Hu); auto.
    destruct Hwf as [_ Hlt]. specialize (Hlt parent Hin). lia.
Qed.

(** The store after the new row of a creation has been saved, and the
    children the creation has checked: rows of the store that are not
    ancestors of the new row when the creation names no parent. *)
Lemma createChecks_children s dto d cs :
  consistent s -> acyclic s ->
  createChecks s dto = Ok (d, cs) ->
  let s1 := snd (insert s (entityOfCreate d)) in
  consistent s1
  /\ (hasParent dto = false \/ hasChildren dto = false -> acyclic s1)
  /\ (forall c, In c cs -> 0 < id c < nextId s)
  /\ (hasChildren dto = false -> cs = [])
  /\ (hasParent dto = false ->
      forall c, In c cs -> ~ ancestorOf s1 (nextId s) (id c)).
Proof.
  intros [Hwf [Hu Hk]] Hac E s1.
  apply createChecks_Ok in E. destruct E as [Hv [Hp Hc]].
  apply validateNotOrphan_Ok in Hv. destruct Hv as [_ [Hfd [Hmd Hcd]]].
  pose proof (validateParents_known s _ _ Hwf Hp) as Hkn.
  assert (Hwf1 : wellFormed s1)
    by (apply wellFormed_insert; [reflexivity | exact Hwf]).
  assert (Hu1 : uniqueIds s1)
    by (apply uniqueIds_insert; [reflexivity | exact Hwf | exact Hu]).
  assert (Hk1 : parentsKnown s1)
    by (apply parentsKnown_insert; [intros q Hq; apply Hkn; exact Hq | exact Hk]).
  pose proof (validateChildren_Ok _ _ _ _ _ _ Hc) as Hcs.
  split; [split; [exact Hwf1 | split; [exact Hu1 | exact Hk1]]|].
  split; [intros _; apply insert_acyclic; auto|].
  split; [intros c Hcin; apply Hwf; apply (Hcs c Hcin)|].
  split.
  - intros Hno. apply hasChildren_false in Hno. rewrite Hcd in Hc.
    destruct Hno as [Hno | Hno]; rewrite Hno in Hc; inversion Hc; reflexivity.
  - intros Hno c Hcin.
    apply hasParent_false in Hno. rewrite <- Hfd, <- Hmd in Hno.
    destruct Hno as [Hf0 Hm0].
    intros Hanc. unfold ancestorOf in Hanc. apply clos_trans_t1n in Hanc.
    assert (Hfirst : forall y, parentEdge s1 (nextId s) y -> y = 0).
    { intros y Hedge. apply parentEdge_insert in Hedge.
      destruct Hedge as [[r [Hr [Hid _]]] | [_ Hpar]].
      - destruct Hwf as [_ Hlt]. specialize (Hlt r Hr). lia.
      - simpl in Hpar. destruct Hpar as [Hpar | Hpar].
        + exact (ifTruthy_None_zero _ y Hf0 Hpar).
        + exact (ifTruthy_None_zero _ y Hm0 Hpar). }
    assert (Hcpos : 0 < id c < nextId s) by (apply Hwf; apply (Hcs c Hcin)).
    inversion Hanc as [y Hedge | y z Hedge Hrest]; subst.
    + apply Hfirst in Hedge. lia.
    + apply Hfirst in Hedge. subst y. apply clos_t1n_trans in Hrest.
      pose proof (ancestorOf_positive _ 0 _ Hwf1 Hrest). lia.
Qed.

(** What a request leaves behind when the update of a child is rejected
    is consistent and acyclic as well. *)
Lemma partial_create_acyclic rejects s dto d cs :
  consistent s -> acyclic s ->
  hasParent dto = false \/ hasChildren dto = false ->
  createChecks s dto = Ok (d, cs) ->
  let s' := linkChildrenToParentInternal
              (snd (insert s (entityOfCreate d)))
              (fst (insert s (entityOfCreate d)))
              (acceptedChildren rejects cs) in
  consistent s' /\ acyclic s'.
Proof.
  intros Hc Hac Hdto E s'.
  destruct (createChecks_children s dto d cs Hc Hac E)
    as [[Hwf1 [Hu1 Hk1]] [Hac1 [Hpos [Hnil Hanc]]]].
  split.
  - split; [apply wellFormed_link; exact Hwf1|].
    split; [apply uniqueIds_link; exact Hu1|].
    apply parentsKnown_link; [simpl; lia | exact Hk1].
  - destruct Hdto as [Hno | Hno].
    + apply link_acyclic; [apply Hac1; left; exact Hno|].
      intros c Hcin. apply acceptedChildren_In in Hcin.
      split; [simpl; specialize (Hpos c Hcin); lia|].
      apply (Hanc Hno c Hcin).
    + unfold s'. rewrite (Hnil Hno). apply Hac1. right. exact Hno.
Qed.

Lemma partial_link_acyclic rejects s pid cids t parent children :
  consistent s -> acyclic s ->
  linkChecks s pid cids t = Ok (parent, children) ->
  let s' := linkChildrenToParentInternal s parent
              (acceptedChildren rejects children) in
  consistent s' /\ acyclic s'.
Proof.
  intros [Hwf [Hu Hk]] Hac E s'.
  destruct (linkChecks_children s pid cids t parent children Hwf Hu E)
    as [Hin Hcs].
  split.
  - split; [apply wellFormed_link; exact Hwf|].
    split; [apply uniqueIds_link; exact Hu|].
    apply parentsKnown_link; [|exact Hk].
    destruct Hwf as [_ Hlt]. apply Hlt. exact Hin.
  - apply link_acyclic; [exact Hac|].
    intros c Hcin. apply Hcs. apply acceptedChildren_In in Hcin. exact Hcin.
Qed.

(** A request whose new parent links are all checked keeps the store
    consistent and the ancestry acyclic whether it succeeds or fails, and
    whatever writes the repository rejects. *)
Lemma serve_checked rejects m s ok s' :
  consistent s -> acyclic s -> checkedForCycles m ->
  serve rejects m s = (ok, s') -> consistent s' /\ acyclic s'.
Proof.
  intros Hc Hac Hm.
  assert (Hrun : forall b s1, run m s = (b, s1) -> consistent s1 /\ acyclic s1).
  { intros [|] s1 Hr.
    - apply (checked_mutations_keep_acyclicity m s s1 Hc Hac Hr Hm).
    - apply run_failed in Hr. subst s1. auto. }
  destruct m; simpl in *.
  - rewrite Faulty_create_outcome.
    destruct (createChecks s dto) as [[d cs]|e0] eqn:E.
    + destruct (rejects RcSave); [intros H; inversion H; subst; auto|].
      destruct (rejectsAChild rejects cs).
      * intros H. inversion H. subst ok s'.
        apply (partial_create_acyclic rejects s dto d cs Hc Hac Hm E).
      * destruct (create dto s) as [r s1] eqn:Ec. intros H. inversion H.
        subst ok s'. apply (Hrun (succeeded r) s1). reflexivity.
    + intros H. inversion H. subst. auto.
  - rewrite Faulty_updatePerson_outcome.
    destruct (updateChecks s i dto) as [person|e0] eqn:E.
    + destruct (rejects RcSave); [intros H; inversion H; subst; auto|].
      destruct (updatePerson i dto s) as [r s1] eqn:Ec. intros H. inversion H.
      subst ok s'. apply (Hrun (succeeded r) s1). reflexivity.
    + intros H. inversion H. subst. auto.
  - rewrite Faulty_removePerson_outcome.
    destruct (removePerson i s) as [[[]|e0] s1] eqn:E.
    + destruct (rejects RcRemove); intros H; inversion H; subst; auto.
      eapply Hrun. reflexivity.
    + intros H. inversion H. subst. auto.
  - rewrite Faulty_linkChildrenToParent_outcome.
    destruct (linkChecks s parentId childrenIds parentType)
      as [[parent children]|e0] eqn:E.
    + destruct (rejectsAChild rejects children).
      * intros H. inversion H. subst ok s'.
        apply (partial_link_acyclic rejects s _ _ _ parent children Hc Hac E).
      * destruct (linkChildrenToParent parentId childrenIds parentType s)
          as [r s1] eqn:Ec.
        intros H. inversion H. subst ok s'.
        apply (Hrun (succeeded r) s1). reflexivity.
    + intros H. inversion H. subst. auto.
  - destruct (promoteAncestor rejects0 dto s) as [r s1] eqn:Ec.
    intros H. inversion H. subst ok s'.
    apply (Hrun (succeeded r) s1). reflexivity.
Qed.

Lemma serveAll_checked requests :
  forall s, consistent s -> acyclic s ->
            Forall (fun request => checkedForCycles (snd request)) requests ->
            consistent (serveAll requests s) /\ acyclic (serveAll requests s).
Proof.
  unfold serveAll.
  induction requests as [|[rejects m] l IH]; simpl; intros s Hc Hac Hall;
    [auto|].
  inversion Hall as [|? ? Hm Hl]. subst. simpl in Hm.
  destruct (serve rejects m s) as [ok s1] eqn:E. simpl.
  destruct (serve_checked rejects m s ok s1 Hc Hac Hm E).
  apply IH; assumption.
Qed.

(** With a repository that accepts every write, [serve] is [run]. *)
Lemma serve_accepting m s : serve accepting m s = run m s.
Proof.
  destruct (accepting_repository s) as [H1 [H2 [H3 H4]]].
  destruct m; simpl; rewrite ?H1, ?H2, ?H3, ?H4; reflexivity.
Qed.

(** ** Requests that would close a loop *)

Lemma wouldCreateAncestryCycle_finds s a start :
  wellFormed s -> uniqueIds s -> ancestorOf s start a ->
  wouldCreateAncestryCycle s a start = true.
Proof.
  intros Hwf Hu Hanc.
  destruct (wouldCreateAncestryCycle s a start) eqn:E; [reflexivity|].
  exfalso.
  pose proof (ancestorOf_positive s start a Hwf Hanc) as Hpos.
  apply (wouldCreateAncestryCycle_complete s a start Hwf Hu); auto. lia.
Qed.

Lemma update_closing_a_loop s i x dto n :
  wellFormed s -> uniqueIds s ->
  findOneById s i = Some x ->
  UpdatePersonDto.fatherId dto = Js.Val n
  \/ UpdatePersonDto.motherId dto = Js.Val n ->
  ancestorOf s n i ->
  (exists e, updatePerson i dto s = (Err e, s))
  /\ (passesEarlierChecks s i x dto ->
      updatePerson i dto s = (Err CycleDetected, s)).
Proof.
  intros Hwf Hu Hx Hn Hanc.
  pose proof (findOneById_In s i x Hx) as [_ Hid].
  assert (Hcyc : cycleCheckOnUpdate s x (UpdatePersonDto.fatherId dto)
                 = Err CycleDetected
                 \/ (cycleCheckOnUpdate s x (UpdatePersonDto.fatherId dto) = Ok tt
                     /\ cycleCheckOnUpdate s x (UpdatePersonDto.motherId dto)
                        = Err CycleDetected)).
  { destruct Hn as [Hn | Hn].
    - left. rewrite Hn. simpl. rewrite Hid.
      rewrite (wouldCreateAncestryCycle_finds s i n Hwf Hu Hanc). reflexivity.
    - destruct (cycleCheckOnUpdate s x (UpdatePersonDto.fatherId dto))
        as [[]|e] eqn:Ef.
      + right. split; [reflexivity|]. rewrite Hn. simpl. rewrite Hid.
        rewrite (wouldCreateAncestryCycle_finds s i n Hwf Hu Hanc).
        reflexivity.
      + left. destruct (UpdatePersonDto.fatherId dto); simpl in Ef;
          try discriminate.
        apply throwIf_Err in Ef. destruct Ef as [_ ->]. reflexivity. }
  split.
  - unfold updatePerson.
    destruct (updateChecks s i dto) as [person|e] eqn:E; [|eauto].
    exfalso. apply updateChecks_Ok in E.
    destruct E as [Hx' [_ [_ [Hcf Hcm]]]].
    rewrite Hx in Hx'. inversion Hx'. subst person.
    destruct Hcyc as [Hc | [_ Hc]]; congruence.
  - intros [Hp [Hd Hs]]. unfold updatePerson, updateChecks, findPersonById.
    rewrite Hx. simpl. rewrite Hp. simpl. rewrite Hd. simpl. rewrite Hs.
    simpl. destruct Hcyc as [Hc | [Hc1 Hc2]].
    + rewrite Hc. reflexivity.
    + rewrite Hc1. simpl. rewrite Hc2. reflexivity.
Qed.

Lemma forEach_throws {A} (body : A -> result unit) xs e x :
  (forall y, body y = Ok tt \/ body y = Err e) ->
  In x xs -> body x = Err e -> forEach body xs = Err e.
Proof.
  intros Hall Hin Hx. induction xs as [|a l IH]; simpl; [destruct Hin|].
  destruct (Hall a) as [Ha | Ha]; rewrite Ha; simpl; [|reflexivity].
  destruct Hin as [-> | Hin]; [congruence | apply IH; exact Hin].
Qed.

Lemma link_closing_a_loop s pid parent cids t c :
  wellFormed s -> uniqueIds s ->
  findOneById s pid = Some parent ->
  In c cids -> ancestorOf s pid c ->
  linkChildrenToParent pid cids t s
  = (Err (if existsb (Z.eqb pid) cids then SelfParent else CycleDetected), s).
Proof.
  intros Hwf Hu Hp Hc Hanc.
  assert (Hf : forEach
                 (fun childId =>
                    throwIf (wouldCreateAncestryCycle s childId pid) CycleDetected)
                 cids = Err CycleDetected).
  { apply forEach_throws with (x := c).
    - intros y. destruct (wouldCreateAncestryCycle s y pid); simpl; auto.
    - exact Hc.
    - rewrite (wouldCreateAncestryCycle_finds s c pid Hwf Hu Hanc).
      reflexivity. }
  unfold linkChildrenToParent, linkChecks, findPersonById.
  rewrite Hp, Hf.
  destruct cids as [|c0 cs]; [destruct Hc|].
  cbn [bind List.length Nat.eqb throwIf].
  destruct (existsb (Z.eqb pid) (c0 :: cs)); reflexivity.
Qed.

Lemma runAll_checked ms :
  forall s, consistent s -> acyclic s -> Forall checkedForCycles ms ->
            consistent (runAll ms s) /\ acyclic (runAll ms s).
Proof.
  unfold runAll.
  induction ms as [|m ms IH]; simpl; intros s Hc Hac Hall; [auto|].
  inversion Hall as [|? ? Hm Hms]. subst.
  destruct (run m s) as [[|] s1] eqn:E; simpl.
  - destruct (checked_mutations_keep_acyclicity m s s1 Hc Hac E Hm).
    apply IH; assumption.
  - apply run_failed in E. subst. apply IH; assumption.
Qed.

(** C2, as amended.  From a consistent, acyclic store: every committed
    mutation whose new parent links are all checked (every mutation but a
    creation that names both a parent and children) leaves the store
    acyclic, and so does every sequence of such requests.  An update that
    would close a loop fails and leaves the store as it was, with
    [CycleDetected] when the validators that run before the cycle check let
    it through, and otherwise with the error of the first of them that
    fails: the relationship validator, the temporal validator, or the
    self-parent test.  A child-linking that would close a loop fails and leaves
    the store as it was, with [SelfParent] when the parent is among the
    children, and with [CycleDetected] otherwise.  Both are refused before
    any write: the outcome is the same whatever the repository does with
    writes.  The store stays acyclic also when the repository rejects
    writes: what a request leaves behind when it fails, be it after some of
    its writes, is consistent and acyclic as well. *)
Theorem acyclicity_invariant (s : Store) :
  consistent s -> acyclic s ->
  (forall m s', checkedForCycles m -> run m s = (true, s') ->
                consistent s' /\ acyclic s')
  /\ (forall ms, Forall checkedForCycles ms ->
                 consistent (runAll ms s) /\ acyclic (runAll ms s))
  /\ (forall i x dto n,
         findOneById s i = Some x ->
         UpdatePersonDto.fatherId dto = Js.Val n
         \/ UpdatePersonDto.motherId dto = Js.Val n ->
         ancestorOf s n i ->
         let roles :=
           when (updatesParent dto)
                (validateParents s (Js.toOption (UpdatePersonDto.fatherId dto))
                   (Js.toOption (UpdatePersonDto.motherId dto))) in
         let dates :=
           when (updatesDates dto)
                (validateParentDates s
                   (Js.nullishOpt (UpdatePersonDto.birthDate dto) (birthDate x))
                   (Js.nullish (UpdatePersonDto.fatherId dto) (fatherId x))
                   (Js.nullish (UpdatePersonDto.motherId dto) (motherId x))) in
         (exists e, updatePerson i dto s = (Err e, s)
                    /\ forall rejects,
                         Faulty.updatePerson rejects i dto s = (Err e, s))
         /\ (passesEarlierChecks s i x dto ->
             updatePerson i dto s = (Err CycleDetected, s))
         /\ (forall e, roles = Err e -> updatePerson i dto s = (Err e, s))
         /\ (forall e, roles = Ok tt -> dates = Err e ->
                       updatePerson i dto s = (Err e, s))
         /\ (roles = Ok tt -> dates = Ok tt -> namesItself i dto = true ->
             updatePerson i dto s = (Err SelfParent, s)))
  /\ (forall pid parent cids t c,
         findOneById s pid = Some parent ->
         In c cids -> ancestorOf s pid c ->
         let e := if existsb (Z.eqb pid) cids then SelfParent
                  else CycleDetected in
         linkChildrenToParent pid cids t s = (Err e, s)
         /\ forall rejects,
              Faulty.linkChildrenToParent rejects pid cids t s = (Err e, s))
  /\ (forall rejects m ok s',
         checkedForCycles m -> serve rejects m s = (ok, s') ->
         consistent s' /\ acyclic s')
  /\ (forall requests,
         Forall (fun request => checkedForCycles (snd request)) requests ->
         consistent (serveAll requests s) /\ acyclic (serveAll requests s)).
Proof.
  intros Hc Hac. pose proof Hc as [Hwf [Hu _]].
  split; [|split; [|split; [|split; [|split]]]].
  - intros m s' Hm Hrun.
    apply (checked_mutations_keep_acyclicity m s s' Hc Hac Hrun Hm).
  - intros ms Hms. apply runAll_checked; assumption.
  - intros i x dto n Hx Hn Hanc roles dates.
    destruct (update_closing_a_loop s i x dto n Hwf Hu Hx Hn Hanc)
      as [[e He] Hcyc].
    split.
    { exists e. split; [exact He|]. intros rejects.
      destruct (refused_whatever_the_repository rejects s) as [_ [H _]].
      apply (H i dto e s He). }
    split; [exact Hcyc|].
    unfold updatePerson, updateChecks, findPersonById. rewrite Hx.
    cbn [bind]. fold roles. fold dates.
    split; [intros e0 ->; reflexivity|].
    split; [intros e0 -> ->; reflexivity|].
    intros -> -> ->. reflexivity.
  - intros pid parent cids t c Hp Hin Hanc e.
    pose proof (link_closing_a_loop s pid parent cids t c Hwf Hu Hp Hin Hanc)
      as Hl.
    split; [exact Hl|]. intros rejects.
    destruct (refused_whatever_the_repository rejects s) as [_ [_ [_ H]]].
    apply (H pid cids t e s Hl).
  - intros rejects m ok s' Hm Hs.
    apply (serve_checked rejects m s ok s' Hc Hac Hm Hs).
  - intros requests Hall. apply serveAll_checked; assumption.
Qed.

Lemma acyclicity_invariant_witness :
  updatePerson 1 (withFatherId (Js.Val 2))
    {| rows := [Sample.person 1 male None None true None None;
                Sample.person 2 male None None false (Some 1) None];
       nextId := 3 |}
  = (Err CycleDetected,
     {| rows := [Sample.person 1 male None None true None None;
                 Sample.person 2 male None None false (Some 1) None];
        nextId := 3 |}).
Proof.
  set (s := {| rows := [Sample.person 1 male None None true None None;
                        Sample.person 2 male None None false (Some 1) None];
               nextId := 3 |}).
  assert (Hc : consistent s).
  { split; [|split].
    - split; [reflexivity|]. simpl.
      intros p [<- | [<- | []]]; simpl; lia.
    - unfold uniqueIds. simpl.
      constructor; [simpl; intros [H | []]; discriminate|].
      constructor; [intros [] | constructor].
    - intros r p [<- | [<- | []]]; simpl; intros [H | H];
        inversion H; reflexivity. }
  assert (Hac : acyclic s).
  { intros i H. unfold ancestorOf in H. apply clos_trans_t1n in H.
    assert (E : forall a b, parentEdge s a b -> a = 2 /\ b = 1).
    { intros a b [r [[<- | [<- | []]] [<- Hp]]]; simpl in Hp;
        destruct Hp as [Hp | Hp]; inversion Hp; auto. }
    inversion H as [y He | y z He Hr]; subst.
    - apply E in He. lia.
    - apply E in He. destruct He as [-> ->].
      inversion Hr as [y He | y z' He Hr']; subst; apply E in He; lia. }
  destruct (acyclicity_invariant s Hc Hac) as [_ [_ [H _]]].
  destruct (H 1 (Sample.person 1 male None None true None None)
              (withFatherId (Js.Val 2)) 2 eq_refl (or_introl eq_refl))
    as [_ [H2 _]].
  - apply t_step. exists (Sample.person 2 male None None false (Some 1) None).
    simpl. auto.
  - apply H2. split; [reflexivity|]. split; reflexivity.
Defined.

(** C2, as stated, fails: in [fatherAndDaughter] person 1 is an ancestor of
    person 2.  Naming person 2 as father of person 1 would close a loop, and
    is refused with [InvalidRole], not with [CycleDetected]; linking person 2
    as mother to the children 1 and 2 would close the same loop, and is
    refused with [SelfParent], not with [CycleDetected]. *)
Lemma loop_closing_update_refused_for_the_role :
  ancestorOf Sample.fatherAndDaughter 2 1
  /\ updatePerson 1 (withFatherId (Js.Val 2)) Sample.fatherAndDaughter
     = (Err InvalidRole, Sample.fatherAndDaughter)
  /\ fst (updatePerson 1 (withFatherId (Js.Val 2)) Sample.fatherAndDaughter)
     <> Err CycleDetected
  /\ linkChildrenToParent 2 [1; 2] mother Sample.fatherAndDaughter
     = (Err SelfParent, Sample.fatherAndDaughter)
  /\ fst (linkChildrenToParent 2 [1; 2] mother Sample.fatherAndDaughter)
     <> Err CycleDetected.
Proof.
  split; [|split; [reflexivity | split; [discriminate|]]].
  - apply t_step.
    exists (Sample.person 2 female None None false (Some 1) None).
    simpl. auto.
  - split; [reflexivity | discriminate].
Qed.

(** * Further properties of the service

    Properties read off the code of the methods and helpers that the
    specification's statements leave aside: the cycle detector itself, the
    linking of children, removal, the parent's side of the temporal
    validation, the comparison of dates at each precision, the progenitor
    after a promotion, and the errors each method can answer with. *)

(** ** The cycle detector decides ancestry *)

Lemma ancestryWalk_true_reaches s a start fuel :
  forall visited stack,
    (forall x, In x stack -> x = start \/ ancestorOf s start x) ->
    ancestryWalk s a fuel visited stack = Some true ->
    ancestorOf s start a.
Proof.
  induction fuel as [|fuel IH]; intros visited stack Hst H; simpl in H.
  - discriminate.
  - destruct stack as [|c stack']; [discriminate|].
    assert (Hrest : forall x, In x stack' -> x = start \/ ancestorOf s start x)
      by (intros x Hx; apply Hst; right; exact Hx).
    destruct (negb (Js.truthyNumber c)); [eapply IH; eassumption|].
    destruct (visitedHas visited c); [eapply IH; eassumption|].
    destruct (findOneById s c) as [cur|] eqn:Hf; [|eapply IH; eassumption].
    apply findOneById_In in Hf. destruct Hf as [Hin Hid].
    assert (Hup : forall p, fatherId cur = Some p \/ motherId cur = Some p ->
                            ancestorOf s start p).
    { intros p Hp.
      assert (He : parentEdge s c p) by (exists cur; auto).
      destruct (Hst c (or_introl eq_refl)) as [-> | Hc].
      - apply t_step. exact He.
      - eapply t_trans; [exact Hc | apply t_step; exact He]. }
    destruct (isParentIdOf a (fatherId cur) || isParentIdOf a (motherId cur))
      eqn:Hhit.
    + apply Hup. apply orb_true_iff in Hhit.
      destruct Hhit as [Hh | Hh]; [left | right];
        [destruct (fatherId cur) as [j|] | destruct (motherId cur) as [j|]];
        simpl in Hh; try discriminate; apply Z.eqb_eq in Hh; subst; reflexivity.
    + eapply IH; [|exact H].
      intros x Hx. apply In_pushParent in Hx.
      destruct Hx as [Hx | [Hx _]].
      * apply In_pushParent in Hx. destruct Hx as [Hx | [Hx _]].
        -- apply Hrest. exact Hx.
        -- right. apply Hup. left. apply ifTruthy_Some in Hx. apply Hx.
      * right. apply Hup. right. apply ifTruthy_Some in Hx. apply Hx.
Qed.

Lemma wouldCreateAncestryCycle_sound s a start :
  wouldCreateAncestryCycle s a start = true -> ancestorOf s start a.
Proof.
  unfold wouldCreateAncestryCycle. intros H.
  destruct (ancestryWalk s a (walkFuel s) [] [start]) as [b|] eqn:E;
    [|discriminate].
  subst b. eapply ancestryWalk_true_reaches; [|exact E].
  intros x [<- | []]. left. reflexivity.
Qed.

Lemma ancestryWalk_more_fuel s a fuel :
  forall visited stack b extra,
    ancestryWalk s a fuel visited stack = Some b ->
    ancestryWalk s a (fuel + extra) visited stack = Some b.
Proof.
  induction fuel as [|fuel IH]; intros visited stack b extra H; simpl in H.
  - discriminate.
  - simpl. destruct stack as [|c stack']; [exact H|].
    destruct (negb (Js.truthyNumber c)); [apply IH; exact H|].
    destruct (visitedHas visited c); [apply IH; exact H|].
    destruct (findOneById s c) as [cur|]; [|apply IH; exact H].
    destruct (isParentIdOf a (fatherId cur) || isParentIdOf a (motherId cur));
      [exact H | apply IH; exact H].
Qed.

(** The sample stores satisfy what the primary key guarantees. *)
Lemma fatherAndDaughter_consistent : consistent Sample.fatherAndDaughter.
Proof.
  split; [|split].
  - split; [reflexivity|]. simpl. intros p [<- | [<- | []]]; simpl; lia.
  - unfold uniqueIds. simpl.
    constructor; [simpl; intros [H | []]; discriminate|].
    constructor; [intros [] | constructor].
  - intros r p [<- | [<- | []]]; simpl; intros [H | H];
      inversion H; reflexivity.
Qed.

Lemma couple_consistent : consistent Sample.couple.
Proof.
  split; [|split].
  - split; [reflexivity|]. simpl. intros p [<- | [<- | []]]; simpl; lia.
  - unfold uniqueIds. simpl.
    constructor; [simpl; intros [H | []]; discriminate|].
    constructor; [intros [] | constructor].
  - intros r p [<- | [<- | []]]; simpl; intros [H | H]; inversion H.
Qed.

Lemma oneMan_consistent : consistent Sample.oneMan.
Proof.
  split; [|split].
  - split; [reflexivity|]. simpl. intros p [<- | []]; simpl; lia.
  - unfold uniqueIds. simpl. constructor; [intros [] | constructor].
  - intros r p [<- | []]; simpl; intros [H | H]; inversion H.
Qed.

(** X1. [wouldCreateAncestryCycle(a, start)] decides ancestry: on a table
    whose ids are generated and unique it answers [true] exactly when [a] is
    reached from [start] along father and mother links.  The answer [true]
    is right on every table. *)
Theorem ancestry_detector_decides_ancestry (s : Store) (a start : Z) :
  wellFormed s -> uniqueIds s ->
  (wouldCreateAncestryCycle s a start = true <-> ancestorOf s start a)
  /\ (wouldCreateAncestryCycle s a start = false <-> ~ ancestorOf s start a).
Proof.
  intros Hw Hu.
  assert (H : wouldCreateAncestryCycle s a start = true <-> ancestorOf s start a).
  { split.
    - apply wouldCreateAncestryCycle_sound.
    - apply wouldCreateAncestryCycle_finds; assumption. }
  split; [exact H|].
  split.
  - intros E A. apply H in A. congruence.
  - intros N. destruct (wouldCreateAncestryCycle s a start); [|reflexivity].
    exfalso. apply N. apply H. reflexivity.
Qed.

Lemma ancestry_detector_decides_ancestry_witness :
  (wouldCreateAncestryCycle Sample.fatherAndDaughter 1 2 = true
   <-> ancestorOf Sample.fatherAndDaughter 2 1)
  /\ (wouldCreateAncestryCycle Sample.fatherAndDaughter 1 2 = false
      <-> ~ ancestorOf Sample.fatherAndDaughter 2 1).
Proof.
  apply ancestry_detector_decides_ancestry.
  - apply fatherAndDaughter_consistent.
  - apply fatherAndDaughter_consistent.
Defined.

(** X2. The loop of [wouldCreateAncestryCycle] ends on every table, also
    one that holds a cycle, repeated ids or links to missing rows: it makes
    at most [2 * rows + 2] iterations, and a larger bound on the number of
    iterations does not change the answer. *)
Theorem ancestry_walk_terminates (s : Store) (a start : Z) (fuel : nat) :
  (walkFuel s <= fuel)%nat ->
  ancestryWalk s a fuel [] [start] = Some (wouldCreateAncestryCycle s a start).
Proof.
  intros Hf.
  replace fuel with (walkFuel s + (fuel - walkFuel s))%nat by lia.
  apply ancestryWalk_more_fuel. apply wouldCreateAncestryCycle_total.
Qed.

Lemma ancestry_walk_terminates_witness :
  ancestryWalk
    {| rows := [Sample.person 1 male None None true (Some 2) None;
                Sample.person 2 male None None false (Some 1) None];
       nextId := 3 |} 7 10 [] [1]
  = Some false.
Proof.
  apply (ancestry_walk_terminates
           {| rows := [Sample.person 1 male None None true (Some 2) None;
                       Sample.person 2 male None None false (Some 1) None];
              nextId := 3 |} 7 1 10).
  unfold walkFuel. simpl. lia.
Defined.

(** ** Looking a row up after a write *)

Lemma find_map_same_id (F : Person -> Person) j l :
  (forall r, In r l -> id (F r) = id r) ->
  find (hasId j) (map F l) = option_map F (find (hasId j) l).
Proof.
  induction l as [|r l IH]; intros H; simpl; [reflexivity|].
  unfold hasId at 1. rewrite (H r (or_introl eq_refl)). fold (hasId j r).
  destruct (hasId j r); [reflexivity|].
  apply IH. intros q Hq. apply H. right. exact Hq.
Qed.

Lemma findOneById_update s i patch j :
  (forall r, In r (rows s) -> id r = i -> id (patch r) = i) ->
  findOneById (update s i patch) j
  = option_map (fun r => if hasId i r then patch r else r) (findOneById s j).
Proof.
  intros H. unfold findOneById, update. simpl.
  apply find_map_same_id. intros r Hr.
  destruct (hasId i r) eqn:E; [|reflexivity].
  unfold hasId in E. apply Z.eqb_eq in E. rewrite (H r Hr E). symmetry. exact E.
Qed.

Lemma findOneById_update_other s i patch j :
  (forall r, In r (rows s) -> id r = i -> id (patch r) = i) ->
  j <> i -> findOneById (update s i patch) j = findOneById s j.
Proof.
  intros H Hj. rewrite findOneById_update by exact H.
  destruct (findOneById s j) as [q|] eqn:E; simpl; [|reflexivity].
  apply findOneById_In in E. destruct E as [_ E].
  assert (Hq : hasId i q = false) by (unfold hasId; apply Z.eqb_neq; lia).
  rewrite Hq. reflexivity.
Qed.

Lemma findOneById_insert s mk j :
  findOneById (snd (insert s mk)) j
  = match findOneById s j with
    | Some q => Some q
    | None => if hasId j (mk (nextId s)) then Some (mk (nextId s)) else None
    end.
Proof.
  unfold findOneById, insert. simpl.
  induction (rows s) as [|r l IH]; simpl; [reflexivity|].
  destruct (hasId j r); [reflexivity | exact IH].
Qed.

Lemma findOneById_fresh s j :
  wellFormed s -> nextId s <= j -> findOneById s j = None.
Proof.
  intros [_ Hlt] Hj. destruct (findOneById s j) as [q|] eqn:E; [|reflexivity].
  apply findOneById_In in E. destruct E as [Hin Hid].
  specialize (Hlt q Hin). lia.
Qed.

Lemma findOneById_inserted s mk :
  (forall n, id (mk n) = n) -> wellFormed s ->
  findOneById (snd (insert s mk)) (nextId s) = Some (mk (nextId s)).
Proof.
  intros Hid Hwf. rewrite findOneById_insert.
  rewrite (findOneById_fresh s (nextId s) Hwf) by lia.
  unfold hasId. rewrite Hid, Z.eqb_refl. reflexivity.
Qed.

Lemma findOneById_remove s p j :
  findOneById (remove s p) j
  = if j =? id p then None else findOneById s j.
Proof.
  unfold findOneById, remove. simpl.
  induction (rows s) as [|r l IH]; simpl.
  - destruct (j =? id p); reflexivity.
  - destruct (hasId (id p) r) eqn:E; simpl.
    + rewrite IH. unfold hasId in E. apply Z.eqb_eq in E.
      destruct (j =? id p) eqn:Ej; [reflexivity|].
      assert (Hr : hasId j r = false)
        by (unfold hasId; apply Z.eqb_neq; apply Z.eqb_neq in Ej; lia).
      rewrite Hr. reflexivity.
    + destruct (hasId j r) eqn:Er.
      * unfold hasId in E, Er. apply Z.eqb_eq in Er. apply Z.eqb_neq in E.
        assert (Hj : (j =? id p) = false) by (apply Z.eqb_neq; lia).
        rewrite Hj. reflexivity.
      * exact IH.
Qed.

Lemma findChildrenOf_nil s i :
  findChildrenOf s i = [] <-> childless s i.
Proof.
  unfold findChildrenOf, childless. split.
  - intros H c [r [Hin [_ Hp]]].
    assert (Hr : In r (filter
                         (fun p => isParentIdOf i (fatherId p)
                                   || isParentIdOf i (motherId p)) (rows s))).
    { apply filter_In. split; [exact Hin|].
      apply orb_true_iff.
      destruct Hp as [Hp | Hp]; [left | right]; rewrite Hp; simpl;
        apply Z.eqb_refl. }
    rewrite H in Hr. exact Hr.
  - intros H.
    destruct (filter (fun p => isParentIdOf i (fatherId p)
                               || isParentIdOf i (motherId p)) (rows s))
      as [|r l] eqn:E; [reflexivity|].
    exfalso.
    assert (Hr : In r (r :: l)) by (left; reflexivity).
    rewrite <- E in Hr. apply filter_In in Hr. destruct Hr as [Hin Hp].
    apply (H (id r)). exists r. split; [exact Hin|]. split; [reflexivity|].
    apply orb_true_iff in Hp.
    destruct Hp as [Hp | Hp]; [left | right];
      [destruct (fatherId r) as [v|] | destruct (motherId r) as [v|]];
      simpl in Hp; try discriminate; apply Z.eqb_eq in Hp; subst; reflexivity.
Qed.

(** ** Fathers are men and mothers are women *)

Lemma roleRespected_update s i patch g o :
  (forall r, In r (rows s) -> id r = i ->
             id (patch r) = i /\ gender (patch r) = gender r) ->
  roleRespected s g o -> roleRespected (update s i patch) g o.
Proof.
  intros H R p Hp. destruct (R p Hp) as [q [Hq Hg]].
  rewrite findOneById_update by (intros r Hr Hi; apply (H r Hr Hi)).
  rewrite Hq. simpl. eexists. split; [reflexivity|].
  destruct (hasId i q) eqn:E; [|exact Hg].
  apply findOneById_In in Hq. destruct Hq as [Hin _].
  unfold hasId in E. apply Z.eqb_eq in E.
  rewrite (proj2 (H q Hin E)). exact Hg.
Qed.

Lemma rolesRespected_update s i patch :
  (forall r, In r (rows s) -> id r = i ->
             id (patch r) = i /\ gender (patch r) = gender r) ->
  (forall r, In r (rows s) -> id r = i ->
             roleRespected s male (fatherId (patch r))
             /\ roleRespected s female (motherId (patch r))) ->
  rolesRespected s -> rolesRespected (update s i patch).
Proof.
  intros Hk Hp R r' Hr'. simpl in Hr'. apply in_map_iff in Hr'.
  destruct Hr' as [r [<- Hr]].
  destruct (hasId i r) eqn:E.
  - unfold hasId in E. apply Z.eqb_eq in E. destruct (Hp r Hr E) as [Hf Hm].
    split; apply roleRespected_update; assumption.
  - destruct (R r Hr) as [Hf Hm].
    split; apply roleRespected_update; assumption.
Qed.

Lemma roleRespected_insert s mk g o :
  roleRespected s g o -> roleRespected (snd (insert s mk)) g o.
Proof.
  intros R p Hp. destruct (R p Hp) as [q [Hq Hg]].
  exists q. split; [|exact Hg]. rewrite findOneById_insert, Hq. reflexivity.
Qed.

Lemma rolesRespected_insert s mk :
  roleRespected s male (fatherId (mk (nextId s))) ->
  roleRespected s female (motherId (mk (nextId s))) ->
  rolesRespected s -> rolesRespected (snd (insert s mk)).
Proof.
  intros Hf Hm R r Hr. simpl in Hr. apply in_app_or in Hr.
  destruct Hr as [Hr | [<- | []]].
  - destruct (R r Hr). split; apply roleRespected_insert; assumption.
  - split; apply roleRespected_insert; assumption.
Qed.

Lemma rolesRespected_remove s p :
  childless s (id p) -> rolesRespected s -> rolesRespected (remove s p).
Proof.
  intros Hc R r Hr. simpl in Hr. apply filter_In in Hr. destruct Hr as [Hr _].
  assert (H : forall g o, (o = fatherId r \/ o = motherId r) ->
                          roleRespected s g o ->
                          roleRespected (remove s p) g o).
  { intros g o Ho Rg v Hv. destruct (Rg v Hv) as [q [Hq Hg]].
    exists q. split; [|exact Hg]. rewrite findOneById_remove.
    assert (Hne : v <> id p).
    { intros ->. apply ifTruthy_Some in Hv. destruct Hv as [Hv _].
      apply (Hc (id r)). exists r. split; [exact Hr|]. split; [reflexivity|].
      destruct Ho as [-> | ->]; [left | right]; exact Hv. }
    apply Z.eqb_neq in Hne. rewrite Hne. exact Hq. }
  destruct (R r Hr) as [Hf Hm]. split; eapply H; eauto.
Qed.

Lemma rolesRespected_link parent children :
  forall s,
    roleRespected s (gender parent) (Some (id parent)) ->
    rolesRespected s ->
    rolesRespected (linkChildrenToParentInternal s parent children).
Proof.
  unfold linkChildrenToParentInternal.
  induction children as [|c cs IH]; intros s Hp R; simpl; [exact R|].
  assert (Hk : forall r, In r (rows s) -> id r = id c ->
                 id (setParentField (gender parent) (Some (id parent)) r) = id c
                 /\ gender (setParentField (gender parent) (Some (id parent)) r)
                    = gender r).
  { intros r _ Hr. rewrite id_setParentField. split; [exact Hr|].
    destruct (gender parent); reflexivity. }
  apply IH.
  - apply roleRespected_update; assumption.
  - apply rolesRespected_update; [exact Hk | | exact R].
    intros r Hr _. destruct (R r Hr) as [Hf Hm].
    destruct (gender parent); simpl; split; assumption.
Qed.

Lemma validateParents_roles s f m :
  validateParents s f m = Ok tt ->
  roleRespected s male f /\ roleRespected s female m.
Proof.
  unfold validateParents. intros H.
  apply bind_Ok in H. destruct H as [[] [Hf Hm]].
  split; intros p Hp; [rewrite Hp in Hf | rewrite Hp in Hm].
  - destruct (findOneById s p) as [q|]; [|discriminate].
    exists q. split; [reflexivity|].
    apply throwIf_Ok in Hf. destruct (gender q); [reflexivity | discriminate].
  - destruct (findOneById s p) as [q|]; [|discriminate].
    exists q. split; [reflexivity|].
    apply throwIf_Ok in Hm. destruct (gender q); [discriminate | reflexivity].
Qed.

Lemma create_rolesRespected dto s p s' :
  wellFormed s -> rolesRespected s -> create dto s = (Ok p, s') ->
  rolesRespected s'.
Proof.
  intros Hwf R. unfold create.
  destruct (createChecks s dto) as [[d cs]|e] eqn:E; [|discriminate].
  apply createChecks_Ok in E. destruct E as [_ [Hp _]].
  apply validateParents_roles in Hp. destruct Hp as [Hf Hm].
  simpl. intros H. inversion H. subst p s'. clear H.
  assert (R1 : rolesRespected (snd (insert s (entityOfCreate d))))
    by (apply rolesRespected_insert; assumption).
  destruct (0 <? List.length cs)%nat; [|exact R1].
  apply rolesRespected_link; [|exact R1].
  intros v Hv. apply ifTruthy_Some in Hv. destruct Hv as [Hv _].
  simpl in Hv. inversion Hv. subst v.
  exists (entityOfCreate d (nextId s)). split; [|reflexivity].
  apply (findOneById_inserted s (entityOfCreate d)); [reflexivity | exact Hwf].
Qed.

Lemma assignNullable_truthy v old p :
  ifTruthy (assignNullable v old) = Some p ->
  (v = Js.Val p /\ p <> 0) \/ (v = Js.Undefined /\ ifTruthy old = Some p).
Proof.
  destruct v as [| |n]; intros H.
  - right. split; [reflexivity | exact H].
  - discriminate.
  - left. apply ifTruthy_Some in H. destruct H as [H Hn]. inversion H. subst.
    split; [reflexivity | exact Hn].
Qed.

Lemma updatePerson_rolesRespected i dto s p s' :
  uniqueIds s -> rolesRespected s -> updatePerson i dto s = (Ok p, s') ->
  rolesRespected s'.
Proof.
  intros Hu R. unfold updatePerson.
  destruct (updateChecks s i dto) as [person|e] eqn:E; [|discriminate].
  intros H. inversion H. subst p s'. clear H.
  apply updateChecks_Ok in E. destruct E as [Hx [Hp _]].
  pose proof (findOneById_In _ _ _ Hx) as [Hin Hid].
  assert (Hsame : forall r, In r (rows s) -> id r = id (assign person dto) ->
                            r = person).
  { intros r Hr Hi. simpl in Hi.
    pose proof (findOneById_unique s r Hu Hr) as H1.
    rewrite Hi, Hid, Hx in H1. inversion H1. reflexivity. }
  assert (Hnew : roleRespected s male (fatherId (assign person dto))
                 /\ roleRespected s female (motherId (assign person dto))).
  { destruct (R person Hin) as [Hf Hm].
    assert (Hval : forall v, v <> 0 ->
                   UpdatePersonDto.fatherId dto = Js.Val v
                   \/ UpdatePersonDto.motherId dto = Js.Val v ->
                   validateParents s (Js.toOption (UpdatePersonDto.fatherId dto))
                     (Js.toOption (UpdatePersonDto.motherId dto)) = Ok tt).
    { intros v Hn Hd.
      assert (Hup : updatesParent dto = true).
      { unfold updatesParent. apply orb_true_iff.
        destruct Hd as [Hd | Hd]; [left | right]; rewrite Hd; simpl;
          apply truthyNumber_nonzero; exact Hn. }
      rewrite Hup in Hp. exact Hp. }
    split; intros v Hv; simpl in Hv; apply assignNullable_truthy in Hv;
      destruct Hv as [[Hd Hn] | [_ Hold]].
    - apply (proj1 (validateParents_roles _ _ _ (Hval v Hn (or_introl Hd)))).
      rewrite Hd. simpl. apply ifTruthy_nonzero. exact Hn.
    - apply Hf. exact Hold.
    - apply (proj2 (validateParents_roles _ _ _ (Hval v Hn (or_intror Hd)))).
      rewrite Hd. simpl. apply ifTruthy_nonzero. exact Hn.
    - apply Hm. exact Hold. }
  unfold save. apply rolesRespected_update; [| |exact R].
  - intros r Hr Hi. split; [reflexivity|].
    rewrite (Hsame r Hr Hi). reflexivity.
  - intros r _ _. exact Hnew.
Qed.

Lemma removePerson_rolesRespected i s u s' :
  rolesRespected s -> removePerson i s = (Ok u, s') -> rolesRespected s'.
Proof.
  intros R. unfold removePerson.
  destruct (findPersonById s i) as [person|e] eqn:Ep; simpl; [|discriminate].
  destruct (0 <? List.length (findChildrenOf s (id person)))%nat eqn:El;
    simpl; [discriminate|].
  intros H. inversion H. subst s'. clear H.
  apply rolesRespected_remove; [|exact R].
  apply findChildrenOf_nil.
  destruct (findChildrenOf s (id person)); [reflexivity | discriminate].
Qed.

Lemma linkChildrenToParent_rolesRespected pid cids t s n s' :
  rolesRespected s -> linkChildrenToParent pid cids t s = (Ok n, s') ->
  rolesRespected s'.
Proof.
  intros R. unfold linkChildrenToParent.
  destruct (linkChecks s pid cids t) as [[parent children]|e] eqn:E;
    [|discriminate].
  intros H. inversion H. subst n s'. clear H.
  apply linkChecks_Ok in E. destruct E as [Hx _].
  pose proof (findOneById_In _ _ _ Hx) as [_ Hid].
  apply rolesRespected_link; [|exact R].
  intros v Hv. apply ifTruthy_Some in Hv. destruct Hv as [Hv _].
  inversion Hv. subst v. exists parent. rewrite Hid.
  split; [exact Hx | reflexivity].
Qed.

Lemma promoteAncestor_Ok_gender rejects dto s p s' :
  promoteAncestor rejects dto s = (Ok p, s') ->
  PromoteAncestorDto.gender dto
  = expectedGender (PromoteAncestorDto.relationship dto).
Proof.
  unfold promoteAncestor.
  destruct (promoteChecks s dto) as [[]|e] eqn:E; [|discriminate].
  intros _. unfold promoteChecks in E.
  destruct (findProgenitor s) as [cur|]; [|discriminate].
  apply bind_Ok in E. destruct E as [[] [_ E]].
  apply throwIf_Ok in E. apply negb_false_iff in E.
  apply Gender_eqb_eq. exact E.
Qed.

Lemma promoteAncestor_rolesRespected rejects dto s p s' :
  wellFormed s -> rolesRespected s ->
  promoteAncestor rejects dto s = (Ok p, s') -> rolesRespected s'.
Proof.
  intros Hwf R H.
  pose proof (promoteAncestor_Ok_gender _ _ _ _ _ H) as Hg.
  apply promoteAncestor_Ok in H. destruct H as [cur [_ [_ [_ ->]]]].
  assert (R1 : rolesRespected (snd (insert s (ancestorOfPromote dto)))).
  { apply rolesRespected_insert; [| |exact R]; intros v Hv; discriminate. }
  apply rolesRespected_update; [| |exact R1].
  - intros r _ Hr. rewrite id_demote. split; [exact Hr|].
    unfold demote. destruct (expectedGender _); reflexivity.
  - intros r Hr _. destruct (R1 r Hr) as [Hf Hm].
    assert (Hnew : roleRespected (snd (insert s (ancestorOfPromote dto)))
                     (expectedGender (PromoteAncestorDto.relationship dto))
                     (Some (nextId s))).
    { intros v Hv. apply ifTruthy_Some in Hv. destruct Hv as [Hv _].
      inversion Hv. subst v.
      exists (ancestorOfPromote dto (nextId s)). split; [|exact Hg].
      apply (findOneById_inserted s (ancestorOfPromote dto));
        [reflexivity | exact Hwf]. }
    unfold demote.
    destruct (expectedGender (PromoteAncestorDto.relationship dto));
      simpl; split; assumption.
Qed.

Lemma run_rolesRespected m s s' :
  consistent s -> rolesRespected s -> run m s = (true, s') ->
  rolesRespected s'.
Proof.
  intros [Hwf [Hu _]] R. destruct m; simpl.
  - destruct (create dto s) as [[p|e] s1] eqn:E; simpl; intros H;
      inversion H; subst. eapply create_rolesRespected; eassumption.
  - destruct (updatePerson i dto s) as [[p|e] s1] eqn:E; simpl; intros H;
      inversion H; subst. eapply updatePerson_rolesRespected; eassumption.
  - destruct (removePerson i s) as [[p|e] s1] eqn:E; simpl; intros H;
      inversion H; subst. eapply removePerson_rolesRespected; eassumption.
  - destruct (linkChildrenToParent parentId childrenIds parentType s)
      as [[p|e] s1] eqn:E; simpl; intros H;
      inversion H; subst. eapply linkChildrenToParent_rolesRespected; eassumption.
  - destruct (promoteAncestor rejects dto s) as [[p|e] s1] eqn:E; simpl;
      intros H; inversion H; subst.
    eapply promoteAncestor_rolesRespected; eassumption.
Qed.

Lemma run_outcome m s : exists b s', run m s = (b, s').
Proof. destruct (run m s) as [b s']. eauto. Qed.

Lemma runAll_rolesRespected ms :
  forall s, consistent s -> rolesRespected s ->
            consistent (runAll ms s) /\ rolesRespected (runAll ms s).
Proof.
  unfold runAll. induction ms as [|m ms IH]; intros s Hc R; simpl;
    [split; assumption|].
  destruct (run m s) as [b s1] eqn:E. simpl.
  destruct b.
  - apply IH.
    + eapply run_consistent; eassumption.
    + eapply run_rolesRespected; eassumption.
  - apply run_failed in E. subst s1. apply IH; assumption.
Qed.

(** X3. Role integrity of the table.  If every father on record is a
    stored man and every mother a stored woman, this still holds after any
    successful [create], [updatePerson], [removePerson],
    [linkChildrenToParent] or [promoteAncestor], and so after any sequence
    of requests: no parent link ever points at a missing person or at a
    person of the wrong gender. *)
Theorem parents_have_the_gender_of_their_role (s : Store) :
  consistent s -> rolesRespected s ->
  (forall m s', run m s = (true, s') -> rolesRespected s')
  /\ (forall ms, rolesRespected (runAll ms s))
  /\ (forall ms child f,
         In child (rows (runAll ms s)) -> fatherId child = Some f -> f <> 0 ->
         exists q, findOneById (runAll ms s) f = Some q /\ gender q = male)
  /\ (forall ms child m,
         In child (rows (runAll ms s)) -> motherId child = Some m -> m <> 0 ->
         exists q, findOneById (runAll ms s) m = Some q /\ gender q = female).
Proof.
  intros Hc R.
  split; [intros m s'; apply run_rolesRespected; assumption|].
  split; [intros ms; apply (runAll_rolesRespected ms s Hc R)|].
  split.
  - intros ms child f Hin Hf Hn.
    destruct (runAll_rolesRespected ms s Hc R) as [_ R'].
    apply (proj1 (R' child Hin)). rewrite Hf. apply ifTruthy_nonzero. exact Hn.
  - intros ms child m Hin Hm Hn.
    destruct (runAll_rolesRespected ms s Hc R) as [_ R'].
    apply (proj2 (R' child Hin)). rewrite Hm. apply ifTruthy_nonzero. exact Hn.
Qed.

Lemma fatherAndDaughter_rolesRespected : rolesRespected Sample.fatherAndDaughter.
Proof.
  intros r [<- | [<- | []]]; split; intros p Hp;
    apply ifTruthy_Some in Hp; destruct Hp as [Hp _]; simpl in Hp;
    try discriminate.
  inversion Hp. subst p. eexists. split; reflexivity.
Qed.

Lemma parents_have_the_gender_of_their_role_witness :
  exists q,
    findOneById
      (runAll [MUpdate 2 (withMotherId (Js.Val 1)); MRemove 1]
              Sample.fatherAndDaughter) 1 = Some q
    /\ gender q = male.
Proof.
  destruct (parents_have_the_gender_of_their_role Sample.fatherAndDaughter
              fatherAndDaughter_consistent fatherAndDaughter_rolesRespected)
    as [_ [_ [H _]]].
  apply (H [MUpdate 2 (withMotherId (Js.Val 1)); MRemove 1]
           (Sample.person 2 female None None false (Some 1) None) 1).
  - vm_compute. right. left. reflexivity.
  - reflexivity.
  - discriminate.
Defined.

(** ** Removing a person *)

Lemma removePerson_found s i p :
  findOneById s i = Some p ->
  removePerson i s
  = if (0 <? List.length (findChildrenOf s i))%nat
    then (Err HasDependents, s) else (Ok tt, remove s p).
Proof.
  intros H. unfold removePerson, findPersonById. rewrite H. simpl.
  apply findOneById_In in H. destruct H as [_ ->].
  destruct (0 <? List.length (findChildrenOf s i))%nat; reflexivity.
Qed.

(** X4. [removePerson] answers [NotFound] for an unknown id and refuses,
    with the table unchanged, to delete a person whom some row names as
    father or mother.  A person without children is deleted: afterwards the
    id is not found any more and every other id is found as before. *)
Theorem removal_is_for_the_childless (s : Store) (i : Z) :
  (findOneById s i = None -> removePerson i s = (Err NotFound, s))
  /\ (forall p c, findOneById s i = Some p -> parentEdge s c i ->
                  removePerson i s = (Err HasDependents, s))
  /\ (forall p, findOneById s i = Some p -> childless s i ->
                removePerson i s = (Ok tt, remove s p)
                /\ findOneById (remove s p) i = None
                /\ (forall j, j <> i ->
                              findOneById (remove s p) j = findOneById s j)).
Proof.
  split; [|split].
  - intros H. unfold removePerson, findPersonById. rewrite H. reflexivity.
  - intros p c Hp He. rewrite (removePerson_found s i p Hp).
    destruct (findChildrenOf s i) as [|r l] eqn:E; [|reflexivity].
    exfalso. apply findChildrenOf_nil in E. apply (E c). exact He.
  - intros p Hp Hc. rewrite (removePerson_found s i p Hp).
    apply findChildrenOf_nil in Hc. rewrite Hc. simpl.
    apply findOneById_In in Hp. destruct Hp as [_ Hid].
    split; [reflexivity|]. split.
    + rewrite findOneById_remove, Hid, Z.eqb_refl. reflexivity.
    + intros j Hj. rewrite findOneById_remove, Hid.
      apply Z.eqb_neq in Hj. rewrite Hj. reflexivity.
Qed.

Lemma removal_is_for_the_childless_witness :
  removePerson 1 Sample.fatherAndDaughter
  = (Err HasDependents, Sample.fatherAndDaughter)
  /\ removePerson 2 Sample.fatherAndDaughter
     = (Ok tt,
        {| rows := [Sample.person 1 male None None true None None];
           nextId := 3 |}).
Proof.
  split.
  - destruct (removal_is_for_the_childless Sample.fatherAndDaughter 1)
      as [_ [H _]].
    apply (H (Sample.person 1 male None None true None None) 2);
      [reflexivity|].
    exists (Sample.person 2 female None None false (Some 1) None).
    simpl. auto.
  - destruct (removal_is_for_the_childless Sample.fatherAndDaughter 2)
      as [_ [_ H]].
    destruct (H (Sample.person 2 female None None false (Some 1) None)
                eq_refl) as [H1 _]; [|exact H1].
    intros c [r [[<- | [<- | []]] [Hi [Hp | Hp]]]]; try discriminate.
Defined.

(** ** Linking children to a parent *)

Lemma setParentField_idem g v r :
  setParentField g v (setParentField g v r) = setParentField g v r.
Proof. destruct g; reflexivity. Qed.

Lemma link_rows parent children :
  forall s,
    rows (linkChildrenToParentInternal s parent children)
    = map (linkedRow (gender parent) (id parent) (map id children)) (rows s).
Proof.
  unfold linkChildrenToParentInternal.
  induction children as [|c cs IH]; intros s; simpl.
  - symmetry. rewrite <- (map_id (rows s)) at 2. apply map_ext.
    intros r. reflexivity.
  - rewrite IH. simpl. rewrite map_map. apply map_ext. intros r.
    unfold linkedRow, hasId. simpl.
    destruct (id r =? id c) eqn:E; simpl; [|reflexivity].
    rewrite setParentField_idem.
    destruct (existsb _ (map id cs)); reflexivity.
Qed.

Lemma linkedRow_id g pid ids r : id (linkedRow g pid ids r) = id r.
Proof.
  unfold linkedRow. destruct (existsb _ _); [apply id_setParentField|reflexivity].
Qed.

Lemma findOneById_link parent children s j :
  findOneById (linkChildrenToParentInternal s parent children) j
  = option_map (linkedRow (gender parent) (id parent) (map id children))
               (findOneById s j).
Proof.
  unfold findOneById. rewrite link_rows. apply find_map_same_id.
  intros r _. apply linkedRow_id.
Qed.

Lemma validateChildren_linked s ids g pb pd cs :
  ids <> [] ->
  validateChildren s (Some ids) (Some g) pb pd = Ok cs ->
  cs = findByIds s ids
  /\ List.length cs = List.length ids
  /\ (forall c, In c cs -> ifTruthy (parentField g c) = None)
  /\ validateParentDatesForChildren cs g pb pd = Ok tt.
Proof.
  intros Hne H. unfold validateChildren in H.
  destruct ids as [|i ids]; [contradiction|].
  apply bind_Ok in H. destruct H as [[] [Hl H]].
  apply bind_Ok in H. destruct H as [[] [Ho H]].
  apply bind_Ok in H. destruct H as [[] [Hd H]].
  inversion H. subst cs. clear H.
  apply throwIf_Ok in Hl. apply negb_false_iff in Hl. apply Nat.eqb_eq in Hl.
  apply throwIf_Ok in Ho.
  split; [reflexivity|]. split; [exact Hl|]. split; [|exact Hd].
  intros c Hc.
  assert (Hf : Js.truthyOptNumber (parentField g c) = false).
  { destruct (Js.truthyOptNumber (parentField g c)) eqn:E; [|reflexivity].
    assert (Hex : existsb (fun child => Js.truthyOptNumber (parentField g child))
                          (findByIds s (i :: ids)) = true)
      by (apply existsb_exists; exists c; split; assumption).
    rewrite Hex in Ho. discriminate. }
  rewrite truthyOptNumber_ifTruthy in Hf.
  destruct (ifTruthy (parentField g c)); [discriminate | reflexivity].
Qed.

Lemma existsb_ids_of_children s ids r :
  In r (rows s) ->
  existsb (Z.eqb (id r)) (map id (findByIds s ids))
  = existsb (Z.eqb (id r)) ids.
Proof.
  intros Hr.
  destruct (existsb (Z.eqb (id r)) ids) eqn:E.
  - apply existsb_exists. exists (id r). split; [|apply Z.eqb_refl].
    apply in_map. unfold findByIds. apply filter_In. split; assumption.
  - destruct (existsb (Z.eqb (id r)) (map id (findByIds s ids))) eqn:E';
      [|reflexivity].
    apply existsb_exists in E'. destruct E' as [j [Hj Hrj]].
    apply Z.eqb_eq in Hrj. subst j.
    apply in_map_iff in Hj. destruct Hj as [c [Hc Hin]].
    apply findByIds_In in Hin. destruct Hin as [_ Hin].
    assert (Ht : existsb (Z.eqb (id r)) ids = true).
    { apply existsb_exists. exists (id c).
      split; [exact Hin | rewrite Hc; apply Z.eqb_refl]. }
    congruence.
Qed.

Lemma link_rows_listed parent s ids :
  rows (linkChildrenToParentInternal s parent (findByIds s ids))
  = map (linkedRow (gender parent) (id parent) ids) (rows s).
Proof.
  rewrite link_rows. apply map_ext_in. intros r Hr.
  unfold linkedRow. rewrite (existsb_ids_of_children s ids r Hr). reflexivity.
Qed.

Lemma findOneById_found_iff s c :
  findOneById s c <> None <-> In c (map id (rows s)).
Proof.
  split.
  - intros H. destruct (findOneById s c) as [q|] eqn:E; [|contradiction].
    apply findOneById_In in E. destruct E as [Hin <-]. apply in_map. exact Hin.
  - intros H E. apply in_map_iff in H. destruct H as [r [Hid Hin]].
    unfold findOneById in E.
    pose proof (find_none _ _ E r Hin) as Hn.
    unfold hasId in Hn. apply Z.eqb_neq in Hn. contradiction.
Qed.

Lemma findByIds_length s ids :
  uniqueIds s ->
  (List.length (findByIds s ids) = List.length ids <-> listedOnce s ids).
Proof.
  intros Hu.
  assert (Hnd : NoDup (map id (findByIds s ids)))
    by (unfold findByIds; apply NoDup_map_filter; exact Hu).
  assert (Hincl : incl (map id (findByIds s ids)) ids).
  { intros c Hc. apply in_map_iff in Hc. destruct Hc as [r [<- Hr]].
    apply findByIds_In in Hr. apply Hr. }
  assert (Hlen : List.length (map id (findByIds s ids))
                 = List.length (findByIds s ids)) by apply length_map.
  split.
  - intros H.
    assert (Hback : incl ids (map id (findByIds s ids))).
    { apply NoDup_length_incl; [exact Hnd | lia | exact Hincl]. }
    split.
    + apply NoDup_incl_NoDup with (l := map id (findByIds s ids));
        [exact Hnd | lia | exact Hincl].
    + intros c Hc. apply findOneById_found_iff.
      apply Hback in Hc. apply in_map_iff in Hc. destruct Hc as [r [<- Hr]].
      apply in_map. apply findByIds_In in Hr. apply Hr.
  - intros [Hno Hall].
    assert (Hback : incl ids (map id (findByIds s ids))).
    { intros c Hc. pose proof (Hall c Hc) as Hf.
      apply findOneById_found_iff in Hf. apply in_map_iff in Hf.
      destruct Hf as [r [<- Hr]]. apply in_map.
      unfold findByIds. apply filter_In. split; [exact Hr|].
      apply existsb_exists. exists (id r). split; [exact Hc | apply Z.eqb_refl]. }
    pose proof (NoDup_incl_length Hnd Hincl).
    pose proof (NoDup_incl_length Hno Hback).
    lia.
Qed.

Lemma validateChildren_not_found s ids g pb pd :
  ids <> [] ->
  (validateChildren s (Some ids) (Some g) pb pd = Err ChildrenNotFound
   <-> List.length (findByIds s ids) <> List.length ids).
Proof.
  intros Hne. unfold validateChildren.
  destruct ids as [|i ids]; [contradiction|].
  destruct (Nat.eqb (List.length (findByIds s (i :: ids)))
                    (List.length (i :: ids))) eqn:E; simpl.
  - apply Nat.eqb_eq in E. split; [|intros H; contradiction].
    intros H.
    destruct (existsb _ (findByIds s (i :: ids))); simpl in H;
      [discriminate|].
    apply bind_Err in H.
    destruct H as [H | [[] [_ H]]]; [|discriminate].
    apply validateParentDatesForChildren_errors in H.
    destruct H as [H | [H | H]]; discriminate.
  - apply Nat.eqb_neq in E. split; [intros _; exact E | reflexivity].
Qed.

(** X5. A list of children is accepted only when every id on it is the
    id of a stored person and no id is listed twice: otherwise
    [validateChildren] answers "One or more children not found", and
    [linkChildrenToParent] and [create] fail and leave the table as it
    was. *)
Theorem children_are_stored_and_listed_once
        (s : Store) (ids : list Z) (g : Gender) (pb pd : option string) :
  uniqueIds s -> ids <> [] ->
  (validateChildren s (Some ids) (Some g) pb pd = Err ChildrenNotFound
   <-> ~ listedOnce s ids)
  /\ (~ listedOnce s ids ->
      (forall pid t, exists e, linkChildrenToParent pid ids t s = (Err e, s))
      /\ (forall dto, CreatePersonDto.childrenIds dto = Some ids ->
                      exists e, create dto s = (Err e, s))).
Proof.
  intros Hu Hne.
  assert (Hiff : forall g' pb' pd',
             validateChildren s (Some ids) (Some g') pb' pd' = Err ChildrenNotFound
             <-> ~ listedOnce s ids).
  { intros g' pb' pd'. rewrite (validateChildren_not_found s ids g' pb' pd' Hne).
    rewrite (findByIds_length s ids Hu). reflexivity. }
  split; [apply Hiff|].
  intros Hno. split.
  - intros pid t. unfold linkChildrenToParent.
    destruct (linkChecks s pid ids t) as [[parent children]|e] eqn:E;
      [|exists e; reflexivity].
    apply linkChecks_Ok in E. destruct E as [_ [_ [_ E]]].
    apply (Hiff (gender parent) (birthDate parent) (deathDate parent)) in Hno.
    congruence.
  - intros dto Hd. unfold create.
    destruct (createChecks s dto) as [[d cs]|e] eqn:E;
      [|exists e; reflexivity].
    apply createChecks_Ok in E. destruct E as [Hv [_ E]].
    apply validateNotOrphan_Ok in Hv. destruct Hv as [_ [_ [_ Hv]]].
    rewrite Hv, Hd in E.
    apply (Hiff (CreatePersonDto.gender d) (CreatePersonDto.birthDate d)
                (CreatePersonDto.deathDate d)) in Hno.
    congruence.
Qed.

Lemma children_are_stored_and_listed_once_witness :
  validateChildren Sample.couple (Some [2; 2]) (Some male) None None
  = Err ChildrenNotFound
  /\ validateChildren Sample.couple (Some [2; 7]) (Some male) None None
     = Err ChildrenNotFound.
Proof.
  split.
  - apply (children_are_stored_and_listed_once Sample.couple [2; 2] male
             None None).
    + apply couple_consistent.
    + discriminate.
    + intros [H _]. inversion H as [|x l Hx _]. apply Hx. left. reflexivity.
  - apply (children_are_stored_and_listed_once Sample.couple [2; 7] male
             None None).
    + apply couple_consistent.
    + discriminate.
    + intros [_ H]. apply (H 7); [right; left; reflexivity | reflexivity].
Defined.

Lemma linkChecks_parent s pid cids t parent children :
  linkChecks s pid cids t = Ok (parent, children) ->
  findOneById s pid = Some parent
  /\ id parent = pid
  /\ cids <> []
  /\ gender parent = expectedGender t
  /\ validateChildren s (Some cids) (Some (gender parent))
                      (birthDate parent) (deathDate parent) = Ok children.
Proof.
  intros H. unfold linkChecks in H.
  apply bind_Ok in H. destruct H as [x [Hx H]].
  apply bind_Ok in H. destruct H as [[] [He H]].
  apply bind_Ok in H. destruct H as [[] [_ H]].
  apply bind_Ok in H. destruct H as [[] [_ H]].
  apply bind_Ok in H. destruct H as [[] [Hg H]].
  apply bind_Ok in H. destruct H as [cs [Hc H]].
  inversion H. subst x cs. clear H.
  unfold findPersonById in Hx.
  destruct (findOneById s pid) as [q|] eqn:Hq; [|discriminate].
  inversion Hx. subst q. clear Hx.
  split; [reflexivity|].
  split; [apply (findOneById_In _ _ _ Hq)|].
  split.
  - apply throwIf_Ok in He. intros ->. discriminate.
  - split; [|exact Hc].
    apply throwIf_Ok in Hg. apply negb_false_iff in Hg.
    apply Gender_eqb_eq. exact Hg.
Qed.

Lemma store_eta s : {| rows := rows s; nextId := nextId s |} = s.
Proof. destruct s. reflexivity. Qed.

Lemma linkedRow_unlisted g pid ids r :
  ~ In (id r) ids -> linkedRow g pid ids r = r.
Proof.
  intros H. unfold linkedRow.
  destruct (existsb (Z.eqb (id r)) ids) eqn:E; [|reflexivity].
  apply existsb_exists in E. destruct E as [j [Hj E]].
  apply Z.eqb_eq in E. subst j. contradiction.
Qed.

Lemma linkedRow_listed g pid ids r :
  In (id r) ids -> linkedRow g pid ids r = setParentField g (Some pid) r.
Proof.
  intros H. unfold linkedRow.
  assert (E : existsb (Z.eqb (id r)) ids = true)
    by (apply existsb_exists; exists (id r); split;
        [exact H | apply Z.eqb_refl]).
  rewrite E. reflexivity.
Qed.

(** X6. What a successful [linkChildrenToParent] does.  The parent exists
    and has the gender of the role; the answer counts the ids sent, which
    are distinct; every listed child had no parent in that role and now has
    the parent's id in it; no other row and no other column changes. *)
Theorem link_children_effect (s : Store) (pid : Z) (cids : list Z)
        (t : Relationship) (n : nat) (s' : Store) :
  uniqueIds s ->
  linkChildrenToParent pid cids t s = (Ok n, s') ->
  exists parent,
    findOneById s pid = Some parent
    /\ gender parent = expectedGender t
    /\ n = List.length cids
    /\ NoDup cids
    /\ s' = {| rows := map (linkedRow (expectedGender t) pid cids) (rows s);
               nextId := nextId s |}
    /\ (forall c, In c cids ->
          exists r, findOneById s c = Some r
                    /\ ifTruthy (parentField (expectedGender t) r) = None
                    /\ findOneById s' c
                       = Some (setParentField (expectedGender t) (Some pid) r))
    /\ (forall j, ~ In j cids -> findOneById s' j = findOneById s j).
Proof.
  intros Hu. unfold linkChildrenToParent.
  destruct (linkChecks s pid cids t) as [[parent children]|e] eqn:E;
    [|discriminate].
  intros H. inversion H. subst n s'. clear H.
  apply linkChecks_parent in E.
  destruct E as [Hp [Hid [Hne [Hg Hc]]]].
  apply (validateChildren_linked s cids _ _ _ _ Hne) in Hc.
  destruct Hc as [-> [Hlen [Hfree _]]].
  pose proof (proj1 (findByIds_length s cids Hu) Hlen) as [Hnd Hall].
  assert (Hs : linkChildrenToParentInternal s parent (findByIds s cids)
               = {| rows := map (linkedRow (expectedGender t) pid cids) (rows s);
                    nextId := nextId s |}).
  { rewrite <- (store_eta (linkChildrenToParentInternal s parent _)).
    rewrite link_rows_listed, nextId_link, Hg, Hid. reflexivity. }
  assert (Hfind : forall j,
             findOneById (linkChildrenToParentInternal s parent (findByIds s cids)) j
             = option_map (linkedRow (expectedGender t) pid cids)
                          (findOneById s j)).
  { intros j. rewrite Hs. unfold findOneById. simpl.
    apply find_map_same_id. intros r _. apply linkedRow_id. }
  exists parent.
  split; [exact Hp|]. split; [exact Hg|]. split; [exact Hlen|].
  split; [exact Hnd|]. split; [exact Hs|]. split.
  - intros c Hc. pose proof (Hall c Hc) as Hf.
    destruct (findOneById s c) as [r|] eqn:Hr; [|contradiction].
    exists r. split; [reflexivity|].
    pose proof (findOneById_In _ _ _ Hr) as [Hin Hrid].
    split.
    + rewrite <- Hg. apply Hfree. unfold findByIds. apply filter_In.
      split; [exact Hin|]. apply existsb_exists. exists c.
      split; [exact Hc | rewrite Hrid; apply Z.eqb_refl].
    + rewrite Hfind, Hr. simpl. rewrite linkedRow_listed; [reflexivity|].
      rewrite Hrid. exact Hc.
  - intros j Hj. rewrite Hfind.
    destruct (findOneById s j) as [r|] eqn:Hr; [|reflexivity].
    simpl. rewrite linkedRow_unlisted; [reflexivity|].
    apply findOneById_In in Hr. destruct Hr as [_ ->]. exact Hj.
Qed.

Lemma link_children_effect_witness :
  exists parent,
    findOneById Sample.couple 1 = Some parent
    /\ gender parent = male
    /\ 1%nat = List.length [2]
    /\ NoDup [2]
    /\ {| rows := [Sample.person 1 male None None true None None;
                   Sample.person 2 female None None false (Some 1) None];
          nextId := 3 |}
       = {| rows := map (linkedRow male 1 [2]) (rows Sample.couple);
            nextId := nextId Sample.couple |}
    /\ (forall c, In c [2] ->
          exists r, findOneById Sample.couple c = Some r
                    /\ ifTruthy (parentField male r) = None
                    /\ findOneById
                         {| rows := [Sample.person 1 male None None true None None;
                                     Sample.person 2 female None None false
                                                   (Some 1) None];
                            nextId := 3 |} c
                       = Some (setParentField male (Some 1) r))
    /\ (forall j, ~ In j [2] ->
          findOneById
            {| rows := [Sample.person 1 male None None true None None;
                        Sample.person 2 female None None false (Some 1) None];
               nextId := 3 |} j
          = findOneById Sample.couple j).
Proof.
  apply (link_children_effect Sample.couple 1 [2] father 1).
  - apply couple_consistent.
  - reflexivity.
Defined.

Lemma keepsParents_linked g pid ids l :
  (forall r, In r l -> In (id r) ids -> ifTruthy (parentField g r) = None) ->
  forall r, In r l ->
    exists r', In r' (map (linkedRow g pid ids) l) /\ id r' = id r
               /\ (forall f, ifTruthy (fatherId r) = Some f -> fatherId r' = Some f)
               /\ (forall m, ifTruthy (motherId r) = Some m -> motherId r' = Some m).
Proof.
  intros Hfree r Hr. exists (linkedRow g pid ids r).
  split; [apply in_map; exact Hr|]. split; [apply linkedRow_id|].
  unfold linkedRow.
  destruct (existsb (Z.eqb (id r)) ids) eqn:E.
  - assert (Hin : In (id r) ids).
    { apply existsb_exists in E. destruct E as [j [Hj E]].
      apply Z.eqb_eq in E. subst j. exact Hj. }
    pose proof (Hfree r Hr Hin) as Hn.
    destruct g; cbn [parentField setParentField] in *; split; intros v Hv;
      try congruence; apply ifTruthy_Some in Hv; apply Hv.
  - split; intros v Hv; apply ifTruthy_Some in Hv; apply Hv.
Qed.

(** X7. Adding a parent from the parent's side never replaces a parent:
    after a successful [linkChildrenToParent], and after a successful
    [create] (with or without [childrenIds]), every row that was stored is
    still stored under its id, with the father and the mother it had. *)
Theorem linking_never_replaces_a_parent (s : Store) :
  (forall pid cids t n s',
      linkChildrenToParent pid cids t s = (Ok n, s') -> keepsParents s s')
  /\ (forall dto p s', create dto s = (Ok p, s') -> keepsParents s s').
Proof.
  split.
  - intros pid cids t n s'. unfold linkChildrenToParent.
    destruct (linkChecks s pid cids t) as [[parent children]|e] eqn:E;
      [|discriminate].
    intros H. inversion H. subst n s'. clear H.
    apply linkChecks_parent in E. destruct E as [_ [_ [Hne [_ Hc]]]].
    apply (validateChildren_linked s cids _ _ _ _ Hne) in Hc.
    destruct Hc as [-> [_ [Hfree _]]].
    intros r Hr. rewrite link_rows_listed.
    apply keepsParents_linked; [|exact Hr].
    intros q Hq Hin. apply Hfree. unfold findByIds. apply filter_In.
    split; [exact Hq|]. apply existsb_exists. exists (id q).
    split; [exact Hin | apply Z.eqb_refl].
  - intros dto p s'. unfold create.
    destruct (createChecks s dto) as [[d cs]|e] eqn:E; [|discriminate].
    apply createChecks_Ok in E. destruct E as [_ [_ Hc]].
    simpl. intros H. inversion H. subst p s'. clear H.
    assert (Hplain : keepsParents s (snd (insert s (entityOfCreate d)))).
    { intros r Hr. exists r. simpl.
      split; [apply in_or_app; left; exact Hr|]. split; [reflexivity|].
      split; intros v Hv; apply ifTruthy_Some in Hv; apply Hv. }
    destruct (0 <? List.length cs)%nat eqn:El; [|exact Hplain].
    destruct (CreatePersonDto.childrenIds d) as [ids|] eqn:Hids;
      [|simpl in Hc; inversion Hc; subst cs; discriminate].
    destruct ids as [|i ids];
      [simpl in Hc; inversion Hc; subst cs; discriminate|].
    apply validateChildren_linked in Hc; [|discriminate].
    destruct Hc as [Hcs [_ [Hfree _]]].
    intros r Hr. rewrite link_rows. simpl.
    destruct (keepsParents_linked (CreatePersonDto.gender d) (nextId s)
                (map id cs) (rows s)) with (r := r) as [r' [Hin' Hr']];
      [|exact Hr|].
    + intros q Hq Hin. apply Hfree. rewrite Hcs.
      apply in_map_iff in Hin. destruct Hin as [c [Hc Hin]].
      rewrite Hcs in Hin. apply findByIds_In in Hin. destruct Hin as [_ Hin].
      unfold findByIds. apply filter_In. split; [exact Hq|].
      apply existsb_exists. exists (id c).
      split; [exact Hin | rewrite Hc; apply Z.eqb_refl].
    + exists r'. split; [|exact Hr'].
      rewrite map_app. apply in_or_app. left. exact Hin'.
Qed.

Lemma linking_never_replaces_a_parent_witness :
  keepsParents Sample.fatherAndDaughter
    (snd (create (Sample.newPerson female None None None None (Some [2]))
                 Sample.fatherAndDaughter)).
Proof.
  destruct (linking_never_replaces_a_parent Sample.fatherAndDaughter)
    as [_ H].
  apply (H (Sample.newPerson female None None None None (Some [2]))
           (entityOfCreate
              (Sample.newPerson female None None None None (Some [2])) 3)).
  reflexivity.
Defined.

(** ** Creating a person, and deleting it again *)

Lemma filter_keeps_all {A} (f : A -> bool) l :
  (forall x, In x l -> f x = true) -> filter f l = l.
Proof.
  induction l as [|x l IH]; intros H; simpl; [reflexivity|].
  rewrite (H x (or_introl eq_refl)). f_equal.
  apply IH. intros y Hy. apply H. right. exact Hy.
Qed.

Lemma remove_inserted s mk :
  (forall n, id (mk n) = n) -> wellFormed s ->
  remove (snd (insert s mk)) (mk (nextId s))
  = {| rows := rows s; nextId := nextId s + 1 |}.
Proof.
  intros Hid [_ Hlt]. unfold remove, insert. simpl. f_equal.
  rewrite filter_app. simpl. unfold hasId at 2.
  rewrite !Hid, Z.eqb_refl. simpl. rewrite app_nil_r.
  apply filter_keeps_all. intros q Hq. unfold hasId.
  apply negb_true_iff. apply Z.eqb_neq. specialize (Hlt q Hq). lia.
Qed.

Lemma hasChildren_true dto :
  hasChildren dto = true ->
  exists ids, CreatePersonDto.childrenIds dto = Some ids /\ ids <> [].
Proof.
  unfold hasChildren. destruct (CreatePersonDto.childrenIds dto) as [ids|];
    [|discriminate].
  intros H. exists ids. split; [reflexivity|]. intros ->. discriminate.
Qed.

(** X8. A created person is stored under a fresh id and is found by it.
    Created without children to link, the person can be deleted again, and
    the table is then what it was before the creation (only the id counter
    has moved on).  Created with children to link, the person cannot be
    deleted: [removePerson] answers [HasDependents]. *)
Theorem create_then_remove (s : Store) (dto : CreatePersonDto.t)
        (p : Person) (s' : Store) :
  consistent s -> create dto s = (Ok p, s') ->
  id p = nextId s
  /\ findOneById s (id p) = None
  /\ findPersonById s' (id p) = Ok p
  /\ (hasChildren dto = false ->
      findAllPersons s' = findAllPersons s ++ [p]
      /\ removePerson (id p) s'
         = (Ok tt, {| rows := findAllPersons s; nextId := nextId s + 1 |}))
  /\ (hasChildren dto = true ->
      removePerson (id p) s' = (Err HasDependents, s')).
Proof.
  intros [Hwf [Hu Hk]]. unfold create.
  destruct (createChecks s dto) as [[d cs]|e] eqn:E; [|discriminate].
  apply createChecks_Ok in E. destruct E as [Hv [Hp Hc]].
  apply validateNotOrphan_Ok in Hv. destruct Hv as [_ [_ [_ Hids]]].
  rewrite Hids in Hc.
  simpl. intros H. inversion H. subst p s'. clear H. simpl.
  set (p := entityOfCreate d (nextId s)).
  set (s1 := {| rows := rows s ++ [p]; nextId := nextId s + 1 |}).
  assert (Hs1 : s1 = snd (insert s (entityOfCreate d))) by reflexivity.
  assert (Hfound : findOneById s1 (nextId s) = Some p)
    by (rewrite Hs1; apply (findOneById_inserted s (entityOfCreate d));
        [reflexivity | exact Hwf]).
  assert (Hcs : forall c, In c cs -> In c (rows s) /\ id c <> nextId s).
  { intros c Hin.
    destruct (validateChildren_Ok _ _ _ _ _ _ Hc c Hin) as [Hr _].
    split; [exact Hr|]. destruct Hwf as [_ Hlt]. specialize (Hlt c Hr). lia. }
  split; [reflexivity|].
  split; [apply findOneById_fresh; [exact Hwf | lia]|].
  assert (Hfinal : findOneById
                     (if (0 <? List.length cs)%nat
                      then linkChildrenToParentInternal s1 p cs else s1)
                     (nextId s) = Some p).
  { destruct (0 <? List.length cs)%nat; [|exact Hfound].
    rewrite findOneById_link, Hfound. simpl.
    rewrite linkedRow_unlisted; [reflexivity|].
    intros Hin. apply in_map_iff in Hin. destruct Hin as [c [Hid Hin]].
    apply Hcs in Hin. destruct Hin as [_ Hne]. apply Hne. exact Hid. }
  split; [unfold findPersonById; rewrite Hfinal; reflexivity|].
  split.
  - intros Hno. apply hasChildren_false in Hno.
    assert (Hnil : cs = []).
    { destruct Hno as [Hno | Hno]; rewrite Hno in Hc; simpl in Hc;
        inversion Hc; reflexivity. }
    subst cs. simpl. split; [reflexivity|].
    rewrite (removePerson_found s1 (nextId s) p Hfound).
    assert (Hch : findChildrenOf s1 (nextId s) = []).
    { apply findChildrenOf_nil. intros c He. rewrite Hs1 in He.
      apply parentEdge_insert in He. destruct He as [He | [_ He]].
      - destruct He as [r [Hr [_ Hpar]]].
        specialize (Hk r (nextId s) Hr Hpar). lia.
      - simpl in He.
        pose proof (validateParents_not_next s _ _ Hwf Hp) as [Hf Hm].
        destruct He as [He | He]; [apply Hf | apply Hm]; exact He. }
    rewrite Hch. simpl. f_equal. rewrite Hs1.
    apply (remove_inserted s (entityOfCreate d)); [reflexivity | exact Hwf].
  - intros Hyes. apply hasChildren_true in Hyes.
    destruct Hyes as [ids [Hi Hne]]. rewrite Hi in Hc.
    apply (validateChildren_linked s ids _ _ _ _ Hne) in Hc.
    destruct Hc as [_ [Hlen _]].
    destruct cs as [|c cs'];
      [simpl in Hlen; destruct ids; [contradiction | discriminate]|].
    change (0 <? List.length (c :: cs'))%nat with true. cbv iota.
    cbv iota in Hfinal.
    change (0 <? List.length (c :: cs'))%nat with true in Hfinal.
    cbv iota in Hfinal.
    rewrite (removePerson_found _ (nextId s) p Hfinal).
    destruct (findChildrenOf (linkChildrenToParentInternal s1 p (c :: cs'))
                             (nextId s)) as [|x l] eqn:Hch; [|reflexivity].
    exfalso. apply findChildrenOf_nil in Hch. apply (Hch (id c)).
    exists (linkedRow (gender p) (id p) (map id (c :: cs')) c).
    split.
    + rewrite link_rows. apply in_map. simpl. apply in_or_app. left.
      apply (Hcs c). left. reflexivity.
    + split; [apply linkedRow_id|].
      rewrite linkedRow_listed by (simpl; left; reflexivity).
      simpl. destruct (CreatePersonDto.gender d); simpl; auto.
Qed.

Lemma create_then_remove_witness :
  removePerson 3
    (snd (create (Sample.newPerson male None None (Some 1) (Some 2) None)
                 Sample.couple))
  = (Ok tt, {| rows := findAllPersons Sample.couple; nextId := 4 |}).
Proof.
  destruct (create_then_remove Sample.couple
              (Sample.newPerson male None None (Some 1) (Some 2) None)
              (entityOfCreate
                 (Sample.newPerson male None None (Some 1) (Some 2) None) 3)
              (snd (create
                      (Sample.newPerson male None None (Some 1) (Some 2) None)
                      Sample.couple))
              couple_consistent eq_refl)
    as [_ [_ [_ [H _]]]].
  apply H. reflexivity.
Defined.

(** ** Temporal validation from the parent's side *)

Lemma forEach_all {A} (body : A -> result unit) xs :
  (forall x, In x xs -> body x = Ok tt) -> forEach body xs = Ok tt.
Proof.
  induction xs as [|x xs IH]; intros H; simpl; [reflexivity|].
  rewrite (H x (or_introl eq_refl)). simpl.
  apply IH. intros y Hy. apply H. right. exact Hy.
Qed.

Lemma ifTruthyString_truthy d :
  Js.truthyString d = true -> ifTruthyString (Some d) = Some d.
Proof. intros H. simpl. rewrite H. reflexivity. Qed.

Lemma ifTruthyString_year d y :
  extractYear d = Some y -> ifTruthyString (Some d) = Some d.
Proof. intros H. apply ifTruthyString_truthy. eapply extractYear_truthy. exact H. Qed.

(** The check made for one child, once the parent's years are known. *)
Lemma childOfParent_check g py (dyo : option Z) c :
  (match ifTruthyString (birthDate c) with
   | None => Ok tt
   | Some cbd =>
       throwIf (Js.lt (Js.sub (extractYear cbd) (Some py)) (Some minParentAge))
               ImplausibleAge ;;
       match dyo with
       | Some dy =>
           match g with
           | male =>
               throwIf (Js.lt (Some dy) (Js.sub (extractYear cbd) (Some 1)))
                       ImplausibleDeathWindow
           | female =>
               throwIf (Js.lt (Some dy) (extractYear cbd)) ImplausibleDeathWindow
           end
       | None => Ok tt
       end
   end = Ok tt)
  <-> (forall cy, bornIn c cy ->
         minParentAge <= cy - py
         /\ (forall dy, dyo = Some dy ->
               match g with male => cy - 1 <= dy | female => cy <= dy end)).
Proof.
  unfold bornIn.
  destruct (ifTruthyString (birthDate c)) as [cbd|].
  - destruct (extractYear cbd) as [cy|] eqn:Ey.
    + cbn [Js.sub Js.lt]. split.
      * intros H cy' [cbd' [E1 E2]]. inversion E1. subst cbd'.
        rewrite Ey in E2. inversion E2. subst cy'.
        destruct (cy - py <? minParentAge) eqn:Ea; cbn [throwIf bind] in H;
          [discriminate|].
        apply Z.ltb_ge in Ea. split; [exact Ea|].
        intros dy ->. destruct g.
        -- destruct (dy <? cy - 1) eqn:Ed; [discriminate|].
           apply Z.ltb_ge in Ed. exact Ed.
        -- destruct (dy <? cy) eqn:Ed; [discriminate|].
           apply Z.ltb_ge in Ed. exact Ed.
      * intros H. destruct (H cy) as [Ha Hd]; [exists cbd; auto|].
        apply Z.ltb_ge in Ha. rewrite Ha. cbn [throwIf bind].
        destruct dyo as [dy|]; [|reflexivity].
        specialize (Hd dy eq_refl).
        destruct g; apply Z.ltb_ge in Hd; rewrite Hd; reflexivity.
    + cbn [Js.sub Js.lt throwIf bind]. split.
      * intros _ cy [cbd' [E1 E2]]. inversion E1. subst cbd'.
        rewrite Ey in E2. discriminate.
      * intros _. destruct dyo; [destruct g|]; reflexivity.
  - split; [|reflexivity].
    intros _ cy [cbd [E _]]. discriminate.
Qed.

Lemma parentSide_children g py dyo children :
  forEach
    (fun child =>
       match ifTruthyString (birthDate child) with
       | None => Ok tt
       | Some cbd =>
           throwIf (Js.lt (Js.sub (extractYear cbd) (Some py)) (Some minParentAge))
                   ImplausibleAge ;;
           match dyo with
           | Some dy =>
               match g with
               | male =>
                   throwIf (Js.lt (Some dy) (Js.sub (extractYear cbd) (Some 1)))
                           ImplausibleDeathWindow
               | female =>
                   throwIf (Js.lt (Some dy) (extractYear cbd))
                           ImplausibleDeathWindow
               end
           | None => Ok tt
           end
       end) children = Ok tt
  <-> oldEnoughFor py children
      /\ (forall dy, dyo = Some dy -> aliveFor g dy children).
Proof.
  split.
  - intros H. split.
    + intros c cy Hc Hb.
      pose proof (forEach_Ok _ _ H c Hc) as Hx. cbv beta in Hx.
      pose proof (proj1 (childOfParent_check g py dyo c) Hx) as Hy.
      apply (Hy cy Hb).
    + intros dy Hd c cy Hc Hb.
      pose proof (forEach_Ok _ _ H c Hc) as Hx. cbv beta in Hx.
      pose proof (proj1 (childOfParent_check g py dyo c) Hx) as Hy.
      apply (Hy cy Hb). exact Hd.
  - intros [Ho Ha]. apply forEach_all. intros c Hc.
    apply (proj2 (childOfParent_check g py dyo c)).
    intros cy Hb. split; [apply (Ho c cy Hc Hb)|].
    intros dy Hd. apply (Ha dy Hd c cy Hc Hb).
Qed.

(** X9. The temporal rule applied when children are linked to a parent
    ([validateParentDatesForChildren]), for a parent whose birth year reads
    as [py], a safe integer, and children whose birth dates are ASCII
    strings with safe years.  Without a death date the check passes exactly
    when the parent was at least 14 in the birth year of every child that
    has one.  With a death year [dy], a safe integer, it passes exactly when
    moreover [dy] is not before [py] and, unless [dy] is 0, the parent was
    alive for every child: a father until the year before the birth, a
    mother until the year of the birth.  A parent without a birth date is
    not checked at all. *)
Theorem parent_side_temporal_rule (children : list Person) (g : Gender)
        (pb : string) (py : Z) :
  readsYear pb py ->
  (forall c d, In c children -> birthDate c = Some d -> plainYear d) ->
  (forall pd, ifTruthyString pd = None ->
      (validateParentDatesForChildren children g (Some pb) pd = Ok tt
       <-> oldEnoughFor py children))
  /\ (forall pd pds dy,
         ifTruthyString pd = Some pds -> readsYear pds dy ->
         (validateParentDatesForChildren children g (Some pb) pd = Ok tt
          <-> py <= dy /\ oldEnoughFor py children
              /\ (dy <> 0 -> aliveFor g dy children)))
  /\ (forall pb' pd, ifTruthyString pb' = None ->
         validateParentDatesForChildren children g pb' pd = Ok tt).
Proof.
  intros [Hpy Hps] _. pose proof (ifTruthyString_year pb py Hpy) as Hpb.
  split; [|split].
  - intros pd Hpd. unfold validateParentDatesForChildren.
    rewrite Hpb, Hpd, Hpy. cbn [bind].
    rewrite (parentSide_children g py None children).
    split; [intros [H _]; exact H | intros H; split; [exact H|]].
    intros dy Hd. discriminate.
  - intros pd pds dy Hpd [Hdy Hds]. unfold validateParentDatesForChildren.
    rewrite Hpb, Hpd, Hpy, Hdy. cbn [Js.lt].
    destruct (dy <? py) eqn:Eb; cbn [throwIf bind].
    + apply Z.ltb_lt in Eb. split; [discriminate | intros [H _]; lia].
    + apply Z.ltb_ge in Eb.
      rewrite (parentSide_children g py (ifTruthy (Some dy)) children).
      split.
      * intros [Ho Ha]. split; [exact Eb|]. split; [exact Ho|].
        intros Hn. apply Ha. apply ifTruthy_nonzero. exact Hn.
      * intros [_ [Ho Ha]]. split; [exact Ho|].
        intros dy' Hd. apply ifTruthy_Some in Hd. destruct Hd as [Hd Hn].
        inversion Hd. subst dy'. apply Ha. exact Hn.
  - intros pb' pd Hb. unfold validateParentDatesForChildren. rewrite Hb.
    reflexivity.
Qed.

Lemma parent_side_temporal_rule_witness :
  validateParentDatesForChildren
    [Sample.person 2 female (Some "1920"%string) None false None None]
    male (Some "1900"%string) (Some "1918"%string) = Ok tt
  <-> 1900 <= 1918
      /\ oldEnoughFor 1900
           [Sample.person 2 female (Some "1920"%string) None false None None]
      /\ (1918 <> 0 ->
          aliveFor male 1918
            [Sample.person 2 female (Some "1920"%string) None false None None]).
Proof.
  destruct (parent_side_temporal_rule
              [Sample.person 2 female (Some "1920"%string) None false None None]
              male "1900" 1900 (conj eq_refl eq_refl)) as [_ [H _]].
  - intros c d [<- | []] Hd. inversion Hd. subst d.
    split; [reflexivity|]. intros y Hy. inversion Hy. reflexivity.
  - apply (H (Some "1918"%string) "1918"%string 1918);
      [reflexivity | split; reflexivity].
Defined.

(** ** Death dates compared by year *)

Lemma fatherDeathCheck_coarse cb fatherRow fd cy dy :
  deathDate fatherRow = Some fd ->
  isFullDate fd && isFullDate cb = false ->
  extractYear fd = Some dy -> extractYear cb = Some cy ->
  fatherDeathCheck cb fatherRow
  = if dy + 1 <? cy then Err ImplausibleDeathWindow else Ok tt.
Proof.
  intros Hd Hfull Hdy Hcy. unfold fatherDeathCheck.
  rewrite Hd, (ifTruthyString_year fd dy Hdy), Hfull, Hdy, Hcy.
  cbn [Js.add Js.gt Js.lt].
  destruct (isYearOnly fd); reflexivity.
Qed.

Lemma motherDeathCheck_coarse cb motherRow md cy dy :
  deathDate motherRow = Some md ->
  isFullDate md && isFullDate cb = false ->
  extractYear md = Some dy -> extractYear cb = Some cy ->
  motherDeathCheck cb motherRow
  = if dy <? cy then Err ImplausibleDeathWindow else Ok tt.
Proof.
  intros Hd Hfull Hdy Hcy. unfold motherDeathCheck.
  rewrite Hd, (ifTruthyString_year md dy Hdy), Hfull, Hdy, Hcy.
  cbn [Js.gt Js.lt].
  destruct (isYearOnly md); reflexivity.
Qed.

Lemma fatherOnly_dates s cb i p :
  Js.truthyString cb = true -> i <> 0 -> findOneById s i = Some p ->
  validateParentDates s (Some cb) (Some i) None
  = (parentBirthCheck cb p ;; fatherDeathCheck cb p).
Proof.
  intros Ht Hi Hp. rewrite (validateParentDates_present s cb _ _ Ht).
  rewrite (fatherDatesCheck_found s cb i p Hi Hp).
  unfold motherDatesCheck. simpl.
  destruct (parentBirthCheck cb p ;; fatherDeathCheck cb p) as [[]|e];
    reflexivity.
Qed.

Lemma motherOnly_dates s cb i p :
  Js.truthyString cb = true -> i <> 0 -> findOneById s i = Some p ->
  validateParentDates s (Some cb) None (Some i)
  = (parentBirthCheck cb p ;; motherDeathCheck cb p).
Proof.
  intros Ht Hi Hp. rewrite (validateParentDates_present s cb _ _ Ht).
  rewrite (motherDatesCheck_found s cb i p Hi Hp).
  unfold fatherDatesCheck. reflexivity.
Qed.

(** X10. Death dates at year precision, for years that are safe integers.
    Unless the parent's death date and the child's birth date are both full
    dates ([isFullDate] of both), [validateParentDates] compares years only,
    also when one of the two dates is a full date: a father may have died in
    the year before the birth year but not earlier, a mother must not have
    died before the birth year.  (In the last part the birth date of the
    parent is one that the embedding reads as the code does.) *)
Theorem death_rule_at_year_precision (cb : string) (parent : Person)
        (d : string) (cy dy : Z) :
  deathDate parent = Some d ->
  readsYear d dy -> readsYear cb cy ->
  isFullDate d && isFullDate cb = false ->
  (fatherDeathCheck cb parent = Ok tt <-> cy <= dy + 1)
  /\ (fatherDeathCheck cb parent = Err ImplausibleDeathWindow <-> dy + 1 < cy)
  /\ (motherDeathCheck cb parent = Ok tt <-> cy <= dy)
  /\ (motherDeathCheck cb parent = Err ImplausibleDeathWindow <-> dy < cy)
  /\ (forall s i,
         i <> 0 -> findOneById s i = Some parent ->
         (forall b, birthDate parent = Some b -> plainYear b) ->
         parentBirthCheck cb parent = Ok tt ->
         (validateParentDates s (Some cb) (Some i) None = Ok tt <-> cy <= dy + 1)
         /\ (validateParentDates s (Some cb) None (Some i) = Ok tt <-> cy <= dy)).
Proof.
  intros Hd [Hdy Hds] [Hcy Hcs] Hfull.
  pose proof (fatherDeathCheck_coarse cb parent d cy dy Hd Hfull Hdy Hcy) as Hf.
  pose proof (motherDeathCheck_coarse cb parent d cy dy Hd Hfull Hdy Hcy) as Hm.
  assert (F1 : fatherDeathCheck cb parent = Ok tt <-> cy <= dy + 1).
  { rewrite Hf. destruct (dy + 1 <? cy) eqn:E.
    - apply Z.ltb_lt in E. split; [discriminate | lia].
    - apply Z.ltb_ge in E. split; [intros _; exact E | reflexivity]. }
  assert (M1 : motherDeathCheck cb parent = Ok tt <-> cy <= dy).
  { rewrite Hm. destruct (dy <? cy) eqn:E.
    - apply Z.ltb_lt in E. split; [discriminate | lia].
    - apply Z.ltb_ge in E. split; [intros _; exact E | reflexivity]. }
  split; [exact F1|]. split; [|split; [exact M1|split]].
  - rewrite Hf. destruct (dy + 1 <? cy) eqn:E.
    + apply Z.ltb_lt in E. split; [intros _; exact E | reflexivity].
    + apply Z.ltb_ge in E. split; [discriminate | lia].
  - rewrite Hm. destruct (dy <? cy) eqn:E.
    + apply Z.ltb_lt in E. split; [intros _; exact E | reflexivity].
    + apply Z.ltb_ge in E. split; [discriminate | lia].
  - intros s i Hi Hp _ Hb.
    pose proof (extractYear_truthy cb cy Hcy) as Ht.
    rewrite (fatherOnly_dates s cb i parent Ht Hi Hp).
    rewrite (motherOnly_dates s cb i parent Ht Hi Hp).
    rewrite Hb. cbn [bind]. split; assumption.
Qed.

Lemma death_rule_at_year_precision_witness :
  (motherDeathCheck "1951-03-04"
     (Sample.person 2 female None (Some "1950"%string) false None None)
   = Err ImplausibleDeathWindow <-> 1950 < 1951)
  /\ (fatherDeathCheck "1951"
        (Sample.person 1 male None (Some "1950-06-01"%string) true None None)
      = Ok tt <-> 1951 <= 1950 + 1).
Proof.
  split.
  - apply (death_rule_at_year_precision "1951-03-04"
             (Sample.person 2 female None (Some "1950"%string) false None None)
             "1950" 1951 1950); try reflexivity; split; reflexivity.
  - apply (death_rule_at_year_precision "1951"
             (Sample.person 1 male None (Some "1950-06-01"%string) true None None)
             "1950-06-01" 1951 1950); try reflexivity; split; reflexivity.
Defined.

(** ** The two temporal validators *)

(** X11. The child's side and the parent's side agree.  Take a stored
    parent with a readable birth year, no death date or a readable death
    year (not 0, not before the birth year), and a child with a readable
    birth year, the two dates not both full dates, and every year a safe
    integer.  Then linking the child
    from the parent's side ([validateParentDatesForChildren], used by
    [linkChildrenToParent] and by [create] with [childrenIds]) has the same
    outcome as naming the parent from the child's side
    ([validateParentDates], used by [create] and [updatePerson]). *)
Theorem temporal_validators_agree (s : Store) (i : Z) (P C : Person)
        (pb cb : string) (py cy : Z) :
  i <> 0 -> findOneById s i = Some P ->
  birthDate P = Some pb -> readsYear pb py ->
  birthDate C = Some cb -> readsYear cb cy ->
  (ifTruthyString (deathDate P) = None
   \/ exists pds dy,
        deathDate P = Some pds /\ readsYear pds dy
        /\ dy <> 0 /\ py <= dy
        /\ isFullDate pds && isFullDate cb = false) ->
  validateParentDatesForChildren [C] (gender P) (birthDate P) (deathDate P)
  = match gender P with
    | male => validateParentDates s (birthDate C) (Some i) None
    | female => validateParentDates s (birthDate C) None (Some i)
    end.
Proof.
  intros Hi Hp Hpb [Hpy Hps] Hcb [Hcy Hcs] Hdeath.
  pose proof (extractYear_truthy cb cy Hcy) as Ht.
  pose proof (ifTruthyString_year pb py Hpy) as Hpbt.
  pose proof (ifTruthyString_year cb cy Hcy) as Hcbt.
  assert (Hbirth : parentBirthCheck cb P
                   = if cy - py <? minParentAge then Err ImplausibleAge
                     else Ok tt).
  { rewrite (parentBirthCheck_result cb P pb py cy); [|rewrite Hpb; exact Hpbt
                                                     |exact Hpy|exact Hcy].
    unfold minParentAge.
    destruct (cy <=? py) eqn:E1; destruct (cy - py <? 14) eqn:E2;
      try reflexivity.
    apply Z.leb_le in E1. apply Z.ltb_ge in E2. lia. }
  assert (Hchild :
            match gender P with
            | male => validateParentDates s (birthDate C) (Some i) None
            | female => validateParentDates s (birthDate C) None (Some i)
            end
            = (parentBirthCheck cb P ;; deathCheckFor (gender P) cb P)).
  { rewrite Hcb. destruct (gender P); unfold deathCheckFor.
    - apply fatherOnly_dates; assumption.
    - apply motherOnly_dates; assumption. }
  rewrite Hchild, Hbirth. clear Hchild Hbirth.
  unfold validateParentDatesForChildren.
  rewrite Hpb, Hpbt, Hpy. cbn [forEach]. rewrite Hcb, Hcbt, Hcy.
  cbn [Js.sub Js.lt].
  destruct Hdeath as [Hno | [pds [dy [Hd [[Hdy Hds] [Hn [Hle Hfull]]]]]]].
  - rewrite Hno. cbn [bind].
    assert (Hdc : deathCheckFor (gender P) cb P = Ok tt).
    { unfold deathCheckFor.
      destruct (gender P); unfold fatherDeathCheck, motherDeathCheck;
        rewrite Hno; reflexivity. }
    rewrite Hdc.
    destruct (cy - py <? minParentAge); reflexivity.
  - rewrite Hd, (ifTruthyString_year pds dy Hdy), Hdy.
    rewrite (ifTruthy_nonzero dy Hn). cbn [Js.lt].
    assert (Eb : (dy <? py) = false) by (apply Z.ltb_ge; exact Hle).
    rewrite Eb. cbn [throwIf bind].
    assert (Hdc : deathCheckFor (gender P) cb P
                  = match gender P with
                    | male => throwIf (dy <? cy - 1) ImplausibleDeathWindow
                    | female => throwIf (dy <? cy) ImplausibleDeathWindow
                    end).
    { unfold deathCheckFor. destruct (gender P).
      - rewrite (fatherDeathCheck_coarse cb P pds cy dy Hd Hfull Hdy Hcy).
        unfold throwIf.
        destruct (dy + 1 <? cy) eqn:E1; destruct (dy <? cy - 1) eqn:E2;
          try reflexivity;
          [apply Z.ltb_lt in E1; apply Z.ltb_ge in E2
          |apply Z.ltb_ge in E1; apply Z.ltb_lt in E2]; lia.
      - rewrite (motherDeathCheck_coarse cb P pds cy dy Hd Hfull Hdy Hcy).
        reflexivity. }
    rewrite Hdc.
    destruct (cy - py <? minParentAge); cbn [throwIf bind]; [reflexivity|].
    destruct (gender P);
      [destruct (dy <? cy - 1) | destruct (dy <? cy)]; reflexivity.
Qed.

Lemma temporal_validators_agree_witness :
  validateParentDatesForChildren
    [Sample.person 3 male (Some "1952-05-01"%string) None false None None]
    male (Some "1900"%string) (Some "1950"%string)
  = validateParentDates Sample.datedCouple (Some "1952-05-01"%string)
                        (Some 1) None.
Proof.
  apply (temporal_validators_agree Sample.datedCouple 1
           (Sample.person 1 male (Some "1900"%string) (Some "1950"%string)
                          true None None)
           (Sample.person 3 male (Some "1952-05-01"%string) None false None None)
           "1900" "1952-05-01" 1900 1952);
    try reflexivity; try discriminate; try (split; reflexivity).
  right. exists "1950"%string, 1950.
  repeat split; try reflexivity; try discriminate.
Defined.

(** X12. A birth date whose year cannot be read switches the temporal
    validation off: if the date is an ASCII string, [parseInt] of the part
    before the first "-" is [NaN] and the date is not of the three-part
    form, every comparison is false and [validateParentDates] accepts
    whatever the parents' dates are. *)
Theorem unreadable_birth_year_is_not_validated (s : Store) (cb : string)
        (f m : option Z) :
  Js.isAscii cb = true ->
  extractYear cb = None -> isFullDate cb = false ->
  validateParentDates s (Some cb) f m = Ok tt.
Proof.
  intros _ Hy Hfull. apply validateParentDates_unreadable; assumption.
Qed.

Lemma unreadable_birth_year_is_not_validated_witness :
  validateParentDates Sample.datedCouple (Some "ca. 1890"%string)
                      (Some 1) (Some 2) = Ok tt.
Proof.
  apply unreadable_birth_year_is_not_validated; reflexivity.
Defined.

(** ** The nine-month rule *)

Lemma In_upFrom lo n x :
  lo <= x < lo + Z.of_nat n -> In x (upFrom lo n).
Proof.
  intros H. unfold upFrom. apply in_map_iff.
  exists (Z.to_nat (x - lo)). split; [lia|].
  apply in_seq. lia.
Qed.

Lemma makeDay_march y m d :
  1 <= m <= 12 ->
  JsDate.makeDay y (m - 1) d + 719468
  = daysToMarchYear (marchYear y m) + marchDays m + d - 1.
Proof.
  intros Hm. rewrite (makeDay_calendar y m d Hm).
  unfold daysToMarchYear, marchYear, JsDate.dayFromYear, JsDate.inLeapYear.
  assert (C : m = 1 \/ m = 2 \/ m = 3 \/ m = 4 \/ m = 5 \/ m = 6 \/ m = 7
              \/ m = 8 \/ m = 9 \/ m = 10 \/ m = 11 \/ m = 12) by lia.
  destruct (y mod 4 =? 0) eqn:E4; destruct (y mod 100 =? 0) eqn:E100;
    destruct (y mod 400 =? 0) eqn:E400; cbn [negb andb orb];
    rewrite ?Z.eqb_eq, ?Z.eqb_neq in *;
    repeat (destruct C as [C | C];
            [month_case m; cbn [marchDays Z.leb Z.compare Pos.compare
                                Pos.compare_cont];
             Z.div_mod_to_equations; lia|]);
    month_case m; cbn [marchDays Z.leb Z.compare Pos.compare Pos.compare_cont];
    Z.div_mod_to_equations; lia.
Qed.

Lemma daysToMarchYear_era Y :
  daysToMarchYear Y = 146097 * (Y / 400) + daysToYearOfEra (Y mod 400).
Proof.
  unfold daysToMarchYear, daysToYearOfEra. Z.div_mod_to_equations. lia.
Qed.

Lemma daysToYearOfEra_bound yoe :
  0 <= yoe < 400 -> 0 <= daysToYearOfEra yoe <= 145731.
Proof.
  intros H. unfold daysToYearOfEra. Z.div_mod_to_equations. lia.
Qed.

Lemma yearOfEra_checked : forallb yearOfEraChecks (upFrom 0 400) = true.
Proof. vm_compute. reflexivity. Qed.

Lemma yearOfEra_mono a b :
  0 <= a <= b -> b < 146096 -> yearOfEra a <= yearOfEra b.
Proof.
  intros Hab Hb. unfold yearOfEra. apply Z.div_le_mono; [lia|].
  Z.div_mod_to_equations. lia.
Qed.

Lemma inLeapYear_mod400 Y :
  JsDate.inLeapYear (Y mod 400 + 1) = JsDate.inLeapYear (Y + 1).
Proof.
  unfold JsDate.inLeapYear.
  assert (H4 : (Y mod 400 + 1) mod 4 = (Y + 1) mod 4)
    by (Z.div_mod_to_equations; lia).
  assert (H100 : (Y mod 400 + 1) mod 100 = (Y + 1) mod 100)
    by (Z.div_mod_to_equations; lia).
  assert (H400 : (Y mod 400 + 1) mod 400 = (Y + 1) mod 400)
    by (Z.div_mod_to_equations; lia).
  rewrite H4, H100, H400. reflexivity.
Qed.

Lemma yearOfEra_of_day yoe t :
  0 <= yoe < 400 ->
  0 <= t <= 364 \/ (t = 365 /\ JsDate.inLeapYear (yoe + 1) = true) ->
  yearOfEra (daysToYearOfEra yoe + t) = yoe.
Proof.
  intros Hy Ht.
  pose proof yearOfEra_checked as Hall.
  rewrite forallb_forall in Hall.
  specialize (Hall yoe (In_upFrom 0 400 yoe ltac:(lia))).
  unfold yearOfEraChecks in Hall.
  apply andb_true_iff in Hall. destruct Hall as [Hall H365].
  apply andb_true_iff in Hall. destruct Hall as [H0 H364].
  apply Z.eqb_eq in H0. apply Z.eqb_eq in H364.
  pose proof (daysToYearOfEra_bound yoe Hy) as Hb.
  destruct Ht as [Ht | [-> Hleap]].
  - pose proof (yearOfEra_mono (daysToYearOfEra yoe) (daysToYearOfEra yoe + t)
                  ltac:(lia) ltac:(lia)).
    pose proof (yearOfEra_mono (daysToYearOfEra yoe + t)
                  (daysToYearOfEra yoe + 364) ltac:(lia) ltac:(lia)).
    lia.
  - rewrite Hleap in H365. apply Z.eqb_eq in H365. exact H365.
Qed.

Lemma civilFromDay_march Y t :
  0 <= t <= 364 \/ (t = 365 /\ JsDate.inLeapYear (Y + 1) = true) ->
  JsDate.civilFromDay (daysToMarchYear Y + t - 719468)
  = (let mp := (5 * t + 2) / 153 in
     let d := t - (153 * mp + 2) / 5 + 1 in
     let m := if mp <? 10 then mp + 3 else mp - 9 in
     (Y + (if m <=? 2 then 1 else 0), m - 1, d)).
Proof.
  intros Ht.
  assert (Hyo : 0 <= Y mod 400 < 400) by (apply Z.mod_pos_bound; lia).
  pose proof (daysToYearOfEra_bound _ Hyo) as Hb.
  assert (Ht' : 0 <= t <= 364
                \/ (t = 365 /\ JsDate.inLeapYear (Y mod 400 + 1) = true))
    by (rewrite inLeapYear_mod400; exact Ht).
  pose proof (yearOfEra_of_day (Y mod 400) t Hyo Ht') as Hyoe.
  assert (Hrange : 0 <= daysToYearOfEra (Y mod 400) + t < 146097) by lia.
  unfold JsDate.civilFromDay. cbv zeta.
  assert (Ez : daysToMarchYear Y + t - 719468 + 719468
               = 146097 * (Y / 400) + (daysToYearOfEra (Y mod 400) + t))
    by (rewrite daysToMarchYear_era; lia).
  rewrite Ez.
  assert (Ee : (146097 * (Y / 400) + (daysToYearOfEra (Y mod 400) + t)) / 146097
               = Y / 400).
  { symmetry. apply (Z.div_unique_pos _ _ _ (daysToYearOfEra (Y mod 400) + t));
      [exact Hrange | reflexivity]. }
  rewrite Ee.
  assert (Ed : 146097 * (Y / 400) + (daysToYearOfEra (Y mod 400) + t)
               - Y / 400 * 146097
               = daysToYearOfEra (Y mod 400) + t) by lia.
  rewrite Ed.
  change ((daysToYearOfEra (Y mod 400) + t
           - (daysToYearOfEra (Y mod 400) + t) / 1460
           + (daysToYearOfEra (Y mod 400) + t) / 36524
           - (daysToYearOfEra (Y mod 400) + t) / 146096) / 365)
    with (yearOfEra (daysToYearOfEra (Y mod 400) + t)).
  rewrite Hyoe.
  assert (Edoy : daysToYearOfEra (Y mod 400) + t
                 - (365 * (Y mod 400) + Y mod 400 / 4 - Y mod 400 / 100) = t)
    by (unfold daysToYearOfEra; lia).
  rewrite Edoy.
  assert (EY : Y mod 400 + Y / 400 * 400 = Y)
    by (pose proof (Z.div_mod Y 400 ltac:(lia)); lia).
  rewrite EY. reflexivity.
Qed.

Lemma march_month y m d :
  calendarDate (y, m, d) ->
  (5 * (marchDays m + d - 1) + 2) / 153 = (if m <=? 2 then m + 9 else m - 3)
  /\ (153 * (if m <=? 2 then m + 9 else m - 3) + 2) / 5 = marchDays m.
Proof.
  unfold calendarDate, daysInMonth. intros [Hm Hd].
  assert (C : m = 1 \/ m = 2 \/ m = 3 \/ m = 4 \/ m = 5 \/ m = 6 \/ m = 7
              \/ m = 8 \/ m = 9 \/ m = 10 \/ m = 11 \/ m = 12) by lia.
  destruct (JsDate.inLeapYear y);
    repeat (destruct C as [C | C];
            [subst m; cbn [marchDays Z.leb Z.compare Pos.compare
                           Pos.compare_cont];
             split; [Z.div_mod_to_equations; lia | reflexivity]|]);
    subst m; cbn [marchDays Z.leb Z.compare Pos.compare Pos.compare_cont];
    (split; [Z.div_mod_to_equations; lia | reflexivity]).
Qed.

Lemma march_day_bound y m d :
  calendarDate (y, m, d) ->
  0 <= marchDays m + d - 1 <= 364
  \/ (marchDays m + d - 1 = 365
      /\ JsDate.inLeapYear (marchYear y m + 1) = true).
Proof.
  unfold calendarDate, daysInMonth, marchYear. intros [Hm Hd].
  assert (C : m = 1 \/ m = 2 \/ m = 3 \/ m = 4 \/ m = 5 \/ m = 6 \/ m = 7
              \/ m = 8 \/ m = 9 \/ m = 10 \/ m = 11 \/ m = 12) by lia.
  destruct C as [C | [C | C]].
  - subst m. left. cbn [marchDays]. lia.
  - subst m. cbn [marchDays Z.leb Z.compare Pos.compare Pos.compare_cont].
    replace (y - 1 + 1) with y by lia.
    destruct (JsDate.inLeapYear y); [|left; lia].
    destruct (Z.eq_dec d 29) as [-> | Hn]; [right; split; reflexivity|].
    left. lia.
  - left.
    repeat (destruct C as [C | C]; [subst m; cbn [marchDays]; lia|]).
    subst m. cbn [marchDays]. lia.
Qed.

Lemma civilFromDay_makeDay y m d :
  calendarDate (y, m, d) ->
  JsDate.civilFromDay (JsDate.makeDay y (m - 1) d) = (y, m - 1, d).
Proof.
  intros Hc.
  assert (Hm : 1 <= m <= 12) by (unfold calendarDate in Hc; lia).
  replace (JsDate.makeDay y (m - 1) d)
    with (daysToMarchYear (marchYear y m) + (marchDays m + d - 1) - 719468)
    by (pose proof (makeDay_march y m d Hm); lia).
  rewrite (civilFromDay_march _ _ (march_day_bound y m d Hc)).
  cbv zeta.
  destruct (march_month y m d Hc) as [E1 E2]. rewrite E1, E2.
  unfold marchYear.
  destruct (m <=? 2) eqn:E.
  - apply Z.leb_le in E.
    assert (H1 : (m + 9 <? 10) = false) by (apply Z.ltb_ge; lia).
    rewrite H1.
    assert (H2 : (m + 9 - 9 <=? 2) = true) by (apply Z.leb_le; lia).
    rewrite H2. f_equal; [f_equal|]; lia.
  - apply Z.leb_gt in E.
    assert (H1 : (m - 3 <? 10) = true) by (apply Z.ltb_lt; lia).
    rewrite H1.
    assert (H2 : (m - 3 + 3 <=? 2) = false) by (apply Z.leb_gt; lia).
    rewrite H2. f_equal; [f_equal|]; lia.
Qed.

Lemma dayNumber_nineMonthsLater y m d :
  1 <= m <= 12 ->
  JsDate.makeDay y (m - 1 + 9) d = dayNumber (nineMonthsLater (y, m, d)).
Proof.
  intros Hm. unfold dayNumber, nineMonthsLater.
  destruct (m <=? 3) eqn:E.
  - f_equal. lia.
  - apply Z.leb_gt in E. unfold JsDate.makeDay.
    assert (H1 : (m - 1 + 9) / 12 = 1) by (Z.div_mod_to_equations; lia).
    assert (H2 : (m - 1 + 9) mod 12 = m - 4) by (Z.div_mod_to_equations; lia).
    assert (H3 : (m - 3 - 1) / 12 = 0) by (Z.div_mod_to_equations; lia).
    assert (H4 : (m - 3 - 1) mod 12 = m - 4) by (Z.div_mod_to_equations; lia).
    rewrite H1, H2, H3, H4. rewrite Z.add_0_r. reflexivity.
Qed.

Lemma addMonths_midnight k y m d :
  calendarDate (y, m, d) ->
  JsDate.addMonths k (Some (JsDate.makeDay y (m - 1) d * JsDate.msPerDay))
  = Some (JsDate.makeDay y (m - 1 + k) d * JsDate.msPerDay).
Proof.
  intros Hc. unfold JsDate.addMonths.
  assert (Hms : JsDate.msPerDay <> 0) by (unfold JsDate.msPerDay; lia).
  rewrite (Z.div_mul _ _ Hms), (Z.mod_mul _ _ Hms).
  rewrite (civilFromDay_makeDay y m d Hc). rewrite Z.add_0_r. reflexivity.
Qed.

Lemma fatherDeathCheck_full cb fatherRow fd death birth :
  deathDate fatherRow = Some fd ->
  JsDate.isoFields fd = Some death -> JsDate.isoFields cb = Some birth ->
  calendarDate death ->
  fatherDeathCheck cb fatherRow
  = if dayNumber (nineMonthsLater death) <? dayNumber birth
    then Err ImplausibleDeathWindow else Ok tt.
Proof.
  intros Hd Hfd Hcb Hc. destruct death as [[y1 m1] d1], birth as [[y2 m2] d2].
  assert (Hm : 1 <= m1 <= 12) by (unfold calendarDate in Hc; lia).
  unfold fatherDeathCheck, ifTruthyString.
  rewrite Hd, (isoFields_truthy fd _ Hfd).
  destruct (isoFields_isFullDate fd _ Hfd) as [Hf1 Hy1].
  destruct (isoFields_isFullDate cb _ Hcb) as [Hf2 _].
  rewrite Hy1, Hf1, Hf2. cbn [andb].
  rewrite (parse_isoFields fd _ _ _ Hfd), (parse_isoFields cb _ _ _ Hcb).
  rewrite (addMonths_midnight 9 y1 m1 d1 Hc).
  rewrite (dayNumber_nineMonthsLater y1 m1 d1 Hm).
  unfold Js.gt, Js.lt, throwIf, JsDate.msPerDay.
  change (JsDate.makeDay y2 (m2 - 1) d2) with (dayNumber (y2, m2, d2)).
  destruct (dayNumber (nineMonthsLater (y1, m1, d1)) <? dayNumber (y2, m2, d2))
    eqn:E.
  - apply Z.ltb_lt in E.
    replace (_ * 86400000 <? _ * 86400000) with true
      by (symmetry; apply Z.ltb_lt; lia).
    reflexivity.
  - apply Z.ltb_ge in E.
    replace (_ * 86400000 <? _ * 86400000) with false
      by (symmetry; apply Z.ltb_ge; lia).
    reflexivity.
Qed.

(** X13. The nine-month rule for fathers.  When the father's death date
    and the child's birth date are both full dates ([YYYY-MM-DD], read as
    UTC days), [validateParentDates] refuses the link exactly when the
    birth falls after the day that [setMonth(getMonth() + 9)] yields from
    the death date: the same day of the month nine months later, which
    rolls over into the following month when that month is too short.
    When that day exists, the link is refused exactly when it precedes the
    birth date. *)
Theorem father_nine_month_rule (cb : string) (fatherRow : Person)
        (fd : string) (death birth : Z * Z * Z) :
  deathDate fatherRow = Some fd ->
  JsDate.isoFields fd = Some death -> JsDate.isoFields cb = Some birth ->
  calendarDate death -> calendarDate birth ->
  (fatherDeathCheck cb fatherRow = Err ImplausibleDeathWindow
   <-> dayNumber (nineMonthsLater death) < dayNumber birth)
  /\ (fatherDeathCheck cb fatherRow = Ok tt
      <-> dayNumber birth <= dayNumber (nineMonthsLater death))
  /\ (calendarDate (nineMonthsLater death) ->
      (fatherDeathCheck cb fatherRow = Err ImplausibleDeathWindow
       <-> precedes (nineMonthsLater death) birth)
      /\ (fatherDeathCheck cb fatherRow = Ok tt
          <-> ~ precedes (nineMonthsLater death) birth))
  /\ (forall s i,
         i <> 0 -> findOneById s i = Some fatherRow ->
         parentBirthCheck cb fatherRow = Ok tt ->
         (validateParentDates s (Some cb) (Some i) None
          = Err ImplausibleDeathWindow
          <-> dayNumber (nineMonthsLater death) < dayNumber birth)
         /\ (validateParentDates s (Some cb) (Some i) None = Ok tt
             <-> dayNumber birth <= dayNumber (nineMonthsLater death))).
Proof.
  intros Hd Hfd Hcb Hcd Hcbirth.
  pose proof (fatherDeathCheck_full cb fatherRow fd death birth Hd Hfd Hcb Hcd)
    as Hres.
  assert (Hfail : fatherDeathCheck cb fatherRow = Err ImplausibleDeathWindow
                  <-> dayNumber (nineMonthsLater death) < dayNumber birth).
  { rewrite Hres. destruct (_ <? _) eqn:E.
    - apply Z.ltb_lt in E. split; [intros _; exact E | reflexivity].
    - apply Z.ltb_ge in E. split; [discriminate | lia]. }
  assert (Hok : fatherDeathCheck cb fatherRow = Ok tt
                <-> dayNumber birth <= dayNumber (nineMonthsLater death)).
  { rewrite Hres. destruct (_ <? _) eqn:E.
    - apply Z.ltb_lt in E. split; [discriminate | lia].
    - apply Z.ltb_ge in E. split; [intros _; exact E | reflexivity]. }
  split; [exact Hfail|]. split; [exact Hok|]. split.
  - intros Hnine.
    pose proof (makeDay_lt_iff (nineMonthsLater death) birth Hnine Hcbirth)
      as Hlt.
    assert (Hdn : dayNumber (nineMonthsLater death) < dayNumber birth
                  <-> precedes (nineMonthsLater death) birth).
    { unfold dayNumber. destruct (nineMonthsLater death) as [[y1 m1] d1].
      destruct birth as [[y2 m2] d2]. exact Hlt. }
    split.
    + rewrite Hfail. exact Hdn.
    + rewrite Hok, <- Hdn. lia.
  - intros s i Hz Hi Hb.
    rewrite (fatherOnly_dates s cb i fatherRow (isoFields_truthy cb _ Hcb) Hz Hi).
    rewrite Hb. cbn [bind]. split; assumption.
Qed.

Lemma father_nine_month_rule_witness :
  (fatherDeathCheck "1951-03-02"
     (Sample.person 1 male None (Some "1950-06-01"%string) true None None)
   = Err ImplausibleDeathWindow
   <-> precedes (nineMonthsLater (1950, 6, 1)) (1951, 3, 2))
  /\ (fatherDeathCheck "1951-03-02"
        (Sample.person 1 male None (Some "1950-06-01"%string) true None None)
      = Ok tt
      <-> ~ precedes (nineMonthsLater (1950, 6, 1)) (1951, 3, 2)).
Proof.
  destruct (father_nine_month_rule "1951-03-02"
              (Sample.person 1 male None (Some "1950-06-01"%string)
                             true None None)
              "1950-06-01" (1950, 6, 1) (1951, 3, 2)
              eq_refl eq_refl eq_refl) as [_ [_ [H _]]].
  - simpl. lia.
  - simpl. lia.
  - apply H. simpl. lia.
Defined.

(** ** Repeating an update *)

Lemma updateChecks_dates s i dto person :
  updateChecks s i dto = Ok person ->
  when (updatesDates dto)
       (validateParentDates s
          (Js.nullishOpt (UpdatePersonDto.birthDate dto) (birthDate person))
          (Js.nullish (UpdatePersonDto.fatherId dto) (fatherId person))
          (Js.nullish (UpdatePersonDto.motherId dto) (motherId person))) = Ok tt.
Proof.
  intros H. unfold updateChecks in H.
  apply bind_Ok in H. destruct H as [x [Hx H]].
  apply bind_Ok in H. destruct H as [[] [_ H]].
  apply bind_Ok in H. destruct H as [[] [Hd H]].
  apply bind_Ok in H. destruct H as [[] [_ H]].
  apply bind_Ok in H. destruct H as [[] [_ H]].
  apply bind_Ok in H. destruct H as [[] [_ H]].
  inversion H. subst x. exact Hd.
Qed.

Lemma validateParents_update s i patch f m :
  (forall r, In r (rows s) -> id r = i ->
             id (patch r) = i /\ gender (patch r) = gender r) ->
  validateParents (update s i patch) f m = validateParents s f m.
Proof.
  intros H.
  assert (Hg : forall j,
             option_map gender (findOneById (update s i patch) j)
             = option_map gender (findOneById s j)).
  { intros j. rewrite findOneById_update by (intros r Hr Hi; apply (H r Hr Hi)).
    destruct (findOneById s j) as [q|] eqn:E; [|reflexivity]. simpl.
    destruct (hasId i q) eqn:Eq; [|reflexivity].
    apply findOneById_In in E. destruct E as [Hin _].
    unfold hasId in Eq. apply Z.eqb_eq in Eq.
    rewrite (proj2 (H q Hin Eq)). reflexivity. }
  unfold validateParents.
  assert (Hone : forall g j,
             match findOneById (update s i patch) j with
             | None => Err NotFound
             | Some row => throwIf (negb (Gender_eqb (gender row) g)) InvalidRole
             end
             = match findOneById s j with
               | None => Err NotFound
               | Some row => throwIf (negb (Gender_eqb (gender row) g)) InvalidRole
               end).
  { intros g j. specialize (Hg j).
    destruct (findOneById (update s i patch) j) as [a|];
      destruct (findOneById s j) as [b|]; simpl in Hg; try discriminate;
      [|reflexivity].
    inversion Hg as [Hab]. rewrite Hab. reflexivity. }
  destruct (ifTruthy f) as [fi|]; destruct (ifTruthy m) as [mi|];
    rewrite ?Hone; reflexivity.
Qed.

Lemma datesCheck_kept s i patch cb (o : option Z) :
  (forall r, In r (rows s) -> id r = i -> id (patch r) = i) ->
  (forall v, ifTruthy o = Some v -> v <> i) ->
  fatherDatesCheck (update s i patch) cb o = fatherDatesCheck s cb o
  /\ motherDatesCheck (update s i patch) cb o = motherDatesCheck s cb o.
Proof.
  intros Hid Hne. unfold fatherDatesCheck, motherDatesCheck.
  destruct (ifTruthy o) as [v|]; [|split; reflexivity].
  rewrite (findOneById_update_other s i patch v Hid (Hne v eq_refl)).
  split; reflexivity.
Qed.

Lemma assign_idem person dto : assign (assign person dto) dto = assign person dto.
Proof.
  unfold assign. simpl.
  destruct dto as [fn ln pr bd dd tr fi mi]. simpl.
  destruct fn, ln, pr, bd, dd, tr, fi, mi; reflexivity.
Qed.

Lemma save_idem s p : save (save s p) p = save s p.
Proof.
  unfold save, update. simpl. f_equal. rewrite map_map. apply map_ext.
  intros r. destruct (hasId (id p) r) eqn:E; [|rewrite E; reflexivity].
  unfold hasId. rewrite Z.eqb_refl. reflexivity.
Qed.

Lemma nullish_after_assign (v : Js.Nullable Z) old :
  Js.nullish v (assignNullable v old) = Js.nullish v old
  \/ (v = Js.Null /\ Js.nullish v (assignNullable v old) = None).
Proof. destruct v; simpl; auto. Qed.

Lemma nullish_truthy_not_self s i dto person (sel : UpdatePersonDto.t -> Js.Nullable Z)
      (col : Person -> option Z) v :
  acyclic s -> findOneById s i = Some person ->
  strictEqId (sel dto) i = false ->
  (col person = fatherId person \/ col person = motherId person) ->
  ifTruthy (Js.nullish (sel dto) (col person)) = Some v -> v <> i.
Proof.
  intros Hac Hx Hs Hcol Hv. apply ifTruthy_Some in Hv. destruct Hv as [Hv _].
  destruct (sel dto) as [| |n]; simpl in Hv, Hs.
  - intros ->. apply (Hac i). apply t_step.
    apply findOneById_In in Hx. destruct Hx as [Hin Hid].
    exists person. split; [exact Hin|]. split; [exact Hid|].
    destruct Hcol as [E | E]; rewrite E in Hv; auto.
  - intros ->. apply (Hac i). apply t_step.
    apply findOneById_In in Hx. destruct Hx as [Hin Hid].
    exists person. split; [exact Hin|]. split; [exact Hid|].
    destruct Hcol as [E | E]; rewrite E in Hv; auto.
  - inversion Hv. subst n. apply Z.eqb_neq. exact Hs.
Qed.

(** X14. [updatePerson] is idempotent on a sound table.  When the ids are
    generated and unique and no person is an ancestor of itself, an update
    that succeeded succeeds again when it is repeated, answers the same
    person and leaves the table as the first update left it. *)
Theorem updatePerson_is_idempotent (s : Store) (i : Z)
        (dto : UpdatePersonDto.t) (p : Person) (s' : Store) :
  consistent s -> acyclic s ->
  updatePerson i dto s = (Ok p, s') ->
  updatePerson i dto s' = (Ok p, s').
Proof.
  intros Hc Hac H.
  pose proof (updatePerson_acyclic i dto s p s' Hc Hac H) as Hac'.
  unfold updatePerson in H.
  destruct (updateChecks s i dto) as [person|e] eqn:E; [|discriminate].
  inversion H. subst p s'. clear H.
  pose proof (updateChecks_dates s i dto person E) as Hdates.
  apply updateChecks_Ok in E.
  destruct E as [Hx [Hpar [Hself [_ _]]]].
  pose proof (findOneById_In _ _ _ Hx) as [Hin Hid].
  set (p := assign person dto) in *.
  assert (Hpid : id p = i) by exact Hid.
  assert (Hfound : findOneById (save s p) i = Some p).
  { rewrite <- Hpid. apply findOneById_save. rewrite Hpid, Hx. discriminate. }
  destruct Hc as [_ [Hu _]].
  assert (Hkeep : forall r, In r (rows s) -> id r = id p ->
                            id p = id p /\ gender p = gender r).
  { intros r Hr Hi. split; [reflexivity|].
    pose proof (findOneById_unique s r Hu Hr) as H1.
    rewrite Hi, Hpid, Hx in H1. inversion H1. subst r. reflexivity. }
  assert (Hself' : strictEqId (UpdatePersonDto.fatherId dto) i = false
                   /\ strictEqId (UpdatePersonDto.motherId dto) i = false)
    by (unfold namesItself in Hself; apply orb_false_iff in Hself; exact Hself).
  assert (Hchecks : updateChecks (save s p) i dto = Ok p).
  { unfold updateChecks, findPersonById. rewrite Hfound. cbn [bind].
    (* relationship validation *)
    assert (Hv : when (updatesParent dto)
                   (validateParents (save s p)
                      (Js.toOption (UpdatePersonDto.fatherId dto))
                      (Js.toOption (UpdatePersonDto.motherId dto))) = Ok tt).
    { unfold save.
      rewrite (validateParents_update s (id p) (fun _ => p) _ _ Hkeep).
      exact Hpar. }
    rewrite Hv. cbn [bind].
    (* temporal validation *)
    assert (Hd : when (updatesDates dto)
                   (validateParentDates (save s p)
                      (Js.nullishOpt (UpdatePersonDto.birthDate dto) (birthDate p))
                      (Js.nullish (UpdatePersonDto.fatherId dto) (fatherId p))
                      (Js.nullish (UpdatePersonDto.motherId dto) (motherId p)))
                 = Ok tt).
    { destruct (updatesDates dto); [|reflexivity]. cbn [when] in *.
      assert (Hcb : Js.nullishOpt (UpdatePersonDto.birthDate dto) (birthDate p)
                    = Js.nullishOpt (UpdatePersonDto.birthDate dto)
                                    (birthDate person)).
      { unfold p. simpl. destruct (UpdatePersonDto.birthDate dto); reflexivity. }
      rewrite Hcb. unfold validateParentDates in *.
      destruct (ifTruthyString
                  (Js.nullishOpt (UpdatePersonDto.birthDate dto)
                                 (birthDate person))) as [cb|];
        [|reflexivity].
      apply bind_Ok in Hdates. destruct Hdates as [[] [Hf Hm]].
      assert (Hidk : forall r, In r (rows s) -> id r = id p -> id p = id p)
        by reflexivity.
      assert (F : fatherDatesCheck (save s p) cb
                    (Js.nullish (UpdatePersonDto.fatherId dto) (fatherId p))
                  = Ok tt).
      { destruct (nullish_after_assign (UpdatePersonDto.fatherId dto)
                    (fatherId person)) as [Hsame | [_ Hnone]].
        - unfold p at 2. cbn [fatherId assign]. rewrite Hsame.
          unfold save.
          rewrite (proj1 (datesCheck_kept s (id p) (fun _ => p) cb _ Hidk
                            ltac:(intros v Hv'; rewrite Hpid;
                                  eapply (nullish_truthy_not_self s i dto person
                                            UpdatePersonDto.fatherId fatherId);
                                  eauto; apply Hself'))).
          exact Hf.
        - unfold p at 2. cbn [fatherId assign]. rewrite Hnone. reflexivity. }
      assert (M : motherDatesCheck (save s p) cb
                    (Js.nullish (UpdatePersonDto.motherId dto) (motherId p))
                  = Ok tt).
      { destruct (nullish_after_assign (UpdatePersonDto.motherId dto)
                    (motherId person)) as [Hsame | [_ Hnone]].
        - unfold p at 2. cbn [motherId assign]. rewrite Hsame.
          unfold save.
          rewrite (proj2 (datesCheck_kept s (id p) (fun _ => p) cb _ Hidk
                            ltac:(intros v Hv'; rewrite Hpid;
                                  eapply (nullish_truthy_not_self s i dto person
                                            UpdatePersonDto.motherId motherId);
                                  eauto; apply Hself'))).
          exact Hm.
        - unfold p at 2. cbn [motherId assign]. rewrite Hnone. reflexivity. }
      rewrite F, M. reflexivity. }
    rewrite Hd. cbn [bind]. rewrite Hself. cbn [throwIf bind].
    (* cycle checks *)
    assert (Hcyc : forall v,
               v = UpdatePersonDto.fatherId dto
               \/ v = UpdatePersonDto.motherId dto ->
               cycleCheckOnUpdate (save s p) p v = Ok tt).
    { intros v Hv'. destruct v as [| |n] eqn:Ev; try reflexivity.
      unfold cycleCheckOnUpdate.
      destruct (wouldCreateAncestryCycle (save s p) (id p) n) eqn:Ew;
        [|reflexivity].
      exfalso. apply wouldCreateAncestryCycle_sound in Ew.
      apply (Hac' i). rewrite Hpid in Ew.
      apply t_trans with (y := n); [|exact Ew].
      apply t_step. exists p.
      split; [apply (findOneById_In _ _ _ Hfound)|]. split; [exact Hpid|].
      unfold p. cbn [fatherId motherId assign].
      destruct Hv' as [Hv' | Hv']; rewrite <- Hv'; simpl; auto. }
    rewrite (Hcyc _ (or_introl eq_refl)).
    rewrite (Hcyc _ (or_intror eq_refl)).
    reflexivity. }
  unfold updatePerson. rewrite Hchecks. cbv zeta.
  assert (Hp : assign p dto = p) by (unfold p; apply assign_idem).
  rewrite Hp, save_idem. reflexivity.
Qed.

Lemma couple_acyclic : acyclic Sample.couple.
Proof.
  intros i H. apply ancestorOf_first_edge in H.
  destruct H as [c [r [[<- | [<- | []]] [_ [Hp | Hp]]]]]; discriminate.
Qed.

Lemma updatePerson_is_idempotent_witness :
  updatePerson 2 (withFatherId (Js.Val 1)) Sample.fatherAndDaughter
  = (Ok (Sample.person 2 female None None false (Some 1) None),
     Sample.fatherAndDaughter).
Proof.
  apply (updatePerson_is_idempotent Sample.couple 2 (withFatherId (Js.Val 1))
           (Sample.person 2 female None None false (Some 1) None)
           Sample.fatherAndDaughter couple_consistent couple_acyclic).
  reflexivity.
Defined.

(** ** The progenitor *)

Lemma flagsProgenitor_false m :
  flagsProgenitor m = false ->
  match m with
  | MCreate dto => CreatePersonDto.progenitor dto <> Some true
  | MUpdate _ dto => UpdatePersonDto.progenitor dto <> Some true
  | _ => True
  end.
Proof.
  destruct m; simpl; intros H; try exact I; apply truthyFlag_false; exact H.
Qed.

Lemma runAll_unflagged ms :
  forall s, consistent s -> singleProgenitor s ->
            Forall (fun m => flagsProgenitor m = false) ms ->
            consistent (runAll ms s) /\ singleProgenitor (runAll ms s).
Proof.
  unfold runAll. induction ms as [|m ms IH]; intros s Hc Hs Hms; simpl;
    [split; assumption|].
  inversion Hms as [|m' ms' Hm Hrest]. subst.
  destruct (run m s) as [b s1] eqn:E. simpl. destruct b.
  - apply IH; [| |exact Hrest].
    + eapply run_consistent; eassumption.
    + eapply unflagged_mutations_keep_single_progenitor;
        [exact Hc | exact Hs | exact E | apply flagsProgenitor_false; exact Hm].
  - apply run_failed in E. subst s1. apply IH; assumption.
Qed.

(** X15. At most one progenitor, as long as nobody asks for a second
    one.  On a table with generated, unique ids and at most one
    progenitor, any sequence of requests of which no [create] and no
    [updatePerson] carries [progenitor: true] leaves at most one
    progenitor; this covers [removePerson], [linkChildrenToParent],
    [promoteAncestor] and the first person of an empty tree, who is made
    progenitor by [create]. *)
Theorem one_progenitor_unless_requested (s : Store) (ms : list Mutation) :
  consistent s -> singleProgenitor s ->
  Forall (fun m => flagsProgenitor m = false) ms ->
  singleProgenitor (runAll ms s)
  /\ (forall p q, In p (rows (runAll ms s)) -> In q (rows (runAll ms s)) ->
                  progenitor p = true -> progenitor q = true -> id p = id q).
Proof.
  intros Hc Hs Hms.
  destruct (runAll_unflagged ms s Hc Hs Hms) as [Hc' Hs'].
  split; [exact Hs'|].
  intros p q Hp Hq Pp Pq.
  unfold singleProgenitor, progenitorCount in Hs'.
  assert (Hfp : In p (filter progenitor (rows (runAll ms s))))
    by (apply filter_In; split; assumption).
  assert (Hfq : In q (filter progenitor (rows (runAll ms s))))
    by (apply filter_In; split; assumption).
  destruct (filter progenitor (rows (runAll ms s))) as [|x [|y l]].
  - destruct Hfp.
  - destruct Hfp as [<- | []]. destruct Hfq as [<- | []]. reflexivity.
  - simpl in Hs'. lia.
Qed.

Lemma emptyStore_consistent : consistent Sample.emptyStore.
Proof.
  split; [|split].
  - split; [reflexivity|]. intros p [].
  - constructor.
  - intros r p [].
Qed.

Lemma one_progenitor_unless_requested_witness :
  singleProgenitor
    (runAll [MCreate (Sample.newPerson male None None None None None);
             MPromote noRejection (Sample.newAncestor female 1 mother);
             MCreate (Sample.newPerson female None None (Some 1) None None)]
            Sample.emptyStore)
  /\ (forall p q,
         In p (rows (runAll
                      [MCreate (Sample.newPerson male None None None None None);
                       MPromote noRejection (Sample.newAncestor female 1 mother);
                       MCreate (Sample.newPerson female None None (Some 1)
                                                 None None)]
                      Sample.emptyStore)) ->
         In q (rows (runAll
                      [MCreate (Sample.newPerson male None None None None None);
                       MPromote noRejection (Sample.newAncestor female 1 mother);
                       MCreate (Sample.newPerson female None None (Some 1)
                                                 None None)]
                      Sample.emptyStore)) ->
         progenitor p = true -> progenitor q = true -> id p = id q).
Proof.
  apply one_progenitor_unless_requested.
  - apply emptyStore_consistent.
  - unfold singleProgenitor, progenitorCount. simpl. lia.
  - repeat constructor.
Defined.

Lemma find_progenitor_none l :
  List.length (filter progenitor l) = 0%nat -> find progenitor l = None.
Proof.
  induction l as [|x l IH]; simpl; [reflexivity|].
  destruct (progenitor x); simpl; [discriminate | exact IH].
Qed.

Lemma find_app_none {A} (f : A -> bool) l1 l2 :
  find f l1 = None -> find f (l1 ++ l2) = find f l2.
Proof.
  induction l1 as [|x l1 IH]; simpl; [reflexivity|].
  destruct (f x); [discriminate | exact IH].
Qed.

(** X16. After a promotion.  On a table with generated, unique ids and
    one progenitor, a successful [promoteAncestor] makes the new ancestor
    the person that [findProgenitor] answers, and the only progenitor; the
    former progenitor is found under its id, not a progenitor any more and
    with the new ancestor in the parent column of the relationship.  The
    new ancestor cannot be deleted ([HasDependents]), and a further
    promotion has to name the new ancestor: with any other id it fails with
    [IdentityMismatch]. *)
Theorem promotion_installs_the_progenitor
        (rejects : TxStep -> bool) (dto : PromoteAncestorDto.t)
        (s : Store) (p : Person) (s' : Store) :
  consistent s -> singleProgenitor s ->
  promoteAncestor rejects dto s = (Ok p, s') ->
  findProgenitor s' = Some p
  /\ progenitorCount s' = 1%nat
  /\ (exists cur,
         findProgenitor s = Some cur
         /\ id cur = PromoteAncestorDto.currentProgenitorId dto
         /\ findOneById s' (id cur)
            = Some (demote (PromoteAncestorDto.relationship dto) (id p) cur))
  /\ removePerson (id p) s' = (Err HasDependents, s')
  /\ (forall rejects' dto',
         PromoteAncestorDto.currentProgenitorId dto' <> id p ->
         promoteAncestor rejects' dto' s' = (Err IdentityMismatch, s')).
Proof.
  intros [Hwf [Hu Hk]] Hs H.
  apply promoteAncestor_Ok in H.
  destruct H as [cur [Hcur [Hid [-> ->]]]].
  set (n := nextId s).
  set (anc := ancestorOfPromote dto n).
  set (F := fun r => if hasId (id cur) r
                     then demote (PromoteAncestorDto.relationship dto) n r
                     else r).
  assert (Hcurin : In cur (rows s) /\ progenitor cur = true).
  { unfold findProgenitor in Hcur. apply find_some in Hcur. exact Hcur. }
  destruct Hcurin as [Hcin Hcp].
  assert (Hcn : id cur <> n).
  { destruct Hwf as [_ Hlt]. specialize (Hlt cur Hcin). unfold n. lia. }
  assert (Hrows : rows (update (snd (insert s (ancestorOfPromote dto))) (id cur)
                          (demote (PromoteAncestorDto.relationship dto) n))
                  = map F (rows s) ++ [anc]).
  { simpl. rewrite map_app. simpl. f_equal.
    fold n. fold anc.
    assert (Hh : hasId (id cur) anc = false)
      by (unfold hasId; simpl; apply Z.eqb_neq; lia).
    rewrite Hh. reflexivity. }
  assert (Hzero : List.length (filter progenitor (map F (rows s))) = 0%nat).
  { pose proof (progenitorCount_demote s cur
                  (PromoteAncestorDto.relationship dto) n Hcur Hs) as Hz.
    unfold progenitorCount in Hz. simpl in Hz. exact Hz. }
  assert (Hfp : findProgenitor
                  (update (snd (insert s (ancestorOfPromote dto))) (id cur)
                     (demote (PromoteAncestorDto.relationship dto) n))
                = Some anc).
  { unfold findProgenitor. rewrite Hrows.
    rewrite (find_app_none _ _ _ (find_progenitor_none _ Hzero)).
    reflexivity. }
  assert (Hkeep : forall r,
             In r (rows (snd (insert s (ancestorOfPromote dto)))) ->
             id r = id cur ->
             id (demote (PromoteAncestorDto.relationship dto) n r) = id cur)
    by (intros r _ Hr; rewrite id_demote; exact Hr).
  assert (Hfcur : findOneById
                    (update (snd (insert s (ancestorOfPromote dto))) (id cur)
                       (demote (PromoteAncestorDto.relationship dto) n))
                    (id cur)
                  = Some (demote (PromoteAncestorDto.relationship dto) n cur)).
  { rewrite (findOneById_update _ _ _ _ Hkeep), findOneById_insert.
    rewrite (findOneById_unique s cur Hu Hcin). simpl.
    unfold hasId. rewrite Z.eqb_refl. reflexivity. }
  assert (Hfanc : findOneById
                    (update (snd (insert s (ancestorOfPromote dto))) (id cur)
                       (demote (PromoteAncestorDto.relationship dto) n))
                    n
                  = Some anc).
  { rewrite (findOneById_update_other _ _ _ _ Hkeep) by lia.
    apply (findOneById_inserted s (ancestorOfPromote dto));
      [reflexivity | exact Hwf]. }
  split; [exact Hfp|]. split.
  - unfold progenitorCount. rewrite Hrows, filter_app, length_app, Hzero.
    reflexivity.
  - split; [exists cur; split; [exact Hcur|]; split; [exact Hid | exact Hfcur]|].
    split.
    + change (id anc) with n. rewrite (removePerson_found _ n anc Hfanc).
      destruct (findChildrenOf _ n) as [|x l] eqn:Hch; [|reflexivity].
      exfalso. apply findChildrenOf_nil in Hch. apply (Hch (id cur)).
      exists (demote (PromoteAncestorDto.relationship dto) n cur).
      split; [apply (findOneById_In _ _ _ Hfcur)|].
      split; [apply id_demote|].
      unfold demote.
      destruct (expectedGender (PromoteAncestorDto.relationship dto));
        simpl; auto.
    + intros rejects' dto' Hne. unfold promoteAncestor, promoteChecks.
      rewrite Hfp. change (id anc) with n in *.
      assert (Hneq : (n =? PromoteAncestorDto.currentProgenitorId dto') = false)
        by (apply Z.eqb_neq; intros E; apply Hne; symmetry; exact E).
      simpl. rewrite Hneq. reflexivity.
Qed.

Lemma promotion_installs_the_progenitor_witness :
  findProgenitor
    (snd (promoteAncestor noRejection (Sample.newAncestor male 1 father)
                          Sample.oneMan))
  = Some (ancestorOfPromote (Sample.newAncestor male 1 father) 2).
Proof.
  destruct (promotion_installs_the_progenitor noRejection
              (Sample.newAncestor male 1 father) Sample.oneMan
              (ancestorOfPromote (Sample.newAncestor male 1 father) 2)
              (snd (promoteAncestor noRejection
                      (Sample.newAncestor male 1 father) Sample.oneMan))
              oneMan_consistent) as [H _].
  - unfold singleProgenitor, progenitorCount. simpl. lia.
  - reflexivity.
  - exact H.
Defined.

(** ** The errors of each method *)

Ltac among :=
  subst; simpl;
  repeat first [left; reflexivity | right].

Lemma validateChildren_errors_gendered s ids g pb pd e :
  validateChildren s ids (Some g) pb pd = Err e ->
  In e [ChildrenNotFound; RoleOccupied; DeathBeforeBirth; ImplausibleAge;
        ImplausibleDeathWindow].
Proof.
  unfold validateChildren. destruct ids as [[|i ids]|]; try discriminate.
  intros H.
  apply bind_Err in H. destruct H as [H | [[] [_ H]]].
  { apply throwIf_Err in H. destruct H as [_ ->]. among. }
  apply bind_Err in H. destruct H as [H | [[] [_ H]]].
  { apply throwIf_Err in H. destruct H as [_ ->]. among. }
  apply bind_Err in H. destruct H as [H | [[] [_ H]]]; [|discriminate].
  apply validateParentDatesForChildren_errors in H.
  destruct H as [-> | [-> | ->]]; among.
Qed.

Lemma createChecks_errors s dto e :
  createChecks s dto = Err e ->
  In e [DisconnectedPerson; NotFound; InvalidRole; ImplausibleAge;
        ImplausibleDeathWindow; ChildrenNotFound; RoleOccupied;
        DeathBeforeBirth].
Proof.
  unfold createChecks. intros H.
  apply bind_Err in H. destruct H as [H | [d [_ H]]].
  { apply validateNotOrphan_Err in H. destruct H as [-> _]. among. }
  apply bind_Err in H. destruct H as [H | [[] [_ H]]].
  { apply validateParents_errors in H. destruct H as [-> | ->]; among. }
  apply bind_Err in H. destruct H as [H | [[] [_ H]]].
  { apply validateParentDates_errors in H. destruct H as [-> | ->]; among. }
  apply bind_Err in H. destruct H as [H | [cs [_ H]]]; [|discriminate].
  apply validateChildren_errors_gendered in H. simpl in H.
  destruct H as [<- | [<- | [<- | [<- | [<- | []]]]]]; among.
Qed.

Lemma updateChecks_errors s i dto e :
  updateChecks s i dto = Err e ->
  In e [NotFound; InvalidRole; ImplausibleAge; ImplausibleDeathWindow;
        SelfParent; CycleDetected].
Proof.
  unfold updateChecks. intros H.
  apply bind_Err in H. destruct H as [H | [person [_ H]]].
  { unfold findPersonById in H. destruct (findOneById s i); [discriminate|].
    inversion H. among. }
  apply bind_Err in H. destruct H as [H | [[] [_ H]]].
  { destruct (updatesParent dto); [|discriminate]. simpl in H.
    apply validateParents_errors in H. destruct H as [-> | ->]; among. }
  apply bind_Err in H. destruct H as [H | [[] [_ H]]].
  { destruct (updatesDates dto); [|discriminate]. simpl in H.
    apply validateParentDates_errors in H. destruct H as [-> | ->]; among. }
  apply bind_Err in H. destruct H as [H | [[] [_ H]]].
  { apply throwIf_Err in H. destruct H as [_ ->]. among. }
  assert (Hc : forall v, cycleCheckOnUpdate s person v = Err e ->
                         e = CycleDetected).
  { intros v Hv. unfold cycleCheckOnUpdate in Hv.
    destruct v; try discriminate.
    apply throwIf_Err in Hv. apply Hv. }
  apply bind_Err in H. destruct H as [H | [[] [_ H]]].
  { apply Hc in H. among. }
  apply bind_Err in H. destruct H as [H | [[] [_ H]]]; [|discriminate].
  apply Hc in H. among.
Qed.

Lemma linkChecks_errors s pid cids t e :
  linkChecks s pid cids t = Err e ->
  In e [NotFound; ChildrenRequired; SelfParent; CycleDetected; InvalidRole;
        ChildrenNotFound; RoleOccupied; DeathBeforeBirth; ImplausibleAge;
        ImplausibleDeathWindow].
Proof.
  unfold linkChecks. intros H.
  apply bind_Err in H. destruct H as [H | [parent [_ H]]].
  { unfold findPersonById in H. destruct (findOneById s pid); [discriminate|].
    inversion H. among. }
  apply bind_Err in H. destruct H as [H | [[] [_ H]]].
  { apply throwIf_Err in H. destruct H as [_ ->]. among. }
  apply bind_Err in H. destruct H as [H | [[] [_ H]]].
  { apply throwIf_Err in H. destruct H as [_ ->]. among. }
  apply bind_Err in H. destruct H as [H | [[] [_ H]]].
  { apply (forEach_errors (fun e => e = CycleDetected)) in H; [among|].
    intros x e' Hx. apply throwIf_Err in Hx. apply Hx. }
  apply bind_Err in H. destruct H as [H | [[] [_ H]]].
  { apply throwIf_Err in H. destruct H as [_ ->]. among. }
  apply bind_Err in H. destruct H as [H | [cs [_ H]]]; [|discriminate].
  apply validateChildren_errors_gendered in H. simpl in H.
  destruct H as [<- | [<- | [<- | [<- | [<- | []]]]]]; among.
Qed.

Lemma promoteChecks_errors s dto e :
  promoteChecks s dto = Err e -> In e [NotFound; IdentityMismatch; InvalidRole].
Proof.
  unfold promoteChecks. destruct (findProgenitor s) as [cur|].
  - intros H. apply bind_Err in H. destruct H as [H | [[] [_ H]]];
      apply throwIf_Err in H; destruct H as [_ ->]; among.
  - intros H. inversion H. among.
Qed.

(** X17. The errors each method can answer with, whatever the repository
    does with writes.  An error other than a failure of the storage layer
    is answered before the first write, and the table is unchanged:
    [create] fails so only for a disconnected person, an unknown or wrongly
    gendered parent, an implausible age or death window, or a child list
    that names unknown, repeated or already parented children or contradicts
    the dates, and it never reports a cycle; [updatePerson] adds the
    self-parent and cycle errors to the parent and date errors;
    [linkChildrenToParent] can answer with any of them but
    [DisconnectedPerson], and with "childrenIds is required"; [removePerson]
    fails only with [NotFound] or [HasDependents].  "Gender is required when
    linking children" is never answered: both callers of [validateChildren]
    pass a gender.  A failure of the storage layer is answered only when the
    repository rejects a write.  In [updatePerson] and [removePerson], which
    write once, the table is then unchanged.  In [create] and
    [linkChildrenToParent] nothing is undone: when [save] is rejected the
    table is unchanged, and when the update of a child is rejected the new
    row stays and the children whose update is accepted stay linked.
    [promoteAncestor], which writes in a transaction, fails only with
    [NotFound], [IdentityMismatch], [InvalidRole] or a failure of the
    storage layer, and leaves the table unchanged in every case. *)
Theorem errors_of_each_method (rejects : RepositoryCall -> bool) (s : Store) :
  (forall dto e s',
      Faulty.create rejects dto s = (Err e, s') ->
      (s' = s
       /\ In e [DisconnectedPerson; NotFound; InvalidRole; ImplausibleAge;
                ImplausibleDeathWindow; ChildrenNotFound; RoleOccupied;
                DeathBeforeBirth])
      \/ (e = StoreFailure /\ rejects RcSave = true /\ s' = s)
      \/ (e = StoreFailure /\ rejects RcSave = false
          /\ exists d cs,
               createChecks s dto = Ok (d, cs)
               /\ rejectsAChild rejects cs = true
               /\ s' = linkChildrenToParentInternal
                         (snd (insert s (entityOfCreate d)))
                         (fst (insert s (entityOfCreate d)))
                         (acceptedChildren rejects cs)))
  /\ (forall i dto e s',
         Faulty.updatePerson rejects i dto s = (Err e, s') ->
         s' = s
         /\ (In e [NotFound; InvalidRole; ImplausibleAge;
                   ImplausibleDeathWindow; SelfParent; CycleDetected]
             \/ (e = StoreFailure /\ rejects RcSave = true)))
  /\ (forall i e s',
         Faulty.removePerson rejects i s = (Err e, s') ->
         s' = s
         /\ (In e [NotFound; HasDependents]
             \/ (e = StoreFailure /\ rejects RcRemove = true)))
  /\ (forall pid cids t e s',
         Faulty.linkChildrenToParent rejects pid cids t s = (Err e, s') ->
         (s' = s
          /\ In e [NotFound; ChildrenRequired; SelfParent; CycleDetected;
                   InvalidRole; ChildrenNotFound; RoleOccupied;
                   DeathBeforeBirth; ImplausibleAge; ImplausibleDeathWindow])
         \/ (e = StoreFailure
             /\ exists parent children,
                  linkChecks s pid cids t = Ok (parent, children)
                  /\ rejectsAChild rejects children = true
                  /\ s' = linkChildrenToParentInternal s parent
                            (acceptedChildren rejects children)))
  /\ (forall rj dto e s',
         promoteAncestor rj dto s = (Err e, s') ->
         s' = s
         /\ In e [NotFound; IdentityMismatch; InvalidRole; StoreFailure]).
Proof.
  split; [|split; [|split; [|split]]].
  - intros dto e s'. rewrite Faulty_create_outcome.
    destruct (createChecks s dto) as [[d cs]|e0] eqn:E.
    + destruct (rejects RcSave) eqn:Es.
      { intros H. inversion H. right. left. auto. }
      destruct (rejectsAChild rejects cs) eqn:Er.
      { intros H. inversion H. right. right.
        split; [reflexivity|]. split; [reflexivity|].
        exists d, cs. auto. }
      unfold create. rewrite E.
      destruct (insert s (entityOfCreate d)). discriminate.
    + intros H. inversion H. subst e0 s'. left.
      split; [reflexivity | apply (createChecks_errors s dto e E)].
  - intros i dto e s'. rewrite Faulty_updatePerson_outcome.
    destruct (updateChecks s i dto) as [person|e0] eqn:E.
    + destruct (rejects RcSave) eqn:Es.
      { intros H. inversion H. split; [reflexivity|]. right. auto. }
      unfold updatePerson. rewrite E. discriminate.
    + intros H. inversion H. subst e0 s'.
      split; [reflexivity|]. left. apply (updateChecks_errors s i dto e E).
  - intros i e s'. rewrite Faulty_removePerson_outcome.
    destruct (removePerson i s) as [[[]|e0] s1] eqn:E.
    + destruct (rejects RcRemove) eqn:Es; [|discriminate].
      intros H. inversion H. split; [reflexivity|]. right. auto.
    + intros H. inversion H. subst e0 s'. split; [reflexivity|]. left.
      unfold removePerson, findPersonById in E.
      destruct (findOneById s i) as [person|]; simpl in E.
      * destruct (0 <? List.length (findChildrenOf s (id person)))%nat;
          simpl in E; inversion E; among.
      * inversion E. among.
  - intros pid cids t e s'. rewrite Faulty_linkChildrenToParent_outcome.
    destruct (linkChecks s pid cids t) as [[parent children]|e0] eqn:E.
    + destruct (rejectsAChild rejects children) eqn:Er.
      { intros H. inversion H. right. split; [reflexivity|].
        exists parent, children. auto. }
      unfold linkChildrenToParent. rewrite E. discriminate.
    + intros H. inversion H. subst e0 s'. left.
      split; [reflexivity | apply (linkChecks_errors s pid cids t e E)].
  - intros rj dto e s' H.
    split; [eapply promoteAncestor_Err; exact H|].
    unfold promoteAncestor in H.
    destruct (promoteChecks s dto) as [[]|e0] eqn:E.
    + destruct (rj StConnect); [inversion H; among|].
      destruct (rj StStartTransaction); [inversion H; among|].
      unfold promoteTransaction, promoteBody, release in H.
      destruct (rj StSave); [inversion H; among|].
      simpl in H.
      destruct (rj StUpdate); [inversion H; among|].
      destruct (rj StCommit); [inversion H; among|].
      discriminate.
    + inversion H. subst e0.
      pose proof (promoteChecks_errors s dto e E) as Hin. simpl in Hin.
      destruct Hin as [<- | [<- | [<- | []]]]; among.
Qed.

(** A woman is created as mother of persons 1 and 2 of [couple]; the
    repository rejects the update of person 2.  The call fails, the new
    row stays, and person 1 stays linked. *)
Lemma errors_of_each_method_witness :
  let rejects := fun c => match c with RcUpdate 2 => true | _ => false end in
  let dto := Sample.newPerson female None None None None (Some [1; 2]) in
  let left_behind :=
    {| rows := [Sample.person 1 male None None true None (Some 3);
                Sample.person 2 female None None false None None;
                entityOfCreate dto 3];
       nextId := 4 |} in
  Faulty.create rejects dto Sample.couple = (Err StoreFailure, left_behind)
  /\ ((left_behind = Sample.couple
       /\ In StoreFailure
             [DisconnectedPerson; NotFound; InvalidRole; ImplausibleAge;
              ImplausibleDeathWindow; ChildrenNotFound; RoleOccupied;
              DeathBeforeBirth])
      \/ (StoreFailure = StoreFailure /\ rejects RcSave = true
          /\ left_behind = Sample.couple)
      \/ (StoreFailure = StoreFailure /\ rejects RcSave = false
          /\ exists d cs,
               createChecks Sample.couple dto = Ok (d, cs)
               /\ rejectsAChild rejects cs = true
               /\ left_behind
                  = linkChildrenToParentInternal
                      (snd (insert Sample.couple (entityOfCreate d)))
                      (fst (insert Sample.couple (entityOfCreate d)))
                      (acceptedChildren rejects cs))).
Proof.
  intros rejects dto left_behind.
  assert (H : Faulty.create rejects dto Sample.couple
              = (Err StoreFailure, left_behind)) by reflexivity.
  split; [exact H|].
  destruct (errors_of_each_method rejects Sample.couple) as [H1 _].
  apply (H1 dto StoreFailure left_behind H).
Defined.

(** ** Years and full dates *)

Lemma parseInt_digits s :
  JsDate.allDigits s = true -> Js.parseInt s = Js.digits None s.
Proof.
  destruct s as [|c rest]; [reflexivity|].
  intros H. simpl in H.
  destruct (Js.digitOf c) as [v|] eqn:Ed; [|discriminate]. clear H.
  destruct c as [b0 b1 b2 b3 b4 b5 b6 b7].
  destruct b0, b1, b2, b3, b4, b5, b6, b7;
    try (vm_compute in Ed; discriminate); reflexivity.
Qed.

Lemma isoFields_extractYear s y m d :
  JsDate.isoFields s = Some (y, m, d) -> extractYear s = Some y.
Proof.
  unfold JsDate.isoFields, extractYear.
  destruct (Js.split "-" s) as [|ys [|ms [|ds [|x l]]]]; try discriminate.
  simpl. unfold JsDate.field at 1.
  destruct (Nat.eqb (String.length ys) 4 && JsDate.allDigits ys) eqn:E;
    [|discriminate].
  apply andb_true_iff in E. destruct E as [_ Ha].
  rewrite (parseInt_digits ys Ha).
  destruct (Js.digits None ys) as [y'|]; [|discriminate].
  destruct (JsDate.field 2 ms) as [m'|]; [|discriminate].
  destruct (JsDate.field 2 ds) as [d'|]; [|discriminate].
  destruct ((1 <=? m') && (m' <=? 12) && (1 <=? d') && (d' <=? 31));
    [|discriminate].
  intros H. inversion H. reflexivity.
Qed.

Lemma dayFromYear_le a b :
  a <= b -> JsDate.dayFromYear a <= JsDate.dayFromYear b.
Proof.
  intros H. destruct (Z.eq_dec a b) as [-> | Hn]; [lia|].
  pose proof (dayFromYear_mono a b ltac:(lia)).
  pose proof (dayFromYear_next a).
  destruct (JsDate.inLeapYear a); lia.
Qed.

Lemma dayNumber_in_year y m d :
  1 <= m <= 12 -> 1 <= d <= 31 ->
  JsDate.dayFromYear y <= dayNumber (y, m, d) < JsDate.dayFromYear (y + 1).
Proof.
  intros Hm Hd. unfold dayNumber. rewrite (makeDay_calendar y m d Hm).
  rewrite dayFromYear_next.
  assert (C : m = 1 \/ m = 2 \/ m = 3 \/ m = 4 \/ m = 5 \/ m = 6 \/ m = 7
              \/ m = 8 \/ m = 9 \/ m = 10 \/ m = 11 \/ m = 12) by lia.
  destruct (JsDate.inLeapYear y);
    repeat (destruct C as [C | C]; [month_case m; lia|]);
    month_case m; lia.
Qed.

Lemma calendarDate_day y m d : calendarDate (y, m, d) -> 1 <= m <= 12 /\ 1 <= d <= 31.
Proof.
  unfold calendarDate, daysInMonth. intros [Hm Hd]. split; [exact Hm|].
  assert (C : m = 1 \/ m = 2 \/ m = 3 \/ m = 4 \/ m = 5 \/ m = 6 \/ m = 7
              \/ m = 8 \/ m = 9 \/ m = 10 \/ m = 11 \/ m = 12) by lia.
  destruct (JsDate.inLeapYear y);
    repeat (destruct C as [C | C]; [subst m; lia|]); subst m; lia.
Qed.

Lemma nineMonthsLater_bounds y m d :
  calendarDate (y, m, d) ->
  dayNumber (y, m, d) <= dayNumber (nineMonthsLater (y, m, d))
  /\ dayNumber (nineMonthsLater (y, m, d)) < JsDate.dayFromYear (y + 2).
Proof.
  intros Hc. destruct (calendarDate_day y m d Hc) as [Hm Hd].
  unfold nineMonthsLater. destruct (m <=? 3) eqn:E.
  - apply Z.leb_le in E.
    pose proof (dayNumber_in_year y (m + 9) d ltac:(lia) Hd) as Hn.
    pose proof (dayFromYear_le (y + 1) (y + 2) ltac:(lia)).
    split; [|lia].
    unfold dayNumber.
    rewrite (makeDay_calendar y m d Hm).
    rewrite (makeDay_calendar y (m + 9) d ltac:(lia)).
    assert (C : m = 1 \/ m = 2 \/ m = 3) by lia.
    destruct (JsDate.inLeapYear y);
      repeat (destruct C as [C | C];
              [subst m;
               repeat match goal with
                      | |- context [Z.sub (Z.add (Zpos ?a) 9) 1] =>
                          let t := eval vm_compute in (Z.sub (Z.add (Zpos a) 9) 1) in
                          change (Z.sub (Z.add (Zpos a) 9) 1) with t
                      | |- context [Z.sub (Zpos ?a) 1] =>
                          let t := eval vm_compute in (Z.sub (Zpos a) 1) in
                          change (Z.sub (Zpos a) 1) with t
                      end;
               cbn [JsDate.daysBeforeMonth]; lia|]);
      subst m;
      repeat match goal with
             | |- context [Z.sub (Z.add (Zpos ?a) 9) 1] =>
                 let t := eval vm_compute in (Z.sub (Z.add (Zpos a) 9) 1) in
                 change (Z.sub (Z.add (Zpos a) 9) 1) with t
             | |- context [Z.sub (Zpos ?a) 1] =>
                 let t := eval vm_compute in (Z.sub (Zpos a) 1) in
                 change (Z.sub (Zpos a) 1) with t
             end;
      cbn [JsDate.daysBeforeMonth]; lia.
  - apply Z.leb_gt in E.
    pose proof (dayNumber_in_year y m d Hm Hd) as H0.
    pose proof (dayNumber_in_year (y + 1) (m - 3) d ltac:(lia) Hd) as H1.
    replace (y + 1 + 1) with (y + 2) in H1 by lia.
    split; lia.
Qed.

(** X18. Bounds on the death year that hold at every precision.  For
    readable years that are safe integers (and, when both dates are full
    dates, dates of the form [YYYY-MM-DD]), whatever mix of year-only and
    full dates is used: a
    father is refused when the child is born two or more years after the
    year of his death, a mother when the child is born in a later year
    than the year of her death; both are accepted, as far as the death date
    goes, when the child is born in a year before the death year.  The
    precision of the dates matters only for the years in between. *)
Theorem death_year_bounds_at_every_precision (cb : string) (parent : Person)
        (d : string) (cy dy : Z) :
  deathDate parent = Some d ->
  readsYear d dy -> readsYear cb cy ->
  (isFullDate d && isFullDate cb = true ->
   exists death birth,
     JsDate.isoFields d = Some death /\ JsDate.isoFields cb = Some birth
     /\ calendarDate death /\ calendarDate birth) ->
  (dy + 1 < cy -> fatherDeathCheck cb parent = Err ImplausibleDeathWindow)
  /\ (cy < dy -> fatherDeathCheck cb parent = Ok tt)
  /\ (dy < cy -> motherDeathCheck cb parent = Err ImplausibleDeathWindow)
  /\ (cy < dy -> motherDeathCheck cb parent = Ok tt).
Proof.
  intros Hd [Hdy Hds] [Hcy Hcs] Hfull.
  destruct (isFullDate d && isFullDate cb) eqn:E.
  - destruct (Hfull eq_refl) as [[[y1 m1] d1] [[[y2 m2] d2] [Hi1 [Hi2 [Hc1 Hc2]]]]].
    pose proof (isoFields_extractYear d _ _ _ Hi1) as Ey1.
    pose proof (isoFields_extractYear cb _ _ _ Hi2) as Ey2.
    rewrite Hdy in Ey1. rewrite Hcy in Ey2.
    inversion Ey1. inversion Ey2. subst y1 y2. clear Ey1 Ey2.
    rewrite (fatherDeathCheck_full cb parent d _ _ Hd Hi1 Hi2 Hc1).
    rewrite (motherDeathCheck_full cb parent d _ _ Hd Hi1 Hi2).
    change (JsDate.makeDay dy (m1 - 1) d1) with (dayNumber (dy, m1, d1)).
    change (JsDate.makeDay cy (m2 - 1) d2) with (dayNumber (cy, m2, d2)).
    destruct (calendarDate_day _ _ _ Hc1) as [Hm1 Hd1].
    destruct (calendarDate_day _ _ _ Hc2) as [Hm2 Hd2].
    pose proof (dayNumber_in_year dy m1 d1 Hm1 Hd1) as B1.
    pose proof (dayNumber_in_year cy m2 d2 Hm2 Hd2) as B2.
    destruct (nineMonthsLater_bounds dy m1 d1 Hc1) as [N1 N2].
    split; [|split; [|split]]; intros Hy.
    + pose proof (dayFromYear_le (dy + 2) cy ltac:(lia)).
      replace (_ <? _) with true by (symmetry; apply Z.ltb_lt; lia).
      reflexivity.
    + pose proof (dayFromYear_le (cy + 1) dy ltac:(lia)).
      replace (_ <? _) with false by (symmetry; apply Z.ltb_ge; lia).
      reflexivity.
    + pose proof (dayFromYear_le (dy + 1) cy ltac:(lia)).
      replace (_ <? _) with true by (symmetry; apply Z.ltb_lt; lia).
      reflexivity.
    + pose proof (dayFromYear_le (cy + 1) dy ltac:(lia)).
      replace (_ <? _) with false by (symmetry; apply Z.ltb_ge; lia).
      reflexivity.
  - rewrite (fatherDeathCheck_coarse cb parent d cy dy Hd E Hdy Hcy).
    rewrite (motherDeathCheck_coarse cb parent d cy dy Hd E Hdy Hcy).
    split; [|split; [|split]]; intros Hy.
    + replace (_ <? _) with true by (symmetry; apply Z.ltb_lt; lia).
      reflexivity.
    + replace (_ <? _) with false by (symmetry; apply Z.ltb_ge; lia).
      reflexivity.
    + replace (_ <? _) with true by (symmetry; apply Z.ltb_lt; lia).
      reflexivity.
    + replace (_ <? _) with false by (symmetry; apply Z.ltb_ge; lia).
      reflexivity.
Qed.

Lemma death_year_bounds_at_every_precision_witness :
  fatherDeathCheck "1952-01-01"
    (Sample.person 1 male None (Some "1950-12-31"%string) true None None)
  = Err ImplausibleDeathWindow
  /\ motherDeathCheck "1949"
       (Sample.person 2 female None (Some "1950-06-01"%string) false None None)
     = Ok tt.
Proof.
  split.
  - apply (death_year_bounds_at_every_precision "1952-01-01"
             (Sample.person 1 male None (Some "1950-12-31"%string)
                            true None None)
             "1950-12-31" 1952 1950);
      try reflexivity; try (split; reflexivity).
    intros _. exists (1950, 12, 31), (1952, 1, 1).
    repeat split; simpl; lia.
  - apply (death_year_bounds_at_every_precision "1949"
             (Sample.person 2 female None (Some "1950-06-01"%string)
                            false None None)
             "1950-06-01" 1949 1950);
      try reflexivity; try (split; reflexivity).
    intros H. discriminate H.
Defined.

(** ** What an update leaves alone *)

(** X19. [updatePerson] writes one row.  After a successful update the
    person is found under the same id with the same gender and with the
    payload assigned over the stored values (a parent id that the payload
    does not mention is kept); every other id is found as before, and no
    row is added or removed. *)
Theorem updatePerson_writes_one_row (s : Store) (i : Z)
        (dto : UpdatePersonDto.t) (p : Person) (s' : Store) :
  updatePerson i dto s = (Ok p, s') ->
  exists old,
    findOneById s i = Some old
    /\ p = assign old dto
    /\ id p = i
    /\ gender p = gender old
    /\ (UpdatePersonDto.fatherId dto = Js.Undefined -> fatherId p = fatherId old)
    /\ (UpdatePersonDto.motherId dto = Js.Undefined -> motherId p = motherId old)
    /\ findOneById s' i = Some p
    /\ (forall j, j <> i -> findOneById s' j = findOneById s j)
    /\ map id (findAllPersons s') = map id (findAllPersons s)
    /\ nextId s' = nextId s.
Proof.
  unfold updatePerson.
  destruct (updateChecks s i dto) as [person|e] eqn:E; [|discriminate].
  intros H. inversion H. subst p s'. clear H.
  apply updateChecks_Ok in E. destruct E as [Hx _].
  pose proof (findOneById_In _ _ _ Hx) as [Hin Hid].
  assert (Hk : forall r, In r (rows s) -> id r = id (assign person dto) ->
                         id (assign person dto) = id (assign person dto))
    by reflexivity.
  exists person.
  split; [exact Hx|]. split; [reflexivity|]. split; [exact Hid|].
  split; [reflexivity|].
  split; [intros Hf; simpl; rewrite Hf; reflexivity|].
  split; [intros Hm; simpl; rewrite Hm; reflexivity|].
  split.
  - rewrite <- Hid at 1.
    apply (findOneById_save s (assign person dto)).
    simpl. rewrite Hid, Hx. discriminate.
  - split.
    + intros j Hj. unfold save.
      apply findOneById_update_other; [exact Hk | simpl; lia].
    + split; [|reflexivity].
      unfold findAllPersons, save. apply map_id_update.
      intros r _ _. reflexivity.
Qed.

Lemma updatePerson_writes_one_row_witness :
  exists old,
    findOneById Sample.couple 2 = Some old
    /\ Sample.person 2 female None None false (Some 1) None
       = assign old (withFatherId (Js.Val 1))
    /\ id (Sample.person 2 female None None false (Some 1) None) = 2
    /\ gender (Sample.person 2 female None None false (Some 1) None)
       = gender old
    /\ (UpdatePersonDto.fatherId (withFatherId (Js.Val 1)) = Js.Undefined ->
        fatherId (Sample.person 2 female None None false (Some 1) None)
        = fatherId old)
    /\ (UpdatePersonDto.motherId (withFatherId (Js.Val 1)) = Js.Undefined ->
        motherId (Sample.person 2 female None None false (Some 1) None)
        = motherId old)
    /\ findOneById Sample.fatherAndDaughter 2
       = Some (Sample.person 2 female None None false (Some 1) None)
    /\ (forall j, j <> 2 ->
          findOneById Sample.fatherAndDaughter j = findOneById Sample.couple j)
    /\ map id (findAllPersons Sample.fatherAndDaughter)
       = map id (findAllPersons Sample.couple)
    /\ nextId Sample.fatherAndDaughter = nextId Sample.couple.
Proof.
  apply (updatePerson_writes_one_row Sample.couple 2 (withFatherId (Js.Val 1))).
  reflexivity.
Defined.

(** ** Linking twice, and creating a parent of stored children *)

Lemma find_app_some {A} (f : A -> bool) l1 l2 x :
  find f l1 = Some x -> find f (l1 ++ l2) = Some x.
Proof.
  induction l1 as [|y l1 IH]; simpl; [discriminate|].
  destruct (f y); [intros H; exact H | exact IH].
Qed.

Lemma link_outcome s pid cids t n s' :
  uniqueIds s ->
  linkChildrenToParent pid cids t s = (Ok n, s') ->
  exists parent,
    findOneById s pid = Some parent /\ id parent = pid
    /\ gender parent = expectedGender t
    /\ cids <> [] /\ existsb (Z.eqb pid) cids = false
    /\ listedOnce s cids
    /\ s' = linkChildrenToParentInternal s parent (findByIds s cids).
Proof.
  intros Hu. unfold linkChildrenToParent.
  destruct (linkChecks s pid cids t) as [[parent children]|e] eqn:E;
    [|discriminate].
  intros H. inversion H. subst n s'. clear H.
  pose proof (linkChecks_Ok _ _ _ _ _ _ E) as [_ [Hself _]].
  apply linkChecks_parent in E. destruct E as [Hp [Hid [Hne [Hg Hc]]]].
  apply (validateChildren_linked s cids _ _ _ _ Hne) in Hc.
  destruct Hc as [-> [Hlen _]].
  exists parent. repeat (split; [assumption|]).
  split; [apply (findByIds_length s cids Hu); exact Hlen | reflexivity].
Qed.

(** X20. Linking is not repeatable.  On a sound table (generated,
    unique ids, no person its own ancestor) a [linkChildrenToParent] that
    succeeded fails when it is sent again, with "... already has a
    father/mother", and changes nothing: the children it linked now have a
    parent in that role. *)
Theorem linking_twice_is_refused (s : Store) (pid : Z) (cids : list Z)
        (t : Relationship) (n : nat) (s' : Store) :
  consistent s -> acyclic s ->
  linkChildrenToParent pid cids t s = (Ok n, s') ->
  linkChildrenToParent pid cids t s' = (Err RoleOccupied, s').
Proof.
  intros Hc Hac H.
  pose proof (linkChildrenToParent_acyclic _ _ _ _ _ _ Hc Hac H) as Hac'.
  pose proof (linkChildrenToParent_consistent _ _ _ _ _ _ Hc H) as Hc'.
  destruct Hc as [Hwf [Hu Hk]]. destruct Hc' as [_ [Hu' _]].
  destruct (link_outcome s pid cids t n s' Hu H)
    as [parent [Hp [Hid [Hg [Hne [Hself [[Hnd Hall] Hs']]]]]]].
  pose proof (findOneById_In _ _ _ Hp) as [Hpin _].
  assert (Hpos : pid <> 0).
  { destruct Hwf as [_ Hlt]. specialize (Hlt parent Hpin). lia. }
  assert (Hfind : forall j,
             findOneById s' j
             = option_map (linkedRow (gender parent) pid cids) (findOneById s j)).
  { intros j. rewrite Hs'. unfold findOneById. rewrite link_rows_listed, Hid.
    apply find_map_same_id. intros r _. apply linkedRow_id. }
  assert (Hparent' : findOneById s' pid = Some parent).
  { rewrite Hfind, Hp. simpl. rewrite linkedRow_unlisted; [reflexivity|].
    rewrite Hid. intros Hin.
    assert (Ht : existsb (Z.eqb pid) cids = true)
      by (apply existsb_exists; exists pid; split;
          [exact Hin | apply Z.eqb_refl]).
    congruence. }
  assert (Hchild : forall c, In c cids ->
             exists r, findOneById s' c = Some r
                       /\ parentField (gender parent) r = Some pid).
  { intros c Hcin. pose proof (Hall c Hcin) as Hf.
    destruct (findOneById s c) as [r|] eqn:Hr; [|contradiction].
    exists (setParentField (gender parent) (Some pid) r).
    split.
    - rewrite Hfind, Hr. simpl. rewrite linkedRow_listed; [reflexivity|].
      apply findOneById_In in Hr. destruct Hr as [_ ->]. exact Hcin.
    - destruct (gender parent); reflexivity. }
  unfold linkChildrenToParent, linkChecks, findPersonById.
  rewrite Hparent'. cbn [bind].
  assert (E1 : Nat.eqb (List.length cids) 0 = false)
    by (destruct cids; [contradiction | reflexivity]).
  rewrite E1, Hself. cbn [throwIf bind].
  assert (Hcyc : forEach
                   (fun childId =>
                      throwIf (wouldCreateAncestryCycle s' childId pid)
                              CycleDetected) cids = Ok tt).
  { apply forEach_all. intros c Hcin.
    destruct (wouldCreateAncestryCycle s' c pid) eqn:Ew; [|reflexivity].
    exfalso. apply wouldCreateAncestryCycle_sound in Ew.
    destruct (Hchild c Hcin) as [r [Hr Hpf]].
    apply findOneById_In in Hr. destruct Hr as [Hrin Hrid].
    apply (Hac' c). apply t_trans with (y := pid); [|exact Ew].
    apply t_step. exists r. split; [exact Hrin|]. split; [exact Hrid|].
    destruct (gender parent); simpl in Hpf; auto. }
  rewrite Hcyc. cbn [bind].
  rewrite Hg, Gender_eqb_refl. cbn [negb throwIf bind]. rewrite <- Hg.
  assert (Hlisted : listedOnce s' cids).
  { split; [exact Hnd|]. intros c Hcin.
    destruct (Hchild c Hcin) as [r [Hr _]]. rewrite Hr. discriminate. }
  pose proof (proj2 (findByIds_length s' cids Hu') Hlisted) as Hlen.
  unfold validateChildren.
  destruct cids as [|c0 cids']; [contradiction|].
  rewrite Hlen, Nat.eqb_refl. cbn [negb throwIf bind].
  assert (Hocc : existsb
                   (fun child => Js.truthyOptNumber
                                   (parentField (gender parent) child))
                   (findByIds s' (c0 :: cids')) = true).
  { destruct (Hchild c0 (or_introl eq_refl)) as [r [Hr Hpf]].
    apply existsb_exists. exists r. split.
    - apply findOneById_In in Hr. destruct Hr as [Hrin Hrid].
      unfold findByIds. apply filter_In. split; [exact Hrin|].
      apply existsb_exists. exists c0.
      split; [left; reflexivity | rewrite Hrid; apply Z.eqb_refl].
    - rewrite Hpf. simpl. apply truthyNumber_nonzero. exact Hpos. }
  rewrite Hocc. reflexivity.
Qed.

Lemma linking_twice_is_refused_witness :
  linkChildrenToParent 1 [2] father Sample.fatherAndDaughter
  = (Err RoleOccupied, Sample.fatherAndDaughter).
Proof.
  apply (linking_twice_is_refused Sample.couple 1 [2] father 1
           Sample.fatherAndDaughter couple_consistent couple_acyclic).
  reflexivity.
Defined.

(** X21. What [create] does with [childrenIds].  A successful creation
    stores the new person under a fresh id at the end of the table and
    writes that id into the father column (for a man) or the mother column
    (for a woman) of every listed child; the ids listed are those of stored
    persons, each listed once, none of which had a parent in that role; no
    other row and no other column changes. *)
Theorem create_links_the_children (s : Store) (dto : CreatePersonDto.t)
        (ids : list Z) (p : Person) (s' : Store) :
  consistent s ->
  CreatePersonDto.childrenIds dto = Some ids -> ids <> [] ->
  create dto s = (Ok p, s') ->
  id p = nextId s
  /\ gender p = CreatePersonDto.gender dto
  /\ listedOnce s ids
  /\ s' = {| rows := map (linkedRow (gender p) (id p) ids) (rows s) ++ [p];
             nextId := nextId s + 1 |}
  /\ (forall c, In c ids ->
        exists r, findOneById s c = Some r
                  /\ ifTruthy (parentField (gender p) r) = None
                  /\ findOneById s' c
                     = Some (setParentField (gender p) (Some (id p)) r))
  /\ (forall j, ~ In j ids -> j <> id p ->
                findOneById s' j = findOneById s j).
Proof.
  intros [Hwf [Hu Hk]] Hids Hne. unfold create.
  destruct (createChecks s dto) as [[d cs]|e] eqn:E; [|discriminate].
  apply createChecks_Ok in E. destruct E as [Hv [_ Hc]].
  apply validateNotOrphan_Ok in Hv. destruct Hv as [Hd [_ [_ Hci]]].
  assert (Hgd : CreatePersonDto.gender d = CreatePersonDto.gender dto)
    by (destruct Hd as [-> | [-> _]]; reflexivity).
  rewrite Hci, Hids in Hc.
  apply (validateChildren_linked s ids _ _ _ _ Hne) in Hc.
  destruct Hc as [-> [Hlen [Hfree _]]].
  pose proof (proj1 (findByIds_length s ids Hu) Hlen) as Hlisted.
  simpl. intros H. inversion H. subst p s'. clear H.
  assert (El : (0 <? List.length (findByIds s ids))%nat = true).
  { rewrite Hlen. destruct ids; [contradiction | reflexivity]. }
  rewrite El.
  set (p := entityOfCreate d (nextId s)).
  set (g := CreatePersonDto.gender d).
  assert (Hfresh : ~ In (nextId s) ids).
  { intros Hin. destruct Hlisted as [_ Hall]. apply (Hall _ Hin).
    apply findOneById_fresh; [exact Hwf | lia]. }
  assert (Hs' : linkChildrenToParentInternal
                  {| rows := rows s ++ [p]; nextId := nextId s + 1 |} p
                  (findByIds s ids)
                = {| rows := map (linkedRow g (nextId s) ids) (rows s) ++ [p];
                     nextId := nextId s + 1 |}).
  { rewrite <- (store_eta (linkChildrenToParentInternal _ p _)).
    rewrite link_rows, nextId_link. simpl. f_equal.
    rewrite map_app. simpl. f_equal.
    - apply map_ext_in. intros r Hr. unfold linkedRow.
      rewrite (existsb_ids_of_children s ids r Hr). reflexivity.
    - f_equal. apply linkedRow_unlisted. simpl.
      intros Hin. apply in_map_iff in Hin. destruct Hin as [c [Hcid Hcin]].
      apply findByIds_In in Hcin. destruct Hcin as [_ Hcin].
      rewrite Hcid in Hcin. contradiction. }
  rewrite Hs'.
  assert (Hfind : forall j, j <> nextId s ->
             findOneById
               {| rows := map (linkedRow g (nextId s) ids) (rows s) ++ [p];
                  nextId := nextId s + 1 |} j
             = option_map (linkedRow g (nextId s) ids) (findOneById s j)).
  { intros j Hj. unfold findOneById. simpl.
    assert (Hm : find (hasId j) (map (linkedRow g (nextId s) ids) (rows s))
                 = option_map (linkedRow g (nextId s) ids)
                              (find (hasId j) (rows s)))
      by (apply find_map_same_id; intros r _; apply linkedRow_id).
    destruct (find (hasId j) (rows s)) as [r|] eqn:Er.
    - simpl in Hm. apply find_app_some. exact Hm.
    - simpl in Hm. rewrite (find_app_none _ _ _ Hm). simpl.
      assert (Hh : hasId j p = false)
        by (unfold hasId; simpl; apply Z.eqb_neq; lia).
      rewrite Hh. reflexivity. }
  split; [reflexivity|]. split; [exact Hgd|]. split; [exact Hlisted|].
  split; [reflexivity|]. split.
  - intros c Hcin. destruct Hlisted as [_ Hall].
    pose proof (Hall c Hcin) as Hf.
    destruct (findOneById s c) as [r|] eqn:Hr; [|contradiction].
    pose proof (findOneById_In _ _ _ Hr) as [Hrin Hrid].
    exists r. split; [reflexivity|]. split.
    + apply Hfree. unfold findByIds. apply filter_In. split; [exact Hrin|].
      apply existsb_exists. exists c.
      split; [exact Hcin | rewrite Hrid; apply Z.eqb_refl].
    + rewrite Hfind by (intros ->; contradiction).
      rewrite Hr. simpl. rewrite linkedRow_listed; [reflexivity|].
      rewrite Hrid. exact Hcin.
  - intros j Hj Hjn. rewrite (Hfind j Hjn).
    destruct (findOneById s j) as [r|] eqn:Hr; [|reflexivity].
    simpl. rewrite linkedRow_unlisted; [reflexivity|].
    apply findOneById_In in Hr. destruct Hr as [_ ->]. exact Hj.
Qed.

Lemma create_links_the_children_witness :
  snd (create (Sample.newPerson female None None None None (Some [2]))
              Sample.fatherAndDaughter)
  = {| rows := map (linkedRow female 3 [2]) (rows Sample.fatherAndDaughter)
               ++ [entityOfCreate
                     (Sample.newPerson female None None None None (Some [2])) 3];
       nextId := 4 |}.
Proof.
  destruct (create_links_the_children Sample.fatherAndDaughter
              (Sample.newPerson female None None None None (Some [2])) [2]
              (entityOfCreate
                 (Sample.newPerson female None None None None (Some [2])) 3)
              (snd (create
                      (Sample.newPerson female None None None None (Some [2]))
                      Sample.fatherAndDaughter))
              fatherAndDaughter_consistent eq_refl) as [_ [_ [_ [H _]]]].
  - discriminate.
  - reflexivity.
  - exact H.
Defined.
